(** * A 2.5D beat-'em-up: the per-frame simulation core of [src/main.cpp]

    The development embeds the update half of the game loop of [main]
    (everything between [GetFrameTime] and [BeginDrawing]) together with the
    helpers it calls ([MakeRect], [GetComboMultiplier], [MakeEnemy],
    [GetUpgradeCost], [ApplyUpgrade], the [ResetGame] closure) and proves the
    combat, timing and shop properties of the frame function.

    Conventions.
    - [float] is IEEE-754 binary32, taken from the standard library's
      executable specification [SpecFloat] at precision 24 and maximal
      exponent 128; every arithmetic operation rounds to nearest even.
    - [int] is a 32-bit two's complement integer carried by [Z]; every
      arithmetic result is passed through [wrap].
    - What the program reads from raylib during one frame (frame time, keys,
      random numbers) is the frame's [Input]; raylib's pure collision tests
      and the widths of the loaded textures are the fields of the class
      [Raylib].  Drawing and sound have no effect on the simulated state and
      are left out. *)

From Stdlib Require Import ZArith List Bool Lia String Sorted.
From Stdlib Require Import Floats.SpecFloat.
Import ListNotations.
Open Scope Z_scope.

(* ------------------------------------------------------------------ *)
(** ** Machine numbers *)
(* ------------------------------------------------------------------ *)

Definition INT_MIN : Z := - 2 ^ 31.
Definition INT_MAX : Z := 2 ^ 31 - 1.

(** Two's complement wrap-around of a 32-bit [int]. *)
Definition wrap (z : Z) : Z := (z + 2 ^ 31) mod 2 ^ 32 - 2 ^ 31.

Definition iadd (a b : Z) : Z := wrap (a + b).
Definition isub (a b : Z) : Z := wrap (a - b).
Definition imul (a b : Z) : Z := wrap (a * b).
(** [a / b] and [a % b] of C++ truncate toward zero. *)
Definition idiv (a b : Z) : Z := wrap (Z.quot a b).
Definition irem (a b : Z) : Z := Z.rem a b.

Definition float : Set := spec_float.

Definition prec32 : Z := 24.
Definition emax32 : Z := 128.

Definition fadd : float -> float -> float := SFadd prec32 emax32.
Definition fsub : float -> float -> float := SFsub prec32 emax32.
Definition fmul : float -> float -> float := SFmul prec32 emax32.
Definition fdiv : float -> float -> float := SFdiv prec32 emax32.
Definition fsqrt : float -> float := SFsqrt prec32 emax32.
Definition fabs : float -> float := SFabs.
(** [a < b] and [a <= b]; [a > b] is [fltb b a], [a >= b] is [fleb b a].
    Every comparison with a NaN is false. *)
Definition fltb : float -> float -> bool := SFltb.
Definition fleb : float -> float -> bool := SFleb.

Definition is_nan (x : float) : bool :=
  match x with S754_nan => true | _ => false end.

(** Conversion [(float)i] of an [int]. *)
Definition of_int (z : Z) : float := binary_normalize prec32 emax32 z 0 false.

(** The literal [n / 10^k] written in decimal with suffix [f]: the binary32
    number nearest to it, which is the correctly rounded quotient of the two
    (exactly representable) integers. *)
Definition dec (n : Z) (k : Z) : float := fdiv (of_int n) (of_int (10 ^ k)).

Definition fzero : float := S754_zero false.

(** [std::max(a, b)] on floats: [(a < b) ? b : a]. *)
Definition fmax (a b : float) : float := if fltb a b then b else a.

(** [(int)std::round(x)]: round half away from zero, then convert.  The
    conversion of a NaN, an infinity or a value outside [int] is undefined in
    C++; the model returns [INT_MIN] there, as the x86 conversion does. *)
Definition round_to_int (x : float) : Z :=
  match x with
  | S754_zero _ => 0
  | S754_finite s m e =>
      let mag :=
        match e with
        | Z0 => Zpos m
        | Zpos p => Z.shiftl (Zpos m) e
        | Zneg p => Z.shiftr (Zpos m + Z.shiftl 1 (Z.pos p - 1)) (Z.pos p)
        end in
      let r := if s then - mag else mag in
      if (INT_MIN <=? r) && (r <=? INT_MAX) then r else INT_MIN
  | _ => INT_MIN
  end.

(* ------------------------------------------------------------------ *)
(** ** Enums and basic structs *)
(* ------------------------------------------------------------------ *)

Inductive GameState := MENU | PLAYING | SHOP | VICTORY | GAMEOVER.
Inductive EnemyType := GRUNT | FAST | TANK | BOSS.
Inductive PlayerClass := KNIGHT | ROGUE | MAGE.

(** The global textures a [Texture2D*] of an entity can point at. *)
Inductive Texture :=
  texKnight | texRogue | texMage
| texEnemyGrunt | texEnemyFast | texEnemyTank | texEnemyBoss
| texCoin | texProjectile.

Inductive Color := RED | GREEN | PURPLE.

Definition GameState_eqb (a b : GameState) : bool :=
  match a, b with
  | MENU, MENU | PLAYING, PLAYING | SHOP, SHOP
  | VICTORY, VICTORY | GAMEOVER, GAMEOVER => true
  | _, _ => false
  end.

Definition EnemyType_eqb (a b : EnemyType) : bool :=
  match a, b with
  | GRUNT, GRUNT | FAST, FAST | TANK, TANK | BOSS, BOSS => true
  | _, _ => false
  end.

Definition PlayerClass_eqb (a b : PlayerClass) : bool :=
  match a, b with
  | KNIGHT, KNIGHT | ROGUE, ROGUE | MAGE, MAGE => true
  | _, _ => false
  end.

Record Vector2 := mkVector2 { vx : float; vy : float }.
Record Rectangle := mkRectangle { rx : float; ry : float; rwidth : float; rheight : float }.

Definition PLAYER_SPRITE_COLS : Z := 4.
Definition PLAYER_SPRITE_ROWS : Z := 3.
Definition ENEMY_SPRITE_COLS : Z := 4.
Definition ENEMY_SPRITE_ROWS : Z := 2.

Module Coin.
Record t := mk {
  pos : Vector2;
  collected : bool
}.
Definition set_collected (v : bool) (x : t) : t :=
  mk (pos x) v.
End Coin.

Module Enemy.
Record t := mk {
  pos : Vector2;
  size : Vector2;
  maxHP : Z;
  hp : Z;
  speed : float;
  type : EnemyType;
  alive : bool;
  attackCooldown : float;
  windingUp : bool;
  windupTimer : float;
  attackingAnim : bool;
  attackAnimTimer : float;
  lastHitAttackId : Z;
  lastProjectileHitId : Z;
  sprite : option Texture;
  animFrame : Z;
  animRow : Z;
  animMaxFrames : Z;
  animTimer : float;
  animFrameTime : float
}.
Definition set_pos (v : Vector2) (x : t) : t :=
  mk v (size x) (maxHP x) (hp x) (speed x) (type x) (alive x) (attackCooldown x) (windingUp x)
     (windupTimer x) (attackingAnim x) (attackAnimTimer x) (lastHitAttackId x) (lastProjectileHitId
     x) (sprite x) (animFrame x) (animRow x) (animMaxFrames x) (animTimer x) (animFrameTime x).
Definition set_hp (v : Z) (x : t) : t :=
  mk (pos x) (size x) (maxHP x) v (speed x) (type x) (alive x) (attackCooldown x) (windingUp x)
     (windupTimer x) (attackingAnim x) (attackAnimTimer x) (lastHitAttackId x) (lastProjectileHitId
     x) (sprite x) (animFrame x) (animRow x) (animMaxFrames x) (animTimer x) (animFrameTime x).
Definition set_alive (v : bool) (x : t) : t :=
  mk (pos x) (size x) (maxHP x) (hp x) (speed x) (type x) v (attackCooldown x) (windingUp x)
     (windupTimer x) (attackingAnim x) (attackAnimTimer x) (lastHitAttackId x) (lastProjectileHitId
     x) (sprite x) (animFrame x) (animRow x) (animMaxFrames x) (animTimer x) (animFrameTime x).
Definition set_attackCooldown (v : float) (x : t) : t :=
  mk (pos x) (size x) (maxHP x) (hp x) (speed x) (type x) (alive x) v (windingUp x) (windupTimer x)
     (attackingAnim x) (attackAnimTimer x) (lastHitAttackId x) (lastProjectileHitId x) (sprite x)
     (animFrame x) (animRow x) (animMaxFrames x) (animTimer x) (animFrameTime x).
Definition set_windingUp (v : bool) (x : t) : t :=
  mk (pos x) (size x) (maxHP x) (hp x) (speed x) (type x) (alive x) (attackCooldown x) v
     (windupTimer x) (attackingAnim x) (attackAnimTimer x) (lastHitAttackId x) (lastProjectileHitId
     x) (sprite x) (animFrame x) (animRow x) (animMaxFrames x) (animTimer x) (animFrameTime x).
Definition set_windupTimer (v : float) (x : t) : t :=
  mk (pos x) (size x) (maxHP x) (hp x) (speed x) (type x) (alive x) (attackCooldown x) (windingUp x)
     v (attackingAnim x) (attackAnimTimer x) (lastHitAttackId x) (lastProjectileHitId x) (sprite x)
     (animFrame x) (animRow x) (animMaxFrames x) (animTimer x) (animFrameTime x).
Definition set_attackingAnim (v : bool) (x : t) : t :=
  mk (pos x) (size x) (maxHP x) (hp x) (speed x) (type x) (alive x) (attackCooldown x) (windingUp x)
     (windupTimer x) v (attackAnimTimer x) (lastHitAttackId x) (lastProjectileHitId x) (sprite x)
     (animFrame x) (animRow x) (animMaxFrames x) (animTimer x) (animFrameTime x).
Definition set_attackAnimTimer (v : float) (x : t) : t :=
  mk (pos x) (size x) (maxHP x) (hp x) (speed x) (type x) (alive x) (attackCooldown x) (windingUp x)
     (windupTimer x) (attackingAnim x) v (lastHitAttackId x) (lastProjectileHitId x) (sprite x)
     (animFrame x) (animRow x) (animMaxFrames x) (animTimer x) (animFrameTime x).
Definition set_lastHitAttackId (v : Z) (x : t) : t :=
  mk (pos x) (size x) (maxHP x) (hp x) (speed x) (type x) (alive x) (attackCooldown x) (windingUp x)
     (windupTimer x) (attackingAnim x) (attackAnimTimer x) v (lastProjectileHitId x) (sprite x)
     (animFrame x) (animRow x) (animMaxFrames x) (animTimer x) (animFrameTime x).
Definition set_lastProjectileHitId (v : Z) (x : t) : t :=
  mk (pos x) (size x) (maxHP x) (hp x) (speed x) (type x) (alive x) (attackCooldown x) (windingUp x)
     (windupTimer x) (attackingAnim x) (attackAnimTimer x) (lastHitAttackId x) v (sprite x)
     (animFrame x) (animRow x) (animMaxFrames x) (animTimer x) (animFrameTime x).
Definition set_animFrame (v : Z) (x : t) : t :=
  mk (pos x) (size x) (maxHP x) (hp x) (speed x) (type x) (alive x) (attackCooldown x) (windingUp x)
     (windupTimer x) (attackingAnim x) (attackAnimTimer x) (lastHitAttackId x) (lastProjectileHitId
     x) (sprite x) v (animRow x) (animMaxFrames x) (animTimer x) (animFrameTime x).
Definition set_animRow (v : Z) (x : t) : t :=
  mk (pos x) (size x) (maxHP x) (hp x) (speed x) (type x) (alive x) (attackCooldown x) (windingUp x)
     (windupTimer x) (attackingAnim x) (attackAnimTimer x) (lastHitAttackId x) (lastProjectileHitId
     x) (sprite x) (animFrame x) v (animMaxFrames x) (animTimer x) (animFrameTime x).
Definition set_animTimer (v : float) (x : t) : t :=
  mk (pos x) (size x) (maxHP x) (hp x) (speed x) (type x) (alive x) (attackCooldown x) (windingUp x)
     (windupTimer x) (attackingAnim x) (attackAnimTimer x) (lastHitAttackId x) (lastProjectileHitId
     x) (sprite x) (animFrame x) (animRow x) (animMaxFrames x) v (animFrameTime x).
End Enemy.

Module Projectile.
Record t := mk {
  pos : Vector2;
  vel : Vector2;
  radius : float;
  life : float;
  active : bool;
  damage : Z;
  id : Z
}.
Definition set_pos (v : Vector2) (x : t) : t :=
  mk v (vel x) (radius x) (life x) (active x) (damage x) (id x).
Definition set_life (v : float) (x : t) : t :=
  mk (pos x) (vel x) (radius x) v (active x) (damage x) (id x).
Definition set_active (v : bool) (x : t) : t :=
  mk (pos x) (vel x) (radius x) (life x) v (damage x) (id x).
End Projectile.

Module Player.
Record t := mk {
  name : string;
  pos : Vector2;
  size : Vector2;
  maxHP : Z;
  hp : Z;
  speed : float;
  baseDamage : Z;
  facingRight : bool;
  attacking : bool;
  attackTimer : float;
  attackDuration : float;
  comboTimer : float;
  comboStep : Z;
  attackHitbox : Rectangle;
  coins : Z;
  damageLevel : Z;
  healthLevel : Z;
  speedLevel : Z;
  blocking : bool;
  blockTimer : float;
  blockCooldown : float;
  blockCooldownTimer : float;
  dodging : bool;
  dodgeTimer : float;
  dodgeDuration : float;
  dodgeCooldown : float;
  dodgeCooldownTimer : float;
  dodgeDir : float;
  blinkCooldown : float;
  blinkCooldownTimer : float;
  invincible : bool;
  invincibleTimer : float;
  currentAttackId : Z;
  sprite : option Texture;
  animFrame : Z;
  animRow : Z;
  animMaxFrames : Z;
  animTimer : float;
  animFrameTime : float
}.
Definition set_name (v : string) (x : t) : t :=
  mk v (pos x) (size x) (maxHP x) (hp x) (speed x) (baseDamage x) (facingRight x) (attacking x)
     (attackTimer x) (attackDuration x) (comboTimer x) (comboStep x) (attackHitbox x) (coins x)
     (damageLevel x) (healthLevel x) (speedLevel x) (blocking x) (blockTimer x) (blockCooldown x)
     (blockCooldownTimer x) (dodging x) (dodgeTimer x) (dodgeDuration x) (dodgeCooldown x)
     (dodgeCooldownTimer x) (dodgeDir x) (blinkCooldown x) (blinkCooldownTimer x) (invincible x)
     (invincibleTimer x) (currentAttackId x) (sprite x) (animFrame x) (animRow x) (animMaxFrames x)
     (animTimer x) (animFrameTime x).
Definition set_pos (v : Vector2) (x : t) : t :=
  mk (name x) v (size x) (maxHP x) (hp x) (speed x) (baseDamage x) (facingRight x) (attacking x)
     (attackTimer x) (attackDuration x) (comboTimer x) (comboStep x) (attackHitbox x) (coins x)
     (damageLevel x) (healthLevel x) (speedLevel x) (blocking x) (blockTimer x) (blockCooldown x)
     (blockCooldownTimer x) (dodging x) (dodgeTimer x) (dodgeDuration x) (dodgeCooldown x)
     (dodgeCooldownTimer x) (dodgeDir x) (blinkCooldown x) (blinkCooldownTimer x) (invincible x)
     (invincibleTimer x) (currentAttackId x) (sprite x) (animFrame x) (animRow x) (animMaxFrames x)
     (animTimer x) (animFrameTime x).
Definition set_size (v : Vector2) (x : t) : t :=
  mk (name x) (pos x) v (maxHP x) (hp x) (speed x) (baseDamage x) (facingRight x) (attacking x)
     (attackTimer x) (attackDuration x) (comboTimer x) (comboStep x) (attackHitbox x) (coins x)
     (damageLevel x) (healthLevel x) (speedLevel x) (blocking x) (blockTimer x) (blockCooldown x)
     (blockCooldownTimer x) (dodging x) (dodgeTimer x) (dodgeDuration x) (dodgeCooldown x)
     (dodgeCooldownTimer x) (dodgeDir x) (blinkCooldown x) (blinkCooldownTimer x) (invincible x)
     (invincibleTimer x) (currentAttackId x) (sprite x) (animFrame x) (animRow x) (animMaxFrames x)
     (animTimer x) (animFrameTime x).
Definition set_maxHP (v : Z) (x : t) : t :=
  mk (name x) (pos x) (size x) v (hp x) (speed x) (baseDamage x) (facingRight x) (attacking x)
     (attackTimer x) (attackDuration x) (comboTimer x) (comboStep x) (attackHitbox x) (coins x)
     (damageLevel x) (healthLevel x) (speedLevel x) (blocking x) (blockTimer x) (blockCooldown x)
     (blockCooldownTimer x) (dodging x) (dodgeTimer x) (dodgeDuration x) (dodgeCooldown x)
     (dodgeCooldownTimer x) (dodgeDir x) (blinkCooldown x) (blinkCooldownTimer x) (invincible x)
     (invincibleTimer x) (currentAttackId x) (sprite x) (animFrame x) (animRow x) (animMaxFrames x)
     (animTimer x) (animFrameTime x).
Definition set_hp (v : Z) (x : t) : t :=
  mk (name x) (pos x) (size x) (maxHP x) v (speed x) (baseDamage x) (facingRight x) (attacking x)
     (attackTimer x) (attackDuration x) (comboTimer x) (comboStep x) (attackHitbox x) (coins x)
     (damageLevel x) (healthLevel x) (speedLevel x) (blocking x) (blockTimer x) (blockCooldown x)
     (blockCooldownTimer x) (dodging x) (dodgeTimer x) (dodgeDuration x) (dodgeCooldown x)
     (dodgeCooldownTimer x) (dodgeDir x) (blinkCooldown x) (blinkCooldownTimer x) (invincible x)
     (invincibleTimer x) (currentAttackId x) (sprite x) (animFrame x) (animRow x) (animMaxFrames x)
     (animTimer x) (animFrameTime x).
Definition set_speed (v : float) (x : t) : t :=
  mk (name x) (pos x) (size x) (maxHP x) (hp x) v (baseDamage x) (facingRight x) (attacking x)
     (attackTimer x) (attackDuration x) (comboTimer x) (comboStep x) (attackHitbox x) (coins x)
     (damageLevel x) (healthLevel x) (speedLevel x) (blocking x) (blockTimer x) (blockCooldown x)
     (blockCooldownTimer x) (dodging x) (dodgeTimer x) (dodgeDuration x) (dodgeCooldown x)
     (dodgeCooldownTimer x) (dodgeDir x) (blinkCooldown x) (blinkCooldownTimer x) (invincible x)
     (invincibleTimer x) (currentAttackId x) (sprite x) (animFrame x) (animRow x) (animMaxFrames x)
     (animTimer x) (animFrameTime x).
Definition set_baseDamage (v : Z) (x : t) : t :=
  mk (name x) (pos x) (size x) (maxHP x) (hp x) (speed x) v (facingRight x) (attacking x)
     (attackTimer x) (attackDuration x) (comboTimer x) (comboStep x) (attackHitbox x) (coins x)
     (damageLevel x) (healthLevel x) (speedLevel x) (blocking x) (blockTimer x) (blockCooldown x)
     (blockCooldownTimer x) (dodging x) (dodgeTimer x) (dodgeDuration x) (dodgeCooldown x)
     (dodgeCooldownTimer x) (dodgeDir x) (blinkCooldown x) (blinkCooldownTimer x) (invincible x)
     (invincibleTimer x) (currentAttackId x) (sprite x) (animFrame x) (animRow x) (animMaxFrames x)
     (animTimer x) (animFrameTime x).
Definition set_facingRight (v : bool) (x : t) : t :=
  mk (name x) (pos x) (size x) (maxHP x) (hp x) (speed x) (baseDamage x) v (attacking x)
     (attackTimer x) (attackDuration x) (comboTimer x) (comboStep x) (attackHitbox x) (coins x)
     (damageLevel x) (healthLevel x) (speedLevel x) (blocking x) (blockTimer x) (blockCooldown x)
     (blockCooldownTimer x) (dodging x) (dodgeTimer x) (dodgeDuration x) (dodgeCooldown x)
     (dodgeCooldownTimer x) (dodgeDir x) (blinkCooldown x) (blinkCooldownTimer x) (invincible x)
     (invincibleTimer x) (currentAttackId x) (sprite x) (animFrame x) (animRow x) (animMaxFrames x)
     (animTimer x) (animFrameTime x).
Definition set_attacking (v : bool) (x : t) : t :=
  mk (name x) (pos x) (size x) (maxHP x) (hp x) (speed x) (baseDamage x) (facingRight x) v
     (attackTimer x) (attackDuration x) (comboTimer x) (comboStep x) (attackHitbox x) (coins x)
     (damageLevel x) (healthLevel x) (speedLevel x) (blocking x) (blockTimer x) (blockCooldown x)
     (blockCooldownTimer x) (dodging x) (dodgeTimer x) (dodgeDuration x) (dodgeCooldown x)
     (dodgeCooldownTimer x) (dodgeDir x) (blinkCooldown x) (blinkCooldownTimer x) (invincible x)
     (invincibleTimer x) (currentAttackId x) (sprite x) (animFrame x) (animRow x) (animMaxFrames x)
     (animTimer x) (animFrameTime x).
Definition set_attackTimer (v : float) (x : t) : t :=
  mk (name x) (pos x) (size x) (maxHP x) (hp x) (speed x) (baseDamage x) (facingRight x) (attacking
     x) v (attackDuration x) (comboTimer x) (comboStep x) (attackHitbox x) (coins x) (damageLevel x)
     (healthLevel x) (speedLevel x) (blocking x) (blockTimer x) (blockCooldown x)
     (blockCooldownTimer x) (dodging x) (dodgeTimer x) (dodgeDuration x) (dodgeCooldown x)
     (dodgeCooldownTimer x) (dodgeDir x) (blinkCooldown x) (blinkCooldownTimer x) (invincible x)
     (invincibleTimer x) (currentAttackId x) (sprite x) (animFrame x) (animRow x) (animMaxFrames x)
     (animTimer x) (animFrameTime x).
Definition set_attackDuration (v : float) (x : t) : t :=
  mk (name x) (pos x) (size x) (maxHP x) (hp x) (speed x) (baseDamage x) (facingRight x) (attacking
     x) (attackTimer x) v (comboTimer x) (comboStep x) (attackHitbox x) (coins x) (damageLevel x)
     (healthLevel x) (speedLevel x) (blocking x) (blockTimer x) (blockCooldown x)
     (blockCooldownTimer x) (dodging x) (dodgeTimer x) (dodgeDuration x) (dodgeCooldown x)
     (dodgeCooldownTimer x) (dodgeDir x) (blinkCooldown x) (blinkCooldownTimer x) (invincible x)
     (invincibleTimer x) (currentAttackId x) (sprite x) (animFrame x) (animRow x) (animMaxFrames x)
     (animTimer x) (animFrameTime x).
Definition set_comboTimer (v : float) (x : t) : t :=
  mk (name x) (pos x) (size x) (maxHP x) (hp x) (speed x) (baseDamage x) (facingRight x) (attacking
     x) (attackTimer x) (attackDuration x) v (comboStep x) (attackHitbox x) (coins x) (damageLevel
     x) (healthLevel x) (speedLevel x) (blocking x) (blockTimer x) (blockCooldown x)
     (blockCooldownTimer x) (dodging x) (dodgeTimer x) (dodgeDuration x) (dodgeCooldown x)
     (dodgeCooldownTimer x) (dodgeDir x) (blinkCooldown x) (blinkCooldownTimer x) (invincible x)
     (invincibleTimer x) (currentAttackId x) (sprite x) (animFrame x) (animRow x) (animMaxFrames x)
     (animTimer x) (animFrameTime x).
Definition set_comboStep (v : Z) (x : t) : t :=
  mk (name x) (pos x) (size x) (maxHP x) (hp x) (speed x) (baseDamage x) (facingRight x) (attacking
     x) (attackTimer x) (attackDuration x) (comboTimer x) v (attackHitbox x) (coins x) (damageLevel
     x) (healthLevel x) (speedLevel x) (blocking x) (blockTimer x) (blockCooldown x)
     (blockCooldownTimer x) (dodging x) (dodgeTimer x) (dodgeDuration x) (dodgeCooldown x)
     (dodgeCooldownTimer x) (dodgeDir x) (blinkCooldown x) (blinkCooldownTimer x) (invincible x)
     (invincibleTimer x) (currentAttackId x) (sprite x) (animFrame x) (animRow x) (animMaxFrames x)
     (animTimer x) (animFrameTime x).
Definition set_attackHitbox (v : Rectangle) (x : t) : t :=
  mk (name x) (pos x) (size x) (maxHP x) (hp x) (speed x) (baseDamage x) (facingRight x) (attacking
     x) (attackTimer x) (attackDuration x) (comboTimer x) (comboStep x) v (coins x) (damageLevel x)
     (healthLevel x) (speedLevel x) (blocking x) (blockTimer x) (blockCooldown x)
     (blockCooldownTimer x) (dodging x) (dodgeTimer x) (dodgeDuration x) (dodgeCooldown x)
     (dodgeCooldownTimer x) (dodgeDir x) (blinkCooldown x) (blinkCooldownTimer x) (invincible x)
     (invincibleTimer x) (currentAttackId x) (sprite x) (animFrame x) (animRow x) (animMaxFrames x)
     (animTimer x) (animFrameTime x).
Definition set_coins (v : Z) (x : t) : t :=
  mk (name x) (pos x) (size x) (maxHP x) (hp x) (speed x) (baseDamage x) (facingRight x) (attacking
     x) (attackTimer x) (attackDuration x) (comboTimer x) (comboStep x) (attackHitbox x) v
     (damageLevel x) (healthLevel x) (speedLevel x) (blocking x) (blockTimer x) (blockCooldown x)
     (blockCooldownTimer x) (dodging x) (dodgeTimer x) (dodgeDuration x) (dodgeCooldown x)
     (dodgeCooldownTimer x) (dodgeDir x) (blinkCooldown x) (blinkCooldownTimer x) (invincible x)
     (invincibleTimer x) (currentAttackId x) (sprite x) (animFrame x) (animRow x) (animMaxFrames x)
     (animTimer x) (animFrameTime x).
Definition set_damageLevel (v : Z) (x : t) : t :=
  mk (name x) (pos x) (size x) (maxHP x) (hp x) (speed x) (baseDamage x) (facingRight x) (attacking
     x) (attackTimer x) (attackDuration x) (comboTimer x) (comboStep x) (attackHitbox x) (coins x) v
     (healthLevel x) (speedLevel x) (blocking x) (blockTimer x) (blockCooldown x)
     (blockCooldownTimer x) (dodging x) (dodgeTimer x) (dodgeDuration x) (dodgeCooldown x)
     (dodgeCooldownTimer x) (dodgeDir x) (blinkCooldown x) (blinkCooldownTimer x) (invincible x)
     (invincibleTimer x) (currentAttackId x) (sprite x) (animFrame x) (animRow x) (animMaxFrames x)
     (animTimer x) (animFrameTime x).
Definition set_healthLevel (v : Z) (x : t) : t :=
  mk (name x) (pos x) (size x) (maxHP x) (hp x) (speed x) (baseDamage x) (facingRight x) (attacking
     x) (attackTimer x) (attackDuration x) (comboTimer x) (comboStep x) (attackHitbox x) (coins x)
     (damageLevel x) v (speedLevel x) (blocking x) (blockTimer x) (blockCooldown x)
     (blockCooldownTimer x) (dodging x) (dodgeTimer x) (dodgeDuration x) (dodgeCooldown x)
     (dodgeCooldownTimer x) (dodgeDir x) (blinkCooldown x) (blinkCooldownTimer x) (invincible x)
     (invincibleTimer x) (currentAttackId x) (sprite x) (animFrame x) (animRow x) (animMaxFrames x)
     (animTimer x) (animFrameTime x).
Definition set_speedLevel (v : Z) (x : t) : t :=
  mk (name x) (pos x) (size x) (maxHP x) (hp x) (speed x) (baseDamage x) (facingRight x) (attacking
     x) (attackTimer x) (attackDuration x) (comboTimer x) (comboStep x) (attackHitbox x) (coins x)
     (damageLevel x) (healthLevel x) v (blocking x) (blockTimer x) (blockCooldown x)
     (blockCooldownTimer x) (dodging x) (dodgeTimer x) (dodgeDuration x) (dodgeCooldown x)
     (dodgeCooldownTimer x) (dodgeDir x) (blinkCooldown x) (blinkCooldownTimer x) (invincible x)
     (invincibleTimer x) (currentAttackId x) (sprite x) (animFrame x) (animRow x) (animMaxFrames x)
     (animTimer x) (animFrameTime x).
Definition set_blocking (v : bool) (x : t) : t :=
  mk (name x) (pos x) (size x) (maxHP x) (hp x) (speed x) (baseDamage x) (facingRight x) (attacking
     x) (attackTimer x) (attackDuration x) (comboTimer x) (comboStep x) (attackHitbox x) (coins x)
     (damageLevel x) (healthLevel x) (speedLevel x) v (blockTimer x) (blockCooldown x)
     (blockCooldownTimer x) (dodging x) (dodgeTimer x) (dodgeDuration x) (dodgeCooldown x)
     (dodgeCooldownTimer x) (dodgeDir x) (blinkCooldown x) (blinkCooldownTimer x) (invincible x)
     (invincibleTimer x) (currentAttackId x) (sprite x) (animFrame x) (animRow x) (animMaxFrames x)
     (animTimer x) (animFrameTime x).
Definition set_blockTimer (v : float) (x : t) : t :=
  mk (name x) (pos x) (size x) (maxHP x) (hp x) (speed x) (baseDamage x) (facingRight x) (attacking
     x) (attackTimer x) (attackDuration x) (comboTimer x) (comboStep x) (attackHitbox x) (coins x)
     (damageLevel x) (healthLevel x) (speedLevel x) (blocking x) v (blockCooldown x)
     (blockCooldownTimer x) (dodging x) (dodgeTimer x) (dodgeDuration x) (dodgeCooldown x)
     (dodgeCooldownTimer x) (dodgeDir x) (blinkCooldown x) (blinkCooldownTimer x) (invincible x)
     (invincibleTimer x) (currentAttackId x) (sprite x) (animFrame x) (animRow x) (animMaxFrames x)
     (animTimer x) (animFrameTime x).
Definition set_blockCooldown (v : float) (x : t) : t :=
  mk (name x) (pos x) (size x) (maxHP x) (hp x) (speed x) (baseDamage x) (facingRight x) (attacking
     x) (attackTimer x) (attackDuration x) (comboTimer x) (comboStep x) (attackHitbox x) (coins x)
     (damageLevel x) (healthLevel x) (speedLevel x) (blocking x) (blockTimer x) v
     (blockCooldownTimer x) (dodging x) (dodgeTimer x) (dodgeDuration x) (dodgeCooldown x)
     (dodgeCooldownTimer x) (dodgeDir x) (blinkCooldown x) (blinkCooldownTimer x) (invincible x)
     (invincibleTimer x) (currentAttackId x) (sprite x) (animFrame x) (animRow x) (animMaxFrames x)
     (animTimer x) (animFrameTime x).
Definition set_blockCooldownTimer (v : float) (x : t) : t :=
  mk (name x) (pos x) (size x) (maxHP x) (hp x) (speed x) (baseDamage x) (facingRight x) (attacking
     x) (attackTimer x) (attackDuration x) (comboTimer x) (comboStep x) (attackHitbox x) (coins x)
     (damageLevel x) (healthLevel x) (speedLevel x) (blocking x) (blockTimer x) (blockCooldown x) v
     (dodging x) (dodgeTimer x) (dodgeDuration x) (dodgeCooldown x) (dodgeCooldownTimer x) (dodgeDir
     x) (blinkCooldown x) (blinkCooldownTimer x) (invincible x) (invincibleTimer x) (currentAttackId
     x) (sprite x) (animFrame x) (animRow x) (animMaxFrames x) (animTimer x) (animFrameTime x).
Definition set_dodging (v : bool) (x : t) : t :=
  mk (name x) (pos x) (size x) (maxHP x) (hp x) (speed x) (baseDamage x) (facingRight x) (attacking
     x) (attackTimer x) (attackDuration x) (comboTimer x) (comboStep x) (attackHitbox x) (coins x)
     (damageLevel x) (healthLevel x) (speedLevel x) (blocking x) (blockTimer x) (blockCooldown x)
     (blockCooldownTimer x) v (dodgeTimer x) (dodgeDuration x) (dodgeCooldown x) (dodgeCooldownTimer
     x) (dodgeDir x) (blinkCooldown x) (blinkCooldownTimer x) (invincible x) (invincibleTimer x)
     (currentAttackId x) (sprite x) (animFrame x) (animRow x) (animMaxFrames x) (animTimer x)
     (animFrameTime x).
Definition set_dodgeTimer (v : float) (x : t) : t :=
  mk (name x) (pos x) (size x) (maxHP x) (hp x) (speed x) (baseDamage x) (facingRight x) (attacking
     x) (attackTimer x) (attackDuration x) (comboTimer x) (comboStep x) (attackHitbox x) (coins x)
     (damageLevel x) (healthLevel x) (speedLevel x) (blocking x) (blockTimer x) (blockCooldown x)
     (blockCooldownTimer x) (dodging x) v (dodgeDuration x) (dodgeCooldown x) (dodgeCooldownTimer x)
     (dodgeDir x) (blinkCooldown x) (blinkCooldownTimer x) (invincible x) (invincibleTimer x)
     (currentAttackId x) (sprite x) (animFrame x) (animRow x) (animMaxFrames x) (animTimer x)
     (animFrameTime x).
Definition set_dodgeDuration (v : float) (x : t) : t :=
  mk (name x) (pos x) (size x) (maxHP x) (hp x) (speed x) (baseDamage x) (facingRight x) (attacking
     x) (attackTimer x) (attackDuration x) (comboTimer x) (comboStep x) (attackHitbox x) (coins x)
     (damageLevel x) (healthLevel x) (speedLevel x) (blocking x) (blockTimer x) (blockCooldown x)
     (blockCooldownTimer x) (dodging x) (dodgeTimer x) v (dodgeCooldown x) (dodgeCooldownTimer x)
     (dodgeDir x) (blinkCooldown x) (blinkCooldownTimer x) (invincible x) (invincibleTimer x)
     (currentAttackId x) (sprite x) (animFrame x) (animRow x) (animMaxFrames x) (animTimer x)
     (animFrameTime x).
Definition set_dodgeCooldown (v : float) (x : t) : t :=
  mk (name x) (pos x) (size x) (maxHP x) (hp x) (speed x) (baseDamage x) (facingRight x) (attacking
     x) (attackTimer x) (attackDuration x) (comboTimer x) (comboStep x) (attackHitbox x) (coins x)
     (damageLevel x) (healthLevel x) (speedLevel x) (blocking x) (blockTimer x) (blockCooldown x)
     (blockCooldownTimer x) (dodging x) (dodgeTimer x) (dodgeDuration x) v (dodgeCooldownTimer x)
     (dodgeDir x) (blinkCooldown x) (blinkCooldownTimer x) (invincible x) (invincibleTimer x)
     (currentAttackId x) (sprite x) (animFrame x) (animRow x) (animMaxFrames x) (animTimer x)
     (animFrameTime x).
Definition set_dodgeCooldownTimer (v : float) (x : t) : t :=
  mk (name x) (pos x) (size x) (maxHP x) (hp x) (speed x) (baseDamage x) (facingRight x) (attacking
     x) (attackTimer x) (attackDuration x) (comboTimer x) (comboStep x) (attackHitbox x) (coins x)
     (damageLevel x) (healthLevel x) (speedLevel x) (blocking x) (blockTimer x) (blockCooldown x)
     (blockCooldownTimer x) (dodging x) (dodgeTimer x) (dodgeDuration x) (dodgeCooldown x) v
     (dodgeDir x) (blinkCooldown x) (blinkCooldownTimer x) (invincible x) (invincibleTimer x)
     (currentAttackId x) (sprite x) (animFrame x) (animRow x) (animMaxFrames x) (animTimer x)
     (animFrameTime x).
Definition set_dodgeDir (v : float) (x : t) : t :=
  mk (name x) (pos x) (size x) (maxHP x) (hp x) (speed x) (baseDamage x) (facingRight x) (attacking
     x) (attackTimer x) (attackDuration x) (comboTimer x) (comboStep x) (attackHitbox x) (coins x)
     (damageLevel x) (healthLevel x) (speedLevel x) (blocking x) (blockTimer x) (blockCooldown x)
     (blockCooldownTimer x) (dodging x) (dodgeTimer x) (dodgeDuration x) (dodgeCooldown x)
     (dodgeCooldownTimer x) v (blinkCooldown x) (blinkCooldownTimer x) (invincible x)
     (invincibleTimer x) (currentAttackId x) (sprite x) (animFrame x) (animRow x) (animMaxFrames x)
     (animTimer x) (animFrameTime x).
Definition set_blinkCooldown (v : float) (x : t) : t :=
  mk (name x) (pos x) (size x) (maxHP x) (hp x) (speed x) (baseDamage x) (facingRight x) (attacking
     x) (attackTimer x) (attackDuration x) (comboTimer x) (comboStep x) (attackHitbox x) (coins x)
     (damageLevel x) (healthLevel x) (speedLevel x) (blocking x) (blockTimer x) (blockCooldown x)
     (blockCooldownTimer x) (dodging x) (dodgeTimer x) (dodgeDuration x) (dodgeCooldown x)
     (dodgeCooldownTimer x) (dodgeDir x) v (blinkCooldownTimer x) (invincible x) (invincibleTimer x)
     (currentAttackId x) (sprite x) (animFrame x) (animRow x) (animMaxFrames x) (animTimer x)
     (animFrameTime x).
Definition set_blinkCooldownTimer (v : float) (x : t) : t :=
  mk (name x) (pos x) (size x) (maxHP x) (hp x) (speed x) (baseDamage x) (facingRight x) (attacking
     x) (attackTimer x) (attackDuration x) (comboTimer x) (comboStep x) (attackHitbox x) (coins x)
     (damageLevel x) (healthLevel x) (speedLevel x) (blocking x) (blockTimer x) (blockCooldown x)
     (blockCooldownTimer x) (dodging x) (dodgeTimer x) (dodgeDuration x) (dodgeCooldown x)
     (dodgeCooldownTimer x) (dodgeDir x) (blinkCooldown x) v (invincible x) (invincibleTimer x)
     (currentAttackId x) (sprite x) (animFrame x) (animRow x) (animMaxFrames x) (animTimer x)
     (animFrameTime x).
Definition set_invincible (v : bool) (x : t) : t :=
  mk (name x) (pos x) (size x) (maxHP x) (hp x) (speed x) (baseDamage x) (facingRight x) (attacking
     x) (attackTimer x) (attackDuration x) (comboTimer x) (comboStep x) (attackHitbox x) (coins x)
     (damageLevel x) (healthLevel x) (speedLevel x) (blocking x) (blockTimer x) (blockCooldown x)
     (blockCooldownTimer x) (dodging x) (dodgeTimer x) (dodgeDuration x) (dodgeCooldown x)
     (dodgeCooldownTimer x) (dodgeDir x) (blinkCooldown x) (blinkCooldownTimer x) v (invincibleTimer
     x) (currentAttackId x) (sprite x) (animFrame x) (animRow x) (animMaxFrames x) (animTimer x)
     (animFrameTime x).
Definition set_invincibleTimer (v : float) (x : t) : t :=
  mk (name x) (pos x) (size x) (maxHP x) (hp x) (speed x) (baseDamage x) (facingRight x) (attacking
     x) (attackTimer x) (attackDuration x) (comboTimer x) (comboStep x) (attackHitbox x) (coins x)
     (damageLevel x) (healthLevel x) (speedLevel x) (blocking x) (blockTimer x) (blockCooldown x)
     (blockCooldownTimer x) (dodging x) (dodgeTimer x) (dodgeDuration x) (dodgeCooldown x)
     (dodgeCooldownTimer x) (dodgeDir x) (blinkCooldown x) (blinkCooldownTimer x) (invincible x) v
     (currentAttackId x) (sprite x) (animFrame x) (animRow x) (animMaxFrames x) (animTimer x)
     (animFrameTime x).
Definition set_currentAttackId (v : Z) (x : t) : t :=
  mk (name x) (pos x) (size x) (maxHP x) (hp x) (speed x) (baseDamage x) (facingRight x) (attacking
     x) (attackTimer x) (attackDuration x) (comboTimer x) (comboStep x) (attackHitbox x) (coins x)
     (damageLevel x) (healthLevel x) (speedLevel x) (blocking x) (blockTimer x) (blockCooldown x)
     (blockCooldownTimer x) (dodging x) (dodgeTimer x) (dodgeDuration x) (dodgeCooldown x)
     (dodgeCooldownTimer x) (dodgeDir x) (blinkCooldown x) (blinkCooldownTimer x) (invincible x)
     (invincibleTimer x) v (sprite x) (animFrame x) (animRow x) (animMaxFrames x) (animTimer x)
     (animFrameTime x).
Definition set_sprite (v : option Texture) (x : t) : t :=
  mk (name x) (pos x) (size x) (maxHP x) (hp x) (speed x) (baseDamage x) (facingRight x) (attacking
     x) (attackTimer x) (attackDuration x) (comboTimer x) (comboStep x) (attackHitbox x) (coins x)
     (damageLevel x) (healthLevel x) (speedLevel x) (blocking x) (blockTimer x) (blockCooldown x)
     (blockCooldownTimer x) (dodging x) (dodgeTimer x) (dodgeDuration x) (dodgeCooldown x)
     (dodgeCooldownTimer x) (dodgeDir x) (blinkCooldown x) (blinkCooldownTimer x) (invincible x)
     (invincibleTimer x) (currentAttackId x) v (animFrame x) (animRow x) (animMaxFrames x)
     (animTimer x) (animFrameTime x).
Definition set_animFrame (v : Z) (x : t) : t :=
  mk (name x) (pos x) (size x) (maxHP x) (hp x) (speed x) (baseDamage x) (facingRight x) (attacking
     x) (attackTimer x) (attackDuration x) (comboTimer x) (comboStep x) (attackHitbox x) (coins x)
     (damageLevel x) (healthLevel x) (speedLevel x) (blocking x) (blockTimer x) (blockCooldown x)
     (blockCooldownTimer x) (dodging x) (dodgeTimer x) (dodgeDuration x) (dodgeCooldown x)
     (dodgeCooldownTimer x) (dodgeDir x) (blinkCooldown x) (blinkCooldownTimer x) (invincible x)
     (invincibleTimer x) (currentAttackId x) (sprite x) v (animRow x) (animMaxFrames x) (animTimer
     x) (animFrameTime x).
Definition set_animRow (v : Z) (x : t) : t :=
  mk (name x) (pos x) (size x) (maxHP x) (hp x) (speed x) (baseDamage x) (facingRight x) (attacking
     x) (attackTimer x) (attackDuration x) (comboTimer x) (comboStep x) (attackHitbox x) (coins x)
     (damageLevel x) (healthLevel x) (speedLevel x) (blocking x) (blockTimer x) (blockCooldown x)
     (blockCooldownTimer x) (dodging x) (dodgeTimer x) (dodgeDuration x) (dodgeCooldown x)
     (dodgeCooldownTimer x) (dodgeDir x) (blinkCooldown x) (blinkCooldownTimer x) (invincible x)
     (invincibleTimer x) (currentAttackId x) (sprite x) (animFrame x) v (animMaxFrames x) (animTimer
     x) (animFrameTime x).
Definition set_animMaxFrames (v : Z) (x : t) : t :=
  mk (name x) (pos x) (size x) (maxHP x) (hp x) (speed x) (baseDamage x) (facingRight x) (attacking
     x) (attackTimer x) (attackDuration x) (comboTimer x) (comboStep x) (attackHitbox x) (coins x)
     (damageLevel x) (healthLevel x) (speedLevel x) (blocking x) (blockTimer x) (blockCooldown x)
     (blockCooldownTimer x) (dodging x) (dodgeTimer x) (dodgeDuration x) (dodgeCooldown x)
     (dodgeCooldownTimer x) (dodgeDir x) (blinkCooldown x) (blinkCooldownTimer x) (invincible x)
     (invincibleTimer x) (currentAttackId x) (sprite x) (animFrame x) (animRow x) v (animTimer x)
     (animFrameTime x).
Definition set_animTimer (v : float) (x : t) : t :=
  mk (name x) (pos x) (size x) (maxHP x) (hp x) (speed x) (baseDamage x) (facingRight x) (attacking
     x) (attackTimer x) (attackDuration x) (comboTimer x) (comboStep x) (attackHitbox x) (coins x)
     (damageLevel x) (healthLevel x) (speedLevel x) (blocking x) (blockTimer x) (blockCooldown x)
     (blockCooldownTimer x) (dodging x) (dodgeTimer x) (dodgeDuration x) (dodgeCooldown x)
     (dodgeCooldownTimer x) (dodgeDir x) (blinkCooldown x) (blinkCooldownTimer x) (invincible x)
     (invincibleTimer x) (currentAttackId x) (sprite x) (animFrame x) (animRow x) (animMaxFrames x)
     v (animFrameTime x).
Definition set_animFrameTime (v : float) (x : t) : t :=
  mk (name x) (pos x) (size x) (maxHP x) (hp x) (speed x) (baseDamage x) (facingRight x) (attacking
     x) (attackTimer x) (attackDuration x) (comboTimer x) (comboStep x) (attackHitbox x) (coins x)
     (damageLevel x) (healthLevel x) (speedLevel x) (blocking x) (blockTimer x) (blockCooldown x)
     (blockCooldownTimer x) (dodging x) (dodgeTimer x) (dodgeDuration x) (dodgeCooldown x)
     (dodgeCooldownTimer x) (dodgeDir x) (blinkCooldown x) (blinkCooldownTimer x) (invincible x)
     (invincibleTimer x) (currentAttackId x) (sprite x) (animFrame x) (animRow x) (animMaxFrames x)
     (animTimer x) v.
End Player.

Record CharacterClass := mkCharacterClass {
  cc_name : string;
  cc_maxHP : Z;
  cc_speed : float;
  cc_baseDamage : Z;
  cc_color : Color;
  cc_type : PlayerClass
}.

Module Game.
Record t := mk {
  selectedClassIndex : Z;
  player : Player.t;
  playerClass : PlayerClass;
  state : GameState;
  cameraTarget : Vector2;
  enemies : list Enemy.t;
  coins : list Coin.t;
  projectiles : list Projectile.t;
  bossSpawned : bool;
  bossDefeated : bool;
  enemySpawnTimer : float;
  shopSelection : Z;
  gHitStopTimer : float;
  gAttackCounter : Z;
  gProjectileCounter : Z
}.
Definition set_selectedClassIndex (v : Z) (x : t) : t :=
  mk v (player x) (playerClass x) (state x) (cameraTarget x) (enemies x) (coins x) (projectiles x)
     (bossSpawned x) (bossDefeated x) (enemySpawnTimer x) (shopSelection x) (gHitStopTimer x)
     (gAttackCounter x) (gProjectileCounter x).
Definition set_player (v : Player.t) (x : t) : t :=
  mk (selectedClassIndex x) v (playerClass x) (state x) (cameraTarget x) (enemies x) (coins x)
     (projectiles x) (bossSpawned x) (bossDefeated x) (enemySpawnTimer x) (shopSelection x)
     (gHitStopTimer x) (gAttackCounter x) (gProjectileCounter x).
Definition set_playerClass (v : PlayerClass) (x : t) : t :=
  mk (selectedClassIndex x) (player x) v (state x) (cameraTarget x) (enemies x) (coins x)
     (projectiles x) (bossSpawned x) (bossDefeated x) (enemySpawnTimer x) (shopSelection x)
     (gHitStopTimer x) (gAttackCounter x) (gProjectileCounter x).
Definition set_state (v : GameState) (x : t) : t :=
  mk (selectedClassIndex x) (player x) (playerClass x) v (cameraTarget x) (enemies x) (coins x)
     (projectiles x) (bossSpawned x) (bossDefeated x) (enemySpawnTimer x) (shopSelection x)
     (gHitStopTimer x) (gAttackCounter x) (gProjectileCounter x).
Definition set_cameraTarget (v : Vector2) (x : t) : t :=
  mk (selectedClassIndex x) (player x) (playerClass x) (state x) v (enemies x) (coins x)
     (projectiles x) (bossSpawned x) (bossDefeated x) (enemySpawnTimer x) (shopSelection x)
     (gHitStopTimer x) (gAttackCounter x) (gProjectileCounter x).
Definition set_enemies (v : list Enemy.t) (x : t) : t :=
  mk (selectedClassIndex x) (player x) (playerClass x) (state x) (cameraTarget x) v (coins x)
     (projectiles x) (bossSpawned x) (bossDefeated x) (enemySpawnTimer x) (shopSelection x)
     (gHitStopTimer x) (gAttackCounter x) (gProjectileCounter x).
Definition set_coins (v : list Coin.t) (x : t) : t :=
  mk (selectedClassIndex x) (player x) (playerClass x) (state x) (cameraTarget x) (enemies x) v
     (projectiles x) (bossSpawned x) (bossDefeated x) (enemySpawnTimer x) (shopSelection x)
     (gHitStopTimer x) (gAttackCounter x) (gProjectileCounter x).
Definition set_projectiles (v : list Projectile.t) (x : t) : t :=
  mk (selectedClassIndex x) (player x) (playerClass x) (state x) (cameraTarget x) (enemies x) (coins
     x) v (bossSpawned x) (bossDefeated x) (enemySpawnTimer x) (shopSelection x) (gHitStopTimer x)
     (gAttackCounter x) (gProjectileCounter x).
Definition set_bossSpawned (v : bool) (x : t) : t :=
  mk (selectedClassIndex x) (player x) (playerClass x) (state x) (cameraTarget x) (enemies x) (coins
     x) (projectiles x) v (bossDefeated x) (enemySpawnTimer x) (shopSelection x) (gHitStopTimer x)
     (gAttackCounter x) (gProjectileCounter x).
Definition set_bossDefeated (v : bool) (x : t) : t :=
  mk (selectedClassIndex x) (player x) (playerClass x) (state x) (cameraTarget x) (enemies x) (coins
     x) (projectiles x) (bossSpawned x) v (enemySpawnTimer x) (shopSelection x) (gHitStopTimer x)
     (gAttackCounter x) (gProjectileCounter x).
Definition set_enemySpawnTimer (v : float) (x : t) : t :=
  mk (selectedClassIndex x) (player x) (playerClass x) (state x) (cameraTarget x) (enemies x) (coins
     x) (projectiles x) (bossSpawned x) (bossDefeated x) v (shopSelection x) (gHitStopTimer x)
     (gAttackCounter x) (gProjectileCounter x).
Definition set_shopSelection (v : Z) (x : t) : t :=
  mk (selectedClassIndex x) (player x) (playerClass x) (state x) (cameraTarget x) (enemies x) (coins
     x) (projectiles x) (bossSpawned x) (bossDefeated x) (enemySpawnTimer x) v (gHitStopTimer x)
     (gAttackCounter x) (gProjectileCounter x).
Definition set_gHitStopTimer (v : float) (x : t) : t :=
  mk (selectedClassIndex x) (player x) (playerClass x) (state x) (cameraTarget x) (enemies x) (coins
     x) (projectiles x) (bossSpawned x) (bossDefeated x) (enemySpawnTimer x) (shopSelection x) v
     (gAttackCounter x) (gProjectileCounter x).
Definition set_gAttackCounter (v : Z) (x : t) : t :=
  mk (selectedClassIndex x) (player x) (playerClass x) (state x) (cameraTarget x) (enemies x) (coins
     x) (projectiles x) (bossSpawned x) (bossDefeated x) (enemySpawnTimer x) (shopSelection x)
     (gHitStopTimer x) v (gProjectileCounter x).
Definition set_gProjectileCounter (v : Z) (x : t) : t :=
  mk (selectedClassIndex x) (player x) (playerClass x) (state x) (cameraTarget x) (enemies x) (coins
     x) (projectiles x) (bossSpawned x) (bossDefeated x) (enemySpawnTimer x) (shopSelection x)
     (gHitStopTimer x) (gAttackCounter x) v.
End Game.

(* ------------------------------------------------------------------ *)
(** ** What a frame reads from raylib *)
(* ------------------------------------------------------------------ *)

Inductive Key :=
  KEY_A | KEY_D | KEY_W | KEY_S
| KEY_LEFT | KEY_RIGHT | KEY_UP | KEY_DOWN
| KEY_J | KEY_K | KEY_TAB | KEY_ENTER | KEY_ESCAPE.

(** One frame's worth of input.  [GetRandomValue k lo hi] is the result of
    the [k]-th call of [GetRandomValue(lo, hi)] made during the frame. *)
Record Input := mkInput {
  GetFrameTime : float;
  IsKeyDown : Key -> bool;
  IsKeyPressed : Key -> bool;
  GetRandomValue : nat -> Z -> Z -> Z
}.

(** raylib's collision tests and the widths of the textures loaded at
    start-up: library code and assets, not part of the program. *)
Class Raylib := {
  CheckCollisionRecs : Rectangle -> Rectangle -> bool;
  CheckCollisionCircleRec : Vector2 -> float -> Rectangle -> bool;
  textureWidth : Texture -> Z
}.

(* ------------------------------------------------------------------ *)
(** ** Constants *)
(* ------------------------------------------------------------------ *)

Definition GROUND_TOP : float := of_int 350.
Definition GROUND_BOTTOM : float := of_int 430.
Definition LEVEL_LENGTH : float := of_int 3000.

Definition ENEMY_SPAWN_INTERVAL : float := of_int 3.
Definition COMBO_RESET_TIME : float := of_int 1.

(* ------------------------------------------------------------------ *)
(** ** Utility *)
(* ------------------------------------------------------------------ *)

Definition MakeRect (pos size : Vector2) : Rectangle :=
  mkRectangle (fsub (vx pos) (fmul (vx size) (dec 5 1)))
              (fsub (vy pos) (vy size))
              (vx size) (vy size).

Definition RectOverlap `{Raylib} (a b : Rectangle) : bool :=
  CheckCollisionRecs a b.

(** Combo damage multipliers per class. *)
Definition GetComboMultiplier (pc : PlayerClass) (step : Z) : float :=
  let step := if step <? 1 then 1 else step in
  let step := if 3 <? step then 3 else step in
  match pc with
  | KNIGHT =>
      if step =? 1 then of_int 1
      else if step =? 2 then dec 13 1
      else of_int 2
  | ROGUE =>
      if step =? 1 then dec 7 1
      else if step =? 2 then dec 9 1
      else dec 11 1
  | MAGE =>
      if step =? 1 then dec 8 1
      else if step =? 2 then of_int 1
      else dec 12 1
  end.

(** [(int)std::round(player.baseDamage * comboMul)], the expression both the
    melee resolver and the projectile spawner evaluate. *)
Definition comboDamage (pc : PlayerClass) (baseDamage step : Z) : Z :=
  let comboMul := GetComboMultiplier pc step in
  round_to_int (fmul (of_int baseDamage) comboMul).

(* ------------------------------------------------------------------ *)
(** ** Enemy creation *)
(* ------------------------------------------------------------------ *)

Definition MakeEnemy (type : EnemyType) (x laneY : float) : Enemy.t :=
  let pos := mkVector2 x laneY in
  let '(size, hp, speed, sprite) :=
    match type with
    | GRUNT => (mkVector2 (of_int 40) (of_int 70), 90, of_int 80, texEnemyGrunt)
    | FAST => (mkVector2 (of_int 32) (of_int 60), 80, of_int 135, texEnemyFast)
    | TANK => (mkVector2 (of_int 60) (of_int 90), 150, of_int 55, texEnemyTank)
    | BOSS => (mkVector2 (of_int 100) (of_int 140), 450, of_int 70, texEnemyBoss)
    end in
  {| Enemy.pos := pos;
     Enemy.size := size;
     Enemy.maxHP := hp;
     Enemy.hp := hp;
     Enemy.speed := speed;
     Enemy.type := type;
     Enemy.alive := true;
     Enemy.attackCooldown := fzero;
     Enemy.windingUp := false;
     Enemy.windupTimer := fzero;
     Enemy.attackingAnim := false;
     Enemy.attackAnimTimer := fzero;
     Enemy.lastHitAttackId := -1;
     Enemy.lastProjectileHitId := -1;
     Enemy.sprite := Some sprite;
     Enemy.animFrame := 0;
     Enemy.animRow := 0;
     Enemy.animMaxFrames := ENEMY_SPRITE_COLS;
     Enemy.animTimer := fzero;
     Enemy.animFrameTime := dec 15 2 |}.

(* ------------------------------------------------------------------ *)
(** ** Shop *)
(* ------------------------------------------------------------------ *)

Record ShopOption := mkShopOption { label : string; baseCost : Z }.

Definition shopOptions : list ShopOption :=
  [ mkShopOption "Increase Damage" 5;
    mkShopOption "Increase Max HP" 5;
    mkShopOption "Increase Speed" 5 ].

(** [shopOptions[index]]; reading past the array is undefined in C++ and
    yields [None] here. *)
Definition shopOption (index : Z) : option ShopOption :=
  if index <? 0 then None else nth_error shopOptions (Z.to_nat index).

Definition GetUpgradeCost (p : Player.t) (index : Z) : option Z :=
  let level :=
    if index =? 0 then Player.damageLevel p
    else if index =? 1 then Player.healthLevel p
    else if index =? 2 then Player.speedLevel p
    else 0 in
  match shopOption index with
  | Some o => Some (imul (baseCost o) (iadd 1 level))
  | None => None
  end.

Definition ApplyUpgrade (p : Player.t) (index : Z) : Player.t :=
  if index =? 0 then
    let p := Player.set_damageLevel (iadd (Player.damageLevel p) 1) p in
    Player.set_baseDamage (iadd (Player.baseDamage p) 3) p
  else if index =? 1 then
    let p := Player.set_healthLevel (iadd (Player.healthLevel p) 1) p in
    let p := Player.set_maxHP (iadd (Player.maxHP p) 15) p in
    Player.set_hp (Player.maxHP p) p
  else if index =? 2 then
    let p := Player.set_speedLevel (iadd (Player.speedLevel p) 1) p in
    Player.set_speed (fadd (Player.speed p) (of_int 20)) p
  else p.

(* ------------------------------------------------------------------ *)
(** ** Session reset *)
(* ------------------------------------------------------------------ *)

Definition classes : list CharacterClass :=
  [ mkCharacterClass "Knight" 170 (of_int 180) 20 RED KNIGHT;
    mkCharacterClass "Rogue" 110 (of_int 270) 14 GREEN ROGUE;
    mkCharacterClass "Mage" 90 (of_int 190) 10 PURPLE MAGE ].

(** [classes[i]].  The menu keeps the index inside the vector; outside it the
    read is undefined in C++ and the model answers with the first class. *)
Definition classAt (i : Z) : CharacterClass :=
  nth (Z.to_nat i) classes (mkCharacterClass "Knight" 170 (of_int 180) 20 RED KNIGHT).

(** The closure [ResetGame] of [main]: it assigns every field of the player
    but [attackHitbox], empties the three collections and zeroes the global
    timer and both global counters. *)
Definition ResetGame (g : Game.t) : Game.t :=
  let cc := classAt (Game.selectedClassIndex g) in
  let playerClass := cc_type cc in
  let pos := mkVector2 (of_int 100) (fmul (fadd GROUND_TOP GROUND_BOTTOM) (dec 5 1)) in
  let player :=
    {| Player.name := cc_name cc;
       Player.pos := pos;
       Player.size := mkVector2 (of_int 40) (of_int 75);
       Player.maxHP := cc_maxHP cc;
       Player.hp := cc_maxHP cc;
       Player.speed := cc_speed cc;
       Player.baseDamage := cc_baseDamage cc;
       Player.facingRight := true;
       Player.attacking := false;
       Player.attackTimer := fzero;
       Player.attackDuration := dec 15 2;
       Player.comboTimer := fzero;
       Player.comboStep := 0;
       Player.attackHitbox := Player.attackHitbox (Game.player g);
       Player.coins := 0;
       Player.damageLevel := 0;
       Player.healthLevel := 0;
       Player.speedLevel := 0;
       Player.blocking := false;
       Player.blockTimer := fzero;
       Player.blockCooldown := match playerClass with KNIGHT => of_int 1 | _ => fzero end;
       Player.blockCooldownTimer := fzero;
       Player.dodging := false;
       Player.dodgeTimer := fzero;
       Player.dodgeDuration := match playerClass with ROGUE => dec 25 2 | _ => fzero end;
       Player.dodgeCooldown := match playerClass with ROGUE => dec 9 1 | _ => fzero end;
       Player.dodgeCooldownTimer := fzero;
       Player.dodgeDir := fzero;
       Player.blinkCooldown := match playerClass with MAGE => dec 12 1 | _ => fzero end;
       Player.blinkCooldownTimer := fzero;
       Player.invincible := false;
       Player.invincibleTimer := fzero;
       Player.currentAttackId := -1;
       Player.sprite :=
         Some match playerClass with
              | KNIGHT => texKnight | ROGUE => texRogue | MAGE => texMage
              end;
       Player.animFrame := 0;
       Player.animRow := 0;
       Player.animMaxFrames := PLAYER_SPRITE_COLS;
       Player.animTimer := fzero;
       Player.animFrameTime := dec 12 2 |} in
  {| Game.selectedClassIndex := Game.selectedClassIndex g;
     Game.player := player;
     Game.playerClass := playerClass;
     Game.state := Game.state g;
     Game.cameraTarget := pos;
     Game.enemies := [];
     Game.coins := [];
     Game.projectiles := [];
     Game.bossSpawned := false;
     Game.bossDefeated := false;
     Game.enemySpawnTimer := fzero;
     Game.shopSelection := Game.shopSelection g;
     Game.gHitStopTimer := fzero;
     Game.gAttackCounter := 0;
     Game.gProjectileCounter := 0 |}.

(** The state of [main] when the game loop is entered: the value-initialised
    player and locals, after the first call of [ResetGame]. *)
Definition initialGame : Game.t :=
  let zero2 := mkVector2 fzero fzero in
  ResetGame
    {| Game.selectedClassIndex := 0;
       Game.player :=
         {| Player.name := "";
            Player.pos := zero2;
            Player.size := zero2;
            Player.maxHP := 0;
            Player.hp := 0;
            Player.speed := fzero;
            Player.baseDamage := 0;
            Player.facingRight := true;
            Player.attacking := false;
            Player.attackTimer := fzero;
            Player.attackDuration := dec 15 2;
            Player.comboTimer := fzero;
            Player.comboStep := 0;
            Player.attackHitbox := mkRectangle fzero fzero fzero fzero;
            Player.coins := 0;
            Player.damageLevel := 0;
            Player.healthLevel := 0;
            Player.speedLevel := 0;
            Player.blocking := false;
            Player.blockTimer := fzero;
            Player.blockCooldown := fzero;
            Player.blockCooldownTimer := fzero;
            Player.dodging := false;
            Player.dodgeTimer := fzero;
            Player.dodgeDuration := fzero;
            Player.dodgeCooldown := fzero;
            Player.dodgeCooldownTimer := fzero;
            Player.dodgeDir := fzero;
            Player.blinkCooldown := fzero;
            Player.blinkCooldownTimer := fzero;
            Player.invincible := false;
            Player.invincibleTimer := fzero;
            Player.currentAttackId := -1;
            Player.sprite := None;
            Player.animFrame := 0;
            Player.animRow := 0;
            Player.animMaxFrames := PLAYER_SPRITE_COLS;
            Player.animTimer := fzero;
            Player.animFrameTime := dec 12 2 |};
       Game.playerClass := KNIGHT;
       Game.state := MENU;
       Game.cameraTarget := zero2;
       Game.enemies := [];
       Game.coins := [];
       Game.projectiles := [];
       Game.bossSpawned := false;
       Game.bossDefeated := false;
       Game.enemySpawnTimer := fzero;
       Game.shopSelection := 0;
       Game.gHitStopTimer := fzero;
       Game.gAttackCounter := 0;
       Game.gProjectileCounter := 0 |}.

(* ------------------------------------------------------------------ *)
(** ** The PLAYING frame: the player *)
(* ------------------------------------------------------------------ *)

(** Input & movement: the direction held on the keys, normalised. *)
Definition inputMove (inp : Input) : Vector2 :=
  let one := of_int 1 in
  let mx := fzero in
  let my := fzero in
  let mx := if IsKeyDown inp KEY_A || IsKeyDown inp KEY_LEFT then fsub mx one else mx in
  let mx := if IsKeyDown inp KEY_D || IsKeyDown inp KEY_RIGHT then fadd mx one else mx in
  let my := if IsKeyDown inp KEY_W || IsKeyDown inp KEY_UP then fsub my one else my in
  let my := if IsKeyDown inp KEY_S || IsKeyDown inp KEY_DOWN then fadd my one else my in
  let mag := fsqrt (fadd (fmul mx mx) (fmul my my)) in
  if fltb fzero mag then mkVector2 (fdiv mx mag) (fdiv my mag)
  else mkVector2 mx my.

(** The direction the frame moves along: the Rogue's dodge overrides the
    keys.  The same vector later selects the animation row. *)
Definition effectiveMove (inp : Input) (p : Player.t) : Vector2 :=
  if Player.dodging p then mkVector2 (Player.dodgeDir p) fzero else inputMove inp.

(** The four clamps of the player's position, in source order. *)
Definition clampToLane (pos : Vector2) : Vector2 :=
  let x := vx pos in
  let y := vy pos in
  let x := if fltb x (of_int 0) then of_int 0 else x in
  let x := if fltb LEVEL_LENGTH x then LEVEL_LENGTH else x in
  let y := if fltb y GROUND_TOP then GROUND_TOP else y in
  let y := if fltb GROUND_BOTTOM y then GROUND_BOTTOM else y in
  mkVector2 x y.

Definition movePlayer (inp : Input) (gameDt : float) (p : Player.t) : Player.t :=
  let move := effectiveMove inp p in
  let moveSpeed :=
    if Player.dodging p then fmul (Player.speed p) (dec 35 1) else Player.speed p in
  let x := fadd (vx (Player.pos p)) (fmul (fmul (vx move) moveSpeed) gameDt) in
  let y := fadd (vy (Player.pos p)) (fmul (fmul (vy move) (Player.speed p)) gameDt) in
  let p := Player.set_pos (clampToLane (mkVector2 x y)) p in
  if negb (Player.dodging p) then
    if fltb (of_int 0) (vx move) then Player.set_facingRight true p
    else if fltb (vx move) (of_int 0) then Player.set_facingRight false p
    else p
  else p.

(** [if (t > 0) t -= gameDt; if (t < 0) t = 0;], the pattern of the three
    ability cooldowns. *)
Definition tickCooldown (gameDt t : float) : float :=
  let t := if fltb fzero t then fsub t gameDt else t in
  if fltb t fzero then fzero else t.

Definition abilityTimers (gameDt : float) (p : Player.t) : Player.t :=
  let p := Player.set_blockCooldownTimer (tickCooldown gameDt (Player.blockCooldownTimer p)) p in
  let p := Player.set_dodgeCooldownTimer (tickCooldown gameDt (Player.dodgeCooldownTimer p)) p in
  let p := Player.set_blinkCooldownTimer (tickCooldown gameDt (Player.blinkCooldownTimer p)) p in
  if fltb fzero (Player.invincibleTimer p) then
    let p := Player.set_invincibleTimer (fsub (Player.invincibleTimer p) gameDt) p in
    if fleb (Player.invincibleTimer p) fzero then Player.set_invincible false p else p
  else p.

(** Knight block. *)
Definition knightBlock (inp : Input) (gameDt : float) (p : Player.t) : Player.t :=
  let p :=
    if negb (Player.blocking p) && fleb (Player.blockCooldownTimer p) fzero
       && IsKeyPressed inp KEY_K
    then
      let p := Player.set_blocking true p in
      let p := Player.set_blockTimer (dec 7 1) p in
      Player.set_blockCooldownTimer (Player.blockCooldown p) p
    else p in
  if Player.blocking p then
    let p := Player.set_blockTimer (fsub (Player.blockTimer p) gameDt) p in
    if fleb (Player.blockTimer p) fzero then Player.set_blocking false p else p
  else p.

(** Rogue dodge. *)
Definition rogueDodge (inp : Input) (gameDt : float) (p : Player.t) : Player.t :=
  let p :=
    if negb (Player.dodging p) && fleb (Player.dodgeCooldownTimer p) fzero
       && IsKeyPressed inp KEY_K
    then
      let p := Player.set_dodging true p in
      let p := Player.set_dodgeTimer (Player.dodgeDuration p) p in
      let p := Player.set_dodgeCooldownTimer (Player.dodgeCooldown p) p in
      let p := Player.set_dodgeDir
                 (if Player.facingRight p then of_int 1 else of_int (-1)) p in
      let p := Player.set_invincible true p in
      Player.set_invincibleTimer (Player.dodgeDuration p) p
    else p in
  if Player.dodging p then
    let p := Player.set_dodgeTimer (fsub (Player.dodgeTimer p) gameDt) p in
    if fleb (Player.dodgeTimer p) fzero then Player.set_dodging false p else p
  else p.

(** Mage blink. *)
Definition mageBlink (inp : Input) (p : Player.t) : Player.t :=
  if fleb (Player.blinkCooldownTimer p) fzero && IsKeyPressed inp KEY_K then
    let dir := if Player.facingRight p then of_int 1 else of_int (-1) in
    let blinkDist := of_int 150 in
    let x := fadd (vx (Player.pos p)) (fmul dir blinkDist) in
    let x := if fltb x (of_int 0) then of_int 0 else x in
    let x := if fltb LEVEL_LENGTH x then LEVEL_LENGTH else x in
    let p := Player.set_pos (mkVector2 x (vy (Player.pos p))) p in
    let p := Player.set_blinkCooldownTimer (Player.blinkCooldown p) p in
    let p := Player.set_invincible true p in
    Player.set_invincibleTimer (dec 15 2) p
  else p.

Definition classAbility (inp : Input) (gameDt : float) (pc : PlayerClass)
    (p : Player.t) : Player.t :=
  let p := if PlayerClass_eqb pc KNIGHT then knightBlock inp gameDt p else p in
  let p := if PlayerClass_eqb pc ROGUE then rogueDodge inp gameDt p else p in
  if PlayerClass_eqb pc MAGE then mageBlink inp p else p.

(** The combo-idle timer. *)
Definition comboTick (gameDt : float) (p : Player.t) : Player.t :=
  let p := Player.set_comboTimer (fadd (Player.comboTimer p) gameDt) p in
  if fltb COMBO_RESET_TIME (Player.comboTimer p) then
    let p := Player.set_comboTimer fzero p in
    Player.set_comboStep 0 p
  else p.

(** Duration, range, width and height of a melee swing by class and step. *)
Definition meleeShape (pc : PlayerClass) (comboStep : Z) : float * float * float * float :=
  match pc with
  | KNIGHT =>
      if comboStep =? 1 then (dec 28 2, of_int 55, of_int 60, of_int 70)
      else if comboStep =? 2 then (dec 32 2, of_int 65, of_int 70, of_int 75)
      else (dec 40 2, of_int 80, of_int 85, of_int 80)
  | _ =>
      if comboStep =? 1 then (dec 12 2, of_int 45, of_int 35, of_int 55)
      else if comboStep =? 2 then (dec 14 2, of_int 55, of_int 40, of_int 55)
      else (dec 16 2, of_int 60, of_int 45, of_int 55)
  end.

(** The projectile a Mage attack spawns. *)
Definition mageProjectile (p : Player.t) (pc : PlayerClass) (dir : float) (id : Z)
    : Projectile.t :=
  let step := Player.comboStep p in
  {| Projectile.pos :=
       mkVector2 (fadd (vx (Player.pos p)) (fmul dir (of_int 30)))
                 (fsub (vy (Player.pos p)) (of_int 25));
     Projectile.vel :=
       mkVector2
         (fmul dir (if step =? 1 then of_int 420
                    else if step =? 2 then of_int 460 else of_int 520))
         fzero;
     Projectile.radius :=
       if step =? 1 then of_int 18 else if step =? 2 then of_int 22 else of_int 26;
     Projectile.life := dec 12 1;
     Projectile.active := true;
     Projectile.damage := comboDamage pc (Player.baseDamage p) step;
     Projectile.id := id |}.

(** ATTACK / COMBO: the attack-input edge.  A melee class takes the next
    value of [gAttackCounter] as the id of the swing and places the hitbox;
    the Mage takes the next value of [gProjectileCounter] and spawns a
    projectile. *)
Definition attackInput (inp : Input) (g : Game.t) : Game.t :=
  let p := Game.player g in
  let pc := Game.playerClass g in
  let meleeClass := PlayerClass_eqb pc KNIGHT || PlayerClass_eqb pc ROGUE in
  if negb (Player.attacking p) && IsKeyPressed inp KEY_J then
    let p := Player.set_attacking true p in
    let p := Player.set_attackTimer fzero p in
    let p := Player.set_attackDuration (dec 15 2) p in
    let p := Player.set_comboTimer fzero p in
    let p := Player.set_comboStep (iadd (Player.comboStep p) 1) p in
    let p := if 3 <? Player.comboStep p then Player.set_comboStep 1 p else p in
    let dir := if Player.facingRight p then of_int 1 else of_int (-1) in
    if meleeClass then
      let g := Game.set_gAttackCounter (iadd (Game.gAttackCounter g) 1) g in
      let p := Player.set_currentAttackId (Game.gAttackCounter g) p in
      let '(duration, attackRange, attackWidth, attackHeight) :=
        meleeShape pc (Player.comboStep p) in
      let p := Player.set_attackDuration duration p in
      let attackWidth := fadd attackWidth (of_int 20) in
      let center :=
        mkVector2 (fadd (vx (Player.pos p)) (fmul dir (fmul attackRange (dec 6 1))))
                  (vy (Player.pos p)) in
      let p := Player.set_attackHitbox
                 (MakeRect center (mkVector2 attackWidth attackHeight)) p in
      Game.set_player p g
    else
      let p := Player.set_attackDuration (dec 22 2) p in
      let g := Game.set_gProjectileCounter (iadd (Game.gProjectileCounter g) 1) g in
      let proj := mageProjectile p pc dir (Game.gProjectileCounter g) in
      let g := Game.set_projectiles (Game.projectiles g ++ [proj]) g in
      Game.set_player p g
  else g.

Definition attackTick (gameDt : float) (p : Player.t) : Player.t :=
  if Player.attacking p then
    let p := Player.set_attackTimer (fadd (Player.attackTimer p) gameDt) p in
    if fltb (Player.attackDuration p) (Player.attackTimer p)
    then Player.set_attacking false p else p
  else p.

(** [sprite && sprite->width > 0]. *)
Definition spriteLoaded `{Raylib} (s : option Texture) : bool :=
  match s with
  | Some t => 0 <? textureWidth t
  | None => false
  end.

(** PLAYER ANIMATION UPDATE. *)
Definition playerAnimation `{Raylib} (move : Vector2) (gameDt : float) (p : Player.t)
    : Player.t :=
  if spriteLoaded (Player.sprite p) then
    let isMoving := fltb (dec 1 2) (fabs (vx move)) || fltb (dec 1 2) (fabs (vy move)) in
    let p :=
      if Player.attacking p then Player.set_animRow 2 p
      else if isMoving then Player.set_animRow 1 p
      else Player.set_animRow 0 p in
    let p := Player.set_animTimer (fadd (Player.animTimer p) gameDt) p in
    if fleb (Player.animFrameTime p) (Player.animTimer p) then
      let p := Player.set_animTimer fzero p in
      Player.set_animFrame
        (irem (iadd (Player.animFrame p) 1) (Player.animMaxFrames p)) p
    else p
  else p.

(* ------------------------------------------------------------------ *)
(** ** The PLAYING frame: spawning and projectiles *)
(* ------------------------------------------------------------------ *)

(** ENEMY SPAWNING.  [k] counts the calls of [GetRandomValue] made so far in
    the frame. *)
Definition spawnEnemy (inp : Input) (gameDt : float) (g : Game.t) (k : nat)
    : Game.t * nat :=
  let g := Game.set_enemySpawnTimer (fadd (Game.enemySpawnTimer g) gameDt) g in
  if fltb ENEMY_SPAWN_INTERVAL (Game.enemySpawnTimer g) && negb (Game.bossSpawned g) then
    let g := Game.set_enemySpawnTimer fzero g in
    let laneY := fadd GROUND_TOP (of_int (GetRandomValue inp k 0 100)) in
    let laneY := if fltb GROUND_BOTTOM laneY then GROUND_BOTTOM else laneY in
    let spawnX :=
      fadd (vx (Player.pos (Game.player g)))
           (of_int (GetRandomValue inp (S k) 250 450)) in
    let spawnX := if fltb spawnX (of_int 400) then of_int 400 else spawnX in
    let hi := fsub LEVEL_LENGTH (of_int 300) in
    let spawnX := if fltb hi spawnX then hi else spawnX in
    let r := GetRandomValue inp (S (S k)) 0 2 in
    let type := if r =? 1 then FAST else if r =? 2 then TANK else GRUNT in
    (Game.set_enemies (Game.enemies g ++ [MakeEnemy type spawnX laneY]) g, S (S (S k)))
  else (g, k).

(** Spawn boss near the end. *)
Definition spawnBoss (g : Game.t) : Game.t :=
  if negb (Game.bossSpawned g)
     && fltb (fsub LEVEL_LENGTH (of_int 600)) (vx (Player.pos (Game.player g)))
  then
    let g := Game.set_bossSpawned true g in
    let laneY := fmul (fadd GROUND_TOP GROUND_BOTTOM) (dec 5 1) in
    Game.set_enemies
      (Game.enemies g ++ [MakeEnemy BOSS (fsub LEVEL_LENGTH (of_int 200)) laneY]) g
  else g.

(** PROJECTILES UPDATE (Mage): one projectile. *)
Definition updateProjectile (gameDt : float) (p : Projectile.t) : Projectile.t :=
  if negb (Projectile.active p) then p
  else
    let pos := Projectile.pos p in
    let vel := Projectile.vel p in
    let p := Projectile.set_pos
               (mkVector2 (fadd (vx pos) (fmul (vx vel) gameDt))
                          (fadd (vy pos) (fmul (vy vel) gameDt))) p in
    let p := Projectile.set_life (fsub (Projectile.life p) gameDt) p in
    if fleb (Projectile.life p) fzero
       || fltb (vx (Projectile.pos p)) (of_int (-200))
       || fltb (fadd LEVEL_LENGTH (of_int 200)) (vx (Projectile.pos p))
    then Projectile.set_active false p
    else p.

(* ------------------------------------------------------------------ *)
(** ** The PLAYING frame: enemies *)
(* ------------------------------------------------------------------ *)

(** The coins an enemy drops when it dies. *)
Definition coinCount (type : EnemyType) : Z :=
  let coinCount := 1 in
  let coinCount := if EnemyType_eqb type TANK then 3 else coinCount in
  if EnemyType_eqb type BOSS then 10 else coinCount.

(** [for (i = 0; i < coinCount; ++i) coins.push_back(...)]: each coin draws
    two random numbers, the horizontal jitter first. *)
Fixpoint dropCoins (inp : Input) (pos : Vector2) (n : nat) (coins : list Coin.t) (k : nat)
    : list Coin.t * nat :=
  match n with
  | O => (coins, k)
  | S n' =>
      let c :=
        {| Coin.pos :=
             mkVector2 (fadd (vx pos) (of_int (GetRandomValue inp k (-10) 10)))
                       (fsub (vy pos) (of_int (GetRandomValue inp (S k) 0 20)));
           Coin.collected := false |} in
      dropCoins inp pos n' (coins ++ [c]) (S (S k))
  end.

(** The block both resolvers run after subtracting damage:
    [if (e.hp <= 0) { e.alive = false; ...coins...; boss => VICTORY }]. *)
Definition enemyDeath (inp : Input) (e : Enemy.t) (g : Game.t) (k : nat)
    : Enemy.t * Game.t * nat :=
  if Enemy.hp e <=? 0 then
    let e := Enemy.set_alive false e in
    let '(coins, k) :=
      dropCoins inp (Enemy.pos e) (Z.to_nat (coinCount (Enemy.type e))) (Game.coins g) k in
    let g := Game.set_coins coins g in
    if EnemyType_eqb (Enemy.type e) BOSS then
      let g := Game.set_bossDefeated true g in
      (e, Game.set_state VICTORY g, k)
    else (e, g, k)
  else (e, g, k).

(** Movement only if not in windup / attack anim.  Returns the enemy and its
    rectangle [er]. *)
Definition enemyMovement (gameDt : float) (p : Player.t) (e : Enemy.t) (er : Rectangle)
    : Enemy.t * Rectangle :=
  if negb (Enemy.windingUp e) && negb (Enemy.attackingAnim e) then
    let dx := fsub (vx (Player.pos p)) (vx (Enemy.pos e)) in
    let dy := fsub (vy (Player.pos p)) (vy (Enemy.pos e)) in
    let dist := fsqrt (fadd (fmul dx dx) (fmul dy dy)) in
    let '(dx, dy) :=
      if fltb (of_int 5) dist then (fdiv dx dist, fdiv dy dist) else (fzero, fzero) in
    let x := fadd (vx (Enemy.pos e)) (fmul (fmul dx (Enemy.speed e)) gameDt) in
    let y := fadd (vy (Enemy.pos e))
                  (fmul (fmul (fmul dy (Enemy.speed e)) (dec 6 1)) gameDt) in
    let y := if fltb y GROUND_TOP then GROUND_TOP else y in
    let y := if fltb GROUND_BOTTOM y then GROUND_BOTTOM else y in
    let e := Enemy.set_pos (mkVector2 x y) e in
    (e, MakeRect (Enemy.pos e) (Enemy.size e))
  else (e, er).

(** Enemy attack windup + telegraph: entering the windup. *)
Definition enemyWindupStart `{Raylib} (e : Enemy.t) (er pr : Rectangle) : Enemy.t :=
  if negb (Enemy.windingUp e) && negb (Enemy.attackingAnim e)
     && fleb (Enemy.attackCooldown e) fzero && RectOverlap er pr
  then
    let e := Enemy.set_windingUp true e in
    let baseWindup :=
      match Enemy.type e with
      | FAST => dec 25 2
      | TANK => dec 45 2
      | BOSS => dec 6 1
      | GRUNT => dec 35 2
      end in
    Enemy.set_windupTimer baseWindup e
  else e.

(** The damage an enemy's hit deals, by type. *)
Definition enemyDamage (type : EnemyType) : Z :=
  let dmg := 6 in
  let dmg := if EnemyType_eqb type FAST then 8 else dmg in
  let dmg := if EnemyType_eqb type TANK then 13 else dmg in
  if EnemyType_eqb type BOSS then 20 else dmg.

(** Mitigation of an enemy's hit: [finalDmg]. *)
Definition mitigate (pc : PlayerClass) (p : Player.t) (dmg : Z) : Z :=
  if Player.invincible p then 0
  else if Player.blocking p && PlayerClass_eqb pc KNIGHT then idiv dmg 3
  else dmg.

(** The hit an enemy lands when its windup expires on an overlapping
    player: [player.hp] and [gHitStopTimer]. *)
Definition enemyStrike (type : EnemyType) (g : Game.t) : Game.t :=
  let dmg := enemyDamage type in
  let finalDmg := mitigate (Game.playerClass g) (Game.player g) dmg in
  if 0 <? finalDmg then
    let p := Game.player g in
    let p := Player.set_hp (isub (Player.hp p) finalDmg) p in
    let p := if Player.hp p <? 0 then Player.set_hp 0 p else p in
    let g := Game.set_player p g in
    Game.set_gHitStopTimer (fmax (Game.gHitStopTimer g) (dec 5 2)) g
  else g.

(** [if (e.windingUp) { ... }]: the windup countdown and, on expiry, the
    re-tested hit followed by the attack animation and the cooldown. *)
Definition enemyWindup `{Raylib} (gameDt : float) (e : Enemy.t) (g : Game.t)
    (pr : Rectangle) : Enemy.t * Game.t * Rectangle :=
  if Enemy.windingUp e then
    let e := Enemy.set_windupTimer (fsub (Enemy.windupTimer e) gameDt) e in
    if fleb (Enemy.windupTimer e) fzero then
      let er := MakeRect (Enemy.pos e) (Enemy.size e) in
      let pr := MakeRect (Player.pos (Game.player g)) (Player.size (Game.player g)) in
      let g := if RectOverlap er pr then enemyStrike (Enemy.type e) g else g in
      let e := Enemy.set_windingUp false e in
      let e := Enemy.set_attackingAnim true e in
      let e := Enemy.set_attackAnimTimer (dec 22 2) e in
      let e := Enemy.set_attackCooldown (dec 11 1) e in
      (e, g, pr)
    else (e, g, pr)
  else (e, g, pr).

Definition enemyAttackAnim (gameDt : float) (e : Enemy.t) : Enemy.t :=
  if Enemy.attackingAnim e then
    let e := Enemy.set_attackAnimTimer (fsub (Enemy.attackAnimTimer e) gameDt) e in
    if fleb (Enemy.attackAnimTimer e) fzero then Enemy.set_attackingAnim false e else e
  else e.

(** Enemy animation. *)
Definition enemyAnimation `{Raylib} (gameDt : float) (e : Enemy.t) : Enemy.t :=
  if spriteLoaded (Enemy.sprite e) then
    let e :=
      if Enemy.windingUp e || Enemy.attackingAnim e
      then Enemy.set_animRow 1 e else Enemy.set_animRow 0 e in
    let e := Enemy.set_animTimer (fadd (Enemy.animTimer e) gameDt) e in
    if fleb (Enemy.animFrameTime e) (Enemy.animTimer e) then
      let e := Enemy.set_animTimer fzero e in
      Enemy.set_animFrame (irem (iadd (Enemy.animFrame e) 1) (Enemy.animMaxFrames e)) e
    else e
  else e.

(** Knockback distance of a melee hit. *)
Definition knockDist (pc : PlayerClass) (comboStep : Z) : float :=
  match pc with
  | KNIGHT => if comboStep =? 3 then of_int 90 else of_int 35
  | _ => of_int 22
  end.

(** Player melee attack hits enemy: one hit per enemy per attackId. *)
Definition meleeHit `{Raylib} (inp : Input) (e : Enemy.t) (g : Game.t) (k : nat)
    : Enemy.t * Game.t * nat :=
  let p := Game.player g in
  let pc := Game.playerClass g in
  let meleeClassLocal := PlayerClass_eqb pc KNIGHT || PlayerClass_eqb pc ROGUE in
  if meleeClassLocal && Player.attacking p && (0 <=? Player.currentAttackId p) then
    let er := MakeRect (Enemy.pos e) (Enemy.size e) in
    if negb (Enemy.lastHitAttackId e =? Player.currentAttackId p)
       && RectOverlap (Player.attackHitbox p) er
    then
      let e := Enemy.set_lastHitAttackId (Player.currentAttackId p) e in
      let dmg := comboDamage pc (Player.baseDamage p) (Player.comboStep p) in
      let e := Enemy.set_hp (isub (Enemy.hp e) dmg) e in
      let g := Game.set_gHitStopTimer
                 (fmax (Game.gHitStopTimer g)
                       (if PlayerClass_eqb pc KNIGHT && (Player.comboStep p =? 3)
                        then dec 6 2 else dec 3 2)) g in
      let kdDir :=
        if fltb (vx (Enemy.pos e)) (vx (Player.pos p)) then of_int (-1) else of_int 1 in
      let e := Enemy.set_pos
                 (mkVector2 (fadd (vx (Enemy.pos e)) (fmul kdDir (knockDist pc (Player.comboStep p))))
                            (vy (Enemy.pos e))) e in
      enemyDeath inp e g k
    else (e, g, k)
  else (e, g, k).

(** The first half of the body of [for (auto& e : enemies)]: movement,
    cooldown, windup, hit on the player, attack animation, sprite animation.
    The local [pr] travels with the game state. *)
Definition enemyAI `{Raylib} (gameDt : float) (e : Enemy.t) (g : Game.t) (pr : Rectangle)
    : Enemy.t * Game.t * Rectangle :=
  let er := MakeRect (Enemy.pos e) (Enemy.size e) in
  let '(e, er) := enemyMovement gameDt (Game.player g) e er in
  let e := Enemy.set_attackCooldown (fsub (Enemy.attackCooldown e) gameDt) e in
  let e := if fltb (Enemy.attackCooldown e) fzero
           then Enemy.set_attackCooldown fzero e else e in
  let e := enemyWindupStart e er pr in
  let '(e, g, pr) := enemyWindup gameDt e g pr in
  let e := enemyAttackAnim gameDt e in
  let e := enemyAnimation gameDt e in
  (e, g, pr).

(** The body of [for (auto& e : enemies)] in ENEMY AI + DAMAGE: a dead enemy
    is skipped, a living one runs its AI and is then tested against the
    player's melee hitbox.  [k] counts the random draws. *)
Definition updateEnemy `{Raylib} (inp : Input) (gameDt : float) (e : Enemy.t)
    (s : Game.t * Rectangle * nat) : Enemy.t * (Game.t * Rectangle * nat) :=
  let '(g, pr, k) := s in
  if negb (Enemy.alive e) then (e, s)
  else
    let '(e, g, pr) := enemyAI gameDt e g pr in
    let '(e, g, k) := meleeHit inp e g k in
    (e, (g, pr, k)).

(** A loop [for (auto& x : xs) body] that updates each element in place and
    threads the rest of the state. *)
Fixpoint forEach {A St : Type} (body : A -> St -> A * St) (xs : list A) (s : St)
    : list A * St :=
  match xs with
  | [] => ([], s)
  | x :: rest =>
      let '(x', s') := body x s in
      let '(rest', s'') := forEach body rest s' in
      (x' :: rest', s'')
  end.

(** ENEMY AI + DAMAGE.  During the loop the field [Game.enemies] of the
    threaded state is not read; it is written back at the end. *)
Definition enemyLoop `{Raylib} (inp : Input) (gameDt : float) (g : Game.t) (k : nat)
    : Game.t * nat :=
  let pr := MakeRect (Player.pos (Game.player g)) (Player.size (Game.player g)) in
  let '(es, (g', _, k')) := forEach (updateEnemy inp gameDt) (Game.enemies g) (g, pr, k) in
  (Game.set_enemies es g', k').

(** Mage projectiles (piercing, 1 hit per enemy, NO hitstop): the body of the
    inner loop, one projectile against one enemy. *)
Definition projectileHit `{Raylib} (inp : Input) (p : Projectile.t) (e : Enemy.t)
    (s : Game.t * nat) : Enemy.t * (Game.t * nat) :=
  let '(g, k) := s in
  if negb (Enemy.alive e) then (e, s)
  else
    let er := MakeRect (Enemy.pos e) (Enemy.size e) in
    if CheckCollisionCircleRec (Projectile.pos p) (Projectile.radius p) er then
      if negb (Enemy.lastProjectileHitId e =? Projectile.id p) then
        let e := Enemy.set_lastProjectileHitId (Projectile.id p) e in
        let e := Enemy.set_hp (isub (Enemy.hp e) (Projectile.damage p)) e in
        let '(e, g, k) := enemyDeath inp e g k in
        (e, (g, k))
      else (e, s)
    else (e, s).

(** The outer loop over the projectiles; the enemies are updated in place by
    each active projectile in turn. *)
Fixpoint projectilesVsEnemies `{Raylib} (inp : Input) (ps : list Projectile.t)
    (es : list Enemy.t) (s : Game.t * nat) : list Enemy.t * (Game.t * nat) :=
  match ps with
  | [] => (es, s)
  | p :: rest =>
      if negb (Projectile.active p) then projectilesVsEnemies inp rest es s
      else
        let '(es', s') := forEach (projectileHit inp p) es s in
        projectilesVsEnemies inp rest es' s'
  end.

Definition projectileLoop `{Raylib} (inp : Input) (g : Game.t) (k : nat) : Game.t * nat :=
  if PlayerClass_eqb (Game.playerClass g) MAGE then
    let '(es, (g', k')) :=
      projectilesVsEnemies inp (Game.projectiles g) (Game.enemies g) (g, k) in
    (Game.set_enemies es g', k')
  else (g, k).

(* ------------------------------------------------------------------ *)
(** ** The PLAYING frame: coins, game over, camera *)
(* ------------------------------------------------------------------ *)

(** COINS: the body of the loop, threading the player. *)
Definition collectCoin `{Raylib} (c : Coin.t) (p : Player.t) : Coin.t * Player.t :=
  if Coin.collected c then (c, p)
  else
    let cr := mkRectangle (fsub (vx (Coin.pos c)) (of_int 6))
                          (fsub (vy (Coin.pos c)) (of_int 6))
                          (of_int 12) (of_int 12) in
    let pr := MakeRect (Player.pos p) (Player.size p) in
    if RectOverlap cr pr then
      (Coin.set_collected true c, Player.set_coins (iadd (Player.coins p) 1) p)
    else (c, p).

Definition collectCoins `{Raylib} (g : Game.t) : Game.t :=
  let '(cs, p) := forEach collectCoin (Game.coins g) (Game.player g) in
  Game.set_player p (Game.set_coins cs g).

(** HP / Game Over. *)
Definition checkGameOver (g : Game.t) : Game.t :=
  if Player.hp (Game.player g) <=? 0 then Game.set_state GAMEOVER g else g.

Definition updateCamera (g : Game.t) : Game.t :=
  Game.set_cameraTarget
    (mkVector2 (vx (Player.pos (Game.player g)))
               (fmul (fadd GROUND_TOP GROUND_BOTTOM) (dec 5 1))) g.

(** Lifts an update of the player to the game state. *)
Definition onPlayer (f : Player.t -> Player.t) (g : Game.t) : Game.t :=
  Game.set_player (f (Game.player g)) g.

(* ------------------------------------------------------------------ *)
(** ** The frame *)
(* ------------------------------------------------------------------ *)

(** The branch [state == GameState::PLAYING], first part: from "Input &
    movement" to "PLAYER ANIMATION UPDATE".  Only the player, the phase (TAB)
    and, through the attack, the two id counters and the projectile list are
    written. *)
Definition playerPhase `{Raylib} (inp : Input) (gameDt : float) (g : Game.t) : Game.t :=
  let move := effectiveMove inp (Game.player g) in
  let g := onPlayer (movePlayer inp gameDt) g in
  let g := if IsKeyPressed inp KEY_TAB then Game.set_state SHOP g else g in
  let g := onPlayer (abilityTimers gameDt) g in
  let g := onPlayer (classAbility inp gameDt (Game.playerClass g)) g in
  let g := onPlayer (comboTick gameDt) g in
  let g := attackInput inp g in
  let g := onPlayer (attackTick gameDt) g in
  onPlayer (playerAnimation move gameDt) g.

(** Second part: "ENEMY SPAWNING", the boss, "PROJECTILES UPDATE". *)
Definition spawnPhase (inp : Input) (gameDt : float) (g : Game.t) : Game.t * nat :=
  let '(g, k) := spawnEnemy inp gameDt g 0 in
  let g := spawnBoss g in
  (Game.set_projectiles (map (updateProjectile gameDt) (Game.projectiles g)) g, k).

(** The branch [state == GameState::PLAYING], in source order. *)
Definition updatePlaying `{Raylib} (inp : Input) (gameDt : float) (g : Game.t) : Game.t :=
  let g := playerPhase inp gameDt g in
  let '(g, k) := spawnPhase inp gameDt g in
  let '(g, k) := enemyLoop inp gameDt g k in
  let '(g, k) := projectileLoop inp g k in
  let g := collectCoins g in
  let g := checkGameOver g in
  updateCamera g.

(** The branch [state == GameState::MENU]. *)
Definition updateMenu (inp : Input) (g : Game.t) : Game.t :=
  let size := Z.of_nat (List.length classes) in
  let g :=
    if IsKeyPressed inp KEY_RIGHT
    then Game.set_selectedClassIndex (irem (iadd (Game.selectedClassIndex g) 1) size) g
    else g in
  let g :=
    if IsKeyPressed inp KEY_LEFT then
      let g := Game.set_selectedClassIndex (isub (Game.selectedClassIndex g) 1) g in
      if Game.selectedClassIndex g <? 0
      then Game.set_selectedClassIndex (isub size 1) g else g
    else g in
  if IsKeyPressed inp KEY_ENTER then Game.set_state PLAYING (ResetGame g) else g.

(** The purchase on ENTER in the shop. *)
Definition purchase (p : Player.t) (shopSelection : Z) : Player.t :=
  match GetUpgradeCost p shopSelection with
  | Some cost =>
      if cost <=? Player.coins p then
        let p := Player.set_coins (isub (Player.coins p) cost) p in
        ApplyUpgrade p shopSelection
      else p
  | None => p
  end.

(** The selection keys of the shop. *)
Definition shopNavigate (inp : Input) (g : Game.t) : Game.t :=
  let g :=
    if IsKeyPressed inp KEY_DOWN then
      let g := Game.set_shopSelection (iadd (Game.shopSelection g) 1) g in
      if 2 <? Game.shopSelection g then Game.set_shopSelection 0 g else g
    else g in
  if IsKeyPressed inp KEY_UP then
    let g := Game.set_shopSelection (isub (Game.shopSelection g) 1) g in
    if Game.shopSelection g <? 0 then Game.set_shopSelection 2 g else g
  else g.

(** The branch [state == GameState::SHOP]. *)
Definition updateShop (inp : Input) (g : Game.t) : Game.t :=
  let g := shopNavigate inp g in
  let g :=
    if IsKeyPressed inp KEY_ENTER
    then onPlayer (fun p => purchase p (Game.shopSelection g)) g
    else g in
  if IsKeyPressed inp KEY_TAB || IsKeyPressed inp KEY_ESCAPE
  then Game.set_state PLAYING g else g.

(** The branches [GAMEOVER] and [VICTORY]. *)
Definition updateRestart (inp : Input) (g : Game.t) : Game.t :=
  if IsKeyPressed inp KEY_ENTER then Game.set_state PLAYING (ResetGame g) else g.

(** [realDt]: the frame time, clamped. *)
Definition realDt (inp : Input) : float :=
  if fltb (dec 5 2) (GetFrameTime inp) then dec 5 2 else GetFrameTime inp.

(** Hit stop: the countdown of [gHitStopTimer] by [realDt]. *)
Definition hitStopTick (inp : Input) (hitStop : float) : float :=
  let t := fsub hitStop (realDt inp) in
  if fltb t fzero then fzero else t.

(** [gameDt], from the timer after its countdown. *)
Definition gameDt (inp : Input) (hitStop : float) : float :=
  if fltb fzero (hitStopTick inp hitStop) then fzero else realDt inp.

(** One iteration of the game loop, up to [BeginDrawing]. *)
Definition frame `{Raylib} (inp : Input) (g : Game.t) : Game.t :=
  let dt := gameDt inp (Game.gHitStopTimer g) in
  let g := Game.set_gHitStopTimer (hitStopTick inp (Game.gHitStopTimer g)) g in
  match Game.state g with
  | MENU => updateMenu inp g
  | PLAYING => updatePlaying inp dt g
  | SHOP => updateShop inp g
  | GAMEOVER => updateRestart inp g
  | VICTORY => updateRestart inp g
  end.

(** The game loop over a list of frames' inputs. *)
Fixpoint run `{Raylib} (inps : list Input) (g : Game.t) : Game.t :=
  match inps with
  | [] => g
  | inp :: rest => run rest (frame inp g)
  end.

(* ------------------------------------------------------------------ *)
(** ** A reference platform *)
(* ------------------------------------------------------------------ *)

(** raylib's rectangle test, as its [rshapes.c] computes it: strict overlap
    on both axes. *)
Definition aabbOverlap (a b : Rectangle) : bool :=
  fltb (rx a) (fadd (rx b) (rwidth b)) && fltb (rx b) (fadd (rx a) (rwidth a))
  && fltb (ry a) (fadd (ry b) (rheight b)) && fltb (ry b) (fadd (ry a) (rheight a)).

(** A circle against a rectangle: the circle's centre, moved to the nearest
    point of the rectangle, lies within the radius. *)
Definition circleRecOverlap (c : Vector2) (r : float) (b : Rectangle) : bool :=
  let clamp lo hi v := if fltb v lo then lo else if fltb hi v then hi else v in
  let nx := clamp (rx b) (fadd (rx b) (rwidth b)) (vx c) in
  let ny := clamp (ry b) (fadd (ry b) (rheight b)) (vy c) in
  let dx := fsub (vx c) nx in
  let dy := fsub (vy c) ny in
  fleb (fadd (fmul dx dx) (fmul dy dy)) (fmul r r).

(** The platform the examples run on: the two tests above and every texture
    loaded with width 64. *)
Definition referenceRaylib : Raylib := {|
  CheckCollisionRecs := aabbOverlap;
  CheckCollisionCircleRec := circleRecOverlap;
  textureWidth := fun _ => 64
|}.

(* ================================================================== *)
(** * Vocabulary of the properties *)
(* ================================================================== *)

(** [z] is a value of type [int]. *)
Definition is_int (z : Z) : Prop := INT_MIN <= z <= INT_MAX.

(** The level counter of upgrade track [i]. *)
Definition trackLevel (p : Player.t) (i : Z) : Z :=
  if i =? 0 then Player.damageLevel p
  else if i =? 1 then Player.healthLevel p
  else Player.speedLevel p.

(** The player after a successful purchase on track [i] at price [cost], built
    field by field: the balance drops by [cost], the track's level rises by
    one and the track's stat takes its increment. *)
Definition purchased (p : Player.t) (i cost : Z) : Player.t :=
  let p := Player.set_coins (Player.coins p - cost) p in
  if i =? 0 then
    Player.set_baseDamage (Player.baseDamage p + 3)
      (Player.set_damageLevel (Player.damageLevel p + 1) p)
  else if i =? 1 then
    Player.set_hp (Player.maxHP p + 15)
      (Player.set_maxHP (Player.maxHP p + 15)
         (Player.set_healthLevel (Player.healthLevel p + 1) p))
  else
    Player.set_speed (fadd (Player.speed p) (of_int 20))
      (Player.set_speedLevel (Player.speedLevel p + 1) p).

(* ------------------------------------------------------------------ *)
(** ** Concrete inputs and states for the examples *)
(* ------------------------------------------------------------------ *)

Definition Key_eqb (a b : Key) : bool :=
  match a, b with
  | KEY_A, KEY_A | KEY_D, KEY_D | KEY_W, KEY_W | KEY_S, KEY_S
  | KEY_LEFT, KEY_LEFT | KEY_RIGHT, KEY_RIGHT | KEY_UP, KEY_UP | KEY_DOWN, KEY_DOWN
  | KEY_J, KEY_J | KEY_K, KEY_K | KEY_TAB, KEY_TAB | KEY_ENTER, KEY_ENTER
  | KEY_ESCAPE, KEY_ESCAPE => true
  | _, _ => false
  end.

(** A frame of [dt] seconds with the keys [down] held and the keys [pressed]
    newly pressed; every random draw returns its lower bound. *)
Definition frameInput (dt : float) (down pressed : list Key) : Input :=
  mkInput dt
          (fun k => existsb (Key_eqb k) down)
          (fun k => existsb (Key_eqb k) pressed)
          (fun _ lo _ => lo).

(** The frame time of the examples: 0.05 s, the largest the loop accepts. *)
Definition dt50 : float := dec 5 2.

Definition idle : Input := frameInput dt50 [] [].
Definition press (k : Key) : Input := frameInput dt50 [] [k].
Definition hold (k : Key) : Input := frameInput dt50 [k] [].

(** A session of class [i] (0 Knight, 1 Rogue, 2 Mage) right after the menu's
    ENTER. *)
Definition sessionOf (i : Z) : Game.t :=
  Game.set_state PLAYING (ResetGame (Game.set_selectedClassIndex i initialGame)).

(** An enemy of the given type standing at [(x, y)] whose windup has 0.01 s
    left. *)
Definition windingEnemy (type : EnemyType) (x y : Z) : Enemy.t :=
  Enemy.set_windupTimer (dec 1 2)
    (Enemy.set_windingUp true (MakeEnemy type (of_int x) (of_int y))).

(** The player with the fields a purchase may write blanked out: two players
    agree on position, facing, attack and combo state, ability timers,
    invincibility and animation exactly when their images agree. *)
Definition outsideShop (p : Player.t) : Player.t :=
  Player.set_coins 0
    (Player.set_damageLevel 0
       (Player.set_healthLevel 0
          (Player.set_speedLevel 0
             (Player.set_baseDamage 0
                (Player.set_maxHP 0 (Player.set_hp 0 (Player.set_speed fzero p))))))).

(** The melee resolver is armed: a melee class, a swing in progress, an id
    issued. *)
Definition meleeActive (g : Game.t) : bool :=
  (PlayerClass_eqb (Game.playerClass g) KNIGHT || PlayerClass_eqb (Game.playerClass g) ROGUE)
  && Player.attacking (Game.player g)
  && (0 <=? Player.currentAttackId (Game.player g)).

(** The damage of the swing in progress. *)
Definition swingDamage (g : Game.t) : Z :=
  comboDamage (Game.playerClass g) (Player.baseDamage (Game.player g))
              (Player.comboStep (Game.player g)).

(** What an enemy keeps through its AI step: everything combat reads. *)
Definition combatView (e : Enemy.t) : Z * Z * bool * EnemyType * Z * Z :=
  (Enemy.hp e, Enemy.maxHP e, Enemy.alive e, Enemy.type e,
   Enemy.lastHitAttackId e, Enemy.lastProjectileHitId e).

(** The game with the fields that the two combat loops write blanked out
    (the player's HP, the hit-stop timer, the coins, the boss flag, the phase
    and the enemies): two games agree on everything else exactly when their
    images agree. *)
Definition combatErase (g : Game.t) : Game.t :=
  Game.set_player (Player.set_hp 0 (Game.player g))
    (Game.set_gHitStopTimer fzero
       (Game.set_coins []
          (Game.set_bossDefeated false
             (Game.set_state MENU (Game.set_enemies [] g))))).

(** What one frame's melee resolution may do to an enemy, given the current
    attack-instance id [a] and the swing's damage [dmg]: nothing to its HP and
    stored id, or, for a living enemy whose stored id differs from [a], one
    subtraction of [dmg] together with the stamp [a]. *)
Definition meleeStep (a dmg : Z) (e e' : Enemy.t) : Prop :=
  (Enemy.hp e' = Enemy.hp e /\ Enemy.lastHitAttackId e' = Enemy.lastHitAttackId e)
  \/ (Enemy.alive e = true
      /\ Enemy.lastHitAttackId e <> a
      /\ Enemy.lastHitAttackId e' = a
      /\ Enemy.hp e' = isub (Enemy.hp e) dmg).

(** The game with the fields the player's part of the PLAYING frame writes
    blanked out (the player, the phase, both id counters, the projectiles). *)
Definition playerErase (g : Game.t) : Game.t :=
  Game.set_player (Game.player initialGame)
    (Game.set_state MENU
       (Game.set_gAttackCounter 0
          (Game.set_gProjectileCounter 0 (Game.set_projectiles [] g)))).

(** The player with everything the PLAYING frame's player part writes
    blanked out: what remains are name, size, max-HP, HP, speed, base damage,
    balance, levels, the per-class ability constants and the sprite data. *)
Definition playerStats (p : Player.t)
    : string * Vector2 * Z * Z * float * Z * Z * (Z * Z * Z)
      * (float * float * float * float) * (option Texture * Z * float) :=
  (Player.name p, Player.size p, Player.maxHP p, Player.hp p, Player.speed p,
   Player.baseDamage p, Player.coins p,
   (Player.damageLevel p, Player.healthLevel p, Player.speedLevel p),
   (Player.blockCooldown p, Player.dodgeDuration p, Player.dodgeCooldown p,
    Player.blinkCooldown p),
   (Player.sprite p, Player.animMaxFrames p, Player.animFrameTime p)).

(** The game with the fields the spawning part writes blanked out. *)
Definition spawnErase (g : Game.t) : Game.t :=
  Game.set_enemySpawnTimer fzero
    (Game.set_enemies [] (Game.set_bossSpawned false (Game.set_projectiles [] g))).

(** The game with the fields the frame's last part (coins, game over, camera)
    writes blanked out. *)
Definition afterErase (g : Game.t) : Game.t :=
  Game.set_player (Player.set_coins 0 (Game.player g))
    (Game.set_coins []
       (Game.set_state MENU (Game.set_cameraTarget (mkVector2 fzero fzero) g))).

(** The frame at [g] under [inp] restarts the session: ENTER in MENU,
    GAMEOVER or VICTORY. *)
Definition isReset (inp : Input) (g : Game.t) : bool :=
  match Game.state g with
  | MENU | GAMEOVER | VICTORY => IsKeyPressed inp KEY_ENTER
  | PLAYING | SHOP => false
  end.

(** The game with the fields blanked out that a frame outside PLAYING writes
    when it does not restart the session: the hit-stop timer, the two menu
    selections, the phase and the player's purchasable fields. *)
Definition quietErase (g : Game.t) : Game.t :=
  Game.set_gHitStopTimer fzero
    (Game.set_shopSelection 0
       (Game.set_selectedClassIndex 0
          (Game.set_state MENU (Game.set_player (outsideShop (Game.player g)) g)))).

(** After every frame of the run from [g] the player's current
    attack-instance id is [a]. *)
Fixpoint holdsId `{Raylib} (a : Z) (inps : list Input) (g : Game.t) : Prop :=
  match inps with
  | [] => True
  | inp :: rest =>
      Player.currentAttackId (Game.player (frame inp g)) = a
      /\ holdsId a rest (frame inp g)
  end.

(** A Knight's session with one Grunt standing 30 units to the right of the
    player. *)
Definition knightAndGrunt : Game.t :=
  Game.set_enemies [MakeEnemy GRUNT (of_int 130) (of_int 390)] (sessionOf 0).

(** The frame at [g] under [inp] takes the melee branch of the attack-input
    edge: PLAYING, no swing in progress, J pressed, Knight or Rogue. *)
Definition attackIssued (inp : Input) (g : Game.t) : bool :=
  GameState_eqb (Game.state g) PLAYING
  && negb (Player.attacking (Game.player g))
  && IsKeyPressed inp KEY_J
  && (PlayerClass_eqb (Game.playerClass g) KNIGHT
      || PlayerClass_eqb (Game.playerClass g) ROGUE).

(** The attack-instance ids issued along a run, oldest first. *)
Fixpoint issuedIds `{Raylib} (inps : list Input) (g : Game.t) : list Z :=
  match inps with
  | [] => []
  | inp :: rest =>
      let g' := frame inp g in
      if attackIssued inp g
      then Player.currentAttackId (Game.player g') :: issuedIds rest g'
      else issuedIds rest g'
  end.

(** No frame of the run restarts the session. *)
Fixpoint noReset `{Raylib} (inps : list Input) (g : Game.t) : bool :=
  match inps with
  | [] => true
  | inp :: rest => negb (isReset inp g) && noReset rest (frame inp g)
  end.

(** What the attack-input edge reads and writes of the player besides the
    swing's shape. *)
Definition attackView (p : Player.t) : bool * Z :=
  (Player.attacking p, Player.currentAttackId p).

(** A whole play-through on the keyboard: pick the Rogue in the menu, start,
    swing once, stand still until the Grunts have brought the player to 0 HP
    (338 frames of 0.05 s), restart from GAMEOVER, swing once. *)
Definition rogueDiesAndRestarts : list Input :=
  [frameInput dt50 [] [KEY_RIGHT]; press KEY_ENTER; press KEY_J]
  ++ repeat idle 338
  ++ [press KEY_ENTER; press KEY_J].

(** The player's ability cooldowns and invincibility timer. *)
Definition cooldownView (p : Player.t) : float * float * float * float :=
  (Player.blockCooldownTimer p, Player.dodgeCooldownTimer p,
   Player.blinkCooldownTimer p, Player.invincibleTimer p).

(** The player's animation cursor, with the frame time it is compared to. *)
Definition animView (p : Player.t) : float * Z * float :=
  (Player.animTimer p, Player.animFrame p, Player.animFrameTime p).

(** A frame of 0.016 s. *)
Definition dt16 : float := dec 16 3.
Definition idle16 : Input := frameInput dt16 [] [].

(** A play-through at 0.016 s per frame: a Knight starts, waits for the first
    Grunt, raises the block (K) nine frames before the Grunt's hit lands, and
    takes the blocked hit in the last frame. *)
Definition knightBlocksAHit : list Input :=
  [press KEY_ENTER] ++ repeat idle16 405 ++ [frameInput dt16 [] [KEY_K]] ++ repeat idle16 9.

(** A living enemy has positive HP. *)
Definition enemyOk (e : Enemy.t) : Prop :=
  Enemy.alive e = true -> 0 < Enemy.hp e.

(** How the combat of one frame may change an enemy: its type stays; a dead
    enemy is left exactly as it is; a living enemy with HP > 0 stays so or
    dies; and an enemy that dies ends with HP <= 0. *)
Definition combatStep (e e' : Enemy.t) : Prop :=
  Enemy.type e' = Enemy.type e
  /\ (Enemy.alive e = false -> e' = e)
  /\ (enemyOk e -> enemyOk e')
  /\ (Enemy.alive e = true -> Enemy.alive e' = false -> Enemy.hp e' <= 0).

(** An enemy as the spawner makes it. *)
Definition freshEnemy (e : Enemy.t) : Prop :=
  exists type x y, e = MakeEnemy type x y.

(** J pressed on every other frame, [n] times. *)
Fixpoint mashJ (n : nat) : list Input :=
  match n with
  | O => []
  | S n' => press KEY_J :: idle :: mashJ n'
  end.

(** A play-through: a Knight starts and keeps swinging; the first Grunt
    walks into the combo and dies in frame 154. *)
Definition knightKillsGrunt : list Input :=
  press KEY_ENTER :: firstn 153 (mashJ 77).

(** [x], when it is a number, lies in the closed interval from [lo] to
    [hi]. *)
Definition within (lo hi x : float) : Prop :=
  is_nan x = false -> fleb lo x = true /\ fleb x hi = true.

(** The two clamps [if (x < lo) x = lo; if (x > hi) x = hi;]. *)
Definition clamp2 (lo hi x : float) : float :=
  let x := if fltb x lo then lo else x in
  if fltb hi x then hi else x.

(** The random source answers within the bounds it is given, as raylib
    documents for [GetRandomValue]. *)
Definition randomInBounds (inp : Input) : Prop :=
  forall k lo hi, lo <= hi -> lo <= GetRandomValue inp k lo hi <= hi.

(** A play-through: a Knight walks to the left edge, swings twice in the
    air while the first Grunt arrives, steps past the Grunt, turns and lands
    the third swing of the combo on it. *)
Definition knightShovesGrunt : list Input :=
  [press KEY_ENTER] ++ repeat (hold KEY_A) 12 ++ repeat idle 130
  ++ [press KEY_J] ++ repeat idle 5 ++ [press KEY_J] ++ repeat idle 6
  ++ repeat (hold KEY_D) 6 ++ [frameInput dt50 [KEY_A] [KEY_J]].

(** The enemy's y, when it is a number, lies in the lane. *)
Definition enemyInLaneY (e : Enemy.t) : Prop :=
  within GROUND_TOP GROUND_BOTTOM (vy (Enemy.pos e)).

(** The lane height a spawn draws for the random number [r]. *)
Definition spawnLaneY (r : Z) : float :=
  let laneY := fadd GROUND_TOP (of_int r) in
  if fltb GROUND_BOTTOM laneY then GROUND_BOTTOM else laneY.

(** The enemy was alive in [e] and is dead in [e']. *)
Definition died (e e' : Enemy.t) : bool :=
  Enemy.alive e && negb (Enemy.alive e').

(** The coins a death drops, by the type of the enemy. *)
Definition dropOf (type : EnemyType) : nat :=
  match type with
  | BOSS => 10
  | TANK => 3
  | GRUNT | FAST => 1
  end.

(** The coins dropped by the enemies that died between the enemy list [es]
    and its update [es'] (same enemies, same order). *)
Fixpoint dropsBetween (es es' : list Enemy.t) : nat :=
  match es, es' with
  | e :: r, e' :: r' =>
      ((if died e e' then dropOf (Enemy.type e') else 0) + dropsBetween r r')%nat
  | _, _ => 0%nat
  end.

(** A boss died between [es] and [es']. *)
Fixpoint bossFell (es es' : list Enemy.t) : bool :=
  match es, es' with
  | e :: r, e' :: r' =>
      (died e e' && EnemyType_eqb (Enemy.type e') BOSS) || bossFell r r'
  | _, _ => false
  end.

(** The bookkeeping of deaths between two games whose enemy lists are [es]
    and [es']: the coins grew by the drops, the phase is VICTORY if a boss
    fell and is otherwise unchanged, and the boss flag follows. *)
Definition accounted (es es' : list Enemy.t) (g g' : Game.t) : Prop :=
  List.length (Game.coins g') = (List.length (Game.coins g) + dropsBetween es es')%nat
  /\ Game.state g' = (if bossFell es es' then VICTORY else Game.state g)
  /\ Game.bossDefeated g' = bossFell es es' || Game.bossDefeated g.

(** A Knight with 5 HP left pressed against a boss with 10 HP left whose
    windup has 0.01 s to run; 22 swings have been made so far, the last of
    which hit the boss. *)
Definition knightAndBossLastBlow : Game.t :=
  Game.set_enemies
    [Enemy.set_lastHitAttackId 22 (Enemy.set_hp 10 (windingEnemy BOSS 2730 390))]
    (Game.set_bossSpawned true
       (Game.set_gAttackCounter 22
          (onPlayer (fun p => Player.set_currentAttackId 22
                                (Player.set_hp 5
                                   (Player.set_pos (mkVector2 (of_int 2700) (of_int 390)) p)))
                    (sessionOf 0)))).


(** A play-through: the Mage is picked (RIGHT twice) and started, waits 190
    frames of 0.016 s for the first Grunt, then walks right (D) for fifteen
    frames and fires (J) in the first and in the last of them, so that the
    two projectiles fly 52 px apart. *)
Definition mageFiresTwiceWalking : list Input :=
  [press KEY_RIGHT; press KEY_RIGHT; press KEY_ENTER] ++ repeat idle16 190
  ++ [frameInput dt16 [KEY_D] [KEY_J]] ++ repeat (frameInput dt16 [KEY_D] []) 13
  ++ [frameInput dt16 [KEY_D] [KEY_J]].

(** What the projectile resolver reads and writes on the enemies: HP and the
    id of the projectile that hit last. *)
Definition projectileGate (g : Game.t) : list (Z * Z) :=
  map (fun e => (Enemy.hp e, Enemy.lastProjectileHitId e)) (Game.enemies g).

(** The projectiles in the game: id, damage fixed at spawn, active flag. *)
Definition inFlight (g : Game.t) : list (Z * Z * bool) :=
  map (fun p => (Projectile.id p, Projectile.damage p, Projectile.active p))
      (Game.projectiles g).

(* ------------------------------------------------------------------ *)
(** ** Vocabulary of the properties of the rest of the frame *)
(* ------------------------------------------------------------------ *)

(** The menu's class cursor after the frame's RIGHT and LEFT keys, read as
    the source handles them: RIGHT first, then LEFT. *)
Definition menuCursor (inp : Input) (i : Z) : Z :=
  match IsKeyPressed inp KEY_RIGHT, IsKeyPressed inp KEY_LEFT with
  | true, false => (i + 1) mod 3
  | false, true => (i + 2) mod 3
  | _, _ => i
  end.

(** What only the menu, the shop and a restart write: the two cursors and
    the class in play. *)
Definition cursorView (g : Game.t) : Z * Z * PlayerClass :=
  (Game.selectedClassIndex g, Game.shopSelection g, Game.playerClass g).

(** The edges of the phase machine. *)
Definition mayFollow (s s' : GameState) : bool :=
  match s, s' with
  | MENU, (MENU | PLAYING) => true
  | PLAYING, (PLAYING | SHOP | VICTORY | GAMEOVER) => true
  | SHOP, (SHOP | PLAYING) => true
  | VICTORY, (VICTORY | PLAYING) => true
  | GAMEOVER, (GAMEOVER | PLAYING) => true
  | _, _ => false
  end.

(** What only a purchase or a restart changes of the player: max-HP, base
    damage, speed and the three upgrade levels. *)
Definition upgradeView (p : Player.t) : Z * Z * float * (Z * Z * Z) :=
  (Player.maxHP p, Player.baseDamage p, Player.speed p,
   (Player.damageLevel p, Player.healthLevel p, Player.speedLevel p)).

(** The number of collected coins in a list. *)
Definition collectedCount (cs : list Coin.t) : Z :=
  Z.of_nat (List.length (filter Coin.collected cs)).

(** How a frame may change a coin: it stays where it is, and once collected
    it stays collected. *)
Definition coinStep (c c' : Coin.t) : Prop :=
  Coin.pos c' = Coin.pos c /\ (Coin.collected c = true -> Coin.collected c' = true).

(** The coin list of [g] is [cs0] followed by coins nobody has collected. *)
Definition grew (cs0 : list Coin.t) (g : Game.t) : Prop :=
  exists drops,
    Game.coins g = cs0 ++ drops /\ Forall (fun c => Coin.collected c = false) drops.

(** A Knight's fresh session with three coins on the ground: one under the
    player, one far away, and one under the player that is already
    collected. *)
Definition knightOnACoin : Game.t :=
  Game.set_coins
    [ {| Coin.pos := mkVector2 (of_int 100) (of_int 380); Coin.collected := false |};
      {| Coin.pos := mkVector2 (of_int 500) (of_int 380); Coin.collected := false |};
      {| Coin.pos := mkVector2 (of_int 100) (of_int 380); Coin.collected := true |} ]
    (sessionOf 0).

(** The values the hit-stop timer can have after a frame that counted it
    down to [t]: [t] itself, 0 after a restart, or the freeze of a hit. *)
Definition hitStopValues (t : float) : list float :=
  [t; fzero; dec 3 2; dec 5 2; dec 6 2].

(** The fields of the game the Mage's attack writes besides the player, with
    the class that decides it. *)
Definition projView (g : Game.t) : list Projectile.t * Z * PlayerClass :=
  (Game.projectiles g, Game.gProjectileCounter g, Game.playerClass g).

(** How a frame may change a projectile: id, damage, radius and velocity
    stay; an inactive projectile is left exactly as it is. *)
Definition projStep (p p' : Projectile.t) : Prop :=
  Projectile.id p' = Projectile.id p
  /\ Projectile.damage p' = Projectile.damage p
  /\ Projectile.radius p' = Projectile.radius p
  /\ Projectile.vel p' = Projectile.vel p
  /\ (Projectile.active p = false -> p' = p).

(** An active projectile has life left and is inside the strip from -200 to
    [LEVEL_LENGTH] + 200, as far as the comparisons of the source tell. *)
Definition inFlightOk (p : Projectile.t) : Prop :=
  Projectile.active p = true ->
  fleb (Projectile.life p) fzero = false
  /\ fltb (vx (Projectile.pos p)) (of_int (-200)) = false
  /\ fltb (fadd LEVEL_LENGTH (of_int 200)) (vx (Projectile.pos p)) = false.

(** The projectile ids are strictly increasing along the list and none is
    above the counter. *)
Definition projIdsOk (g : Game.t) : Prop :=
  StronglySorted Z.lt (map Projectile.id (Game.projectiles g))
  /\ Forall (fun i => i <= Game.gProjectileCounter g) (map Projectile.id (Game.projectiles g)).

(** The number of bosses in an enemy list, dead or alive. *)
Definition bossCount (es : list Enemy.t) : nat :=
  List.length (filter (fun e => EnemyType_eqb (Enemy.type e) BOSS) es).

(** There is at most one boss, and none before the boss has spawned. *)
Definition bossInv (g : Game.t) : Prop :=
  (bossCount (Game.enemies g) <= 1)%nat
  /\ (Game.bossSpawned g = false -> bossCount (Game.enemies g) = 0%nat).

(** The two ability flags of the player. *)
Definition abilityFlags (p : Player.t) : bool * bool :=
  (Player.blocking p, Player.dodging p).

(** Each mechanic belongs to one class: only the Knight blocks, only the
    Rogue dodges, only the Mage has projectiles, and the Mage never takes a
    melee attack id. *)
Definition classInv (g : Game.t) : Prop :=
  let p := Game.player g in
  (Game.playerClass g <> KNIGHT -> Player.blocking p = false)
  /\ (Game.playerClass g <> ROGUE -> Player.dodging p = false)
  /\ (Game.playerClass g <> MAGE ->
      Game.projectiles g = [] /\ Game.gProjectileCounter g = 0)
  /\ (Game.playerClass g = MAGE ->
      Game.gAttackCounter g = 0 /\ Player.currentAttackId p = -1).

(** A Rogue's fresh session with a Grunt on top of the player whose windup
    has 0.01 s to run. *)
Definition rogueAndWindingGrunt : Game.t :=
  Game.set_enemies [windingEnemy GRUNT 110 390] (sessionOf 1).

(** The attack cycle of an enemy is in one state at a time and its cooldown
    is not negative. *)
Definition cycleOk (e : Enemy.t) : Prop :=
  Enemy.windingUp e && Enemy.attackingAnim e = false
  /\ fltb (Enemy.attackCooldown e) fzero = false.

(** What [MakeEnemy] fixes by type. *)
Definition shapeView (e : Enemy.t)
    : Vector2 * Z * float * option Texture * Z * float :=
  (Enemy.size e, Enemy.maxHP e, Enemy.speed e, Enemy.sprite e,
   Enemy.animMaxFrames e, Enemy.animFrameTime e).

(** The enemy still has the size, max-HP, speed and sprite sheet of its
    type, and its animation cursor is on the sheet (4 columns, 2 rows). *)
Definition shapeOk (e : Enemy.t) : Prop :=
  shapeView e = shapeView (MakeEnemy (Enemy.type e) fzero fzero)
  /\ 0 <= Enemy.animFrame e < ENEMY_SPRITE_COLS
  /\ 0 <= Enemy.animRow e < ENEMY_SPRITE_ROWS.

(** What the combat resolvers leave alone on an enemy. *)
Definition bodyView (e : Enemy.t)
    : (bool * bool * float) * (Vector2 * Z * float * option Texture * Z * float)
      * (Z * Z) * EnemyType :=
  ((Enemy.windingUp e, Enemy.attackingAnim e, Enemy.attackCooldown e),
   shapeView e, (Enemy.animFrame e, Enemy.animRow e), Enemy.type e).

(** The indices the player carries into tables: the combo step (0 when
    idle, else the index of the multiplier) and the cursor on the sprite
    sheet of 4 columns and 3 rows. *)
Definition playerIndexOk (p : Player.t) : Prop :=
  0 <= Player.comboStep p <= 3
  /\ Player.animMaxFrames p = PLAYER_SPRITE_COLS
  /\ 0 <= Player.animFrame p < PLAYER_SPRITE_COLS
  /\ 0 <= Player.animRow p < PLAYER_SPRITE_ROWS.

Definition indexView (p : Player.t) : Z * Z * Z * Z :=
  (Player.comboStep p, Player.animMaxFrames p, Player.animFrame p, Player.animRow p).

(** The enemy is dead, winding up or in its attack animation. *)
Definition rooted (e : Enemy.t) : bool :=
  negb (Enemy.alive e) || Enemy.windingUp e || Enemy.attackingAnim e.

(** A rooted enemy does not walk: over a frame its y stays, and its x stays
    too unless a melee swing stamps it in this frame. *)
Definition rootStep (e e' : Enemy.t) : Prop :=
  rooted e = true ->
  vy (Enemy.pos e') = vy (Enemy.pos e)
  /\ (Enemy.pos e' = Enemy.pos e
      \/ (Enemy.alive e = true
          /\ Enemy.lastHitAttackId e' <> Enemy.lastHitAttackId e)).

(** What the projectile resolver leaves alone of an enemy's place and melee
    stamp. *)
Definition placeView (e : Enemy.t) : Vector2 * Z :=
  (Enemy.pos e, Enemy.lastHitAttackId e).

(** Where the spawner puts an enemy: the boss at (2800, 390); any other
    enemy at an x clamped to 400..2700 and at a lane height drawn from the
    random source. *)
Definition spawnedAt (inp : Input) (e : Enemy.t) : Prop :=
  exists type x y,
    e = MakeEnemy type x y
    /\ match type with
       | BOSS => x = of_int 2800 /\ y = of_int 390
       | _ =>
           within (of_int 400) (of_int 2700) x
           /\ (randomInBounds inp -> within GROUND_TOP GROUND_BOTTOM y)
       end.

(** A new enemy: alive at full HP, stamped by no attack and no projectile,
    idle in its attack cycle. *)
Definition pristine (e : Enemy.t) : Prop :=
  Enemy.alive e = true
  /\ Enemy.hp e = Enemy.maxHP e
  /\ 0 < Enemy.hp e
  /\ Enemy.lastHitAttackId e = -1
  /\ Enemy.lastProjectileHitId e = -1
  /\ rooted e = false.
(* ================================================================== *)
(** * Properties *)
(* ================================================================== *)

(** ** Machine integers *)


Lemma wrap_small (z : Z) : is_int z -> wrap z = z.
Proof.
  unfold is_int, wrap, INT_MIN, INT_MAX. intros Hz.
  rewrite Z.mod_small; lia.
Qed.

Lemma wrap_is_int (z : Z) : is_int (wrap z).
Proof.
  unfold is_int, wrap, INT_MIN, INT_MAX.
  pose proof (Z.mod_pos_bound (z + 2 ^ 31) (2 ^ 32) ltac:(lia)). lia.
Qed.

Ltac int_bounds := unfold is_int, INT_MIN, INT_MAX in *; lia.

(** Removes every [wrap] whose argument is provably an [int]. *)
Ltac unwrap :=
  unfold iadd, isub, imul in *;
  repeat match goal with
         | |- context [wrap ?z] => rewrite (wrap_small z) by int_bounds
         end.

Ltac int_arith := unwrap; try reflexivity; try int_bounds.

(** ** The shop *)



Lemma shopOption_inv (i : Z) (o : ShopOption) :
  shopOption i = Some o -> (i = 0 \/ i = 1 \/ i = 2) /\ baseCost o = 5.
Proof.
  unfold shopOption. destruct (i <? 0) eqn:Hneg; [discriminate|].
  apply Z.ltb_ge in Hneg.
  destruct (Z.to_nat i) as [|[|[|n]]] eqn:Hn; simpl; intros Ho.
  - inversion Ho; subst; simpl. split; [left; lia | reflexivity].
  - inversion Ho; subst; simpl. split; [right; left; lia | reflexivity].
  - inversion Ho; subst; simpl. split; [right; right; lia | reflexivity].
  - destruct n; discriminate.
Qed.

Lemma GetUpgradeCost_value (p : Player.t) (i : Z) (o : ShopOption) :
  shopOption i = Some o ->
  0 <= trackLevel p i ->
  baseCost o * (1 + trackLevel p i) <= INT_MAX ->
  GetUpgradeCost p i = Some (baseCost o * (1 + trackLevel p i)).
Proof.
  intros Ho Hl Hr. destruct (shopOption_inv _ _ Ho) as [Hi Hb].
  unfold GetUpgradeCost. rewrite Ho.
  assert (Hlev : (if i =? 0 then Player.damageLevel p
                  else if i =? 1 then Player.healthLevel p
                  else if i =? 2 then Player.speedLevel p else 0) = trackLevel p i).
  { unfold trackLevel. destruct Hi as [-> | [-> | ->]]; reflexivity. }
  rewrite Hlev, Hb in *. f_equal. int_arith.
Qed.

(** C9.  For every upgrade track [i] (an index of [shopOptions]) and level
    [L] the cost is [baseCost i * (1 + L)], strictly larger at a larger level;
    the purchase goes through exactly when the balance covers the cost, it
    then deducts the cost, raises the level by one and applies the track's
    increment (damage +3; max-HP +15 with HP set to the new maximum; speed
    +20), and it otherwise changes nothing.  No condition bounds the level.
    The hypotheses only keep the [int] results in range. *)
Theorem shop_purchase (p q : Player.t) (i : Z) (o : ShopOption)
    (Ho : shopOption i = Some o)
    (Hlvl : 0 <= trackLevel p i)
    (Hcost : baseCost o * (2 + trackLevel p i) <= INT_MAX)
    (Hq : baseCost o * (1 + trackLevel q i) <= INT_MAX)
    (Hcoins : is_int (Player.coins p))
    (Hdmg : is_int (Player.baseDamage p + 3))
    (Hhp : is_int (Player.maxHP p + 15)) :
  let cost := baseCost o * (1 + trackLevel p i) in
  GetUpgradeCost p i = Some cost
  /\ (trackLevel p i < trackLevel q i ->
      exists cost', GetUpgradeCost q i = Some cost' /\ cost < cost')
  /\ (cost <= Player.coins p ->
      purchase p i = purchased p i cost
      /\ Player.coins (purchase p i) = Player.coins p - cost
      /\ trackLevel (purchase p i) i = trackLevel p i + 1
      /\ GetUpgradeCost (purchase p i) i = Some (baseCost o * (1 + (trackLevel p i + 1))))
  /\ (Player.coins p < cost -> purchase p i = p).
Proof.
  intros cost.
  destruct (shopOption_inv _ _ Ho) as [Hi Hb].
  assert (Hc : GetUpgradeCost p i = Some cost).
  { apply GetUpgradeCost_value; auto. rewrite Hb in *. lia. }
  split; [exact Hc|]. split; [|split].
  - intros Hlt. exists (baseCost o * (1 + trackLevel q i)). split.
    + apply GetUpgradeCost_value; auto. lia.
    + subst cost. rewrite Hb. lia.
  - intros Hle.
    assert (Hp : purchase p i = purchased p i cost).
    { unfold purchase. rewrite Hc.
      apply Z.leb_le in Hle. rewrite Hle.
      assert (0 <= cost) by (subst cost; rewrite Hb; lia).
      apply Z.leb_le in Hle.
      unfold purchased, ApplyUpgrade, trackLevel in *.
      destruct Hi as [-> | [-> | ->]];
        cbn -[Z.add Z.mul Z.sub Z.pow wrap fadd of_int] in *; rewrite Hb in *;
        unwrap; reflexivity. }
    rewrite Hp. repeat split.
    + unfold purchased. destruct Hi as [-> | [-> | ->]]; reflexivity.
    + unfold purchased, trackLevel. destruct Hi as [-> | [-> | ->]]; reflexivity.
    + assert (Hl' : trackLevel (purchased p i cost) i = trackLevel p i + 1).
      { unfold purchased, trackLevel. destruct Hi as [-> | [-> | ->]]; reflexivity. }
      rewrite <- Hl'. apply GetUpgradeCost_value; auto; rewrite Hl'; [lia|].
      rewrite Hb in *. lia.
  - intros Hlt. unfold purchase. rewrite Hc.
    apply Z.leb_gt in Hlt. rewrite Hlt. reflexivity.
Qed.

(** Witness: the Knight of a fresh session with 12 coins buys max-HP. *)
Lemma shop_purchase_witness :
  let p := Player.set_hp 100 (Player.set_coins 12 (Game.player initialGame)) in
  GetUpgradeCost p 1 = Some 5
  /\ Player.maxHP (purchase p 1) = 185
  /\ Player.hp (purchase p 1) = 185
  /\ Player.coins (purchase p 1) = 7
  /\ GetUpgradeCost (purchase p 1) 1 = Some 10.
Proof.
  pose (p := Player.set_hp 100 (Player.set_coins 12 (Game.player initialGame))).
  assert (Ho : shopOption 1 = Some (mkShopOption "Increase Max HP" 5)) by reflexivity.
  assert (H : 0 <= trackLevel p 1) by (vm_compute; congruence).
  assert (Hc : 5 * (2 + trackLevel p 1) <= INT_MAX) by (vm_compute; congruence).
  assert (Hq : 5 * (1 + trackLevel p 1) <= INT_MAX) by (vm_compute; congruence).
  assert (Hcoins : is_int (Player.coins p)) by (vm_compute; intuition congruence).
  assert (Hdmg : is_int (Player.baseDamage p + 3)) by (vm_compute; intuition congruence).
  assert (Hhp : is_int (Player.maxHP p + 15)) by (vm_compute; intuition congruence).
  destruct (shop_purchase p p 1 _ Ho H Hc Hq Hcoins Hdmg Hhp) as (Hcost & _ & Hbuy & _).
  destruct Hbuy as (Hp & Hbal & _ & Hnext); [vm_compute; congruence|].
  cbv zeta. fold p. split; [exact Hcost|]. split; [rewrite Hp; reflexivity|].
  split; [rewrite Hp; reflexivity|]. split; [exact Hbal | exact Hnext].
Defined.

(** ** The enemy's hit *)

Lemma enemyDamage_table (type : EnemyType) :
  enemyDamage type =
  match type with GRUNT => 6 | FAST => 8 | TANK => 13 | BOSS => 20 end.
Proof. destruct type; reflexivity. Qed.

Lemma enemyStrike_hp (type : EnemyType) (g : Game.t) :
  0 <= Player.hp (Game.player g) <= INT_MAX ->
  Player.hp (Game.player (enemyStrike type g))
  = Z.max 0 (Player.hp (Game.player g)
             - mitigate (Game.playerClass g) (Game.player g) (enemyDamage type)).
Proof.
  intros Hhp. unfold enemyStrike.
  assert (Hm : 0 <= mitigate (Game.playerClass g) (Game.player g) (enemyDamage type) <= 20).
  { unfold mitigate, idiv. rewrite enemyDamage_table.
    destruct (Player.invincible _); [lia|].
    destruct (Player.blocking _ && _); destruct type; vm_compute; intuition congruence. }
  destruct (0 <? mitigate _ _ _) eqn:Hpos.
  - cbn [Game.player Game.set_player Game.set_gHitStopTimer Player.hp Player.set_hp].
    unwrap.
    destruct (_ <? 0) eqn:Hneg; cbn [Player.hp Player.set_hp].
    + apply Z.ltb_lt in Hneg. lia.
    + apply Z.ltb_ge in Hneg. lia.
  - apply Z.ltb_ge in Hpos. lia.
Qed.

(** C8.  When a windup expires, the damage taken by the player is 0 if the
    rectangles no longer overlap or the player is invincible (blocking or
    not); otherwise a blocking Knight takes floor(damage/3) and everyone else
    the full damage, where damage is 6, 8, 13 or 20 by enemy type; the
    player's HP stops at 0.  In every case the enemy leaves the windup, enters
    the attack animation for 0.22 s and restarts its cooldown at 1.1 s. *)
Theorem enemy_windup_expiry `{Raylib} (gameDt : float) (e : Enemy.t) (g : Game.t)
    (pr : Rectangle)
    (Hw : Enemy.windingUp e = true)
    (Hexp : fleb (fsub (Enemy.windupTimer e) gameDt) fzero = true)
    (Hhp : 0 <= Player.hp (Game.player g) <= INT_MAX) :
  let p := Game.player g in
  let dmg := match Enemy.type e with GRUNT => 6 | FAST => 8 | TANK => 13 | BOSS => 20 end in
  let overlap :=
    RectOverlap (MakeRect (Enemy.pos e) (Enemy.size e))
                (MakeRect (Player.pos p) (Player.size p)) in
  let applied :=
    if negb overlap then 0
    else if Player.invincible p then 0
    else if Player.blocking p && PlayerClass_eqb (Game.playerClass g) KNIGHT then dmg / 3
    else dmg in
  let '(e', g', _) := enemyWindup gameDt e g pr in
  Player.hp (Game.player g') = Z.max 0 (Player.hp p - applied)
  /\ Enemy.windingUp e' = false
  /\ Enemy.attackingAnim e' = true
  /\ Enemy.attackAnimTimer e' = dec 22 2
  /\ Enemy.attackCooldown e' = dec 11 1.
Proof.
  intros p dmg overlap applied. unfold enemyWindup. rewrite Hw.
  cbn [Enemy.windupTimer Enemy.set_windupTimer Enemy.pos Enemy.size Enemy.type].
  rewrite Hexp. fold p. fold overlap.
  repeat split; try reflexivity.
  subst applied. destruct overlap; cbn [negb].
  - rewrite enemyStrike_hp by exact Hhp. fold p.
    unfold mitigate, idiv. rewrite enemyDamage_table. fold dmg.
    destruct (Player.invincible p); [reflexivity|].
    destruct (Player.blocking p && _); [|reflexivity].
    subst dmg. destruct (Enemy.type e); reflexivity.
  - subst p. lia.
Qed.

(** Witness: a Grunt's windup expires on a blocking Knight standing on it;
    170 - floor(6/3) = 168. *)
Lemma enemy_windup_expiry_witness :
  let g := onPlayer (Player.set_blocking true) (sessionOf 0) in
  let e := windingEnemy GRUNT 100 390 in
  let '(e', g', _) :=
    @enemyWindup referenceRaylib dt50 e g (mkRectangle fzero fzero fzero fzero) in
  Player.hp (Game.player g') = 168
  /\ Enemy.windingUp e' = false
  /\ Enemy.attackingAnim e' = true
  /\ Enemy.attackAnimTimer e' = dec 22 2
  /\ Enemy.attackCooldown e' = dec 11 1.
Proof.
  refine (@enemy_windup_expiry referenceRaylib dt50
            (windingEnemy GRUNT 100 390)
            (onPlayer (Player.set_blocking true) (sessionOf 0))
            (mkRectangle fzero fzero fzero fzero) _ _ _).
  - reflexivity.
  - reflexivity.
  - vm_compute. intuition congruence.
Defined.

(** ** The SHOP frame *)

Lemma purchase_cases (p : Player.t) (i : Z) :
  purchase p i = p
  \/ exists cost,
      GetUpgradeCost p i = Some cost /\ cost <= Player.coins p
      /\ purchase p i = ApplyUpgrade (Player.set_coins (isub (Player.coins p) cost) p) i.
Proof.
  unfold purchase. destruct (GetUpgradeCost p i) as [cost|]; [|left; reflexivity].
  destruct (cost <=? Player.coins p) eqn:Hle; [|left; reflexivity].
  right. exists cost. apply Z.leb_le in Hle. auto.
Qed.

Lemma ApplyUpgrade_outside (p : Player.t) (i : Z) :
  outsideShop (ApplyUpgrade p i) = outsideShop p.
Proof.
  unfold ApplyUpgrade.
  destruct (i =? 0); [reflexivity|].
  destruct (i =? 1); [reflexivity|].
  destruct (i =? 2); reflexivity.
Qed.

Lemma purchase_outside (p : Player.t) (i : Z) :
  outsideShop (purchase p i) = outsideShop p.
Proof.
  destruct (purchase_cases p i) as [-> | (cost & _ & _ & ->)]; [reflexivity|].
  rewrite ApplyUpgrade_outside. reflexivity.
Qed.

Lemma purchase_hp (p : Player.t) (i : Z) :
  i <> 1 ->
  Player.hp (purchase p i) = Player.hp p /\ Player.maxHP (purchase p i) = Player.maxHP p.
Proof.
  intros Hi. destruct (purchase_cases p i) as [-> | (cost & _ & _ & ->)]; [auto|].
  unfold ApplyUpgrade.
  destruct (i =? 0); [split; reflexivity|].
  destruct (i =? 1) eqn:H1; [apply Z.eqb_eq in H1; contradiction|].
  destruct (i =? 2); split; reflexivity.
Qed.

Lemma shopNavigate_spec (inp : Input) (g : Game.t) :
  0 <= Game.shopSelection g <= 2 ->
  exists s', 0 <= s' <= 2 /\ shopNavigate inp g = Game.set_shopSelection s' g.
Proof.
  intros Hsel. unfold shopNavigate.
  destruct g as [sci pl pc st cam es cs ps bs bd est sel hs ac prc].
  cbn [Game.shopSelection Game.set_shopSelection] in *.
  assert (Hup : isub sel 1 = sel - 1) by int_arith.
  assert (Hdn : iadd sel 1 = sel + 1) by int_arith.
  destruct (IsKeyPressed inp KEY_DOWN); destruct (IsKeyPressed inp KEY_UP);
    cbn [Game.shopSelection Game.set_shopSelection];
    rewrite ?Hdn, ?Hup.
  - destruct (2 <? sel + 1) eqn:E1; cbn [Game.shopSelection Game.set_shopSelection].
    + exists 2. split; [lia|]. reflexivity.
    + apply Z.ltb_ge in E1. assert (Ha : isub (sel + 1) 1 = sel) by int_arith.
      rewrite Ha. destruct (sel <? 0) eqn:E2; [apply Z.ltb_lt in E2; lia|].
      exists sel. split; [lia|]. reflexivity.
  - destruct (2 <? sel + 1) eqn:E1; cbn [Game.shopSelection Game.set_shopSelection].
    + exists 0. split; [lia|]. reflexivity.
    + apply Z.ltb_ge in E1. exists (sel + 1). split; [lia|]. reflexivity.
  - destruct (sel - 1 <? 0) eqn:E2; cbn [Game.shopSelection Game.set_shopSelection].
    + exists 2. split; [lia|]. reflexivity.
    + apply Z.ltb_ge in E2. exists (sel - 1). split; [lia|]. reflexivity.
  - exists sel. split; [lia|]. reflexivity.
Qed.

(** C10.  A frame that starts in SHOP rewrites at most four fields of the
    game: the hit-stop timer (its countdown), the shop selection (kept in
    0..2), the phase (PLAYING on TAB or ESCAPE, SHOP otherwise) and the
    player.  Of the player only the fields a purchase writes can differ
    (balance, the three levels, base damage, max-HP, HP, speed); the player
    is untouched unless ENTER is pressed with a sufficient balance, and HP and
    max-HP move only on the max-HP track.  Enemies, projectiles, coins, the
    spawn timer and the counters are those of the frame's start. *)
Theorem shop_frame `{Raylib} (inp : Input) (g : Game.t)
    (Hs : Game.state g = SHOP)
    (Hsel : 0 <= Game.shopSelection g <= 2) :
  let g' := frame inp g in
  let p := Game.player g in
  let p' := Game.player g' in
  g' = Game.set_player p'
         (Game.set_state (Game.state g')
            (Game.set_shopSelection (Game.shopSelection g')
               (Game.set_gHitStopTimer (hitStopTick inp (Game.gHitStopTimer g)) g)))
  /\ (Game.state g' =
      if IsKeyPressed inp KEY_TAB || IsKeyPressed inp KEY_ESCAPE then PLAYING else SHOP)
  /\ 0 <= Game.shopSelection g' <= 2
  /\ outsideShop p' = outsideShop p
  /\ (p' = p
      \/ exists cost,
          IsKeyPressed inp KEY_ENTER = true
          /\ GetUpgradeCost p (Game.shopSelection g') = Some cost
          /\ cost <= Player.coins p
          /\ p' = ApplyUpgrade (Player.set_coins (isub (Player.coins p) cost) p)
                    (Game.shopSelection g'))
  /\ (Game.shopSelection g' <> 1 ->
      Player.hp p' = Player.hp p /\ Player.maxHP p' = Player.maxHP p).
Proof.
  intros g' p p'. subst g' p p'.
  unfold frame. cbn [Game.state Game.set_gHitStopTimer]. rewrite Hs.
  unfold updateShop.
  set (g0 := Game.set_gHitStopTimer _ g).
  destruct (shopNavigate_spec inp g0 Hsel) as (s' & Hs' & ->).
  subst g0. unfold onPlayer.
  destruct g as [sci pl pc st cam es cs ps bs bd est sel hs ac prc].
  cbn [Game.state Game.shopSelection Game.player Game.gHitStopTimer
       Game.set_shopSelection Game.set_gHitStopTimer Game.set_player Game.set_state
       Game.selectedClassIndex Game.playerClass Game.cameraTarget Game.enemies
       Game.coins Game.projectiles Game.bossSpawned Game.bossDefeated
       Game.enemySpawnTimer Game.gAttackCounter Game.gProjectileCounter] in *.
  subst st.
  destruct (IsKeyPressed inp KEY_ENTER) eqn:Ke;
    destruct (IsKeyPressed inp KEY_TAB || IsKeyPressed inp KEY_ESCAPE);
    cbn [Game.state Game.shopSelection Game.player Game.gHitStopTimer
         Game.set_shopSelection Game.set_gHitStopTimer Game.set_player Game.set_state
         Game.selectedClassIndex Game.playerClass Game.cameraTarget Game.enemies
         Game.coins Game.projectiles Game.bossSpawned Game.bossDefeated
         Game.enemySpawnTimer Game.gAttackCounter Game.gProjectileCounter];
    (split; [reflexivity|]); (split; [reflexivity|]); (split; [exact Hs'|]).
  1,2: split; [apply purchase_outside|];
       split; [|apply purchase_hp];
       destruct (purchase_cases pl s') as [-> | (cost & Hc & Hle & ->)];
       [left; reflexivity | right; exists cost; auto].
  all: split; [reflexivity|]; split; [left; reflexivity | auto].
Qed.

(** Witness: ENTER on the damage track with 12 coins. *)
Lemma shop_frame_witness :
  let g := Game.set_state SHOP (onPlayer (Player.set_coins 12) (sessionOf 0)) in
  let g' := @frame referenceRaylib (press KEY_ENTER) g in
  Game.state g' = SHOP
  /\ 0 <= Game.shopSelection g' <= 2
  /\ outsideShop (Game.player g') = outsideShop (Game.player g)
  /\ Player.coins (Game.player g') = 7
  /\ Game.enemies g' = Game.enemies g.
Proof.
  intros g g'.
  destruct (@shop_frame referenceRaylib (press KEY_ENTER) g eq_refl)
    as (_ & Hst & Hsel & Hout & _).
  { vm_compute. intuition congruence. }
  split; [exact Hst|]. split; [exact Hsel|]. split; [exact Hout|].
  split; reflexivity.
Defined.

(** ** Loops *)

Section ForEach.
Context {A St : Type} (body : A -> St -> A * St).

Lemma forEach_cons (x : A) (xs : list A) (s : St) :
  forEach body (x :: xs) s
  = (fst (body x s) :: fst (forEach body xs (snd (body x s))),
     snd (forEach body xs (snd (body x s)))).
Proof.
  simpl. destruct (body x s) as [x' s']. simpl.
  destruct (forEach body xs s') as [r s'']. reflexivity.
Qed.

Lemma forEach_length (xs : list A) (s : St) :
  List.length (fst (forEach body xs s)) = List.length xs.
Proof.
  revert s. induction xs as [|x xs IH]; intros s; [reflexivity|].
  rewrite forEach_cons. simpl. f_equal. apply IH.
Qed.

(** An invariant [I] of the threaded state and a relation [R] between each
    element and its update, both kept by the body, hold of the whole loop. *)
Lemma forEach_rel (I : St -> Prop) (R : A -> A -> Prop) :
  (forall x s, I s -> R x (fst (body x s)) /\ I (snd (body x s))) ->
  forall xs s, I s ->
  Forall2 R xs (fst (forEach body xs s)) /\ I (snd (forEach body xs s)).
Proof.
  intros Hbody. induction xs as [|x xs IH]; intros s Hs.
  - split; [constructor | exact Hs].
  - rewrite forEach_cons. simpl.
    destruct (Hbody x s Hs) as [Hx Hs'].
    destruct (IH _ Hs') as [Hxs Hs''].
    split; [constructor; assumption | assumption].
Qed.

Lemma forEach_inv (I : St -> Prop) :
  (forall x s, I s -> I (snd (body x s))) ->
  forall xs s, I s -> I (snd (forEach body xs s)).
Proof.
  intros Hbody xs s Hs.
  apply (forEach_rel I (fun _ _ => True)); auto.
Qed.

End ForEach.

Lemma Forall2_nth_error {A : Type} (R : A -> A -> Prop) (xs ys : list A) (i : nat) (x : A) :
  Forall2 R xs ys -> nth_error xs i = Some x ->
  exists y, nth_error ys i = Some y /\ R x y.
Proof.
  intros HF. revert i. induction HF as [|a b xs ys Hab HF IH]; intros i Hi.
  - destruct i; discriminate.
  - destruct i as [|i]; simpl in *.
    + inversion Hi; subst. eauto.
    + apply IH. exact Hi.
Qed.

(** ** Death and coins *)

Ltac split_ifs :=
  repeat match goal with
         | |- context [if ?b then _ else _] => destruct b
         end.

Lemma dropCoins_app (inp : Input) (pos : Vector2) (n : nat) :
  forall coins k,
  exists cs, fst (dropCoins inp pos n coins k) = coins ++ cs /\ List.length cs = n.
Proof.
  induction n as [|n IH]; intros coins k; simpl.
  - exists []. rewrite app_nil_r. auto.
  - destruct (IH (coins ++ [{| Coin.pos :=
        mkVector2 (fadd (vx pos) (of_int (GetRandomValue inp k (-10) 10)))
                  (fsub (vy pos) (of_int (GetRandomValue inp (S k) 0 20)));
        Coin.collected := false |}]) (S (S k))) as (cs & Hcs & Hlen).
    eexists (_ :: cs). rewrite Hcs, <- app_assoc. simpl. split; [reflexivity|].
    simpl. f_equal. exact Hlen.
Qed.

Lemma coinCount_table (type : EnemyType) :
  coinCount type = match type with BOSS => 10 | TANK => 3 | _ => 1 end.
Proof. destruct type; reflexivity. Qed.

Lemma enemyDeath_alive (inp : Input) (e : Enemy.t) (g : Game.t) (k : nat) :
  0 < Enemy.hp e -> enemyDeath inp e g k = (e, g, k).
Proof.
  intros Hhp. unfold enemyDeath.
  destruct (Enemy.hp e <=? 0) eqn:E; [apply Z.leb_le in E; lia | reflexivity].
Qed.

(** The death block on an enemy whose HP is not positive: the enemy is
    flagged dead, [coinCount] coins are appended, and a boss switches the
    phase to VICTORY. *)
Lemma enemyDeath_dead (inp : Input) (e : Enemy.t) (g : Game.t) (k : nat) :
  Enemy.hp e <= 0 ->
  exists cs k',
    List.length cs = Z.to_nat (coinCount (Enemy.type e))
    /\ enemyDeath inp e g k =
       (Enemy.set_alive false e,
        (if EnemyType_eqb (Enemy.type e) BOSS
         then Game.set_state VICTORY
                (Game.set_bossDefeated true (Game.set_coins (Game.coins g ++ cs) g))
         else Game.set_coins (Game.coins g ++ cs) g),
        k').
Proof.
  intros Hhp. unfold enemyDeath.
  destruct (Enemy.hp e <=? 0) eqn:E; [|apply Z.leb_gt in E; lia].
  cbn [Enemy.pos Enemy.type Enemy.set_alive].
  destruct (dropCoins_app inp (Enemy.pos e) (Z.to_nat (coinCount (Enemy.type e)))
              (Game.coins g) k) as (cs & Hcs & Hlen).
  destruct (dropCoins inp (Enemy.pos e) _ (Game.coins g) k) as [coins k'] eqn:Hd.
  simpl in Hcs. subst coins. exists cs, k'. split; [exact Hlen|].
  destruct (EnemyType_eqb (Enemy.type e) BOSS); reflexivity.
Qed.

(** ** The melee resolver on one enemy *)

(** Either the resolver leaves everything alone, or it is armed, the enemy's
    stored id differs from the current one and the hitbox overlaps: then the
    enemy is stamped, loses [swingDamage], is pushed along x, the hit-stop
    timer is raised, and the death block runs. *)
Lemma meleeHit_cases `{Raylib} (inp : Input) (e : Enemy.t) (g : Game.t) (k : nat) :
  meleeHit inp e g k = (e, g, k)
  \/ (meleeActive g = true
      /\ Enemy.lastHitAttackId e <> Player.currentAttackId (Game.player g)
      /\ RectOverlap (Player.attackHitbox (Game.player g))
                     (MakeRect (Enemy.pos e) (Enemy.size e)) = true
      /\ exists e1 t,
          meleeHit inp e g k = enemyDeath inp e1 (Game.set_gHitStopTimer t g) k
          /\ Enemy.hp e1 = isub (Enemy.hp e) (swingDamage g)
          /\ Enemy.lastHitAttackId e1 = Player.currentAttackId (Game.player g)
          /\ Enemy.alive e1 = Enemy.alive e
          /\ Enemy.type e1 = Enemy.type e
          /\ Enemy.maxHP e1 = Enemy.maxHP e
          /\ Enemy.lastProjectileHitId e1 = Enemy.lastProjectileHitId e
          /\ vy (Enemy.pos e1) = vy (Enemy.pos e)).
Proof.
  unfold meleeHit. fold (meleeActive g).
  destruct (meleeActive g); [|left; reflexivity].
  destruct (Enemy.lastHitAttackId e =? Player.currentAttackId (Game.player g)) eqn:Eid;
    [left; reflexivity|].
  destruct (RectOverlap _ _) eqn:Eov; [|left; reflexivity].
  right. apply Z.eqb_neq in Eid. cbn [negb andb].
  split; [reflexivity|]. split; [assumption|]. split; [reflexivity|].
  cbv zeta. eexists. eexists. split; [reflexivity|].
  repeat split; reflexivity.
Qed.

(** The converse: an armed resolver hits every overlapping enemy whose stored
    id differs. *)
Lemma meleeHit_lands `{Raylib} (inp : Input) (e : Enemy.t) (g : Game.t) (k : nat) :
  meleeActive g = true ->
  Enemy.lastHitAttackId e <> Player.currentAttackId (Game.player g) ->
  RectOverlap (Player.attackHitbox (Game.player g))
              (MakeRect (Enemy.pos e) (Enemy.size e)) = true ->
  let e' := fst (fst (meleeHit inp e g k)) in
  Enemy.hp e' = isub (Enemy.hp e) (swingDamage g)
  /\ Enemy.lastHitAttackId e' = Player.currentAttackId (Game.player g).
Proof.
  intros Ha Hid Hov. unfold meleeHit. fold (meleeActive g). rewrite Ha.
  apply Z.eqb_neq in Hid. rewrite Hid, Hov. cbn [negb andb].
  unfold enemyDeath.
  match goal with |- context [dropCoins ?a ?b ?c ?d ?e] =>
    destruct (dropCoins a b c d e) as [cs k'] end.
  split_ifs; split; reflexivity.
Qed.

(** ** The enemy's AI step *)

Lemma enemyMovement_view (gameDt : float) (p : Player.t) (e : Enemy.t) (er : Rectangle) :
  combatView (fst (enemyMovement gameDt p e er)) = combatView e.
Proof. unfold enemyMovement. split_ifs; reflexivity. Qed.

Lemma enemyWindupStart_view `{Raylib} (e : Enemy.t) (er pr : Rectangle) :
  combatView (enemyWindupStart e er pr) = combatView e
  /\ Enemy.pos (enemyWindupStart e er pr) = Enemy.pos e.
Proof. unfold enemyWindupStart. split_ifs; split; reflexivity. Qed.

Lemma enemyWindup_view `{Raylib} (gameDt : float) (e : Enemy.t) (g : Game.t)
    (pr : Rectangle) :
  combatView (fst (fst (enemyWindup gameDt e g pr))) = combatView e
  /\ Enemy.pos (fst (fst (enemyWindup gameDt e g pr))) = Enemy.pos e.
Proof. unfold enemyWindup. split_ifs; split; reflexivity. Qed.

Lemma enemyWindup_game `{Raylib} (gameDt : float) (e : Enemy.t) (g : Game.t)
    (pr : Rectangle) :
  snd (fst (enemyWindup gameDt e g pr)) = g
  \/ snd (fst (enemyWindup gameDt e g pr)) = enemyStrike (Enemy.type e) g.
Proof. unfold enemyWindup. split_ifs; auto. Qed.

Lemma enemyAttackAnim_view (gameDt : float) (e : Enemy.t) :
  combatView (enemyAttackAnim gameDt e) = combatView e
  /\ Enemy.pos (enemyAttackAnim gameDt e) = Enemy.pos e.
Proof. unfold enemyAttackAnim. split_ifs; split; reflexivity. Qed.

Lemma enemyAnimation_view `{Raylib} (gameDt : float) (e : Enemy.t) :
  combatView (enemyAnimation gameDt e) = combatView e
  /\ Enemy.pos (enemyAnimation gameDt e) = Enemy.pos e.
Proof. unfold enemyAnimation. split_ifs; split; reflexivity. Qed.

Lemma combatView_eq (a b : Enemy.t) :
  combatView a = combatView b ->
  Enemy.hp a = Enemy.hp b /\ Enemy.maxHP a = Enemy.maxHP b
  /\ Enemy.alive a = Enemy.alive b /\ Enemy.type a = Enemy.type b
  /\ Enemy.lastHitAttackId a = Enemy.lastHitAttackId b
  /\ Enemy.lastProjectileHitId a = Enemy.lastProjectileHitId b.
Proof. unfold combatView. intros Hv. inversion Hv. auto 10. Qed.

(** The AI step in terms of its stages. *)
Lemma enemyAI_stages `{Raylib} (gameDt : float) (e : Enemy.t) (g : Game.t)
    (pr : Rectangle) :
  exists e1 er e2 e3 pr',
    (e1, er) = enemyMovement gameDt (Game.player g) e
                 (MakeRect (Enemy.pos e) (Enemy.size e))
    /\ combatView e2 = combatView e1 /\ Enemy.pos e2 = Enemy.pos e1
    /\ (e3, snd (fst (enemyAI gameDt e g pr)), pr') = enemyWindup gameDt e2 g pr
    /\ combatView (fst (fst (enemyAI gameDt e g pr))) = combatView e3
    /\ Enemy.pos (fst (fst (enemyAI gameDt e g pr))) = Enemy.pos e3.
Proof.
  unfold enemyAI.
  destruct (enemyMovement gameDt (Game.player g) e _) as [e1 er] eqn:Hm.
  set (e1c := Enemy.set_attackCooldown _ e1).
  set (e1d := if fltb (Enemy.attackCooldown e1c) fzero then _ else e1c).
  set (e2 := enemyWindupStart e1d er pr).
  destruct (enemyWindup gameDt e2 g pr) as [[e3 g'] pr'] eqn:Hw.
  exists e1, er, e2, e3, pr'. cbn [fst snd].
  split; [reflexivity|].
  cut (combatView e2 = combatView e1 /\ Enemy.pos e2 = Enemy.pos e1).
  { intros [Ha Hb].
    destruct (enemyAnimation_view gameDt (enemyAttackAnim gameDt e3)) as [Hv1 Hp1].
    destruct (enemyAttackAnim_view gameDt e3) as [Hv2 Hp2].
    repeat split; congruence. }
  assert (Hd : combatView e1d = combatView e1 /\ Enemy.pos e1d = Enemy.pos e1).
  { subst e1d e1c. split_ifs; split; reflexivity. }
  destruct (enemyWindupStart_view e1d er pr) as [Hv Hp]. fold e2 in Hv, Hp.
  split; [rewrite Hv; apply Hd | rewrite Hp; apply Hd].
Qed.

Lemma enemyAI_view `{Raylib} (gameDt : float) (e : Enemy.t) (g : Game.t) (pr : Rectangle) :
  combatView (fst (fst (enemyAI gameDt e g pr))) = combatView e.
Proof.
  destruct (enemyAI_stages gameDt e g pr)
    as (e1 & er & e2 & e3 & pr' & Hm & Hv2 & _ & Hw & Hv & _).
  rewrite Hv.
  pose proof (enemyWindup_view gameDt e2 g pr) as [Hv3 _]. rewrite <- Hw in Hv3.
  cbn [fst] in Hv3. rewrite Hv3, Hv2.
  pose proof (enemyMovement_view gameDt (Game.player g) e
                (MakeRect (Enemy.pos e) (Enemy.size e))) as Hv1.
  rewrite <- Hm in Hv1. exact Hv1.
Qed.

Lemma enemyAI_game `{Raylib} (gameDt : float) (e : Enemy.t) (g : Game.t) (pr : Rectangle) :
  snd (fst (enemyAI gameDt e g pr)) = g
  \/ snd (fst (enemyAI gameDt e g pr)) = enemyStrike (Enemy.type e) g.
Proof.
  destruct (enemyAI_stages gameDt e g pr)
    as (e1 & er & e2 & e3 & pr' & Hm & Hv2 & _ & Hw & _).
  pose proof (enemyWindup_game gameDt e2 g pr) as Hg. rewrite <- Hw in Hg.
  cbn [fst snd] in Hg.
  assert (Ht : Enemy.type e2 = Enemy.type e).
  { pose proof (enemyMovement_view gameDt (Game.player g) e
                  (MakeRect (Enemy.pos e) (Enemy.size e))) as Hv1.
    rewrite <- Hm in Hv1. cbn [fst] in Hv1.
    unfold combatView in *. congruence. }
  rewrite Ht in Hg. exact Hg.
Qed.

Lemma enemyStrike_erase (type : EnemyType) (g : Game.t) :
  combatErase (enemyStrike type g) = combatErase g
  /\ Game.coins (enemyStrike type g) = Game.coins g
  /\ Game.state (enemyStrike type g) = Game.state g
  /\ Game.bossDefeated (enemyStrike type g) = Game.bossDefeated g.
Proof. unfold enemyStrike. split_ifs; repeat split; reflexivity. Qed.

(** ** The enemy loop *)

Lemma enemyDeath_fields (inp : Input) (e : Enemy.t) (g : Game.t) (k : nat) :
  let e' := fst (fst (enemyDeath inp e g k)) in
  let g' := snd (fst (enemyDeath inp e g k)) in
  Enemy.hp e' = Enemy.hp e
  /\ Enemy.lastHitAttackId e' = Enemy.lastHitAttackId e
  /\ Enemy.lastProjectileHitId e' = Enemy.lastProjectileHitId e
  /\ Enemy.type e' = Enemy.type e
  /\ Enemy.maxHP e' = Enemy.maxHP e
  /\ Enemy.pos e' = Enemy.pos e
  /\ Enemy.alive e' = Enemy.alive e && (0 <? Enemy.hp e)
  /\ combatErase g' = combatErase g
  /\ Game.player g' = Game.player g.
Proof.
  unfold enemyDeath.
  destruct (Enemy.hp e <=? 0) eqn:E.
  - match goal with |- context [dropCoins ?a ?b ?c ?d ?e] =>
      destruct (dropCoins a b c d e) as [cs k'] end.
    assert (E' : (0 <? Enemy.hp e) = false) by (apply Z.leb_le in E; apply Z.ltb_ge; lia).
    rewrite E', andb_false_r.
    split_ifs; repeat split; reflexivity.
  - assert (E' : (0 <? Enemy.hp e) = true) by (apply Z.leb_gt in E; apply Z.ltb_lt; lia).
    rewrite E', andb_true_r. repeat split; reflexivity.
Qed.

Lemma updateEnemy_dead `{Raylib} (inp : Input) (gameDt : float) (e : Enemy.t)
    (s : Game.t * Rectangle * nat) :
  Enemy.alive e = false -> updateEnemy inp gameDt e s = (e, s).
Proof.
  intros Ha. unfold updateEnemy. destruct s as [[g pr] k]. rewrite Ha. reflexivity.
Qed.

(** The body of the enemy loop in terms of its two halves. *)
Lemma updateEnemy_alive `{Raylib} (inp : Input) (gameDt : float) (e : Enemy.t)
    (g : Game.t) (pr : Rectangle) (k : nat) :
  Enemy.alive e = true ->
  exists e1 g1 pr1,
    enemyAI gameDt e g pr = (e1, g1, pr1)
    /\ fst (updateEnemy inp gameDt e (g, pr, k)) = fst (fst (meleeHit inp e1 g1 k))
    /\ fst (fst (snd (updateEnemy inp gameDt e (g, pr, k)))) = snd (fst (meleeHit inp e1 g1 k)).
Proof.
  intros Ha. unfold updateEnemy. rewrite Ha. cbn [negb].
  destruct (enemyAI gameDt e g pr) as [[e1 g1] pr1].
  exists e1, g1, pr1. split; [reflexivity|].
  destruct (meleeHit inp e1 g1 k) as [[e2 g2] k2]. split; reflexivity.
Qed.

Lemma combatErase_swing (g g' : Game.t) :
  combatErase g = combatErase g' ->
  swingDamage g = swingDamage g'
  /\ Player.currentAttackId (Game.player g) = Player.currentAttackId (Game.player g')
  /\ Game.playerClass g = Game.playerClass g'.
Proof.
  intros He.
  assert (Hc : Game.playerClass g = Game.playerClass g')
    by exact (f_equal Game.playerClass He).
  assert (Hb : Player.baseDamage (Game.player g) = Player.baseDamage (Game.player g'))
    by exact (f_equal (fun x => Player.baseDamage (Game.player x)) He).
  assert (Hs : Player.comboStep (Game.player g) = Player.comboStep (Game.player g'))
    by exact (f_equal (fun x => Player.comboStep (Game.player x)) He).
  assert (Hi : Player.currentAttackId (Game.player g) = Player.currentAttackId (Game.player g'))
    by exact (f_equal (fun x => Player.currentAttackId (Game.player x)) He).
  unfold swingDamage. rewrite Hc, Hb, Hs. auto.
Qed.

Lemma enemyAI_erase `{Raylib} (gameDt : float) (e : Enemy.t) (g : Game.t) (pr : Rectangle) :
  combatErase (snd (fst (enemyAI gameDt e g pr))) = combatErase g.
Proof.
  destruct (enemyAI_game gameDt e g pr) as [-> | ->]; [reflexivity|].
  apply enemyStrike_erase.
Qed.

Lemma meleeHit_erase `{Raylib} (inp : Input) (e : Enemy.t) (g : Game.t) (k : nat) :
  combatErase (snd (fst (meleeHit inp e g k))) = combatErase g.
Proof.
  destruct (meleeHit_cases inp e g k) as [-> | (_ & _ & _ & e1 & t & -> & _)];
    [reflexivity|].
  destruct (enemyDeath_fields inp e1 (Game.set_gHitStopTimer t g) k)
    as (_ & _ & _ & _ & _ & _ & _ & He & _).
  rewrite He. reflexivity.
Qed.

Lemma updateEnemy_erase `{Raylib} (inp : Input) (gameDt : float) (e : Enemy.t)
    (s : Game.t * Rectangle * nat) :
  combatErase (fst (fst (snd (updateEnemy inp gameDt e s)))) = combatErase (fst (fst s)).
Proof.
  destruct s as [[g pr] k]. destruct (Enemy.alive e) eqn:Ha.
  - destruct (updateEnemy_alive inp gameDt e g pr k Ha) as (e1 & g1 & pr1 & Hai & _ & ->).
    rewrite meleeHit_erase.
    pose proof (enemyAI_erase gameDt e g pr) as He. rewrite Hai in He. exact He.
  - rewrite updateEnemy_dead by exact Ha. reflexivity.
Qed.

Lemma updateEnemy_melee `{Raylib} (inp : Input) (gameDt : float) (e : Enemy.t)
    (g : Game.t) (pr : Rectangle) (k : nat) :
  meleeStep (Player.currentAttackId (Game.player g)) (swingDamage g)
            e (fst (updateEnemy inp gameDt e (g, pr, k))).
Proof.
  destruct (Enemy.alive e) eqn:Ha.
  - destruct (updateEnemy_alive inp gameDt e g pr k Ha) as (e1 & g1 & pr1 & Hai & -> & _).
    pose proof (enemyAI_view gameDt e g pr) as Hv. rewrite Hai in Hv. cbn [fst] in Hv.
    pose proof (enemyAI_erase gameDt e g pr) as He. rewrite Hai in He. cbn [fst snd] in He.
    destruct (combatErase_swing _ _ He) as (Hd & Hid & _).
    destruct (combatView_eq _ _ Hv) as (Hhp & _ & _ & _ & Hlh & _).
    destruct (meleeHit_cases inp e1 g1 k)
      as [-> | (_ & Hne & _ & e2 & t & -> & Hhp2 & Hid2 & _)].
    + left. auto.
    + right.
      destruct (enemyDeath_fields inp e2 (Game.set_gHitStopTimer t g1) k)
        as (Hh & Hl & _).
      repeat split; congruence.
  - rewrite updateEnemy_dead by exact Ha. left. auto.
Qed.

Lemma enemyLoop_melee `{Raylib} (inp : Input) (gameDt : float) (g : Game.t) (k : nat) :
  let g' := fst (enemyLoop inp gameDt g k) in
  combatErase g' = combatErase g
  /\ Forall2 (meleeStep (Player.currentAttackId (Game.player g)) (swingDamage g))
             (Game.enemies g) (Game.enemies g').
Proof.
  unfold enemyLoop.
  set (pr := MakeRect _ _).
  pose proof (forEach_rel (updateEnemy inp gameDt)
                (fun s => combatErase (fst (fst s)) = combatErase g)
                (meleeStep (Player.currentAttackId (Game.player g)) (swingDamage g))) as HF.
  destruct (HF) with (xs := Game.enemies g) (s := (g, pr, k)) as [HR HI].
  - intros e [[g1 pr1] k1] Hs. cbn [fst] in Hs. split.
    + destruct (combatErase_swing _ _ Hs) as (Hd & Hid & _).
      rewrite <- Hd, <- Hid. apply updateEnemy_melee.
    + rewrite updateEnemy_erase. exact Hs.
  - reflexivity.
  - destruct (forEach (updateEnemy inp gameDt) (Game.enemies g) (g, pr, k))
      as [es [[g' pr'] k']].
    cbn [fst snd] in *. split; [|exact HR].
    rewrite <- HI. reflexivity.
Qed.

(** ** The stages of the PLAYING frame: what each leaves alone *)

Ltac crush_stage :=
  repeat first
    [ progress split_ifs
    | match goal with
      | |- context [meleeShape ?a ?b] => destruct (meleeShape a b) as [[[? ?] ?] ?]
      end ];
  repeat split; reflexivity.

Lemma onPlayer_player (f : Player.t -> Player.t) (g : Game.t) :
  Game.player (onPlayer f g) = f (Game.player g).
Proof. reflexivity. Qed.

Lemma onPlayer_erase (f : Player.t -> Player.t) (g : Game.t) :
  playerErase (onPlayer f g) = playerErase g.
Proof. reflexivity. Qed.

Lemma movePlayer_stats (inp : Input) (gameDt : float) (p : Player.t) :
  playerStats (movePlayer inp gameDt p) = playerStats p.
Proof. unfold movePlayer. crush_stage. Qed.

Lemma abilityTimers_stats (gameDt : float) (p : Player.t) :
  playerStats (abilityTimers gameDt p) = playerStats p.
Proof. unfold abilityTimers. crush_stage. Qed.

Lemma knightBlock_stats (inp : Input) (gameDt : float) (p : Player.t) :
  playerStats (knightBlock inp gameDt p) = playerStats p.
Proof. unfold knightBlock. crush_stage. Qed.

Lemma rogueDodge_stats (inp : Input) (gameDt : float) (p : Player.t) :
  playerStats (rogueDodge inp gameDt p) = playerStats p.
Proof. unfold rogueDodge. crush_stage. Qed.

Lemma mageBlink_stats (inp : Input) (p : Player.t) :
  playerStats (mageBlink inp p) = playerStats p.
Proof. unfold mageBlink. crush_stage. Qed.

Lemma classAbility_stats (inp : Input) (gameDt : float) (pc : PlayerClass) (p : Player.t) :
  playerStats (classAbility inp gameDt pc p) = playerStats p.
Proof.
  unfold classAbility.
  destruct (PlayerClass_eqb pc KNIGHT), (PlayerClass_eqb pc ROGUE), (PlayerClass_eqb pc MAGE);
    rewrite ?mageBlink_stats, ?rogueDodge_stats, ?knightBlock_stats; reflexivity.
Qed.

Lemma comboTick_stats (gameDt : float) (p : Player.t) :
  playerStats (comboTick gameDt p) = playerStats p.
Proof. unfold comboTick. crush_stage. Qed.

Lemma attackTick_stats (gameDt : float) (p : Player.t) :
  playerStats (attackTick gameDt p) = playerStats p.
Proof. unfold attackTick. crush_stage. Qed.

Lemma playerAnimation_stats `{Raylib} (move : Vector2) (gameDt : float) (p : Player.t) :
  playerStats (playerAnimation move gameDt p) = playerStats p.
Proof. unfold playerAnimation. crush_stage. Qed.

Lemma attackInput_frame (inp : Input) (g : Game.t) :
  playerErase (attackInput inp g) = playerErase g
  /\ playerStats (Game.player (attackInput inp g)) = playerStats (Game.player g)
  /\ Player.pos (Game.player (attackInput inp g)) = Player.pos (Game.player g).
Proof. unfold attackInput. crush_stage. Qed.

Lemma playerPhase_frame `{Raylib} (inp : Input) (gameDt : float) (g : Game.t) :
  playerErase (playerPhase inp gameDt g) = playerErase g
  /\ playerStats (Game.player (playerPhase inp gameDt g)) = playerStats (Game.player g).
Proof.
  unfold playerPhase.
  set (move := effectiveMove inp (Game.player g)). clearbody move.
  set (g1 := onPlayer (movePlayer inp gameDt) g).
  assert (H1 : playerErase g1 = playerErase g
               /\ playerStats (Game.player g1) = playerStats (Game.player g)).
  { subst g1. rewrite onPlayer_erase, onPlayer_player, movePlayer_stats. auto. }
  clearbody g1.
  set (g2 := if IsKeyPressed inp KEY_TAB then Game.set_state SHOP g1 else g1).
  assert (H2 : playerErase g2 = playerErase g1
               /\ playerStats (Game.player g2) = playerStats (Game.player g1)).
  { subst g2. destruct (IsKeyPressed inp KEY_TAB); split; reflexivity. }
  clearbody g2.
  set (g3 := onPlayer (abilityTimers gameDt) g2).
  assert (H3 : playerErase g3 = playerErase g2
               /\ playerStats (Game.player g3) = playerStats (Game.player g2)).
  { subst g3. rewrite onPlayer_erase, onPlayer_player, abilityTimers_stats. auto. }
  clearbody g3.
  set (g4 := onPlayer (classAbility inp gameDt (Game.playerClass g3)) g3).
  assert (H4 : playerErase g4 = playerErase g3
               /\ playerStats (Game.player g4) = playerStats (Game.player g3)).
  { subst g4. rewrite onPlayer_erase, onPlayer_player, classAbility_stats. auto. }
  clearbody g4.
  set (g5 := onPlayer (comboTick gameDt) g4).
  assert (H5 : playerErase g5 = playerErase g4
               /\ playerStats (Game.player g5) = playerStats (Game.player g4)).
  { subst g5. rewrite onPlayer_erase, onPlayer_player, comboTick_stats. auto. }
  clearbody g5.
  destruct (attackInput_frame inp g5) as (H6 & H6' & _).
  set (g6 := attackInput inp g5) in *. clearbody g6.
  set (g7 := onPlayer (attackTick gameDt) g6).
  assert (H7 : playerErase g7 = playerErase g6
               /\ playerStats (Game.player g7) = playerStats (Game.player g6)).
  { subst g7. rewrite onPlayer_erase, onPlayer_player, attackTick_stats. auto. }
  clearbody g7.
  rewrite onPlayer_erase, onPlayer_player, playerAnimation_stats.
  destruct H1, H2, H3, H4, H5, H7. split; congruence.
Qed.

Lemma spawnEnemy_frame (inp : Input) (gameDt : float) (g : Game.t) (k : nat) :
  spawnErase (fst (spawnEnemy inp gameDt g k)) = spawnErase g
  /\ Game.projectiles (fst (spawnEnemy inp gameDt g k)) = Game.projectiles g
  /\ exists new, Game.enemies (fst (spawnEnemy inp gameDt g k)) = Game.enemies g ++ new.
Proof.
  unfold spawnEnemy. split_ifs; cbn [fst]; (split; [reflexivity|]); (split; [reflexivity|]).
  all: try (eexists; reflexivity).
  all: exists []; rewrite app_nil_r; reflexivity.
Qed.

Lemma spawnBoss_frame (g : Game.t) :
  spawnErase (spawnBoss g) = spawnErase g
  /\ Game.projectiles (spawnBoss g) = Game.projectiles g
  /\ exists new, Game.enemies (spawnBoss g) = Game.enemies g ++ new.
Proof.
  unfold spawnBoss. split_ifs; (split; [reflexivity|]); (split; [reflexivity|]).
  - eexists; reflexivity.
  - exists []; rewrite app_nil_r; reflexivity.
Qed.

Lemma spawnPhase_frame (inp : Input) (gameDt : float) (g : Game.t) :
  spawnErase (fst (spawnPhase inp gameDt g)) = spawnErase g
  /\ Game.projectiles (fst (spawnPhase inp gameDt g))
     = map (updateProjectile gameDt) (Game.projectiles g)
  /\ exists new, Game.enemies (fst (spawnPhase inp gameDt g)) = Game.enemies g ++ new.
Proof.
  unfold spawnPhase.
  destruct (spawnEnemy_frame inp gameDt g 0) as (He1 & Hp1 & new1 & Hn1).
  destruct (spawnEnemy inp gameDt g 0) as [g1 k1]. cbn [fst] in *.
  destruct (spawnBoss_frame g1) as (He2 & Hp2 & new2 & Hn2).
  set (g2 := spawnBoss g1) in *. clearbody g2. cbn [fst].
  split; [|split].
  - transitivity (spawnErase g2); [reflexivity | congruence].
  - cbn [Game.projectiles Game.set_projectiles]. congruence.
  - exists (new1 ++ new2). cbn [Game.enemies Game.set_projectiles].
    rewrite Hn2, Hn1, app_assoc. reflexivity.
Qed.

Lemma projectileLoop_melee `{Raylib} (inp : Input) (g : Game.t) (k : nat) :
  Game.playerClass g <> MAGE -> projectileLoop inp g k = (g, k).
Proof.
  intros Hc. unfold projectileLoop.
  destruct (Game.playerClass g); try reflexivity. contradiction.
Qed.

Lemma collectCoin_player `{Raylib} (c : Coin.t) (p : Player.t) :
  Player.set_coins 0 (snd (collectCoin c p)) = Player.set_coins 0 p.
Proof. unfold collectCoin. split_ifs; reflexivity. Qed.

Lemma collectCoins_frame `{Raylib} (g : Game.t) :
  afterErase (collectCoins g) = afterErase g
  /\ Game.state (collectCoins g) = Game.state g.
Proof.
  unfold collectCoins.
  pose proof (forEach_inv collectCoin
                (fun p => Player.set_coins 0 p = Player.set_coins 0 (Game.player g))) as HI.
  specialize (HI (fun c p Hp => eq_trans (collectCoin_player c p) Hp)
                 (Game.coins g) (Game.player g) eq_refl).
  destruct (forEach collectCoin (Game.coins g) (Game.player g)) as [cs p].
  cbn [snd] in HI. split; [|reflexivity].
  unfold afterErase. cbn [Game.player Game.set_player Game.set_coins].
  rewrite HI. reflexivity.
Qed.

(** The frame's last part: coins, game over, camera. *)
Lemma afterEnemies_frame `{Raylib} (g : Game.t) :
  let g' := updateCamera (checkGameOver (collectCoins g)) in
  afterErase g' = afterErase g
  /\ Game.state g' = (if Player.hp (Game.player g) <=? 0 then GAMEOVER else Game.state g).
Proof.
  destruct (collectCoins_frame g) as [He Hs].
  assert (Hhp : Player.hp (Game.player (collectCoins g)) = Player.hp (Game.player g))
    by exact (f_equal (fun x => Player.hp (Game.player x)) He).
  set (g1 := collectCoins g) in *. clearbody g1.
  unfold updateCamera, checkGameOver. rewrite Hhp.
  destruct (Player.hp (Game.player g) <=? 0); cbn zeta;
    (split; [rewrite <- He; reflexivity | try exact Hs; reflexivity]).
Qed.

(** ** The frame by phase *)

Lemma updatePlaying_stages `{Raylib} (inp : Input) (gameDt : float) (g : Game.t) :
  exists g2 k2 g3 k3 g4 k4,
    spawnPhase inp gameDt (playerPhase inp gameDt g) = (g2, k2)
    /\ enemyLoop inp gameDt g2 k2 = (g3, k3)
    /\ projectileLoop inp g3 k3 = (g4, k4)
    /\ updatePlaying inp gameDt g = updateCamera (checkGameOver (collectCoins g4)).
Proof.
  unfold updatePlaying.
  destruct (spawnPhase inp gameDt (playerPhase inp gameDt g)) as [g2 k2] eqn:E2.
  destruct (enemyLoop inp gameDt g2 k2) as [g3 k3] eqn:E3.
  destruct (projectileLoop inp g3 k3) as [g4 k4] eqn:E4.
  exists g2, k2, g3, k3, g4, k4. repeat split; auto.
Qed.

Lemma shopNavigate_erase (inp : Input) (g : Game.t) :
  quietErase (shopNavigate inp g) = quietErase g
  /\ Game.player (shopNavigate inp g) = Game.player g.
Proof. unfold shopNavigate. split_ifs; split; reflexivity. Qed.

Lemma updateShop_quiet (inp : Input) (g : Game.t) :
  quietErase (updateShop inp g) = quietErase g.
Proof.
  unfold updateShop.
  destruct (shopNavigate_erase inp g) as [He Hp].
  set (g1 := shopNavigate inp g) in *. clearbody g1.
  set (g2 := if IsKeyPressed inp KEY_ENTER then _ else g1).
  assert (H2 : quietErase g2 = quietErase g1).
  { subst g2. destruct (IsKeyPressed inp KEY_ENTER); [|reflexivity].
    unfold quietErase, onPlayer. cbn [Game.player Game.set_player].
    rewrite purchase_outside. reflexivity. }
  clearbody g2.
  destruct (IsKeyPressed inp KEY_TAB || IsKeyPressed inp KEY_ESCAPE);
    (transitivity (quietErase g2); [reflexivity | congruence]).
Qed.

(** A frame either restarts the session, or runs the PLAYING branch, or
    leaves everything but the menu-side fields alone. *)
Lemma frame_cases `{Raylib} (inp : Input) (g : Game.t) :
  (isReset inp g = true
   /\ exists g0, frame inp g = Game.set_state PLAYING (ResetGame g0))
  \/ (isReset inp g = false /\ Game.state g = PLAYING
      /\ frame inp g
         = updatePlaying inp (gameDt inp (Game.gHitStopTimer g))
             (Game.set_gHitStopTimer (hitStopTick inp (Game.gHitStopTimer g)) g))
  \/ (isReset inp g = false /\ Game.state g <> PLAYING
      /\ quietErase (frame inp g) = quietErase g).
Proof.
  unfold frame, isReset. cbn [Game.state Game.set_gHitStopTimer].
  set (g1 := Game.set_gHitStopTimer _ g).
  assert (Hq : quietErase g1 = quietErase g) by reflexivity. clearbody g1.
  destruct (Game.state g) eqn:Hs.
  - unfold updateMenu.
    set (g2 := if IsKeyPressed inp KEY_RIGHT then _ else g1).
    assert (H2 : quietErase g2 = quietErase g1)
      by (subst g2; destruct (IsKeyPressed inp KEY_RIGHT); reflexivity).
    clearbody g2.
    set (g3 := if IsKeyPressed inp KEY_LEFT then _ else g2).
    assert (H3 : quietErase g3 = quietErase g2)
      by (subst g3; split_ifs; reflexivity).
    clearbody g3.
    destruct (IsKeyPressed inp KEY_ENTER).
    + left. split; [reflexivity|]. exists g3. reflexivity.
    + right. right. split; [reflexivity|]. split; [discriminate | congruence].
  - right. left. auto.
  - right. right. split; [reflexivity|]. split; [discriminate|].
    rewrite updateShop_quiet. exact Hq.
  - unfold updateRestart. destruct (IsKeyPressed inp KEY_ENTER).
    + left. split; [reflexivity|]. exists g1. reflexivity.
    + right. right. split; [reflexivity|]. split; [discriminate | exact Hq].
  - unfold updateRestart. destruct (IsKeyPressed inp KEY_ENTER).
    + left. split; [reflexivity|]. exists g1. reflexivity.
    + right. right. split; [reflexivity|]. split; [discriminate | exact Hq].
Qed.

(** ** Melee: one hit per enemy per attack id *)

Lemma afterErase_swing (g g' : Game.t) :
  afterErase g = afterErase g' ->
  swingDamage g = swingDamage g'
  /\ Player.currentAttackId (Game.player g) = Player.currentAttackId (Game.player g')
  /\ Game.playerClass g = Game.playerClass g'
  /\ Game.enemies g = Game.enemies g'.
Proof.
  intros He.
  assert (Hc : Game.playerClass g = Game.playerClass g')
    by exact (f_equal Game.playerClass He).
  assert (Hb : Player.baseDamage (Game.player g) = Player.baseDamage (Game.player g'))
    by exact (f_equal (fun x => Player.baseDamage (Game.player x)) He).
  assert (Hs : Player.comboStep (Game.player g) = Player.comboStep (Game.player g'))
    by exact (f_equal (fun x => Player.comboStep (Game.player x)) He).
  assert (Hi : Player.currentAttackId (Game.player g) = Player.currentAttackId (Game.player g'))
    by exact (f_equal (fun x => Player.currentAttackId (Game.player x)) He).
  assert (Hen : Game.enemies g = Game.enemies g') by exact (f_equal Game.enemies He).
  unfold swingDamage. rewrite Hc, Hb, Hs. auto.
Qed.

Lemma playerErase_fields (g g' : Game.t) :
  playerErase g = playerErase g' ->
  Game.enemies g = Game.enemies g'
  /\ Game.playerClass g = Game.playerClass g'
  /\ Game.coins g = Game.coins g'
  /\ Game.gHitStopTimer g = Game.gHitStopTimer g'
  /\ Game.bossDefeated g = Game.bossDefeated g'.
Proof.
  intros He. repeat split.
  - exact (f_equal Game.enemies He).
  - exact (f_equal Game.playerClass He).
  - exact (f_equal Game.coins He).
  - exact (f_equal Game.gHitStopTimer He).
  - exact (f_equal Game.bossDefeated He).
Qed.

Lemma spawnErase_fields (g g' : Game.t) :
  spawnErase g = spawnErase g' ->
  Game.player g = Game.player g'
  /\ Game.playerClass g = Game.playerClass g'
  /\ Game.coins g = Game.coins g'
  /\ Game.state g = Game.state g'
  /\ Game.gHitStopTimer g = Game.gHitStopTimer g'
  /\ Game.gAttackCounter g = Game.gAttackCounter g'
  /\ Game.bossDefeated g = Game.bossDefeated g'.
Proof.
  intros He. repeat split.
  - exact (f_equal Game.player He).
  - exact (f_equal Game.playerClass He).
  - exact (f_equal Game.coins He).
  - exact (f_equal Game.state He).
  - exact (f_equal Game.gHitStopTimer He).
  - exact (f_equal Game.gAttackCounter He).
  - exact (f_equal Game.bossDefeated He).
Qed.

(** The stages of one PLAYING frame, as facts about the intermediate games. *)
Lemma playing_chain_melee (g g1 g2 g3 g' : Game.t) (new : list Enemy.t) :
  playerErase g1 = playerErase g ->
  spawnErase g2 = spawnErase g1 ->
  Game.enemies g2 = Game.enemies g1 ++ new ->
  combatErase g3 = combatErase g2 ->
  Forall2 (meleeStep (Player.currentAttackId (Game.player g2)) (swingDamage g2))
          (Game.enemies g2) (Game.enemies g3) ->
  afterErase g' = afterErase g3 ->
  Game.playerClass g' = Game.playerClass g
  /\ Forall2 (meleeStep (Player.currentAttackId (Game.player g')) (swingDamage g'))
             (Game.enemies g ++ new) (Game.enemies g').
Proof.
  intros H1 H2 Hn H3 HF H4.
  destruct (playerErase_fields _ _ H1) as (He1 & Hc1 & _).
  destruct (spawnErase_fields _ _ H2) as (_ & Hc2 & _).
  destruct (combatErase_swing _ _ H3) as (Hd3 & Hi3 & Hc3).
  destruct (afterErase_swing _ _ H4) as (Hd & Hi & Hcl & Hen).
  split; [congruence|].
  rewrite Hd, Hi, Hen, Hd3, Hi3, <- He1, <- Hn. exact HF.
Qed.

(** The PLAYING branch with a melee class: the enemies present at the start
    keep their places, new ones are appended, and each is related to its
    update by [meleeStep] at the id and damage the frame ends with. *)
Lemma updatePlaying_melee `{Raylib} (inp : Input) (gameDt : float) (g : Game.t) :
  Game.playerClass g <> MAGE ->
  let g' := updatePlaying inp gameDt g in
  Game.playerClass g' = Game.playerClass g
  /\ exists new,
      Forall2 (meleeStep (Player.currentAttackId (Game.player g')) (swingDamage g'))
              (Game.enemies g ++ new) (Game.enemies g').
Proof.
  intros Hc g'. subst g'.
  destruct (updatePlaying_stages inp gameDt g)
    as (g2 & k2 & g3 & k3 & g4 & k4 & E2 & E3 & E4 & ->).
  pose proof (playerPhase_frame inp gameDt g) as [Hp1 _].
  pose proof (spawnPhase_frame inp gameDt (playerPhase inp gameDt g)) as (Hs2 & _ & new & Hn2).
  rewrite E2 in Hs2, Hn2.
  pose proof (enemyLoop_melee inp gameDt g2 k2) as [He3 HF]. rewrite E3 in He3, HF.
  assert (Hc3 : Game.playerClass g3 <> MAGE).
  { destruct (playerErase_fields _ _ Hp1) as (_ & Hc1 & _).
    destruct (spawnErase_fields _ _ Hs2) as (_ & Hc2 & _).
    destruct (combatErase_swing _ _ He3) as (_ & _ & Hc3').
    unfold fst in *. congruence. }
  rewrite projectileLoop_melee in E4 by exact Hc3. inversion E4; subst g4 k4.
  pose proof (afterEnemies_frame g3) as [Ha _].
  destruct (playing_chain_melee g _ g2 g3 _ new Hp1 Hs2 Hn2 He3 HF Ha) as [Hcl HF'].
  split; [exact Hcl|]. exists new. exact HF'.
Qed.

Lemma quietErase_fields (g g' : Game.t) :
  quietErase g = quietErase g' ->
  Game.enemies g = Game.enemies g'
  /\ Game.playerClass g = Game.playerClass g'
  /\ Game.gAttackCounter g = Game.gAttackCounter g'
  /\ Player.currentAttackId (Game.player g) = Player.currentAttackId (Game.player g')
  /\ Player.attacking (Game.player g) = Player.attacking (Game.player g').
Proof.
  intros He.
  repeat split.
  - exact (f_equal Game.enemies He).
  - exact (f_equal Game.playerClass He).
  - exact (f_equal Game.gAttackCounter He).
  - exact (f_equal (fun x => Player.currentAttackId (Game.player x)) He).
  - exact (f_equal (fun x => Player.attacking (Game.player x)) He).
Qed.

(** One frame without restart, melee class: every enemy keeps its index and
    is related to its update by [meleeStep]. *)
Lemma frame_melee `{Raylib} (inp : Input) (g : Game.t) (i : nat) (e : Enemy.t) :
  Game.playerClass g <> MAGE ->
  isReset inp g = false ->
  nth_error (Game.enemies g) i = Some e ->
  Game.playerClass (frame inp g) = Game.playerClass g
  /\ exists e1,
      nth_error (Game.enemies (frame inp g)) i = Some e1
      /\ meleeStep (Player.currentAttackId (Game.player (frame inp g)))
                   (swingDamage (frame inp g)) e e1.
Proof.
  intros Hc Hr He.
  destruct (frame_cases inp g) as [[Hr' _] | [(_ & Hs & ->) | (_ & Hs & Hq)]].
  - congruence.
  - destruct (updatePlaying_melee inp (gameDt inp (Game.gHitStopTimer g))
                (Game.set_gHitStopTimer (hitStopTick inp (Game.gHitStopTimer g)) g) Hc)
      as [Hcl (new & HF)].
    split; [exact Hcl|].
    apply (Forall2_nth_error _ _ _ i e HF).
    cbn [Game.enemies Game.set_gHitStopTimer].
    rewrite nth_error_app1; [exact He|]. apply nth_error_Some. congruence.
  - destruct (quietErase_fields _ _ Hq) as (Hen & Hcl & _).
    split; [exact Hcl|]. exists e. rewrite Hen. split; [exact He|]. left. auto.
Qed.

Lemma frame_reset_id `{Raylib} (inp : Input) (g : Game.t) :
  isReset inp g = true ->
  Player.currentAttackId (Game.player (frame inp g)) = -1
  /\ Game.gAttackCounter (frame inp g) = 0
  /\ Game.gProjectileCounter (frame inp g) = 0
  /\ Game.enemies (frame inp g) = []
  /\ Game.projectiles (frame inp g) = [].
Proof.
  intros Hr. destruct (frame_cases inp g) as [(_ & g0 & ->) | [(Hr' & _) | (Hr' & _)]];
    [repeat split; reflexivity | congruence | congruence].
Qed.

(** C1.  Take any run of frames, of any length and under any input, during
    which the player's current attack-instance id stays [a], with a melee
    class.  An enemy's HP at the end is its HP at the start, or its HP at the
    start minus one application of round(baseDamage x combo multiplier), the
    damage of the swing at the frame of the hit; in the second case its stored
    id differed from [a] before and is [a] after.  So the damage of one
    attack instance lands at most once on an enemy however many frames the
    hitbox overlaps it, only when the stored id differs, and stamps it.
    Conversely (second part) the resolver, when a swing is active, does hit
    every overlapping enemy whose stored id differs: its HP drops by the
    swing's damage and it is stamped. *)
Theorem melee_one_hit_per_attack `{Raylib} (a : Z) (inps : list Input) (g : Game.t)
    (i : nat) (e e' : Enemy.t)
    (Ha : 0 <= a)
    (Hc : Game.playerClass g <> MAGE)
    (Hid : holdsId a inps g)
    (He : nth_error (Game.enemies g) i = Some e)
    (He' : nth_error (Game.enemies (run inps g)) i = Some e') :
  ((Enemy.hp e' = Enemy.hp e /\ Enemy.lastHitAttackId e' = Enemy.lastHitAttackId e)
   \/ (Enemy.lastHitAttackId e <> a
       /\ Enemy.lastHitAttackId e' = a
       /\ exists pre inp post,
           inps = pre ++ inp :: post
           /\ Enemy.hp e' = isub (Enemy.hp e) (swingDamage (frame inp (run pre g)))))
  /\ (forall inp k x gx,
        meleeActive gx = true ->
        Enemy.lastHitAttackId x <> Player.currentAttackId (Game.player gx) ->
        RectOverlap (Player.attackHitbox (Game.player gx))
                    (MakeRect (Enemy.pos x) (Enemy.size x)) = true ->
        Enemy.hp (fst (fst (meleeHit inp x gx k)))
        = isub (Enemy.hp x)
               (round_to_int
                  (fmul (of_int (Player.baseDamage (Game.player gx)))
                        (GetComboMultiplier (Game.playerClass gx)
                                            (Player.comboStep (Game.player gx)))))
        /\ Enemy.lastHitAttackId (fst (fst (meleeHit inp x gx k)))
           = Player.currentAttackId (Game.player gx)).
Proof.
  split; [|intros inp k x gx; apply meleeHit_lands].
  revert g e Hc Hid He He'.
  induction inps as [|inp rest IH]; intros g e Hc Hid He He'.
  - simpl in He'. left. assert (e' = e) by congruence. subst. auto.
  - destruct Hid as [Hcur Hrest]. simpl in He'.
    assert (Hr : isReset inp g = false).
    { destruct (isReset inp g) eqn:Hr; [|reflexivity].
      destruct (frame_reset_id inp g Hr) as [Hm _]. lia. }
    destruct (frame_melee inp g i e Hc Hr He) as (Hcl & e1 & He1 & Hstep).
    rewrite Hcur in Hstep.
    assert (Hc1 : Game.playerClass (frame inp g) <> MAGE) by congruence.
    specialize (IH (frame inp g) e1 Hc1 Hrest He1 He').
    destruct Hstep as [[Hhp Hlh] | (_ & Hne & Hst & Hhp)].
    + destruct IH as [[Hhp' Hlh'] | (Hne' & Hst' & pre & inp' & post & Hsplit & Hhp')].
      * left. split; congruence.
      * right. split; [congruence|]. split; [exact Hst'|].
        exists (inp :: pre), inp', post. split; [rewrite Hsplit; reflexivity|].
        simpl. congruence.
    + destruct IH as [[Hhp' Hlh'] | (Hne' & _)]; [|congruence].
      right. split; [exact Hne|]. split; [congruence|].
      exists [], inp, rest. split; [reflexivity|]. simpl. congruence.
Qed.

(** Witness: a Knight swings (id 1) at a Grunt that stays inside the hitbox
    for three frames; the Grunt loses 20 HP once. *)
Lemma melee_one_hit_per_attack_witness :
  let inps := [press KEY_J; idle; idle] in
  let e' := hd (MakeEnemy GRUNT fzero fzero)
               (Game.enemies (@run referenceRaylib inps knightAndGrunt)) in
  Enemy.hp e' = 70
  /\ Enemy.lastHitAttackId e' = 1
  /\ ((Enemy.hp e' = 90 /\ Enemy.lastHitAttackId e' = -1)
      \/ (-1 <> 1
          /\ Enemy.lastHitAttackId e' = 1
          /\ exists pre inp post,
              inps = pre ++ inp :: post
              /\ Enemy.hp e'
                 = isub 90 (swingDamage (@frame referenceRaylib inp
                                           (@run referenceRaylib pre knightAndGrunt))))).
Proof.
  intros inps e'.
  split; [vm_compute; reflexivity|]. split; [vm_compute; reflexivity|].
  refine (proj1 (@melee_one_hit_per_attack referenceRaylib 1 inps knightAndGrunt 0%nat
                   (MakeEnemy GRUNT (of_int 130) (of_int 390)) e' _ _ _ _ _)).
  - lia.
  - discriminate.
  - cbn [holdsId inps]. repeat split; vm_compute; reflexivity.
  - reflexivity.
  - vm_compute. reflexivity.
Defined.

(** ** The projectile loop leaves the rest of the game alone *)

Lemma projectileHit_erase `{Raylib} (inp : Input) (p : Projectile.t) (e : Enemy.t)
    (s : Game.t * nat) :
  combatErase (fst (snd (projectileHit inp p e s))) = combatErase (fst s)
  /\ Game.player (fst (snd (projectileHit inp p e s))) = Game.player (fst s)
  /\ Game.gHitStopTimer (fst (snd (projectileHit inp p e s))) = Game.gHitStopTimer (fst s).
Proof.
  destruct s as [g k]. unfold projectileHit.
  destruct (negb (Enemy.alive e)); [auto|].
  destruct (CheckCollisionCircleRec _ _ _); [|auto].
  destruct (negb (Enemy.lastProjectileHitId e =? Projectile.id p)); [|auto].
  set (e1 := Enemy.set_hp _ _).
  pose proof (enemyDeath_fields inp e1 g k) as (_ & _ & _ & _ & _ & _ & _ & He & Hp).
  assert (Hh : Game.gHitStopTimer (snd (fst (enemyDeath inp e1 g k))) = Game.gHitStopTimer g).
  { unfold enemyDeath.
    match goal with |- context [dropCoins ?a ?b ?c ?d ?e] =>
      destruct (dropCoins a b c d e) as [cs k'] end.
    split_ifs; reflexivity. }
  destruct (enemyDeath inp e1 g k) as [[e2 g2] k2]. cbn [fst snd] in *. auto.
Qed.

Lemma projectilesVsEnemies_erase `{Raylib} (inp : Input) (ps : list Projectile.t) :
  forall es s,
  let s' := snd (projectilesVsEnemies inp ps es s) in
  combatErase (fst s') = combatErase (fst s)
  /\ Game.player (fst s') = Game.player (fst s)
  /\ Game.gHitStopTimer (fst s') = Game.gHitStopTimer (fst s).
Proof.
  induction ps as [|p ps IH]; intros es s; [simpl; auto|].
  simpl. destruct (negb (Projectile.active p)); [apply IH|].
  pose proof (forEach_inv (projectileHit inp p)
                (fun s' => combatErase (fst s') = combatErase (fst s)
                           /\ Game.player (fst s') = Game.player (fst s)
                           /\ Game.gHitStopTimer (fst s') = Game.gHitStopTimer (fst s))) as HI.
  assert (Hstep : forall x s0,
             combatErase (fst s0) = combatErase (fst s)
             /\ Game.player (fst s0) = Game.player (fst s)
             /\ Game.gHitStopTimer (fst s0) = Game.gHitStopTimer (fst s) ->
             combatErase (fst (snd (projectileHit inp p x s0))) = combatErase (fst s)
             /\ Game.player (fst (snd (projectileHit inp p x s0))) = Game.player (fst s)
             /\ Game.gHitStopTimer (fst (snd (projectileHit inp p x s0)))
                = Game.gHitStopTimer (fst s)).
  { intros x s0 (Ha & Hb & Hc).
    destruct (projectileHit_erase inp p x s0) as (Ha' & Hb' & Hc').
    repeat split; congruence. }
  specialize (HI Hstep es s (conj eq_refl (conj eq_refl eq_refl))).
  destruct (forEach (projectileHit inp p) es s) as [es' s1]. cbn [snd] in HI.
  destruct HI as (Ha & Hb & Hc).
  destruct (IH es' s1) as (Ha' & Hb' & Hc').
  repeat split; congruence.
Qed.

Lemma projectileLoop_erase `{Raylib} (inp : Input) (g : Game.t) (k : nat) :
  let g' := fst (projectileLoop inp g k) in
  combatErase g' = combatErase g
  /\ Game.player g' = Game.player g
  /\ Game.gHitStopTimer g' = Game.gHitStopTimer g.
Proof.
  unfold projectileLoop.
  destruct (PlayerClass_eqb (Game.playerClass g) MAGE); [|simpl; auto].
  pose proof (projectilesVsEnemies_erase inp (Game.projectiles g) (Game.enemies g) (g, k))
    as (Ha & Hb & Hc).
  destruct (projectilesVsEnemies inp (Game.projectiles g) (Game.enemies g) (g, k))
    as [es [g' k']].
  cbn [fst snd] in *. repeat split; assumption.
Qed.

(** ** Attack-instance ids *)

Lemma movePlayer_attackView (inp : Input) (gameDt : float) (p : Player.t) :
  attackView (movePlayer inp gameDt p) = attackView p.
Proof. unfold movePlayer. crush_stage. Qed.

Lemma abilityTimers_attackView (gameDt : float) (p : Player.t) :
  attackView (abilityTimers gameDt p) = attackView p.
Proof. unfold abilityTimers. crush_stage. Qed.

Lemma knightBlock_attackView (inp : Input) (gameDt : float) (p : Player.t) :
  attackView (knightBlock inp gameDt p) = attackView p.
Proof. unfold knightBlock. crush_stage. Qed.

Lemma rogueDodge_attackView (inp : Input) (gameDt : float) (p : Player.t) :
  attackView (rogueDodge inp gameDt p) = attackView p.
Proof. unfold rogueDodge. crush_stage. Qed.

Lemma mageBlink_attackView (inp : Input) (p : Player.t) :
  attackView (mageBlink inp p) = attackView p.
Proof. unfold mageBlink. crush_stage. Qed.

Lemma classAbility_attackView (inp : Input) (gameDt : float) (pc : PlayerClass)
    (p : Player.t) :
  attackView (classAbility inp gameDt pc p) = attackView p.
Proof.
  unfold classAbility.
  destruct (PlayerClass_eqb pc KNIGHT), (PlayerClass_eqb pc ROGUE), (PlayerClass_eqb pc MAGE);
    rewrite ?mageBlink_attackView, ?rogueDodge_attackView, ?knightBlock_attackView;
    reflexivity.
Qed.

Lemma comboTick_attackView (gameDt : float) (p : Player.t) :
  attackView (comboTick gameDt p) = attackView p.
Proof. unfold comboTick. crush_stage. Qed.

Lemma attackTick_id (gameDt : float) (p : Player.t) :
  Player.currentAttackId (attackTick gameDt p) = Player.currentAttackId p.
Proof. unfold attackTick. crush_stage. Qed.

Lemma playerAnimation_id `{Raylib} (move : Vector2) (gameDt : float) (p : Player.t) :
  Player.currentAttackId (playerAnimation move gameDt p) = Player.currentAttackId p.
Proof. unfold playerAnimation. crush_stage. Qed.

(** The attack-input edge: a melee class that is not mid-swing takes the
    next counter value as its id; nothing else moves the counter or the id. *)
Lemma attackInput_ids (inp : Input) (g : Game.t) :
  let issued :=
    negb (Player.attacking (Game.player g)) && IsKeyPressed inp KEY_J
    && (PlayerClass_eqb (Game.playerClass g) KNIGHT
        || PlayerClass_eqb (Game.playerClass g) ROGUE) in
  Game.gAttackCounter (attackInput inp g)
  = (if issued then iadd (Game.gAttackCounter g) 1 else Game.gAttackCounter g)
  /\ Player.currentAttackId (Game.player (attackInput inp g))
     = (if issued then iadd (Game.gAttackCounter g) 1
        else Player.currentAttackId (Game.player g)).
Proof.
  unfold attackInput.
  destruct (negb (Player.attacking (Game.player g)) && IsKeyPressed inp KEY_J);
    [|split; reflexivity].
  destruct (PlayerClass_eqb (Game.playerClass g) KNIGHT
            || PlayerClass_eqb (Game.playerClass g) ROGUE); cbn [andb].
  - crush_stage.
  - crush_stage.
Qed.

(** The counter and the id over the player's part of the frame, stated on
    the intermediate games. *)
Lemma playerPhase_ids_chain (inp : Input) (issued : bool) (c a : Z) (cls : PlayerClass)
    (att : bool) (g5 g6 : Game.t) (p8 : Player.t) :
  Game.gAttackCounter g5 = c ->
  Game.playerClass g5 = cls ->
  attackView (Game.player g5) = (att, a) ->
  issued = negb att && IsKeyPressed inp KEY_J
           && (PlayerClass_eqb cls KNIGHT || PlayerClass_eqb cls ROGUE) ->
  g6 = attackInput inp g5 ->
  Player.currentAttackId p8 = Player.currentAttackId (Game.player g6) ->
  Game.gAttackCounter g6 = (if issued then iadd c 1 else c)
  /\ Player.currentAttackId p8 = (if issued then iadd c 1 else a).
Proof.
  intros Hc Hcl Hv Hi -> Hp8.
  destruct (attackInput_ids inp g5) as [H1 H2].
  unfold attackView in Hv. inversion Hv as [[Hatt Hcur]].
  rewrite Hatt, Hcl, Hc in *. rewrite <- Hi in *.
  split; [exact H1|]. rewrite Hp8, H2. rewrite Hcur. reflexivity.
Qed.

Lemma playerPhase_ids `{Raylib} (inp : Input) (gameDt : float) (g : Game.t) :
  let issued :=
    negb (Player.attacking (Game.player g)) && IsKeyPressed inp KEY_J
    && (PlayerClass_eqb (Game.playerClass g) KNIGHT
        || PlayerClass_eqb (Game.playerClass g) ROGUE) in
  Game.gAttackCounter (playerPhase inp gameDt g)
  = (if issued then iadd (Game.gAttackCounter g) 1 else Game.gAttackCounter g)
  /\ Player.currentAttackId (Game.player (playerPhase inp gameDt g))
     = (if issued then iadd (Game.gAttackCounter g) 1
        else Player.currentAttackId (Game.player g)).
Proof.
  intros issued. unfold playerPhase.
  set (move := effectiveMove inp (Game.player g)).
  set (g1 := onPlayer (movePlayer inp gameDt) g).
  set (g2 := if IsKeyPressed inp KEY_TAB then Game.set_state SHOP g1 else g1).
  set (g3 := onPlayer (abilityTimers gameDt) g2).
  set (g4 := onPlayer (classAbility inp gameDt (Game.playerClass g3)) g3).
  set (g5 := onPlayer (comboTick gameDt) g4).
  set (g6 := attackInput inp g5).
  set (g7 := onPlayer (attackTick gameDt) g6).
  assert (H2 : Game.gAttackCounter g2 = Game.gAttackCounter g
               /\ Game.playerClass g2 = Game.playerClass g
               /\ Game.player g2 = movePlayer inp gameDt (Game.player g)).
  { subst g2 g1. destruct (IsKeyPressed inp KEY_TAB); repeat split; reflexivity. }
  destruct H2 as (Hc2 & Hcl2 & Hp2).
  assert (Hv5 : attackView (Game.player g5) = attackView (Game.player g)).
  { subst g5 g4 g3. rewrite !onPlayer_player.
    rewrite comboTick_attackView, classAbility_attackView, abilityTimers_attackView, Hp2.
    apply movePlayer_attackView. }
  assert (Hc5 : Game.gAttackCounter g5 = Game.gAttackCounter g) by exact Hc2.
  assert (Hcl5 : Game.playerClass g5 = Game.playerClass g) by exact Hcl2.
  assert (Hp8 : Player.currentAttackId
                  (Game.player (onPlayer (playerAnimation move gameDt) g7))
                = Player.currentAttackId (Game.player g6)).
  { subst g7. rewrite !onPlayer_player, playerAnimation_id, attackTick_id. reflexivity. }
  exact (playerPhase_ids_chain inp issued _ _ _ _ g5 g6 _ Hc5 Hcl5 Hv5 eq_refl eq_refl Hp8).
Qed.

Lemma combatErase_ids (g g' : Game.t) :
  combatErase g = combatErase g' ->
  Game.gAttackCounter g = Game.gAttackCounter g'
  /\ Player.currentAttackId (Game.player g) = Player.currentAttackId (Game.player g').
Proof.
  intros He. split.
  - exact (f_equal Game.gAttackCounter He).
  - exact (f_equal (fun x => Player.currentAttackId (Game.player x)) He).
Qed.

Lemma afterErase_ids (g g' : Game.t) :
  afterErase g = afterErase g' ->
  Game.gAttackCounter g = Game.gAttackCounter g'
  /\ Player.currentAttackId (Game.player g) = Player.currentAttackId (Game.player g').
Proof.
  intros He. split.
  - exact (f_equal Game.gAttackCounter He).
  - exact (f_equal (fun x => Player.currentAttackId (Game.player x)) He).
Qed.

Lemma playing_chain_ids (g1 g2 g3 g4 g' : Game.t) :
  spawnErase g2 = spawnErase g1 ->
  combatErase g3 = combatErase g2 ->
  combatErase g4 = combatErase g3 ->
  afterErase g' = afterErase g4 ->
  Game.gAttackCounter g' = Game.gAttackCounter g1
  /\ Player.currentAttackId (Game.player g') = Player.currentAttackId (Game.player g1).
Proof.
  intros H2 H3 H4 H5.
  destruct (spawnErase_fields _ _ H2) as (Hp & _ & _ & _ & _ & Hc & _).
  destruct (combatErase_ids _ _ H3) as [Hc3 Hi3].
  destruct (combatErase_ids _ _ H4) as [Hc4 Hi4].
  destruct (afterErase_ids _ _ H5) as [Hc5 Hi5].
  split; congruence.
Qed.

Lemma updatePlaying_ids `{Raylib} (inp : Input) (gameDt : float) (g : Game.t) :
  let issued :=
    negb (Player.attacking (Game.player g)) && IsKeyPressed inp KEY_J
    && (PlayerClass_eqb (Game.playerClass g) KNIGHT
        || PlayerClass_eqb (Game.playerClass g) ROGUE) in
  Game.gAttackCounter (updatePlaying inp gameDt g)
  = (if issued then iadd (Game.gAttackCounter g) 1 else Game.gAttackCounter g)
  /\ Player.currentAttackId (Game.player (updatePlaying inp gameDt g))
     = (if issued then iadd (Game.gAttackCounter g) 1
        else Player.currentAttackId (Game.player g)).
Proof.
  intros issued.
  destruct (updatePlaying_stages inp gameDt g)
    as (g2 & k2 & g3 & k3 & g4 & k4 & E2 & E3 & E4 & ->).
  pose proof (spawnPhase_frame inp gameDt (playerPhase inp gameDt g)) as (Hs2 & _).
  rewrite E2 in Hs2.
  pose proof (enemyLoop_melee inp gameDt g2 k2) as [He3 _]. rewrite E3 in He3.
  pose proof (projectileLoop_erase inp g3 k3) as [He4 _]. rewrite E4 in He4.
  pose proof (afterEnemies_frame g4) as [Ha _].
  destruct (playing_chain_ids _ g2 g3 g4 _ Hs2 He3 He4 Ha) as [Hc Hi].
  destruct (playerPhase_ids inp gameDt g) as [Hc1 Hi1].
  fold issued in Hc1, Hi1. rewrite Hc, Hi. auto.
Qed.

(** One frame that does not restart the session: the counter and the current
    id move only on an accepted melee attack input, to counter + 1. *)
Lemma frame_ids `{Raylib} (inp : Input) (g : Game.t) :
  isReset inp g = false ->
  Game.gAttackCounter (frame inp g)
  = (if attackIssued inp g then iadd (Game.gAttackCounter g) 1 else Game.gAttackCounter g)
  /\ Player.currentAttackId (Game.player (frame inp g))
     = (if attackIssued inp g then iadd (Game.gAttackCounter g) 1
        else Player.currentAttackId (Game.player g)).
Proof.
  intros Hr. unfold attackIssued.
  destruct (frame_cases inp g) as [[Hr' _] | [(_ & Hs & ->) | (_ & Hs & Hq)]].
  - congruence.
  - rewrite Hs. cbn [GameState_eqb andb].
    apply (updatePlaying_ids inp (gameDt inp (Game.gHitStopTimer g))
             (Game.set_gHitStopTimer (hitStopTick inp (Game.gHitStopTimer g)) g)).
  - destruct (quietErase_fields _ _ Hq) as (_ & _ & Hc & Hi & _).
    destruct (Game.state g); try contradiction; cbn [GameState_eqb andb]; auto.
Qed.

Lemma issuedIds_above `{Raylib} (inps : list Input) :
  forall g,
  noReset inps g = true ->
  INT_MIN <= Game.gAttackCounter g ->
  Game.gAttackCounter g + Z.of_nat (List.length inps) <= INT_MAX ->
  Forall (fun a => Game.gAttackCounter g < a) (issuedIds inps g)
  /\ StronglySorted Z.lt (issuedIds inps g)
  /\ Game.gAttackCounter g <= Game.gAttackCounter (run inps g).
Proof.
  induction inps as [|inp rest IH]; intros g Hn Hlo Hhi.
  - simpl. repeat split; [constructor | constructor | lia].
  - cbn [noReset] in Hn. apply andb_true_iff in Hn. destruct Hn as [Hr Hn].
    apply negb_true_iff in Hr.
    destruct (frame_ids inp g Hr) as [Hc Hi].
    cbn [List.length] in Hhi. rewrite Nat2Z.inj_succ in Hhi.
    assert (Hw : iadd (Game.gAttackCounter g) 1 = Game.gAttackCounter g + 1) by int_arith.
    rewrite Hw in Hc, Hi.
    assert (Hc' : Game.gAttackCounter g <= Game.gAttackCounter (frame inp g)
                  <= Game.gAttackCounter g + 1)
      by (rewrite Hc; destruct (attackIssued inp g); lia).
    destruct (IH (frame inp g) Hn) as (Hab & Hso & Hmono); [lia | lia |].
    cbn [issuedIds run].
    assert (Hab' : Forall (fun a => Game.gAttackCounter g < a) (issuedIds rest (frame inp g))).
    { eapply Forall_impl; [|exact Hab]. cbn beta. intros a Ha. lia. }
    destruct (attackIssued inp g).
    + rewrite Hi. split; [constructor; [lia | exact Hab']|].
      split; [|lia]. constructor; [exact Hso|].
      eapply Forall_impl; [|exact Hab]. cbn beta. intros a Ha. lia.
    + split; [exact Hab'|]. split; [exact Hso | lia].
Qed.

(** C4, as the code has it.  Within a session, that is along any run of
    frames none of which restarts the game, the attack-instance ids issued on
    accepted melee attack inputs are strictly increasing and all above the
    counter the run started with, so none is reused.  A restart (ENTER in
    MENU, GAMEOVER or VICTORY) sets the counter back to 0 and the current id
    to -1 and empties the enemies, so the next session issues 1, 2, ... again.
    The hypotheses keep the counter inside [int]. *)
Theorem attack_ids_increase_within_session `{Raylib} (inps : list Input) (g : Game.t)
    (Hn : noReset inps g = true)
    (Hlo : INT_MIN <= Game.gAttackCounter g)
    (Hhi : Game.gAttackCounter g + Z.of_nat (List.length inps) <= INT_MAX) :
  StronglySorted Z.lt (issuedIds inps g)
  /\ Forall (fun a => Game.gAttackCounter g < a) (issuedIds inps g)
  /\ (forall inp g0,
        isReset inp g0 = true ->
        Game.gAttackCounter (frame inp g0) = 0
        /\ Player.currentAttackId (Game.player (frame inp g0)) = -1
        /\ Game.enemies (frame inp g0) = []).
Proof.
  destruct (issuedIds_above inps g Hn Hlo Hhi) as (Hab & Hso & _).
  split; [exact Hso|]. split; [exact Hab|].
  intros inp g0 Hr. destruct (frame_reset_id inp g0 Hr) as (Hi & Hc & _ & He & _).
  auto.
Qed.

(** Witness: a Knight swings, waits out the swing and swings again: ids 1
    and 2. *)
Lemma attack_ids_increase_within_session_witness :
  let inps := [press KEY_J] ++ repeat idle 6 ++ [press KEY_J] in
  @issuedIds referenceRaylib inps (sessionOf 0) = [1; 2]
  /\ StronglySorted Z.lt (@issuedIds referenceRaylib inps (sessionOf 0))
  /\ Forall (fun a => 0 < a) (@issuedIds referenceRaylib inps (sessionOf 0)).
Proof.
  intros inps. split; [vm_compute; reflexivity|].
  destruct (@attack_ids_increase_within_session referenceRaylib inps (sessionOf 0))
    as (Hso & Hab & _).
  - vm_compute. reflexivity.
  - vm_compute. discriminate.
  - vm_compute. discriminate.
  - split; [exact Hso | exact Hab].
Defined.

(** C4 fails across a restart: in the play-through [rogueDiesAndRestarts] the
    swing before the game over and the swing after the restart both get id
    1. *)
Lemma attack_id_reused_after_restart :
  @issuedIds referenceRaylib rogueDiesAndRestarts initialGame = [1; 1]
  /\ Game.state (@run referenceRaylib (firstn 341 rogueDiesAndRestarts) initialGame)
     = GAMEOVER.
Proof. split; vm_compute; reflexivity. Qed.

(** ** Hit stop *)

Lemma fsub_zero (x : float) : fsub x fzero = x.
Proof. destruct x as [[|]|[|]| |s m e]; reflexivity. Qed.

Lemma fadd_zero (x : float) : x <> S754_zero true -> fadd x fzero = x.
Proof. destruct x as [[|]|[|]| |s m e]; intros Hx; try reflexivity. contradiction. Qed.

Lemma tickCooldown_frozen (t : float) : fltb t fzero = false -> tickCooldown fzero t = t.
Proof.
  intros Ht. unfold tickCooldown. rewrite fsub_zero.
  destruct (fltb fzero t); rewrite Ht; reflexivity.
Qed.

Lemma movePlayer_timers (inp : Input) (gameDt : float) (p : Player.t) :
  cooldownView (movePlayer inp gameDt p) = cooldownView p
  /\ animView (movePlayer inp gameDt p) = animView p.
Proof. unfold movePlayer. crush_stage. Qed.

Lemma abilityTimers_frozen (p : Player.t) :
  fltb (Player.blockCooldownTimer p) fzero = false ->
  fltb (Player.dodgeCooldownTimer p) fzero = false ->
  fltb (Player.blinkCooldownTimer p) fzero = false ->
  cooldownView (abilityTimers fzero p) = cooldownView p
  /\ animView (abilityTimers fzero p) = animView p.
Proof.
  intros Hb Hd Hk. unfold abilityTimers.
  cbn [Player.invincibleTimer Player.set_blockCooldownTimer Player.set_dodgeCooldownTimer
       Player.set_blinkCooldownTimer Player.blockCooldownTimer Player.dodgeCooldownTimer
       Player.blinkCooldownTimer].
  rewrite !tickCooldown_frozen by assumption. rewrite fsub_zero.
  split_ifs; split; reflexivity.
Qed.

Lemma knightBlock_timers (inp : Input) (gameDt : float) (p : Player.t) :
  IsKeyPressed inp KEY_K = false ->
  cooldownView (knightBlock inp gameDt p) = cooldownView p
  /\ animView (knightBlock inp gameDt p) = animView p.
Proof. intros Hk. unfold knightBlock. rewrite Hk, andb_false_r. crush_stage. Qed.

Lemma rogueDodge_timers (inp : Input) (gameDt : float) (p : Player.t) :
  IsKeyPressed inp KEY_K = false ->
  cooldownView (rogueDodge inp gameDt p) = cooldownView p
  /\ animView (rogueDodge inp gameDt p) = animView p.
Proof. intros Hk. unfold rogueDodge. rewrite Hk, andb_false_r. crush_stage. Qed.

Lemma mageBlink_timers (inp : Input) (p : Player.t) :
  IsKeyPressed inp KEY_K = false ->
  cooldownView (mageBlink inp p) = cooldownView p
  /\ animView (mageBlink inp p) = animView p.
Proof. intros Hk. unfold mageBlink. rewrite Hk, andb_false_r. split; reflexivity. Qed.

Lemma classAbility_timers (inp : Input) (gameDt : float) (pc : PlayerClass) (p : Player.t) :
  IsKeyPressed inp KEY_K = false ->
  cooldownView (classAbility inp gameDt pc p) = cooldownView p
  /\ animView (classAbility inp gameDt pc p) = animView p.
Proof.
  intros Hk. unfold classAbility.
  pose proof (fun q => knightBlock_timers inp gameDt q Hk) as HK.
  pose proof (fun q => rogueDodge_timers inp gameDt q Hk) as HR.
  pose proof (fun q => mageBlink_timers inp q Hk) as HM.
  destruct (PlayerClass_eqb pc KNIGHT), (PlayerClass_eqb pc ROGUE), (PlayerClass_eqb pc MAGE);
    repeat match goal with
           | |- context [mageBlink inp ?q] =>
               destruct (HM q) as [-> ->]
           | |- context [rogueDodge inp gameDt ?q] =>
               destruct (HR q) as [-> ->]
           | |- context [knightBlock inp gameDt ?q] =>
               destruct (HK q) as [-> ->]
           end; split; reflexivity.
Qed.

Lemma comboTick_timers (gameDt : float) (p : Player.t) :
  cooldownView (comboTick gameDt p) = cooldownView p
  /\ animView (comboTick gameDt p) = animView p.
Proof. unfold comboTick. crush_stage. Qed.

Lemma attackInput_timers (inp : Input) (g : Game.t) :
  cooldownView (Game.player (attackInput inp g)) = cooldownView (Game.player g)
  /\ animView (Game.player (attackInput inp g)) = animView (Game.player g).
Proof. unfold attackInput. crush_stage. Qed.

Lemma attackTick_timers (gameDt : float) (p : Player.t) :
  cooldownView (attackTick gameDt p) = cooldownView p
  /\ animView (attackTick gameDt p) = animView p.
Proof. unfold attackTick. crush_stage. Qed.

Lemma playerAnimation_cooldowns `{Raylib} (move : Vector2) (gameDt : float) (p : Player.t) :
  cooldownView (playerAnimation move gameDt p) = cooldownView p.
Proof. unfold playerAnimation. crush_stage. Qed.

Lemma playerAnimation_frozen `{Raylib} (move : Vector2) (p : Player.t) :
  fleb (Player.animFrameTime p) (Player.animTimer p) = false ->
  Player.animTimer p <> S754_zero true ->
  animView (playerAnimation move fzero p) = animView p.
Proof.
  intros Hlt Hz. unfold playerAnimation.
  destruct (spriteLoaded (Player.sprite p)); [|reflexivity].
  set (p1 := if Player.attacking p then _ else _).
  assert (H1 : animView p1 = animView p) by (subst p1; split_ifs; reflexivity).
  clearbody p1. unfold animView in H1. inversion H1 as [[Ht Hf Hft]].
  cbn [Player.animFrameTime Player.animTimer Player.set_animTimer].
  rewrite Ht, Hft, (fadd_zero _ Hz), Hlt.
  unfold animView. cbn [Player.animFrameTime Player.animTimer Player.set_animTimer
                         Player.animFrame].
  rewrite Hf, Hft. reflexivity.
Qed.

Lemma cooldownView_eq (p q : Player.t) :
  cooldownView p = cooldownView q ->
  Player.blockCooldownTimer p = Player.blockCooldownTimer q
  /\ Player.dodgeCooldownTimer p = Player.dodgeCooldownTimer q
  /\ Player.blinkCooldownTimer p = Player.blinkCooldownTimer q
  /\ Player.invincibleTimer p = Player.invincibleTimer q.
Proof. unfold cooldownView. intros Hv. inversion Hv. auto. Qed.

Lemma animView_eq (p q : Player.t) :
  animView p = animView q ->
  Player.animTimer p = Player.animTimer q
  /\ Player.animFrame p = Player.animFrame q
  /\ Player.animFrameTime p = Player.animFrameTime q.
Proof. unfold animView. intros Hv. inversion Hv. auto. Qed.

(** The player's part of a frozen frame (simulation delta 0) without the
    ability key: the cooldowns stand still, and so does the animation cursor
    unless it was already due. *)
Lemma playerPhase_frozen `{Raylib} (inp : Input) (g : Game.t) :
  IsKeyPressed inp KEY_K = false ->
  let p := Game.player g in
  let p' := Game.player (playerPhase inp fzero g) in
  (fltb (Player.blockCooldownTimer p) fzero = false ->
   fltb (Player.dodgeCooldownTimer p) fzero = false ->
   fltb (Player.blinkCooldownTimer p) fzero = false ->
   cooldownView p' = cooldownView p)
  /\ (fltb (Player.blockCooldownTimer p) fzero = false ->
      fltb (Player.dodgeCooldownTimer p) fzero = false ->
      fltb (Player.blinkCooldownTimer p) fzero = false ->
      fleb (Player.animFrameTime p) (Player.animTimer p) = false ->
      Player.animTimer p <> S754_zero true ->
      animView p' = animView p).
Proof.
  intros Hk p p'. subst p p'. unfold playerPhase.
  set (move := effectiveMove inp (Game.player g)).
  set (g1 := onPlayer (movePlayer inp fzero) g).
  set (g2 := if IsKeyPressed inp KEY_TAB then Game.set_state SHOP g1 else g1).
  set (g3 := onPlayer (abilityTimers fzero) g2).
  set (g4 := onPlayer (classAbility inp fzero (Game.playerClass g3)) g3).
  set (g5 := onPlayer (comboTick fzero) g4).
  set (g6 := attackInput inp g5).
  set (g7 := onPlayer (attackTick fzero) g6).
  assert (Hp2 : Game.player g2 = movePlayer inp fzero (Game.player g)).
  { subst g2 g1. destruct (IsKeyPressed inp KEY_TAB); reflexivity. }
  destruct (movePlayer_timers inp fzero (Game.player g)) as [Hc2 Ha2].
  rewrite <- Hp2 in Hc2, Ha2.
  destruct (cooldownView_eq _ _ Hc2) as (Hb & Hd & Hl & _).
  assert (H37 : fltb (Player.blockCooldownTimer (Game.player g)) fzero = false ->
                fltb (Player.dodgeCooldownTimer (Game.player g)) fzero = false ->
                fltb (Player.blinkCooldownTimer (Game.player g)) fzero = false ->
                cooldownView (Game.player g7) = cooldownView (Game.player g)
                /\ animView (Game.player g7) = animView (Game.player g)).
  { intros H1 H2 H3.
    destruct (abilityTimers_frozen (Game.player g2)) as [Hc3 Ha3]; try congruence.
    destruct (classAbility_timers inp fzero (Game.playerClass g3) (Game.player g3) Hk)
      as [Hc4 Ha4].
    destruct (comboTick_timers fzero (Game.player g4)) as [Hc5 Ha5].
    destruct (attackInput_timers inp g5) as [Hc6 Ha6].
    destruct (attackTick_timers fzero (Game.player g6)) as [Hc7 Ha7].
    subst g7 g6 g5 g4 g3. rewrite !onPlayer_player in *.
    split; congruence. }
  clearbody g7. rewrite onPlayer_player, playerAnimation_cooldowns.
  split.
  - intros H1 H2 H3. apply H37; assumption.
  - intros H1 H2 H3 Hlt Hz. destruct (H37 H1 H2 H3) as [_ Ha7].
    destruct (animView_eq _ _ Ha7) as (Ht & Hf & Hft).
    rewrite playerAnimation_frozen; [exact Ha7 | congruence | congruence].
Qed.

Lemma combatErase_timers (g g' : Game.t) :
  combatErase g = combatErase g' ->
  cooldownView (Game.player g) = cooldownView (Game.player g')
  /\ animView (Game.player g) = animView (Game.player g').
Proof.
  intros He. split.
  - exact (f_equal (fun x => cooldownView (Game.player x)) He).
  - exact (f_equal (fun x => animView (Game.player x)) He).
Qed.

Lemma afterErase_timers (g g' : Game.t) :
  afterErase g = afterErase g' ->
  cooldownView (Game.player g) = cooldownView (Game.player g')
  /\ animView (Game.player g) = animView (Game.player g').
Proof.
  intros He. split.
  - exact (f_equal (fun x => cooldownView (Game.player x)) He).
  - exact (f_equal (fun x => animView (Game.player x)) He).
Qed.

Lemma playing_chain_timers (g1 g2 g3 g4 g' : Game.t) :
  spawnErase g2 = spawnErase g1 ->
  combatErase g3 = combatErase g2 ->
  combatErase g4 = combatErase g3 ->
  afterErase g' = afterErase g4 ->
  cooldownView (Game.player g') = cooldownView (Game.player g1)
  /\ animView (Game.player g') = animView (Game.player g1).
Proof.
  intros H2 H3 H4 H5.
  destruct (spawnErase_fields _ _ H2) as (Hp & _).
  destruct (combatErase_timers _ _ H3) as [Hc3 Ha3].
  destruct (combatErase_timers _ _ H4) as [Hc4 Ha4].
  destruct (afterErase_timers _ _ H5) as [Hc5 Ha5].
  split; congruence.
Qed.

Lemma updatePlaying_timers `{Raylib} (inp : Input) (gameDt : float) (g : Game.t) :
  cooldownView (Game.player (updatePlaying inp gameDt g))
  = cooldownView (Game.player (playerPhase inp gameDt g))
  /\ animView (Game.player (updatePlaying inp gameDt g))
     = animView (Game.player (playerPhase inp gameDt g)).
Proof.
  destruct (updatePlaying_stages inp gameDt g)
    as (g2 & k2 & g3 & k3 & g4 & k4 & E2 & E3 & E4 & ->).
  pose proof (spawnPhase_frame inp gameDt (playerPhase inp gameDt g)) as (Hs2 & _).
  rewrite E2 in Hs2.
  pose proof (enemyLoop_melee inp gameDt g2 k2) as [He3 _]. rewrite E3 in He3.
  pose proof (projectileLoop_erase inp g3 k3) as [He4 _]. rewrite E4 in He4.
  pose proof (afterEnemies_frame g4) as [Ha _].
  exact (playing_chain_timers _ g2 g3 g4 _ Hs2 He3 He4 Ha).
Qed.

Lemma gameDt_frozen (inp : Input) (hitStop : float) :
  fltb fzero (hitStopTick inp hitStop) = true ->
  gameDt inp hitStop = fzero
  /\ hitStopTick inp hitStop = fsub hitStop (realDt inp).
Proof.
  intros Hf. unfold gameDt. rewrite Hf. split; [reflexivity|].
  unfold hitStopTick in *.
  destruct (fltb (fsub hitStop (realDt inp)) fzero); [discriminate Hf | reflexivity].
Qed.

(** C3, as the code has it.  In a PLAYING frame whose hit-stop timer is still
    positive after its countdown, the countdown itself ran on the clamped
    real-time delta, the simulation delta handed to the world update is 0,
    and the ability cooldowns, the invincibility timer and the animation
    cursor, which the update advances by the simulation delta, stand still
    (the ability key aside, which restarts a cooldown). *)
Theorem hit_stop_freezes_simulation `{Raylib} (inp : Input) (g : Game.t)
    (Hs : Game.state g = PLAYING)
    (Hf : fltb fzero (hitStopTick inp (Game.gHitStopTimer g)) = true) :
  let p := Game.player g in
  let p' := Game.player (frame inp g) in
  gameDt inp (Game.gHitStopTimer g) = fzero
  /\ hitStopTick inp (Game.gHitStopTimer g) = fsub (Game.gHitStopTimer g) (realDt inp)
  /\ fltb (dec 5 2) (realDt inp) = false
  /\ frame inp g
     = updatePlaying inp fzero
         (Game.set_gHitStopTimer (fsub (Game.gHitStopTimer g) (realDt inp)) g)
  /\ (IsKeyPressed inp KEY_K = false ->
      fltb (Player.blockCooldownTimer p) fzero = false ->
      fltb (Player.dodgeCooldownTimer p) fzero = false ->
      fltb (Player.blinkCooldownTimer p) fzero = false ->
      cooldownView p' = cooldownView p
      /\ (fleb (Player.animFrameTime p) (Player.animTimer p) = false ->
          Player.animTimer p <> S754_zero true ->
          animView p' = animView p)).
Proof.
  intros p p'. subst p p'.
  destruct (gameDt_frozen inp _ Hf) as [Hdt Hhs].
  split; [exact Hdt|]. split; [exact Hhs|].
  split.
  { unfold realDt. destruct (fltb (dec 5 2) (GetFrameTime inp)) eqn:E; [reflexivity | exact E]. }
  assert (Hfr : frame inp g
                = updatePlaying inp fzero
                    (Game.set_gHitStopTimer (fsub (Game.gHitStopTimer g) (realDt inp)) g)).
  { unfold frame. cbn [Game.state Game.set_gHitStopTimer]. rewrite Hs, Hdt, Hhs. reflexivity. }
  split; [exact Hfr|].
  intros Hk Hb Hd Hl. rewrite Hfr.
  set (g0 := Game.set_gHitStopTimer _ g).
  destruct (updatePlaying_timers inp fzero g0) as [Hc Ha].
  destruct (playerPhase_frozen inp g0 Hk) as [Hc' Ha'].
  split.
  - rewrite Hc. apply Hc'; assumption.
  - intros Hlt Hz. rewrite Ha. apply Ha'; assumption.
Qed.

(** Witness: the frame after a Knight took a blocked hit (hit stop 0.05 s,
    frame time 0.016 s). *)
Lemma hit_stop_freezes_simulation_witness :
  let g := @run referenceRaylib knightBlocksAHit initialGame in
  let g' := @frame referenceRaylib idle16 g in
  gameDt idle16 (Game.gHitStopTimer g) = fzero
  /\ Game.gHitStopTimer g = dec 5 2
  /\ Game.gHitStopTimer g' = fsub (dec 5 2) dt16
  /\ cooldownView (Game.player g') = cooldownView (Game.player g)
  /\ animView (Game.player g') = animView (Game.player g).
Proof.
  intros g g'.
  destruct (@hit_stop_freezes_simulation referenceRaylib idle16 g)
    as (Hdt & _ & _ & _ & Hfrozen).
  - vm_compute. reflexivity.
  - vm_compute. reflexivity.
  - destruct Hfrozen as [Hc Ha]; try (vm_compute; reflexivity).
    split; [exact Hdt|]. split; [vm_compute; reflexivity|].
    split; [vm_compute; reflexivity|]. split; [exact Hc|].
    apply Ha; [vm_compute; reflexivity | vm_compute; discriminate].
Defined.

(** C3 fails on its second half: in the two frames after the blocked hit of
    [knightBlocksAHit] real time passes (0.016 s each) and the hit-stop timer
    counts down, but the Knight's block cooldown, which is running, the
    player's animation timer and the Grunt's attack cooldown and animation
    timer keep their values. *)
Lemma timers_stand_still_during_hit_stop :
  let g := @run referenceRaylib knightBlocksAHit initialGame in
  let g1 := @frame referenceRaylib idle16 g in
  let g2 := @frame referenceRaylib idle16 g1 in
  Game.state g = PLAYING
  /\ Game.gHitStopTimer g = dec 5 2
  /\ fltb fzero (Game.gHitStopTimer g1) = true
  /\ fltb fzero (Game.gHitStopTimer g2) = true
  /\ fltb fzero (Player.blockCooldownTimer (Game.player g)) = true
  /\ Player.blockCooldownTimer (Game.player g2) = Player.blockCooldownTimer (Game.player g)
  /\ fltb fzero (Player.animTimer (Game.player g)) = true
  /\ Player.animTimer (Game.player g2) = Player.animTimer (Game.player g)
  /\ map Enemy.attackCooldown (Game.enemies g2) = map Enemy.attackCooldown (Game.enemies g)
  /\ map Enemy.animTimer (Game.enemies g2) = map Enemy.animTimer (Game.enemies g)
  /\ existsb (fun e => fltb fzero (Enemy.attackCooldown e)) (Game.enemies g) = true.
Proof. vm_compute. repeat split. Qed.

(** ** HP: the player's stays in range, the dead stay dead *)

Lemma combatStep_refl (e : Enemy.t) : combatStep e e.
Proof. unfold combatStep. repeat split; auto. intros H1 H2. congruence. Qed.

Lemma combatStep_trans (a b c : Enemy.t) :
  combatStep a b -> combatStep b c -> combatStep a c.
Proof.
  intros (Ht1 & Hd1 & Hk1 & Hx1) (Ht2 & Hd2 & Hk2 & Hx2).
  unfold combatStep. split; [congruence|]. split; [|split].
  - intros Ha. rewrite <- (Hd1 Ha) in *. apply Hd2.
    rewrite (Hd1 Ha). exact Ha.
  - auto.
  - intros Ha Hc. destruct (Enemy.alive b) eqn:Hb.
    + auto.
    + rewrite (Hd2 eq_refl). auto.
Qed.

Lemma Forall2_trans {A : Type} (R : A -> A -> Prop) :
  (forall a b c, R a b -> R b c -> R a c) ->
  forall xs ys zs, Forall2 R xs ys -> Forall2 R ys zs -> Forall2 R xs zs.
Proof.
  intros Ht xs ys zs H1. revert zs.
  induction H1 as [|x y xs ys Hxy H1 IH]; intros zs H2; inversion H2; subst.
  - constructor.
  - constructor; eauto.
Qed.

Lemma Forall2_refl {A : Type} (R : A -> A -> Prop) :
  (forall a, R a a) -> forall xs, Forall2 R xs xs.
Proof. intros Hr xs. induction xs; constructor; auto. Qed.

(** The death block, seen from the enemy it is run on. *)
Lemma enemyDeath_step (inp : Input) (e0 e : Enemy.t) (g : Game.t) (k : nat) :
  Enemy.alive e0 = true ->
  Enemy.alive e = true ->
  Enemy.type e = Enemy.type e0 ->
  combatStep e0 (fst (fst (enemyDeath inp e g k))).
Proof.
  intros Ha0 Ha Hty.
  destruct (enemyDeath_fields inp e g k) as (Hhp & _ & _ & Ht & _ & _ & Hal & _).
  unfold combatStep, enemyOk. rewrite Hhp, Ht, Hal, Ha. cbn [andb].
  split; [exact Hty|]. split; [congruence|]. split.
  - intros _ Hpos. apply Z.ltb_lt. exact Hpos.
  - intros _ Hneg. apply Z.ltb_ge in Hneg. exact Hneg.
Qed.

Lemma meleeHit_step `{Raylib} (inp : Input) (e0 e : Enemy.t) (g : Game.t) (k : nat) :
  Enemy.alive e0 = true ->
  combatView e = combatView e0 ->
  combatStep e0 (fst (fst (meleeHit inp e g k)))
  /\ Game.player (snd (fst (meleeHit inp e g k))) = Game.player g.
Proof.
  intros Ha0 Hv.
  destruct (combatView_eq _ _ Hv) as (Hhp & _ & Hal & Hty & _).
  destruct (meleeHit_cases inp e g k)
    as [-> | (_ & _ & _ & e1 & t & -> & _ & _ & Hal1 & Hty1 & _)].
  - cbn [fst snd]. split; [|reflexivity].
    unfold combatStep, enemyOk. rewrite Hhp, Hal, Hty.
    repeat split; auto; congruence.
  - split.
    + apply enemyDeath_step; congruence.
    + destruct (enemyDeath_fields inp e1 (Game.set_gHitStopTimer t g) k)
        as (_ & _ & _ & _ & _ & _ & _ & _ & Hp).
      rewrite Hp. reflexivity.
Qed.

Lemma enemyStrike_bounds (type : EnemyType) (g : Game.t) :
  0 <= Player.hp (Game.player g) <= INT_MAX ->
  0 <= Player.hp (Game.player (enemyStrike type g)) <= Player.hp (Game.player g).
Proof.
  intros Hhp. rewrite enemyStrike_hp by exact Hhp.
  assert (Hm : 0 <= mitigate (Game.playerClass g) (Game.player g) (enemyDamage type)).
  { unfold mitigate, idiv. rewrite enemyDamage_table.
    destruct (Player.invincible _); [lia|].
    destruct (Player.blocking _ && _); destruct type; vm_compute; congruence. }
  lia.
Qed.

Lemma updateEnemy_hp `{Raylib} (inp : Input) (gameDt : float) (e : Enemy.t)
    (g : Game.t) (pr : Rectangle) (k : nat) :
  0 <= Player.hp (Game.player g) <= INT_MAX ->
  let g' := fst (fst (snd (updateEnemy inp gameDt e (g, pr, k)))) in
  0 <= Player.hp (Game.player g') <= Player.hp (Game.player g).
Proof.
  intros Hhp g'. subst g'.
  destruct (Enemy.alive e) eqn:Ha.
  - destruct (updateEnemy_alive inp gameDt e g pr k Ha) as (e1 & g1 & pr1 & Hai & _ & ->).
    pose proof (enemyAI_view gameDt e g pr) as Hv. rewrite Hai in Hv. cbn [fst] in Hv.
    destruct (meleeHit_step inp e e1 g1 k Ha Hv) as [_ ->].
    destruct (enemyAI_game gameDt e g pr) as [Hg | Hg]; rewrite Hai in Hg;
      cbn [fst snd] in Hg; subst g1; [lia | apply enemyStrike_bounds; exact Hhp].
  - rewrite updateEnemy_dead by exact Ha. cbn [fst snd]. lia.
Qed.

Lemma updateEnemy_step `{Raylib} (inp : Input) (gameDt : float) (e : Enemy.t)
    (s : Game.t * Rectangle * nat) :
  combatStep e (fst (updateEnemy inp gameDt e s)).
Proof.
  destruct s as [[g pr] k]. destruct (Enemy.alive e) eqn:Ha.
  - destruct (updateEnemy_alive inp gameDt e g pr k Ha) as (e1 & g1 & pr1 & Hai & -> & _).
    pose proof (enemyAI_view gameDt e g pr) as Hv. rewrite Hai in Hv. cbn [fst] in Hv.
    apply (meleeHit_step inp e e1 g1 k Ha Hv).
  - rewrite updateEnemy_dead by exact Ha. apply combatStep_refl.
Qed.

Lemma enemyLoop_step `{Raylib} (inp : Input) (gameDt : float) (g : Game.t) (k : nat) :
  0 <= Player.hp (Game.player g) <= INT_MAX ->
  let g' := fst (enemyLoop inp gameDt g k) in
  0 <= Player.hp (Game.player g') <= Player.hp (Game.player g)
  /\ Forall2 combatStep (Game.enemies g) (Game.enemies g').
Proof.
  intros Hhp. unfold enemyLoop.
  set (pr := MakeRect _ _).
  pose proof (forEach_rel (updateEnemy inp gameDt)
                (fun s => 0 <= Player.hp (Game.player (fst (fst s)))
                          <= Player.hp (Game.player g))
                combatStep) as HF.
  destruct HF with (xs := Game.enemies g) (s := (g, pr, k)) as [HR HI].
  - intros e [[g1 pr1] k1] Hs. cbn [fst] in Hs. split; [apply updateEnemy_step|].
    pose proof (updateEnemy_hp inp gameDt e g1 pr1 k1) as Hb. cbv zeta in Hb. lia.
  - cbn [fst]. lia.
  - destruct (forEach (updateEnemy inp gameDt) (Game.enemies g) (g, pr, k))
      as [es [[g' pr'] k']].
    cbn [fst snd] in *. split; [exact HI | exact HR].
Qed.

Lemma projectileHit_step `{Raylib} (inp : Input) (p : Projectile.t) (e : Enemy.t)
    (s : Game.t * nat) :
  combatStep e (fst (projectileHit inp p e s)).
Proof.
  destruct s as [g k]. unfold projectileHit.
  destruct (Enemy.alive e) eqn:Ha; cbn [negb]; [|apply combatStep_refl].
  destruct (CheckCollisionCircleRec _ _ _); [|apply combatStep_refl].
  destruct (negb (Enemy.lastProjectileHitId e =? Projectile.id p)); [|apply combatStep_refl].
  set (e1 := Enemy.set_hp _ _).
  pose proof (enemyDeath_step inp e e1 g k Ha Ha eq_refl) as Hst.
  destruct (enemyDeath inp e1 g k) as [[e2 g2] k2]. exact Hst.
Qed.

Lemma projectilesVsEnemies_step `{Raylib} (inp : Input) (ps : list Projectile.t) :
  forall es s, Forall2 combatStep es (fst (projectilesVsEnemies inp ps es s)).
Proof.
  induction ps as [|p ps IH]; intros es s; simpl.
  - apply Forall2_refl. apply combatStep_refl.
  - destruct (negb (Projectile.active p)); [apply IH|].
    pose proof (forEach_rel (projectileHit inp p) (fun _ => True) combatStep) as HF.
    destruct HF with (xs := es) (s := s) as [HR _]; [|exact I|].
    + intros x s0 _. split; [apply projectileHit_step | exact I].
    + destruct (forEach (projectileHit inp p) es s) as [es' s'].
      cbn [fst] in HR.
      exact (Forall2_trans combatStep combatStep_trans _ _ _ HR (IH es' s')).
Qed.

Lemma projectileLoop_step `{Raylib} (inp : Input) (g : Game.t) (k : nat) :
  Forall2 combatStep (Game.enemies g) (Game.enemies (fst (projectileLoop inp g k))).
Proof.
  unfold projectileLoop.
  destruct (PlayerClass_eqb (Game.playerClass g) MAGE).
  - pose proof (projectilesVsEnemies_step inp (Game.projectiles g) (Game.enemies g) (g, k))
      as HF.
    destruct (projectilesVsEnemies inp (Game.projectiles g) (Game.enemies g) (g, k))
      as [es [g' k']]. exact HF.
  - apply Forall2_refl. apply combatStep_refl.
Qed.

(** ** HP over a whole frame *)

Lemma freshEnemy_ok (e : Enemy.t) : freshEnemy e -> enemyOk e /\ Enemy.alive e = true.
Proof.
  intros (type & x & y & ->). unfold enemyOk.
  destruct type; cbn; split; intros; try reflexivity; lia.
Qed.

Lemma spawnEnemy_fresh (inp : Input) (gameDt : float) (g : Game.t) (k : nat) :
  exists new,
    Game.enemies (fst (spawnEnemy inp gameDt g k)) = Game.enemies g ++ new
    /\ Forall freshEnemy new.
Proof.
  unfold spawnEnemy.
  match goal with |- context [if ?b then _ else _] => destruct b end.
  - eexists [_]. cbn [fst Game.enemies Game.set_enemies Game.set_enemySpawnTimer].
    split; [reflexivity|]. constructor; [|constructor].
    eexists; eexists; eexists; reflexivity.
  - exists []. rewrite app_nil_r. split; [reflexivity | constructor].
Qed.

Lemma spawnBoss_fresh (g : Game.t) :
  exists new,
    Game.enemies (spawnBoss g) = Game.enemies g ++ new /\ Forall freshEnemy new.
Proof.
  unfold spawnBoss.
  match goal with |- context [if ?b then _ else _] => destruct b end.
  - eexists [_]. cbn [Game.enemies Game.set_enemies Game.set_bossSpawned].
    split; [reflexivity|]. constructor; [|constructor].
    eexists; eexists; eexists; reflexivity.
  - exists []. rewrite app_nil_r. split; [reflexivity | constructor].
Qed.

Lemma spawnPhase_fresh (inp : Input) (gameDt : float) (g : Game.t) :
  exists new,
    Game.enemies (fst (spawnPhase inp gameDt g)) = Game.enemies g ++ new
    /\ Forall freshEnemy new.
Proof.
  unfold spawnPhase.
  destruct (spawnEnemy_fresh inp gameDt g 0) as (new1 & Hn1 & Hf1).
  destruct (spawnEnemy inp gameDt g 0) as [g1 k1]. cbn [fst] in *.
  destruct (spawnBoss_fresh g1) as (new2 & Hn2 & Hf2).
  exists (new1 ++ new2). cbn [Game.enemies Game.set_projectiles].
  rewrite Hn2, Hn1, app_assoc. split; [reflexivity|].
  apply Forall_app. auto.
Qed.

Lemma combatErase_hp (g g' : Game.t) :
  combatErase g = combatErase g' ->
  Player.maxHP (Game.player g) = Player.maxHP (Game.player g').
Proof. intros He. exact (f_equal (fun x => Player.maxHP (Game.player x)) He). Qed.

Lemma afterErase_hp (g g' : Game.t) :
  afterErase g = afterErase g' ->
  Player.maxHP (Game.player g) = Player.maxHP (Game.player g')
  /\ Player.hp (Game.player g) = Player.hp (Game.player g')
  /\ Game.enemies g = Game.enemies g'.
Proof.
  intros He. repeat split.
  - exact (f_equal (fun x => Player.maxHP (Game.player x)) He).
  - exact (f_equal (fun x => Player.hp (Game.player x)) He).
  - exact (f_equal Game.enemies He).
Qed.

Lemma playerStats_hp (p q : Player.t) :
  playerStats p = playerStats q ->
  Player.hp p = Player.hp q /\ Player.maxHP p = Player.maxHP q.
Proof. unfold playerStats. intros Hs. inversion Hs. auto. Qed.

Lemma playing_chain_hp (g g1 g2 g3 g4 g' : Game.t) (new : list Enemy.t) :
  playerErase g1 = playerErase g ->
  playerStats (Game.player g1) = playerStats (Game.player g) ->
  spawnErase g2 = spawnErase g1 ->
  Game.enemies g2 = Game.enemies g1 ++ new ->
  combatErase g3 = combatErase g2 ->
  0 <= Player.hp (Game.player g3) <= Player.hp (Game.player g2) ->
  Forall2 combatStep (Game.enemies g2) (Game.enemies g3) ->
  combatErase g4 = combatErase g3 ->
  Game.player g4 = Game.player g3 ->
  Forall2 combatStep (Game.enemies g3) (Game.enemies g4) ->
  afterErase g' = afterErase g4 ->
  Player.maxHP (Game.player g') = Player.maxHP (Game.player g)
  /\ 0 <= Player.hp (Game.player g') <= Player.hp (Game.player g)
  /\ Forall2 combatStep (Game.enemies g ++ new) (Game.enemies g').
Proof.
  intros H1 Hst H2 Hn H3 Hhp HF3 H4 Hp4 HF4 H5.
  destruct (playerErase_fields _ _ H1) as (He1 & _).
  destruct (playerStats_hp _ _ Hst) as [Hh1 Hm1].
  destruct (spawnErase_fields _ _ H2) as (Hp2 & _).
  pose proof (combatErase_hp _ _ H3) as Hm3.
  destruct (afterErase_hp _ _ H5) as (Hm5 & Hh5 & He5).
  rewrite Hm5, Hh5, He5, Hp4, Hm3, Hp2, Hm1, <- Hh1, <- He1, <- Hn, <- Hp2.
  split; [reflexivity|]. split; [exact Hhp|].
  exact (Forall2_trans combatStep combatStep_trans _ _ _ HF3 HF4).
Qed.

(** The PLAYING branch: the player's HP goes down or stays, never below 0;
    max-HP stays; every enemy, old or newly spawned, makes a [combatStep]. *)
Lemma updatePlaying_hp `{Raylib} (inp : Input) (gameDt : float) (g : Game.t) :
  0 <= Player.hp (Game.player g) <= INT_MAX ->
  let g' := updatePlaying inp gameDt g in
  Player.maxHP (Game.player g') = Player.maxHP (Game.player g)
  /\ 0 <= Player.hp (Game.player g') <= Player.hp (Game.player g)
  /\ exists new,
      Forall freshEnemy new
      /\ Forall2 combatStep (Game.enemies g ++ new) (Game.enemies g').
Proof.
  intros Hhp g'. subst g'.
  destruct (updatePlaying_stages inp gameDt g)
    as (g2 & k2 & g3 & k3 & g4 & k4 & E2 & E3 & E4 & ->).
  pose proof (playerPhase_frame inp gameDt g) as [Hp1 Hst1].
  pose proof (spawnPhase_frame inp gameDt (playerPhase inp gameDt g)) as (Hs2 & _).
  pose proof (spawnPhase_fresh inp gameDt (playerPhase inp gameDt g)) as (new & Hn2 & Hfresh).
  rewrite E2 in Hs2, Hn2.
  assert (Hhp2 : 0 <= Player.hp (Game.player g2) <= INT_MAX).
  { destruct (spawnErase_fields _ _ Hs2) as (Hp2 & _).
    destruct (playerStats_hp _ _ Hst1) as [Hh1 _].
    unfold fst in Hp2. rewrite Hp2, Hh1. exact Hhp. }
  pose proof (enemyLoop_melee inp gameDt g2 k2) as [He3 _]. rewrite E3 in He3.
  pose proof (enemyLoop_step inp gameDt g2 k2 Hhp2) as [Hb3 HF3]. rewrite E3 in Hb3, HF3.
  pose proof (projectileLoop_erase inp g3 k3) as (He4 & Hp4 & _). rewrite E4 in He4, Hp4.
  pose proof (projectileLoop_step inp g3 k3) as HF4. rewrite E4 in HF4.
  pose proof (afterEnemies_frame g4) as [Ha _].
  destruct (playing_chain_hp g _ g2 g3 g4 _ new Hp1 Hst1 Hs2 Hn2 He3 Hb3 HF3 He4 Hp4 HF4 Ha)
    as (Hm & Hh & HF).
  split; [exact Hm|]. split; [exact Hh|]. exists new. split; assumption.
Qed.

Lemma purchase_hp_range (p : Player.t) (i : Z) :
  0 <= Player.hp p <= Player.maxHP p ->
  Player.maxHP p + 15 <= INT_MAX ->
  0 <= Player.hp (purchase p i) <= Player.maxHP (purchase p i).
Proof.
  intros Hhp Hmax.
  destruct (purchase_cases p i) as [-> | (cost & _ & _ & ->)]; [exact Hhp|].
  unfold ApplyUpgrade.
  destruct (i =? 0); [exact Hhp|].
  destruct (i =? 1).
  - cbn [Player.hp Player.maxHP Player.set_hp Player.set_maxHP Player.set_healthLevel
         Player.set_coins].
    unwrap. lia.
  - destruct (i =? 2); exact Hhp.
Qed.

Lemma classAt_maxHP (i : Z) : 0 <= cc_maxHP (classAt i).
Proof.
  unfold classAt. destruct (Z.to_nat i) as [|[|[|[|n]]]]; cbn; lia.
Qed.

(** Outside PLAYING and without restart the enemies are untouched and the
    player is either untouched or the result of a purchase. *)
Lemma frame_quiet_player `{Raylib} (inp : Input) (g : Game.t) :
  Game.state g <> PLAYING ->
  isReset inp g = false ->
  Game.enemies (frame inp g) = Game.enemies g
  /\ (Game.player (frame inp g) = Game.player g
      \/ exists i, Game.player (frame inp g) = purchase (Game.player g) i).
Proof.
  intros Hs Hr. unfold frame, isReset in *. cbn [Game.state Game.set_gHitStopTimer].
  set (g1 := Game.set_gHitStopTimer _ g).
  assert (Hp1 : Game.player g1 = Game.player g) by reflexivity.
  assert (He1 : Game.enemies g1 = Game.enemies g) by reflexivity.
  clearbody g1.
  revert Hs Hr. destruct (Game.state g); intros Hs Hr; try contradiction.
  - unfold updateMenu. rewrite Hr. rewrite <- Hp1, <- He1.
    split_ifs; split; auto.
  - unfold updateShop.
    destruct (shopNavigate_erase inp g1) as [He Hp].
    destruct (quietErase_fields _ _ He) as (Hen & _).
    set (g2 := shopNavigate inp g1) in *. clearbody g2.
    rewrite <- Hp1, <- He1, <- Hp, <- Hen.
    unfold onPlayer. split_ifs; split; eauto;
      right; exists (Game.shopSelection g2); reflexivity.
  - unfold updateRestart. rewrite Hr. auto.
  - unfold updateRestart. rewrite Hr. auto.
Qed.

(** C6, as the code has it.  Over any frame: the player's HP stays within
    0..max-HP (the enemy's hit clamps it at 0; a max-HP purchase heals to the
    new maximum; a restart refills it).  Enemy HP is not clamped: a killing
    blow may leave it negative.  What holds instead is that every living
    enemy has HP > 0, an enemy whose HP reaches <= 0 is flagged dead in the
    same step, and a dead enemy is never written again ([combatStep]).
    The hypothesis on max-HP keeps the +15 of the upgrade inside [int]. *)
Theorem hp_invariants `{Raylib} (inp : Input) (g : Game.t)
    (Hhp : 0 <= Player.hp (Game.player g) <= Player.maxHP (Game.player g))
    (Hmax : Player.maxHP (Game.player g) + 15 <= INT_MAX)
    (Hok : Forall enemyOk (Game.enemies g)) :
  let g' := frame inp g in
  0 <= Player.hp (Game.player g') <= Player.maxHP (Game.player g')
  /\ Forall enemyOk (Game.enemies g')
  /\ (isReset inp g = false ->
      exists new, Forall2 combatStep (Game.enemies g ++ new) (Game.enemies g')).
Proof.
  intros g'. subst g'.
  destruct (frame_cases inp g) as [(Hr & g0 & ->) | [(Hr & Hs & ->) | (Hr & Hs & _)]].
  - cbn [Game.player Game.set_state ResetGame Player.hp Player.maxHP Game.enemies].
    pose proof (classAt_maxHP (Game.selectedClassIndex g0)).
    split; [lia|]. split; [constructor | congruence].
  - destruct (updatePlaying_hp inp (gameDt inp (Game.gHitStopTimer g))
                (Game.set_gHitStopTimer (hitStopTick inp (Game.gHitStopTimer g)) g))
      as (Hm & Hh & new & Hfresh & HF).
    { cbn [Game.player Game.set_gHitStopTimer]. unfold INT_MAX in *. lia. }
    cbn [Game.player Game.enemies Game.set_gHitStopTimer] in Hm, Hh, HF.
    split; [lia|]. split; [|intros _; exists new; exact HF].
    assert (Hok' : Forall enemyOk (Game.enemies g ++ new)).
    { apply Forall_app. split; [exact Hok|].
      eapply Forall_impl; [|exact Hfresh]. intros e He. apply freshEnemy_ok. exact He. }
    clear - HF Hok'. induction HF as [|a b xs ys Hab HF IH]; [constructor|].
    inversion Hok'; subst. constructor; [|auto].
    destruct Hab as (_ & _ & Hk & _). auto.
  - destruct (frame_quiet_player inp g Hs Hr) as [Hen Hp].
    rewrite Hen. split; [|split].
    + destruct Hp as [-> | [i ->]]; [exact Hhp | apply purchase_hp_range; assumption].
    + exact Hok.
    + intros _. exists []. rewrite app_nil_r. apply Forall2_refl. apply combatStep_refl.
Qed.

(** Witness: a frame of a Knight pressing J next to a Grunt. *)
Lemma hp_invariants_witness :
  let g' := @frame referenceRaylib (press KEY_J) knightAndGrunt in
  0 <= Player.hp (Game.player g') <= Player.maxHP (Game.player g')
  /\ Forall enemyOk (Game.enemies g')
  /\ map Enemy.hp (Game.enemies g') = [70].
Proof.
  intros g'.
  destruct (@hp_invariants referenceRaylib (press KEY_J) knightAndGrunt) as (Hp & Ho & _).
  - vm_compute. split; discriminate.
  - vm_compute. discriminate.
  - constructor; [|constructor]. unfold enemyOk. vm_compute. reflexivity.
  - split; [exact Hp|]. split; [exact Ho|]. vm_compute. reflexivity.
Defined.

(** C6 fails for enemies: in the play-through [knightKillsGrunt] the blow
    that kills the first Grunt leaves its HP at -30. *)
Lemma enemy_hp_goes_negative :
  map (fun e => (Enemy.hp e, Enemy.alive e))
      (Game.enemies (@run referenceRaylib knightKillsGrunt initialGame))
  = [(-30, false); (90, true)].
Proof. vm_compute. reflexivity. Qed.

(** ** Positions *)

Lemma SFcompare_antisym (a b : float) (c : comparison) :
  SFcompare a b = Some c -> SFcompare b a = Some (CompOpp c).
Proof.
  destruct a as [sa|sa| |sa ma ea], b as [sb|sb| |sb mb eb]; cbn;
    try discriminate; intros Hc; inversion Hc as [Hc']; clear Hc Hc'.
  all: try (rewrite (Z.compare_antisym eb ea);
            pose proof (Pos.compare_cont_antisym ma mb Eq) as Hp;
            cbn [CompOpp] in Hp; rewrite <- Hp;
            destruct sa, sb; try reflexivity;
            destruct (eb ?= ea); cbn; try reflexivity;
            destruct (Pos.compare_cont Eq ma mb); reflexivity).
  all: try reflexivity.
  all: try (destruct sa; reflexivity).
  all: try (destruct sb; reflexivity).
  all: destruct sa, sb; reflexivity.
Qed.

Lemma SFcompare_total (a b : float) :
  is_nan a = false -> is_nan b = false -> exists c, SFcompare a b = Some c.
Proof.
  destruct a as [sa|sa| |sa ma ea], b as [sb|sb| |sb mb eb]; cbn;
    intros Ha Hb; try discriminate; eauto.
Qed.

(** On numbers, "not [a < b]" is [b <= a]. *)
Lemma fltb_false_fleb (a b : float) :
  is_nan a = false -> is_nan b = false -> fltb a b = false -> fleb b a = true.
Proof.
  intros Ha Hb. unfold fltb, fleb, SFltb, SFleb.
  destruct (SFcompare_total a b Ha Hb) as [c Hc].
  rewrite Hc, (SFcompare_antisym a b c Hc).
  destruct c; cbn; congruence.
Qed.

Lemma fleb_refl (a : float) : is_nan a = false -> fleb a a = true.
Proof.
  intros Ha. unfold fleb, SFleb.
  destruct (SFcompare_total a a Ha Ha) as [c Hc].
  pose proof (SFcompare_antisym a a c Hc) as Hc'. rewrite Hc in *.
  destruct c; try reflexivity; discriminate.
Qed.

(** The two clamps put every number into the interval, provided the bounds
    are ordered numbers. *)
Lemma clamp2_within (lo hi x : float) :
  is_nan lo = false -> is_nan hi = false -> fleb lo hi = true ->
  within lo hi (clamp2 lo hi x).
Proof.
  intros Hlo Hhi Hle. unfold within, clamp2.
  assert (Hnlt : fltb hi lo = false).
  { unfold fltb, fleb, SFltb, SFleb in *.
    destruct (SFcompare lo hi) as [c|] eqn:Hc; [|discriminate].
    rewrite (SFcompare_antisym lo hi c Hc). destruct c; cbn; congruence. }
  destruct (fltb x lo) eqn:E1.
  - rewrite Hnlt. intros _. split; [apply fleb_refl; exact Hlo | exact Hle].
  - destruct (fltb hi x) eqn:E2.
    + intros _. split; [exact Hle | apply fleb_refl; exact Hhi].
    + intros Hx. split; apply fltb_false_fleb; assumption.
Qed.

Lemma clampToLane_within (pos : Vector2) :
  within (of_int 0) LEVEL_LENGTH (vx (clampToLane pos))
  /\ within GROUND_TOP GROUND_BOTTOM (vy (clampToLane pos)).
Proof.
  unfold clampToLane. cbn [vx vy].
  split.
  - apply (clamp2_within (of_int 0) LEVEL_LENGTH (vx pos)); reflexivity.
  - apply (clamp2_within GROUND_TOP GROUND_BOTTOM (vy pos)); reflexivity.
Qed.

(** The player's position after the movement step and after the ability
    step. *)
Lemma movePlayer_pos (inp : Input) (gameDt : float) (p : Player.t) :
  exists pos, Player.pos (movePlayer inp gameDt p) = clampToLane pos.
Proof. unfold movePlayer. split_ifs; eexists; reflexivity. Qed.

Lemma knightBlock_pos (inp : Input) (gameDt : float) (p : Player.t) :
  Player.pos (knightBlock inp gameDt p) = Player.pos p.
Proof. unfold knightBlock. crush_stage. Qed.

Lemma rogueDodge_pos (inp : Input) (gameDt : float) (p : Player.t) :
  Player.pos (rogueDodge inp gameDt p) = Player.pos p.
Proof. unfold rogueDodge. crush_stage. Qed.

Lemma mageBlink_pos (inp : Input) (p : Player.t) :
  Player.pos (mageBlink inp p) = Player.pos p
  \/ exists x, Player.pos (mageBlink inp p)
               = mkVector2 (clamp2 (of_int 0) LEVEL_LENGTH x) (vy (Player.pos p)).
Proof.
  unfold mageBlink. destruct (_ && _); [|left; reflexivity].
  right. eexists. reflexivity.
Qed.

Lemma classAbility_pos (inp : Input) (gameDt : float) (pc : PlayerClass) (p : Player.t) :
  within (of_int 0) LEVEL_LENGTH (vx (Player.pos p)) ->
  within GROUND_TOP GROUND_BOTTOM (vy (Player.pos p)) ->
  within (of_int 0) LEVEL_LENGTH (vx (Player.pos (classAbility inp gameDt pc p)))
  /\ within GROUND_TOP GROUND_BOTTOM (vy (Player.pos (classAbility inp gameDt pc p))).
Proof.
  intros Hx Hy. unfold classAbility.
  set (p1 := if PlayerClass_eqb pc KNIGHT then _ else p).
  assert (H1 : Player.pos p1 = Player.pos p)
    by (subst p1; destruct (PlayerClass_eqb pc KNIGHT); [apply knightBlock_pos | reflexivity]).
  clearbody p1.
  set (p2 := if PlayerClass_eqb pc ROGUE then _ else p1).
  assert (H2 : Player.pos p2 = Player.pos p1)
    by (subst p2; destruct (PlayerClass_eqb pc ROGUE); [apply rogueDodge_pos | reflexivity]).
  clearbody p2.
  destruct (PlayerClass_eqb pc MAGE); [|rewrite H2, H1; auto].
  destruct (mageBlink_pos inp p2) as [-> | [x ->]]; [rewrite H2, H1; auto|].
  cbn [vx vy]. rewrite H2, H1. split; [|exact Hy].
  apply clamp2_within; reflexivity.
Qed.

Lemma enemyMovement_laneY (gameDt : float) (p : Player.t) (e : Enemy.t) (er : Rectangle) :
  enemyInLaneY e -> enemyInLaneY (fst (enemyMovement gameDt p e er)).
Proof.
  intros Hy. unfold enemyMovement.
  destruct (negb (Enemy.windingUp e) && negb (Enemy.attackingAnim e)); [|exact Hy].
  destruct (if fltb (of_int 5) _ then _ else _) as [dx dy].
  unfold enemyInLaneY. cbn [fst Enemy.pos Enemy.set_pos vy].
  apply (clamp2_within GROUND_TOP GROUND_BOTTOM); reflexivity.
Qed.

Lemma enemyAI_laneY `{Raylib} (gameDt : float) (e : Enemy.t) (g : Game.t) (pr : Rectangle) :
  enemyInLaneY e -> enemyInLaneY (fst (fst (enemyAI gameDt e g pr))).
Proof.
  intros Hy.
  destruct (enemyAI_stages gameDt e g pr)
    as (e1 & er & e2 & e3 & pr' & Hm & _ & Hp2 & Hw & _ & Hp).
  pose proof (enemyMovement_laneY gameDt (Game.player g) e
                (MakeRect (Enemy.pos e) (Enemy.size e)) Hy) as H1.
  rewrite <- Hm in H1. cbn [fst] in H1.
  pose proof (enemyWindup_view gameDt e2 g pr) as [_ Hp3]. rewrite <- Hw in Hp3.
  cbn [fst] in Hp3.
  unfold enemyInLaneY in *. rewrite Hp, Hp3, Hp2. exact H1.
Qed.

Lemma meleeHit_laneY `{Raylib} (inp : Input) (e : Enemy.t) (g : Game.t) (k : nat) :
  enemyInLaneY e -> enemyInLaneY (fst (fst (meleeHit inp e g k))).
Proof.
  intros Hy.
  destruct (meleeHit_cases inp e g k)
    as [-> | (_ & _ & _ & e1 & t & -> & _ & _ & _ & _ & _ & _ & Hvy)]; [exact Hy|].
  destruct (enemyDeath_fields inp e1 (Game.set_gHitStopTimer t g) k)
    as (_ & _ & _ & _ & _ & Hpos & _).
  unfold enemyInLaneY in *. rewrite Hpos, Hvy. exact Hy.
Qed.

Lemma updateEnemy_laneY `{Raylib} (inp : Input) (gameDt : float) (e : Enemy.t)
    (s : Game.t * Rectangle * nat) :
  enemyInLaneY e -> enemyInLaneY (fst (updateEnemy inp gameDt e s)).
Proof.
  intros Hy. destruct s as [[g pr] k]. destruct (Enemy.alive e) eqn:Ha.
  - destruct (updateEnemy_alive inp gameDt e g pr k Ha) as (e1 & g1 & pr1 & Hai & -> & _).
    apply meleeHit_laneY.
    pose proof (enemyAI_laneY gameDt e g pr Hy) as H1. rewrite Hai in H1. exact H1.
  - rewrite updateEnemy_dead by exact Ha. exact Hy.
Qed.

Lemma projectileHit_pos `{Raylib} (inp : Input) (p : Projectile.t) (e : Enemy.t)
    (s : Game.t * nat) :
  Enemy.pos (fst (projectileHit inp p e s)) = Enemy.pos e.
Proof.
  destruct s as [g k]. unfold projectileHit.
  destruct (negb (Enemy.alive e)); [reflexivity|].
  destruct (CheckCollisionCircleRec _ _ _); [|reflexivity].
  destruct (negb (Enemy.lastProjectileHitId e =? Projectile.id p)); [|reflexivity].
  set (e1 := Enemy.set_hp _ _).
  pose proof (enemyDeath_fields inp e1 g k) as (_ & _ & _ & _ & _ & Hpos & _).
  destruct (enemyDeath inp e1 g k) as [[e2 g2] k2]. cbn [fst] in *. rewrite Hpos.
  reflexivity.
Qed.

Lemma Forall2_Forall {A : Type} (P : A -> Prop) (R : A -> A -> Prop) (xs ys : list A) :
  (forall a b, R a b -> P a -> P b) ->
  Forall2 R xs ys -> Forall P xs -> Forall P ys.
Proof.
  intros Himp HF. induction HF as [|a b xs ys Hab HF IH]; intros HP; [constructor|].
  inversion HP; subst. constructor; eauto.
Qed.

Lemma enemyLoop_laneY `{Raylib} (inp : Input) (gameDt : float) (g : Game.t) (k : nat) :
  Forall enemyInLaneY (Game.enemies g) ->
  Forall enemyInLaneY (Game.enemies (fst (enemyLoop inp gameDt g k))).
Proof.
  intros Hy. unfold enemyLoop. set (pr := MakeRect _ _).
  pose proof (forEach_rel (updateEnemy inp gameDt) (fun _ => True)
                (fun e e' => enemyInLaneY e -> enemyInLaneY e')) as HF.
  destruct HF with (xs := Game.enemies g) (s := (g, pr, k)) as [HR _]; [|exact I|].
  - intros e s _. split; [apply updateEnemy_laneY | exact I].
  - destruct (forEach (updateEnemy inp gameDt) (Game.enemies g) (g, pr, k))
      as [es [[g' pr'] k']].
    cbn [fst Game.enemies Game.set_enemies] in *.
    apply (Forall2_Forall _ _ _ _ (fun a b Hab => Hab) HR Hy).
Qed.

Lemma projectilesVsEnemies_laneY `{Raylib} (inp : Input) (ps : list Projectile.t) :
  forall es s,
  Forall enemyInLaneY es ->
  Forall enemyInLaneY (fst (projectilesVsEnemies inp ps es s)).
Proof.
  induction ps as [|p ps IH]; intros es s Hy; simpl; [exact Hy|].
  destruct (negb (Projectile.active p)); [apply IH; exact Hy|].
  pose proof (forEach_rel (projectileHit inp p) (fun _ => True)
                (fun e e' => enemyInLaneY e -> enemyInLaneY e')) as HF.
  destruct HF with (xs := es) (s := s) as [HR _]; [|exact I|].
  - intros e s0 _. split; [|exact I].
    unfold enemyInLaneY. rewrite projectileHit_pos. auto.
  - destruct (forEach (projectileHit inp p) es s) as [es' s']. cbn [fst] in HR.
    apply IH. apply (Forall2_Forall _ _ _ _ (fun a b Hab => Hab) HR Hy).
Qed.

Lemma projectileLoop_laneY `{Raylib} (inp : Input) (g : Game.t) (k : nat) :
  Forall enemyInLaneY (Game.enemies g) ->
  Forall enemyInLaneY (Game.enemies (fst (projectileLoop inp g k))).
Proof.
  intros Hy. unfold projectileLoop.
  destruct (PlayerClass_eqb (Game.playerClass g) MAGE); [|exact Hy].
  pose proof (projectilesVsEnemies_laneY inp (Game.projectiles g) (Game.enemies g) (g, k) Hy)
    as HF.
  destruct (projectilesVsEnemies inp (Game.projectiles g) (Game.enemies g) (g, k))
    as [es [g' k']]. exact HF.
Qed.

(** Every lane height the spawner can draw lies in the lane: checked for
    each of the 101 values of the random number. *)
Lemma spawnLaneY_within (r : Z) :
  0 <= r <= 100 -> within GROUND_TOP GROUND_BOTTOM (spawnLaneY r).
Proof.
  intros Hr.
  assert (Hall : forallb (fun n => fleb GROUND_TOP (spawnLaneY (Z.of_nat n))
                                   && fleb (spawnLaneY (Z.of_nat n)) GROUND_BOTTOM)
                         (seq 0 101) = true) by (vm_compute; reflexivity).
  rewrite forallb_forall in Hall.
  specialize (Hall (Z.to_nat r)). rewrite Z2Nat.id in Hall by lia.
  intros _. apply andb_true_iff. apply Hall. apply in_seq. lia.
Qed.

Lemma MakeEnemy_pos (type : EnemyType) (x y : float) :
  Enemy.pos (MakeEnemy type x y) = mkVector2 x y.
Proof. destruct type; reflexivity. Qed.

Lemma spawnPhase_laneY (inp : Input) (gameDt : float) (g : Game.t) :
  randomInBounds inp ->
  Forall enemyInLaneY (Game.enemies g) ->
  Forall enemyInLaneY (Game.enemies (fst (spawnPhase inp gameDt g))).
Proof.
  intros Hrand Hy. unfold spawnPhase.
  assert (H1 : Forall enemyInLaneY (Game.enemies (fst (spawnEnemy inp gameDt g 0)))).
  { unfold spawnEnemy.
    match goal with |- context [if ?b then _ else _] => destruct b end; [|exact Hy].
    cbn [fst Game.enemies Game.set_enemies Game.set_enemySpawnTimer].
    apply Forall_app. split; [exact Hy|]. constructor; [|constructor].
    unfold enemyInLaneY. rewrite MakeEnemy_pos. cbn [vy].
    apply (spawnLaneY_within (GetRandomValue inp 0 0 100)). apply Hrand. lia. }
  destruct (spawnEnemy inp gameDt g 0) as [g1 k1]. cbn [fst] in *.
  cbn [Game.enemies Game.set_projectiles].
  unfold spawnBoss.
  match goal with |- context [if ?b then _ else _] => destruct b end; [|exact H1].
  cbn [Game.enemies Game.set_enemies Game.set_bossSpawned].
  apply Forall_app. split; [exact H1|]. constructor; [|constructor].
  unfold enemyInLaneY. rewrite MakeEnemy_pos. cbn [vy].
  intros _. split; vm_compute; reflexivity.
Qed.

Lemma abilityTimers_pos (gameDt : float) (p : Player.t) :
  Player.pos (abilityTimers gameDt p) = Player.pos p.
Proof. unfold abilityTimers. crush_stage. Qed.

Lemma comboTick_pos (gameDt : float) (p : Player.t) :
  Player.pos (comboTick gameDt p) = Player.pos p.
Proof. unfold comboTick. crush_stage. Qed.

Lemma attackTick_pos (gameDt : float) (p : Player.t) :
  Player.pos (attackTick gameDt p) = Player.pos p.
Proof. unfold attackTick. crush_stage. Qed.

Lemma playerAnimation_pos `{Raylib} (move : Vector2) (gameDt : float) (p : Player.t) :
  Player.pos (playerAnimation move gameDt p) = Player.pos p.
Proof. unfold playerAnimation. crush_stage. Qed.

(** After the player's part of the frame the player stands in the lane. *)
Lemma playerPhase_pos `{Raylib} (inp : Input) (gameDt : float) (g : Game.t) :
  let pos := Player.pos (Game.player (playerPhase inp gameDt g)) in
  within (of_int 0) LEVEL_LENGTH (vx pos) /\ within GROUND_TOP GROUND_BOTTOM (vy pos).
Proof.
  unfold playerPhase.
  set (move := effectiveMove inp (Game.player g)).
  set (g1 := onPlayer (movePlayer inp gameDt) g).
  set (g2 := if IsKeyPressed inp KEY_TAB then Game.set_state SHOP g1 else g1).
  set (g3 := onPlayer (abilityTimers gameDt) g2).
  set (g4 := onPlayer (classAbility inp gameDt (Game.playerClass g3)) g3).
  set (g5 := onPlayer (comboTick gameDt) g4).
  set (g6 := attackInput inp g5).
  set (g7 := onPlayer (attackTick gameDt) g6).
  assert (Hp2 : Game.player g2 = movePlayer inp gameDt (Game.player g)).
  { subst g2 g1. destruct (IsKeyPressed inp KEY_TAB); reflexivity. }
  assert (H3 : within (of_int 0) LEVEL_LENGTH (vx (Player.pos (Game.player g3)))
               /\ within GROUND_TOP GROUND_BOTTOM (vy (Player.pos (Game.player g3)))).
  { subst g3. rewrite onPlayer_player, abilityTimers_pos, Hp2.
    destruct (movePlayer_pos inp gameDt (Game.player g)) as [pos ->].
    apply clampToLane_within. }
  destruct H3 as [H3x H3y].
  pose proof (classAbility_pos inp gameDt (Game.playerClass g3) (Game.player g3) H3x H3y)
    as H4.
  assert (H8 : Player.pos (Game.player (onPlayer (playerAnimation move gameDt) g7))
               = Player.pos (classAbility inp gameDt (Game.playerClass g3) (Game.player g3))).
  { destruct (attackInput_frame inp g5) as (_ & _ & H6).
    subst g7. rewrite !onPlayer_player, playerAnimation_pos, attackTick_pos.
    subst g6. rewrite H6. subst g5 g4. rewrite !onPlayer_player, comboTick_pos.
    reflexivity. }
  cbv zeta. rewrite H8. exact H4.
Qed.

Lemma combatErase_pos (g g' : Game.t) :
  combatErase g = combatErase g' ->
  Player.pos (Game.player g) = Player.pos (Game.player g').
Proof. intros He. exact (f_equal (fun x => Player.pos (Game.player x)) He). Qed.

Lemma afterErase_pos (g g' : Game.t) :
  afterErase g = afterErase g' ->
  Player.pos (Game.player g) = Player.pos (Game.player g')
  /\ Game.enemies g = Game.enemies g'.
Proof.
  intros He. split.
  - exact (f_equal (fun x => Player.pos (Game.player x)) He).
  - exact (f_equal Game.enemies He).
Qed.

Lemma playing_chain_pos (g1 g2 g3 g4 g' : Game.t) :
  spawnErase g2 = spawnErase g1 ->
  combatErase g3 = combatErase g2 ->
  combatErase g4 = combatErase g3 ->
  afterErase g' = afterErase g4 ->
  Player.pos (Game.player g') = Player.pos (Game.player g1)
  /\ Game.enemies g' = Game.enemies g4.
Proof.
  intros H2 H3 H4 H5.
  destruct (spawnErase_fields _ _ H2) as (Hp & _).
  pose proof (combatErase_pos _ _ H3). pose proof (combatErase_pos _ _ H4).
  destruct (afterErase_pos _ _ H5) as [Hp5 He5].
  split; congruence.
Qed.

Lemma updatePlaying_positions `{Raylib} (inp : Input) (gameDt : float) (g : Game.t) :
  let g' := updatePlaying inp gameDt g in
  let pos := Player.pos (Game.player g') in
  within (of_int 0) LEVEL_LENGTH (vx pos)
  /\ within GROUND_TOP GROUND_BOTTOM (vy pos)
  /\ (randomInBounds inp ->
      Forall enemyInLaneY (Game.enemies g) ->
      Forall enemyInLaneY (Game.enemies g')).
Proof.
  intros g' pos. subst g' pos.
  destruct (updatePlaying_stages inp gameDt g)
    as (g2 & k2 & g3 & k3 & g4 & k4 & E2 & E3 & E4 & ->).
  pose proof (playerPhase_frame inp gameDt g) as [Hp1 _].
  pose proof (spawnPhase_frame inp gameDt (playerPhase inp gameDt g)) as (Hs2 & _).
  rewrite E2 in Hs2.
  pose proof (enemyLoop_melee inp gameDt g2 k2) as [He3 _]. rewrite E3 in He3.
  pose proof (projectileLoop_erase inp g3 k3) as [He4 _]. rewrite E4 in He4.
  pose proof (afterEnemies_frame g4) as [Ha _].
  destruct (playing_chain_pos _ g2 g3 g4 _ Hs2 He3 He4 Ha) as [Hpos Hen].
  rewrite Hpos, Hen.
  destruct (playerPhase_pos inp gameDt g) as [Hx Hy].
  split; [exact Hx|]. split; [exact Hy|].
  intros Hrand Hlane.
  pose proof (spawnPhase_laneY inp gameDt (playerPhase inp gameDt g) Hrand) as H2.
  rewrite E2 in H2.
  pose proof (enemyLoop_laneY inp gameDt g2 k2) as H3. rewrite E3 in H3.
  pose proof (projectileLoop_laneY inp g3 k3) as H4. rewrite E4 in H4.
  apply H4, H3, H2.
  destruct (playerErase_fields _ _ Hp1) as (He1 & _). rewrite He1. exact Hlane.
Qed.

(** C5, as the code has it.  After every PLAYING frame the player's position
    lies in the lane, x in 0..LEVEL_LENGTH and y in GROUND_TOP..GROUND_BOTTOM
    (movement, dodge and blink all clamp), and every enemy's y lies in
    GROUND_TOP..GROUND_BOTTOM if it did before (spawns draw it there, movement
    clamps it, knockback leaves it).  An enemy's x is never clamped.
    Coordinates are compared as numbers: the statement is about those that
    are not NaN. *)
Theorem positions_after_playing_frame `{Raylib} (inp : Input) (g : Game.t)
    (Hs : Game.state g = PLAYING) :
  let g' := frame inp g in
  let pos := Player.pos (Game.player g') in
  within (of_int 0) LEVEL_LENGTH (vx pos)
  /\ within GROUND_TOP GROUND_BOTTOM (vy pos)
  /\ (randomInBounds inp ->
      Forall enemyInLaneY (Game.enemies g) ->
      Forall enemyInLaneY (Game.enemies g')).
Proof.
  intros g' pos. subst g' pos.
  assert (Hfr : frame inp g
                = updatePlaying inp (gameDt inp (Game.gHitStopTimer g))
                    (Game.set_gHitStopTimer (hitStopTick inp (Game.gHitStopTimer g)) g)).
  { unfold frame. cbn [Game.state Game.set_gHitStopTimer]. rewrite Hs. reflexivity. }
  rewrite Hfr.
  apply (updatePlaying_positions inp (gameDt inp (Game.gHitStopTimer g))
           (Game.set_gHitStopTimer (hitStopTick inp (Game.gHitStopTimer g)) g)).
Qed.

(** Witness: the last frame of [knightShovesGrunt]; the player ends at
    x = 45, y = 390. *)
Lemma positions_after_playing_frame_witness :
  let g := @run referenceRaylib (removelast knightShovesGrunt) initialGame in
  let g' := @frame referenceRaylib (frameInput dt50 [KEY_A] [KEY_J]) g in
  let pos := Player.pos (Game.player g') in
  pos = mkVector2 (of_int 45) (of_int 390)
  /\ within (of_int 0) LEVEL_LENGTH (vx pos)
  /\ within GROUND_TOP GROUND_BOTTOM (vy pos).
Proof.
  intros g g' pos.
  destruct (@positions_after_playing_frame referenceRaylib
              (frameInput dt50 [KEY_A] [KEY_J]) g) as (Hx & Hy & _).
  - vm_compute. reflexivity.
  - split; [vm_compute; reflexivity|]. split; [exact Hx | exact Hy].
Defined.

(** C5 fails for enemies: at the end of [knightShovesGrunt] the Grunt hit by
    the Knight's third swing is alive at x = -48.48..., left of the lane. *)
Lemma enemy_knocked_out_of_the_lane :
  let g := @run referenceRaylib knightShovesGrunt initialGame in
  map (fun e => (Enemy.alive e, Enemy.hp e, fltb (vx (Enemy.pos e)) (of_int 0)))
      (Game.enemies g)
  = [(true, 50, true); (true, 90, false)]
  /\ Game.state g = PLAYING.
Proof. vm_compute. split; reflexivity. Qed.

(** ** Deaths, coins and victory *)

Lemma accounted_same (es : list Enemy.t) (g g' : Game.t) :
  List.length (Game.coins g') = List.length (Game.coins g) ->
  Game.state g' = Game.state g ->
  Game.bossDefeated g' = Game.bossDefeated g ->
  accounted es es g g'.
Proof.
  intros Hc Hs Hb.
  assert (Hz : dropsBetween es es = 0%nat /\ bossFell es es = false).
  { induction es as [|e es [IH1 IH2]]; [auto|]. cbn [dropsBetween bossFell].
    unfold died. rewrite IH1, IH2. destruct (Enemy.alive e); auto. }
  destruct Hz as [Hz1 Hz2]. unfold accounted. rewrite Hz1, Hz2, Nat.add_0_r. auto.
Qed.

Lemma accounted_cons (e e' : Enemy.t) (es es' : list Enemy.t) (g g1 g2 : Game.t) :
  accounted [e] [e'] g g1 -> accounted es es' g1 g2 ->
  accounted (e :: es) (e' :: es') g g2.
Proof.
  unfold accounted. cbn [dropsBetween bossFell]. intros (Hc1 & Hs1 & Hb1) (Hc2 & Hs2 & Hb2).
  rewrite Hc2, Hs2, Hb2, Hc1, Hs1, Hb1. rewrite Nat.add_0_r, orb_false_r.
  split; [lia|].
  destruct (died e e' && EnemyType_eqb (Enemy.type e') BOSS), (bossFell es es');
    cbn; auto using orb_true_r.
Qed.

Lemma accounted_trans (xs ys zs : list Enemy.t) (g g1 g2 : Game.t) :
  Forall2 combatStep xs ys -> Forall2 combatStep ys zs ->
  accounted xs ys g g1 -> accounted ys zs g1 g2 -> accounted xs zs g g2.
Proof.
  intros H1 H2.
  assert (Hz : dropsBetween xs zs = (dropsBetween xs ys + dropsBetween ys zs)%nat
               /\ bossFell xs zs = bossFell xs ys || bossFell ys zs).
  { revert zs H2. induction H1 as [|x y xs ys Hxy H1 IH]; intros zs H2;
      inversion H2 as [|y' z ys' zs' Hyz H2']; subst; [auto|].
    destruct (IH _ H2') as [IHd IHb].
    cbn [dropsBetween bossFell]. rewrite IHd, IHb.
    destruct Hxy as (Ht1 & Hd1 & _), Hyz as (Ht2 & Hd2 & _).
    assert (Hz : Enemy.alive y = false -> Enemy.alive z = false)
      by (intros Hy; rewrite (Hd2 Hy); exact Hy).
    assert (Hy : Enemy.alive x = false -> Enemy.alive y = false)
      by (intros Hx; rewrite (Hd1 Hx); exact Hx).
    unfold died. rewrite Ht2, Ht1. clear Hd1 Hd2.
    destruct (Enemy.alive x), (Enemy.alive y), (Enemy.alive z);
      try (specialize (Hy eq_refl); discriminate);
      try (specialize (Hz eq_refl); discriminate);
      destruct (EnemyType_eqb (Enemy.type x) BOSS), (bossFell xs ys), (bossFell ys zs');
      cbn; split; solve [lia | reflexivity]. }
  destruct Hz as [Hz1 Hz2].
  unfold accounted. intros (Hc1 & Hs1 & Hb1) (Hc2 & Hs2 & Hb2).
  rewrite Hc2, Hs2, Hb2, Hc1, Hs1, Hb1, Hz1, Hz2.
  split; [lia|].
  destruct (bossFell xs ys), (bossFell ys zs); cbn; auto.
Qed.

Lemma dropOf_coinCount (type : EnemyType) : Z.to_nat (coinCount type) = dropOf type.
Proof. destruct type; reflexivity. Qed.

(** The death block run on a living enemy, as bookkeeping. *)
Lemma enemyDeath_accounted (inp : Input) (e0 e : Enemy.t) (g0 g : Game.t) (k : nat) :
  Enemy.alive e0 = true ->
  Enemy.alive e = true ->
  List.length (Game.coins g) = List.length (Game.coins g0) ->
  Game.state g = Game.state g0 ->
  Game.bossDefeated g = Game.bossDefeated g0 ->
  accounted [e0] [fst (fst (enemyDeath inp e g k))] g0 (snd (fst (enemyDeath inp e g k))).
Proof.
  intros Ha0 Ha Hc Hs Hb. unfold accounted. cbn [dropsBetween bossFell].
  unfold died. rewrite Ha0. cbn [andb]. rewrite Nat.add_0_r, orb_false_r.
  destruct (Z_lt_le_dec 0 (Enemy.hp e)) as [Hpos | Hneg].
  - rewrite enemyDeath_alive by exact Hpos. cbn [fst snd]. rewrite Ha. cbn.
    rewrite Nat.add_0_r. auto.
  - destruct (enemyDeath_dead inp e g k Hneg) as (cs & k' & Hlen & ->).
    cbn [fst snd Enemy.alive Enemy.set_alive Enemy.type negb andb].
    rewrite dropOf_coinCount in Hlen.
    destruct (EnemyType_eqb (Enemy.type e) BOSS);
      cbn [Game.coins Game.set_coins Game.set_state Game.set_bossDefeated Game.state
           Game.bossDefeated orb];
      rewrite length_app, Hlen, Hc; auto.
Qed.

Lemma updateEnemy_accounted `{Raylib} (inp : Input) (gameDt : float) (e : Enemy.t)
    (s : Game.t * Rectangle * nat) :
  accounted [e] [fst (updateEnemy inp gameDt e s)] (fst (fst s))
            (fst (fst (snd (updateEnemy inp gameDt e s)))).
Proof.
  destruct s as [[g pr] k]. cbn [fst]. destruct (Enemy.alive e) eqn:Ha.
  - destruct (updateEnemy_alive inp gameDt e g pr k Ha) as (e1 & g1 & pr1 & Hai & -> & ->).
    pose proof (enemyAI_view gameDt e g pr) as Hv. rewrite Hai in Hv. cbn [fst] in Hv.
    destruct (combatView_eq _ _ Hv) as (_ & _ & Hal & _).
    assert (Hg1 : List.length (Game.coins g1) = List.length (Game.coins g)
                  /\ Game.state g1 = Game.state g
                  /\ Game.bossDefeated g1 = Game.bossDefeated g).
    { destruct (enemyAI_game gameDt e g pr) as [Hg | Hg]; rewrite Hai in Hg;
        cbn [fst snd] in Hg; subst g1; [auto|].
      destruct (enemyStrike_erase (Enemy.type e) g) as (_ & Hc & Hs & Hb).
      rewrite Hc, Hs, Hb. auto. }
    destruct Hg1 as (Hc1 & Hs1 & Hb1).
    destruct (meleeHit_cases inp e1 g1 k)
      as [-> | (_ & _ & _ & e2 & t & -> & _ & _ & Hal2 & _)].
    + cbn [fst snd]. unfold accounted. cbn [dropsBetween bossFell]. unfold died.
      rewrite Ha, Hal, Ha. cbn. rewrite Nat.add_0_r. auto.
    + apply enemyDeath_accounted; try congruence; assumption.
  - rewrite updateEnemy_dead by exact Ha. cbn [fst snd].
    apply accounted_same; reflexivity.
Qed.

Lemma enemyLoop_accounted `{Raylib} (inp : Input) (gameDt : float) (g : Game.t) (k : nat) :
  accounted (Game.enemies g) (Game.enemies (fst (enemyLoop inp gameDt g k)))
            g (fst (enemyLoop inp gameDt g k)).
Proof.
  unfold enemyLoop. set (pr := MakeRect _ _).
  assert (Hgen : forall es s,
             accounted es (fst (forEach (updateEnemy inp gameDt) es s)) (fst (fst s))
                       (fst (fst (snd (forEach (updateEnemy inp gameDt) es s))))).
  { induction es as [|e es IH]; intros s.
    - simpl. apply accounted_same; reflexivity.
    - rewrite forEach_cons. cbn [fst snd].
      eapply accounted_cons; [apply updateEnemy_accounted | apply IH]. }
  specialize (Hgen (Game.enemies g) (g, pr, k)).
  destruct (forEach (updateEnemy inp gameDt) (Game.enemies g) (g, pr, k))
    as [es [[g' pr'] k']].
  cbn [fst snd] in *. unfold accounted in *. exact Hgen.
Qed.

Lemma projectileHit_accounted `{Raylib} (inp : Input) (p : Projectile.t) (e : Enemy.t)
    (s : Game.t * nat) :
  accounted [e] [fst (projectileHit inp p e s)] (fst s)
            (fst (snd (projectileHit inp p e s))).
Proof.
  destruct s as [g k]. unfold projectileHit. cbn [fst].
  destruct (Enemy.alive e) eqn:Ha; cbn [negb];
    [|cbn [fst snd]; apply accounted_same; reflexivity].
  destruct (CheckCollisionCircleRec _ _ _);
    [|cbn [fst snd]; apply accounted_same; reflexivity].
  destruct (negb (Enemy.lastProjectileHitId e =? Projectile.id p));
    [|cbn [fst snd]; apply accounted_same; reflexivity].
  set (e1 := Enemy.set_hp _ _).
  pose proof (enemyDeath_accounted inp e e1 g g k Ha Ha eq_refl eq_refl eq_refl) as Hac.
  destruct (enemyDeath inp e1 g k) as [[e2 g2] k2]. exact Hac.
Qed.

Lemma projectilesVsEnemies_accounted `{Raylib} (inp : Input) (ps : list Projectile.t) :
  forall es s,
  accounted es (fst (projectilesVsEnemies inp ps es s)) (fst s)
            (fst (snd (projectilesVsEnemies inp ps es s))).
Proof.
  induction ps as [|p ps IH]; intros es s; simpl.
  - apply accounted_same; reflexivity.
  - destruct (negb (Projectile.active p)); [apply IH|].
    assert (Hgen : forall xs s0,
               accounted xs (fst (forEach (projectileHit inp p) xs s0)) (fst s0)
                         (fst (snd (forEach (projectileHit inp p) xs s0)))).
    { induction xs as [|x xs IHx]; intros s0.
      - simpl. apply accounted_same; reflexivity.
      - rewrite forEach_cons. cbn [fst snd].
        eapply accounted_cons; [apply projectileHit_accounted | apply IHx]. }
    specialize (Hgen es s).
    pose proof (forEach_rel (projectileHit inp p) (fun _ => True) combatStep) as HF.
    destruct HF with (xs := es) (s := s) as [HR _]; [|exact I|].
    { intros x s0 _. split; [apply projectileHit_step | exact I]. }
    destruct (forEach (projectileHit inp p) es s) as [es' s']. cbn [fst snd] in *.
    eapply accounted_trans; [exact HR | apply projectilesVsEnemies_step | exact Hgen | apply IH].
Qed.

Lemma projectileLoop_accounted `{Raylib} (inp : Input) (g : Game.t) (k : nat) :
  accounted (Game.enemies g) (Game.enemies (fst (projectileLoop inp g k)))
            g (fst (projectileLoop inp g k)).
Proof.
  unfold projectileLoop.
  destruct (PlayerClass_eqb (Game.playerClass g) MAGE).
  - pose proof (projectilesVsEnemies_accounted inp (Game.projectiles g) (Game.enemies g) (g, k))
      as Hac.
    destruct (projectilesVsEnemies inp (Game.projectiles g) (Game.enemies g) (g, k))
      as [es [g' k']]. cbn [fst snd] in *. exact Hac.
  - cbn [fst]. apply accounted_same; reflexivity.
Qed.

Lemma collectCoins_length `{Raylib} (g : Game.t) :
  List.length (Game.coins (updateCamera (checkGameOver (collectCoins g))))
  = List.length (Game.coins g).
Proof.
  unfold updateCamera, checkGameOver, collectCoins.
  pose proof (forEach_length collectCoin (Game.coins g) (Game.player g)) as Hl.
  destruct (forEach collectCoin (Game.coins g) (Game.player g)) as [cs p].
  cbn [fst] in Hl. split_ifs; exact Hl.
Qed.

Lemma afterErase_boss (g g' : Game.t) :
  afterErase g = afterErase g' ->
  Game.bossDefeated g = Game.bossDefeated g'.
Proof. intros He. exact (f_equal Game.bossDefeated He). Qed.

Lemma playing_chain_accounted (g g1 g2 g3 g4 g' : Game.t) (new : list Enemy.t) :
  playerErase g1 = playerErase g ->
  spawnErase g2 = spawnErase g1 ->
  Game.enemies g2 = Game.enemies g1 ++ new ->
  Forall2 combatStep (Game.enemies g2) (Game.enemies g3) ->
  Forall2 combatStep (Game.enemies g3) (Game.enemies g4) ->
  accounted (Game.enemies g2) (Game.enemies g3) g2 g3 ->
  accounted (Game.enemies g3) (Game.enemies g4) g3 g4 ->
  afterErase g' = afterErase g4 ->
  List.length (Game.coins g') = List.length (Game.coins g4) ->
  Game.state g' = (if Player.hp (Game.player g4) <=? 0 then GAMEOVER else Game.state g4) ->
  let es := Game.enemies g ++ new in
  let es' := Game.enemies g' in
  Forall2 combatStep es es'
  /\ List.length (Game.coins g') = (List.length (Game.coins g) + dropsBetween es es')%nat
  /\ Game.bossDefeated g' = bossFell es es' || Game.bossDefeated g
  /\ (bossFell es es' = true ->
      Game.state g' = if Player.hp (Game.player g') <=? 0 then GAMEOVER else VICTORY).
Proof.
  intros H1 H2 Hn HF3 HF4 Ha3 Ha4 H5 Hlen Hst es es'. subst es es'.
  destruct (playerErase_fields _ _ H1) as (He1 & _ & Hc1 & _ & Hb1).
  destruct (spawnErase_fields _ _ H2) as (_ & _ & Hc2 & _ & _ & _ & Hb2).
  destruct (afterErase_hp _ _ H5) as (_ & Hh5 & He5).
  pose proof (afterErase_boss _ _ H5) as Hb5.
  pose proof (accounted_trans _ _ _ _ _ _ HF3 HF4 Ha3 Ha4) as (Hc & Hs & Hb).
  rewrite He5, <- He1, <- Hn.
  split; [exact (Forall2_trans combatStep combatStep_trans _ _ _ HF3 HF4)|].
  split; [rewrite Hlen, Hc; congruence|].
  split; [rewrite Hb5, Hb; congruence|].
  intros Hfell. rewrite Hst, Hs, Hfell, Hh5. reflexivity.
Qed.

(** C7, as the code has it.  In a PLAYING frame the enemies at the frame's
    start, followed by the ones the frame spawns, are updated in place; the
    coin list grows by exactly the drops of those that died in the frame (10
    for a boss, 3 for a Tank, 1 for a Grunt or a Fast enemy), whichever
    resolver killed them.  If a boss died, the boss flag is set and the phase
    at the end of the frame is VICTORY, unless the player's HP is 0 at the
    frame's final check, in which case it is GAMEOVER.  A dead enemy is never
    updated again ([combatStep]), and a frame in VICTORY without ENTER changes
    neither the phase nor the coins nor the enemies: the drop and the
    transition happen once. *)
Theorem boss_defeat `{Raylib} (inp : Input) (g : Game.t)
    (Hs : Game.state g = PLAYING) :
  let g' := frame inp g in
  (exists new,
      let es := Game.enemies g ++ new in
      let es' := Game.enemies g' in
      Forall2 combatStep es es'
      /\ List.length (Game.coins g') = (List.length (Game.coins g) + dropsBetween es es')%nat
      /\ Game.bossDefeated g' = bossFell es es' || Game.bossDefeated g
      /\ (bossFell es es' = true ->
          Game.state g' = if Player.hp (Game.player g') <=? 0 then GAMEOVER else VICTORY))
  /\ (forall inp0 g0,
        Game.state g0 = VICTORY -> IsKeyPressed inp0 KEY_ENTER = false ->
        Game.state (frame inp0 g0) = VICTORY
        /\ Game.coins (frame inp0 g0) = Game.coins g0
        /\ Game.enemies (frame inp0 g0) = Game.enemies g0).
Proof.
  intros g'. subst g'. split.
  - assert (Hfr : frame inp g
                  = updatePlaying inp (gameDt inp (Game.gHitStopTimer g))
                      (Game.set_gHitStopTimer (hitStopTick inp (Game.gHitStopTimer g)) g)).
    { unfold frame. cbn [Game.state Game.set_gHitStopTimer]. rewrite Hs. reflexivity. }
    rewrite Hfr.
    set (dt := gameDt inp (Game.gHitStopTimer g)).
    set (g0 := Game.set_gHitStopTimer _ g).
    destruct (updatePlaying_stages inp dt g0)
      as (g2 & k2 & g3 & k3 & g4 & k4 & E2 & E3 & E4 & ->).
    pose proof (playerPhase_frame inp dt g0) as [Hp1 _].
    pose proof (spawnPhase_frame inp dt (playerPhase inp dt g0)) as (Hs2 & _ & new & Hn2).
    rewrite E2 in Hs2, Hn2.
    pose proof (enemyLoop_accounted inp dt g2 k2) as Ha3. rewrite E3 in Ha3.
    assert (HF3 : Forall2 combatStep (Game.enemies g2) (Game.enemies g3)).
    { pose proof (forEach_rel (updateEnemy inp dt) (fun _ => True) combatStep) as HF.
      unfold enemyLoop in E3.
      destruct HF with (xs := Game.enemies g2)
                       (s := (g2, MakeRect (Player.pos (Game.player g2))
                                           (Player.size (Game.player g2)), k2))
        as [HR _]; [|exact I|].
      - intros x s _. split; [apply updateEnemy_step | exact I].
      - destruct (forEach (updateEnemy inp dt) (Game.enemies g2) _) as [es [[gx prx] kx]].
        inversion E3; subst. exact HR. }
    pose proof (projectileLoop_accounted inp g3 k3) as Ha4. rewrite E4 in Ha4.
    pose proof (projectileLoop_step inp g3 k3) as HF4. rewrite E4 in HF4.
    pose proof (afterEnemies_frame g4) as [Ha Hst].
    pose proof (collectCoins_length g4) as Hlen.
    exists new.
    exact (playing_chain_accounted g0 _ g2 g3 g4 _ new Hp1 Hs2 Hn2 HF3 HF4 Ha3 Ha4 Ha Hlen Hst).
  - intros inp0 g0 Hv He. unfold frame. cbn [Game.state Game.set_gHitStopTimer].
    rewrite Hv. unfold updateRestart. rewrite He. auto.
Qed.

(** Witness: the Knight, here with 100 HP, lands the last blow on the boss in
    the frame in which the boss's hit lands: 10 coins, VICTORY. *)
Lemma boss_defeat_witness :
  let g := onPlayer (Player.set_hp 100) knightAndBossLastBlow in
  let g' := @frame referenceRaylib (press KEY_J) g in
  map (fun e => (Enemy.type e, Enemy.alive e, Enemy.hp e)) (Game.enemies g')
  = [(BOSS, false, -10)]
  /\ Player.hp (Game.player g') = 80
  /\ List.length (Game.coins g') = 10%nat
  /\ Game.bossDefeated g' = true
  /\ Game.state g' = VICTORY.
Proof.
  intros g g'.
  destruct (@boss_defeat referenceRaylib (press KEY_J) g eq_refl)
    as [(new & HF & Hc & Hb & Hst) _].
  assert (Hen : Game.enemies g' = [Enemy.set_pos
                                     (Enemy.pos (hd (MakeEnemy GRUNT fzero fzero) (Game.enemies g')))
                                     (Enemy.set_alive false
                                        (hd (MakeEnemy GRUNT fzero fzero) (Game.enemies g')))])
    by (vm_compute; reflexivity).
  assert (Hnew : new = []).
  { apply Forall2_length in HF. fold g' in HF. rewrite Hen in HF.
    rewrite length_app in HF. cbn in HF. destruct new; [reflexivity | cbn in HF; lia]. }
  subst new. fold g' in Hc, Hb, Hst.
  assert (Hfell : bossFell (Game.enemies g ++ []) (Game.enemies g') = true)
    by (vm_compute; reflexivity).
  split; [vm_compute; reflexivity|]. split; [vm_compute; reflexivity|].
  split; [rewrite Hc; vm_compute; reflexivity|].
  split; [rewrite Hb, Hfell; reflexivity|].
  rewrite (Hst Hfell). vm_compute. reflexivity.
Defined.

(** C7 fails when the player falls in the same frame: the Knight with 5 HP
    takes the boss's hit (20, clamped to 0 HP) and kills the boss (10 HP, hit
    for 20) in one frame; the boss is dead, its 10 coins are dropped, the
    boss flag is set, and the frame ends in GAMEOVER, not VICTORY. *)
Lemma boss_falls_but_game_over :
  let g := knightAndBossLastBlow in
  let g' := @frame referenceRaylib (press KEY_J) g in
  Game.state g = PLAYING
  /\ Player.hp (Game.player g) = 5
  /\ map (fun e => (Enemy.type e, Enemy.alive e, Enemy.hp e)) (Game.enemies g)
     = [(BOSS, true, 10)]
  /\ map (fun e => (Enemy.type e, Enemy.alive e, Enemy.hp e)) (Game.enemies g')
     = [(BOSS, false, -10)]
  /\ Player.hp (Game.player g') = 0
  /\ List.length (Game.coins g') = 10%nat
  /\ Game.bossDefeated g' = true
  /\ Game.state g' = GAMEOVER.
Proof. vm_compute. repeat split. Qed.

(* ------------------------------------------------------------------ *)
(** ** Projectiles: the gate remembers one id only *)

(** An enemy that carries the projectile's id is skipped. *)
Lemma projectileHit_stamped `{Raylib} (inp : Input) (p : Projectile.t) (e : Enemy.t)
    (s : Game.t * nat) :
  let e' := Enemy.set_lastProjectileHitId (Projectile.id p) e in
  projectileHit inp p e' s = (e', s).
Proof.
  intros e'. destruct s as [g k]. unfold projectileHit.
  destruct (negb (Enemy.alive e')); [reflexivity|].
  destruct (CheckCollisionCircleRec _ _ _); [|reflexivity].
  replace (Enemy.lastProjectileHitId e') with (Projectile.id p) by reflexivity.
  rewrite Z.eqb_refl. reflexivity.
Qed.

(** C2 — the projectile resolver skips an enemy stamped with the projectile's
    id, moves no enemy and starts no hit stop; but the stamp holds the last
    id only, so "at most once per projectile and enemy" fails when two
    projectiles overlap one enemy in the same frames.  In the play-through
    [mageFiresTwiceWalking] the projectiles 1 (damage 8) and 2 (damage 10)
    are the only ones ever fired; the Grunt (90 HP) is hit by 1 (82), then by
    2 (72), and in each of the next four frames by both again (54, 36, 18,
    0): it loses 90 HP where 18 are due. *)
Theorem projectile_gate_forgets_earlier_projectile :
  (forall (R : Raylib) inp p e s,
     let e' := Enemy.set_lastProjectileHitId (Projectile.id p) e in
     projectileHit inp p e' s = (e', s))
  /\ (forall (R : Raylib) inp p e s,
        Enemy.pos (fst (projectileHit inp p e s)) = Enemy.pos e
        /\ Game.gHitStopTimer (fst (snd (projectileHit inp p e s)))
           = Game.gHitStopTimer (fst s))
  /\ (let g := @run referenceRaylib mageFiresTwiceWalking initialGame in
      let after n := @run referenceRaylib (repeat idle16 n) g in
      Game.playerClass g = MAGE
      /\ inFlight g = [(1, 8, true); (2, 10, true)]
      /\ map (fun n => projectileGate (after n)) [13; 14; 17; 18; 19; 20; 21; 22]%nat
         = [[(90, -1)]; [(82, 1)]; [(82, 1)]; [(72, 2)];
            [(54, 2)]; [(36, 2)]; [(18, 2)]; [(0, 2)]]
      /\ inFlight (after 22%nat) = [(1, 8, true); (2, 10, true)]
      /\ Game.gProjectileCounter (after 22%nat) = 2).
Proof.
  split; [|split].
  - intros R inp p e s. apply projectileHit_stamped.
  - intros R inp p e s. split.
    + apply projectileHit_pos.
    + apply (projectileHit_erase inp p e s).
  - vm_compute. repeat split.
Qed.
(* ------------------------------------------------------------------ *)
(** ** The combo multiplier *)

Lemma GetComboMultiplier_low (pc : PlayerClass) (s : Z) :
  s <= 1 -> GetComboMultiplier pc s = GetComboMultiplier pc 1.
Proof.
  intros Hs. unfold GetComboMultiplier.
  destruct (Z.ltb_spec s 1) as [H1|H1].
  - reflexivity.
  - replace s with 1 by lia. reflexivity.
Qed.

Lemma GetComboMultiplier_high (pc : PlayerClass) (s : Z) :
  3 <= s -> GetComboMultiplier pc s = GetComboMultiplier pc 3.
Proof.
  intros Hs. unfold GetComboMultiplier.
  destruct (Z.ltb_spec s 1) as [H1|H1]; [lia|].
  destruct (Z.ltb_spec 3 s) as [H3|H3].
  - reflexivity.
  - replace s with 3 by lia. reflexivity.
Qed.

Lemma combo_step_cases (s : Z) : s <= 1 \/ s = 2 \/ 3 <= s.
Proof. lia. Qed.

(** X1 — [GetComboMultiplier] reads its step clamped to 1..3 (a step below 1
    counts as 1, one above 3 as 3), and for every class the multiplier never
    decreases as the step grows. *)
Theorem combo_multiplier_monotone (pc : PlayerClass) (s t : Z) (Hst : s <= t) :
  GetComboMultiplier pc s = GetComboMultiplier pc (Z.max 1 (Z.min 3 s))
  /\ fltb (GetComboMultiplier pc t) (GetComboMultiplier pc s) = false
  /\ fleb (GetComboMultiplier pc s) (GetComboMultiplier pc t) = true.
Proof.
  split.
  - destruct (combo_step_cases s) as [H|[H|H]].
    + rewrite (GetComboMultiplier_low pc s H). replace (Z.max 1 (Z.min 3 s)) with 1 by lia.
      reflexivity.
    + subst s. reflexivity.
    + rewrite (GetComboMultiplier_high pc s H). replace (Z.max 1 (Z.min 3 s)) with 3 by lia.
      reflexivity.
  - destruct (combo_step_cases s) as [Hs|[Hs|Hs]], (combo_step_cases t) as [Ht|[Ht|Ht]];
      try lia;
      repeat match goal with
             | H : ?x <= 1 |- _ => rewrite (GetComboMultiplier_low pc x H); clear H
             | H : 3 <= ?x |- _ => rewrite (GetComboMultiplier_high pc x H); clear H
             | H : ?x = 2 |- _ => rewrite H; clear H
             end;
      destruct pc; vm_compute; split; reflexivity.
Qed.

(** The same at a concrete state. *)
Lemma combo_multiplier_monotone_witness :
  fleb (GetComboMultiplier KNIGHT 0) (GetComboMultiplier KNIGHT 7) = true.
Proof.
  destruct (combo_multiplier_monotone KNIGHT 0 7) as (_ & _ & H); [lia | exact H].
Defined.

(* ------------------------------------------------------------------ *)
(** ** Restart and the menu *)

(** X2 — a restarting frame (ENTER in MENU, GAMEOVER or VICTORY) ends in
    PLAYING with a fresh session, whatever the game held before: the class
    under the menu cursor with its HP, max-HP, base damage and speed; no
    coins, no upgrade levels, combo step 0, attack id -1, no ability active;
    the player at (100, 390) facing right; no enemies, coins or projectiles;
    boss flags, spawn timer, hit-stop timer and both id counters cleared; the
    camera on the player.  It keeps the shop cursor and the last attack
    hitbox, and outside the menu it keeps the class cursor. *)
Theorem restart_gives_fresh_session `{Raylib} (inp : Input) (g : Game.t)
    (Hr : isReset inp g = true) :
  let g' := frame inp g in
  let cc := classAt (Game.selectedClassIndex g') in
  let p := Game.player g' in
  Game.state g' = PLAYING
  /\ Game.playerClass g' = cc_type cc
  /\ (Player.hp p, Player.maxHP p, Player.baseDamage p, Player.speed p)
     = (cc_maxHP cc, cc_maxHP cc, cc_baseDamage cc, cc_speed cc)
  /\ (Player.coins p, Player.damageLevel p, Player.healthLevel p, Player.speedLevel p)
     = (0, 0, 0, 0)
  /\ (Player.comboStep p, Player.currentAttackId p) = (0, -1)
  /\ (Player.attacking p, Player.blocking p, Player.dodging p, Player.invincible p)
     = (false, false, false, false)
  /\ Player.pos p = mkVector2 (of_int 100) (of_int 390)
  /\ Player.facingRight p = true
  /\ (Game.enemies g', Game.coins g', Game.projectiles g') = ([], [], [])
  /\ (Game.bossSpawned g', Game.bossDefeated g') = (false, false)
  /\ (Game.gAttackCounter g', Game.gProjectileCounter g') = (0, 0)
  /\ (Game.gHitStopTimer g', Game.enemySpawnTimer g') = (fzero, fzero)
  /\ Game.cameraTarget g' = Player.pos p
  /\ Game.shopSelection g' = Game.shopSelection g
  /\ Player.attackHitbox p = Player.attackHitbox (Game.player g)
  /\ (Game.state g <> MENU -> Game.selectedClassIndex g' = Game.selectedClassIndex g).
Proof.
  intros g' cc p. subst p cc g'.
  assert (Hpos : fmul (fadd GROUND_TOP GROUND_BOTTOM) (dec 5 1) = of_int 390)
    by (vm_compute; reflexivity).
  unfold frame, isReset in *. cbn [Game.state Game.set_gHitStopTimer].
  destruct (Game.state g) eqn:Hs; try discriminate;
    unfold updateRestart, updateMenu; rewrite Hr; cbn [GameState_eqb].
  - split_ifs;
      cbn [Game.state Game.set_state ResetGame Game.player Game.playerClass
           Game.selectedClassIndex Game.set_selectedClassIndex Game.set_gHitStopTimer
           Game.enemies Game.coins Game.projectiles Game.bossSpawned Game.bossDefeated
           Game.gAttackCounter Game.gProjectileCounter Game.gHitStopTimer
           Game.enemySpawnTimer Game.cameraTarget Game.shopSelection
           Player.hp Player.maxHP Player.baseDamage Player.speed Player.coins
           Player.damageLevel Player.healthLevel Player.speedLevel Player.comboStep
           Player.currentAttackId Player.attacking Player.blocking Player.dodging
           Player.invincible Player.pos Player.facingRight Player.attackHitbox];
      rewrite Hpos; repeat split; try reflexivity; intros; congruence.
  - cbn [Game.state Game.set_state ResetGame Game.player Game.playerClass
           Game.selectedClassIndex Game.set_selectedClassIndex Game.set_gHitStopTimer
           Game.enemies Game.coins Game.projectiles Game.bossSpawned Game.bossDefeated
           Game.gAttackCounter Game.gProjectileCounter Game.gHitStopTimer
           Game.enemySpawnTimer Game.cameraTarget Game.shopSelection
           Player.hp Player.maxHP Player.baseDamage Player.speed Player.coins
           Player.damageLevel Player.healthLevel Player.speedLevel Player.comboStep
           Player.currentAttackId Player.attacking Player.blocking Player.dodging
           Player.invincible Player.pos Player.facingRight Player.attackHitbox];
      rewrite Hpos; repeat split; try reflexivity; intros; congruence.
  - cbn [Game.state Game.set_state ResetGame Game.player Game.playerClass
           Game.selectedClassIndex Game.set_selectedClassIndex Game.set_gHitStopTimer
           Game.enemies Game.coins Game.projectiles Game.bossSpawned Game.bossDefeated
           Game.gAttackCounter Game.gProjectileCounter Game.gHitStopTimer
           Game.enemySpawnTimer Game.cameraTarget Game.shopSelection
           Player.hp Player.maxHP Player.baseDamage Player.speed Player.coins
           Player.damageLevel Player.healthLevel Player.speedLevel Player.comboStep
           Player.currentAttackId Player.attacking Player.blocking Player.dodging
           Player.invincible Player.pos Player.facingRight Player.attackHitbox];
      rewrite Hpos; repeat split; try reflexivity; intros; congruence.
Qed.

(** The same at a concrete state. *)
Lemma restart_gives_fresh_session_witness :
  let g := @run referenceRaylib (firstn 341 rogueDiesAndRestarts) initialGame in
  let g' := @frame referenceRaylib (press KEY_ENTER) g in
  Game.state g = GAMEOVER
  /\ Game.state g' = PLAYING
  /\ Game.playerClass g' = ROGUE.
Proof.
  intros g g'.
  assert (Hs : Game.state g = GAMEOVER) by (vm_compute; reflexivity).
  assert (Hr : isReset (press KEY_ENTER) g = true) by (unfold isReset; rewrite Hs; reflexivity).
  destruct (@restart_gives_fresh_session referenceRaylib (press KEY_ENTER) g Hr)
    as (Hp & Hc & _).
  split; [exact Hs|]. split; [exact Hp|].
  fold g' in Hc. rewrite Hc. vm_compute. reflexivity.
Defined.

(** The MENU branch: the cursor after the frame's keys, and what ENTER does
    with it. *)
Lemma updateMenu_spec (inp : Input) (g : Game.t) :
  0 <= Game.selectedClassIndex g < 3 ->
  let g' := updateMenu inp g in
  let i' := menuCursor inp (Game.selectedClassIndex g) in
  Game.selectedClassIndex g' = i'
  /\ 0 <= i' < 3
  /\ Game.shopSelection g' = Game.shopSelection g
  /\ (if IsKeyPressed inp KEY_ENTER
      then Game.state g' = PLAYING /\ Game.playerClass g' = cc_type (classAt i')
      else g' = Game.set_selectedClassIndex i' g).
Proof.
  intros Hi g' i'. subst g' i'.
  destruct g as [i p pc st cam es cs ps bs bd et ss hs ac prc].
  cbn [Game.selectedClassIndex] in *.
  assert (Hc : i = 0 \/ i = 1 \/ i = 2) by lia.
  unfold menuCursor, updateMenu.
  destruct Hc as [-> | [-> | ->]];
    destruct (IsKeyPressed inp KEY_RIGHT), (IsKeyPressed inp KEY_LEFT),
             (IsKeyPressed inp KEY_ENTER);
    repeat split; try reflexivity; try lia; vm_compute; discriminate.
Qed.

(** X3 — a MENU frame with the class cursor inside the table: RIGHT moves
    the cursor one up modulo 3, LEFT one down wrapping from 0 to 2, both in one
    frame cancel; ENTER, read after the cursor keys, starts PLAYING with the
    class under the new cursor; without ENTER nothing but the cursor and the
    hit-stop countdown changes. *)
Theorem menu_frame `{Raylib} (inp : Input) (g : Game.t)
    (Hs : Game.state g = MENU)
    (Hi : 0 <= Game.selectedClassIndex g < 3) :
  let g' := frame inp g in
  let i' := menuCursor inp (Game.selectedClassIndex g) in
  Game.selectedClassIndex g' = i'
  /\ 0 <= i' < 3
  /\ (if IsKeyPressed inp KEY_ENTER
      then Game.state g' = PLAYING /\ Game.playerClass g' = cc_type (classAt i')
      else g' = Game.set_selectedClassIndex i'
                  (Game.set_gHitStopTimer (hitStopTick inp (Game.gHitStopTimer g)) g)).
Proof.
  intros g' i'. subst g' i'.
  unfold frame. cbn [Game.state Game.set_gHitStopTimer]. rewrite Hs.
  destruct (updateMenu_spec inp
              (Game.set_gHitStopTimer (hitStopTick inp (Game.gHitStopTimer g)) g) Hi)
    as (H1 & H2 & _ & H3).
  cbn [Game.selectedClassIndex Game.set_gHitStopTimer] in H1, H2, H3.
  split; [exact H1|]. split; [exact H2 | exact H3].
Qed.

(** The same at a concrete state. *)
Lemma menu_frame_witness :
  let g' := @frame referenceRaylib (frameInput dt50 [] [KEY_LEFT]) initialGame in
  Game.selectedClassIndex g' = 2 /\ Game.state g' = MENU.
Proof.
  intros g'.
  destruct (@menu_frame referenceRaylib (frameInput dt50 [] [KEY_LEFT]) initialGame)
    as (Hi & _ & _).
  - reflexivity.
  - change (0 <= 0 < 3). lia.
  - split; [exact Hi | vm_compute; reflexivity].
Defined.

(* ------------------------------------------------------------------ *)
(** ** The PLAYING frame as a chain of stages *)

(** The stages of the PLAYING branch with what each leaves alone. *)
Lemma updatePlaying_chain `{Raylib} (inp : Input) (gameDt : float) (g : Game.t) :
  exists g1 g2 k2 g3 k3 g4 k4,
    g1 = playerPhase inp gameDt g
    /\ spawnPhase inp gameDt g1 = (g2, k2)
    /\ enemyLoop inp gameDt g2 k2 = (g3, k3)
    /\ projectileLoop inp g3 k3 = (g4, k4)
    /\ updatePlaying inp gameDt g = updateCamera (checkGameOver (collectCoins g4))
    /\ playerErase g1 = playerErase g
    /\ spawnErase g2 = spawnErase g1
    /\ combatErase g3 = combatErase g2
    /\ combatErase g4 = combatErase g3
    /\ afterErase (updatePlaying inp gameDt g) = afterErase g4.
Proof.
  destruct (updatePlaying_stages inp gameDt g)
    as (g2 & k2 & g3 & k3 & g4 & k4 & E2 & E3 & E4 & E5).
  exists (playerPhase inp gameDt g), g2, k2, g3, k3, g4, k4.
  pose proof (playerPhase_frame inp gameDt g) as [Hp1 _].
  pose proof (spawnPhase_frame inp gameDt (playerPhase inp gameDt g)) as (Hs2 & _).
  rewrite E2 in Hs2.
  pose proof (enemyLoop_melee inp gameDt g2 k2) as [He3 _]. rewrite E3 in He3.
  pose proof (projectileLoop_erase inp g3 k3) as (He4 & _). rewrite E4 in He4.
  pose proof (afterEnemies_frame g4) as [Ha _].
  rewrite E5. repeat split; assumption.
Qed.

Lemma playerErase_cursor (g g' : Game.t) :
  playerErase g = playerErase g' -> cursorView g = cursorView g'.
Proof. intros He. exact (f_equal cursorView He). Qed.

Lemma spawnErase_cursor (g g' : Game.t) :
  spawnErase g = spawnErase g' -> cursorView g = cursorView g'.
Proof. intros He. exact (f_equal cursorView He). Qed.

Lemma combatErase_cursor (g g' : Game.t) :
  combatErase g = combatErase g' -> cursorView g = cursorView g'.
Proof. intros He. exact (f_equal cursorView He). Qed.

Lemma afterErase_cursor (g g' : Game.t) :
  afterErase g = afterErase g' -> cursorView g = cursorView g'.
Proof. intros He. exact (f_equal cursorView He). Qed.

Lemma updatePlaying_cursor `{Raylib} (inp : Input) (gameDt : float) (g : Game.t) :
  cursorView (updatePlaying inp gameDt g) = cursorView g.
Proof.
  destruct (updatePlaying_chain inp gameDt g)
    as (g1 & g2 & k2 & g3 & k3 & g4 & k4 & _ & _ & _ & _ & _ & H1 & H2 & H3 & H4 & H5).
  rewrite (afterErase_cursor _ _ H5), (combatErase_cursor _ _ H4),
    (combatErase_cursor _ _ H3), (spawnErase_cursor _ _ H2).
  exact (playerErase_cursor _ _ H1).
Qed.

(** One frame keeps both cursors inside their tables. *)
Lemma frame_cursors `{Raylib} (inp : Input) (g : Game.t) :
  0 <= Game.selectedClassIndex g < 3 ->
  0 <= Game.shopSelection g <= 2 ->
  0 <= Game.selectedClassIndex (frame inp g) < 3
  /\ 0 <= Game.shopSelection (frame inp g) <= 2.
Proof.
  intros Hi Hs. unfold frame. cbn [Game.state Game.set_gHitStopTimer].
  set (g1 := Game.set_gHitStopTimer _ g).
  assert (Hi1 : 0 <= Game.selectedClassIndex g1 < 3) by exact Hi.
  assert (Hs1 : 0 <= Game.shopSelection g1 <= 2) by exact Hs.
  clearbody g1.
  destruct (Game.state g).
  - destruct (updateMenu_spec inp g1 Hi1) as (E1 & R1 & E2 & _).
    rewrite E1, E2. split; assumption.
  - pose proof (updatePlaying_cursor inp (gameDt inp (Game.gHitStopTimer g)) g1) as Hc.
    unfold cursorView in Hc. inversion Hc as [[Ha Hb Hd]]. rewrite Ha, Hb. split; assumption.
  - unfold updateShop.
    destruct (shopNavigate_spec inp g1 Hs1) as (s' & Hs' & ->).
    unfold onPlayer. split_ifs; cbn; split; assumption.
  - unfold updateRestart. split_ifs; cbn; split; assumption.
  - unfold updateRestart. split_ifs; cbn; split; assumption.
Qed.

(** X4 — along any run of frames the class cursor stays in 0..2 and the
    shop cursor in 0..2, so [classes[selectedClassIndex]] and
    [shopOptions[shopSelection]] are never read out of bounds. *)
Theorem cursors_stay_in_range `{Raylib} (inps : list Input) (g : Game.t)
    (Hi : 0 <= Game.selectedClassIndex g < 3)
    (Hs : 0 <= Game.shopSelection g <= 2) :
  let g' := run inps g in
  (exists cc, nth_error classes (Z.to_nat (Game.selectedClassIndex g')) = Some cc
              /\ classAt (Game.selectedClassIndex g') = cc)
  /\ (exists o, shopOption (Game.shopSelection g') = Some o)
  /\ 0 <= Game.selectedClassIndex g' < 3
  /\ 0 <= Game.shopSelection g' <= 2.
Proof.
  intros g'. subst g'.
  assert (Hrun : 0 <= Game.selectedClassIndex (run inps g) < 3
                 /\ 0 <= Game.shopSelection (run inps g) <= 2).
  { revert g Hi Hs. induction inps as [|inp inps IH]; intros g Hi Hs; cbn [run].
    - split; assumption.
    - destruct (frame_cursors inp g Hi Hs) as [Hi' Hs']. apply IH; assumption. }
  destruct Hrun as [Hi' Hs'].
  set (i := Game.selectedClassIndex (run inps g)) in *.
  set (s := Game.shopSelection (run inps g)) in *.
  clearbody i s.
  assert (Hic : i = 0 \/ i = 1 \/ i = 2) by lia.
  assert (Hsc : s = 0 \/ s = 1 \/ s = 2) by lia.
  split; [|split; [|split; assumption]].
  - destruct Hic as [-> | [-> | ->]]; eexists; split; reflexivity.
  - destruct Hsc as [-> | [-> | ->]]; eexists; reflexivity.
Qed.

(** The same at a concrete state. *)
Lemma cursors_stay_in_range_witness :
  let g' := @run referenceRaylib rogueDiesAndRestarts initialGame in
  0 <= Game.selectedClassIndex g' < 3 /\ 0 <= Game.shopSelection g' <= 2.
Proof.
  intros g'.
  destruct (@cursors_stay_in_range referenceRaylib rogueDiesAndRestarts initialGame)
    as (_ & _ & Hi & Hs).
  - change (0 <= 0 < 3). lia.
  - change (0 <= 0 <= 2). lia.
  - split; assumption.
Defined.

(* ------------------------------------------------------------------ *)
(** ** The two combat loops, generically *)

Section CombatLoops.
Context `{Raylib}.
Variables (inp : Input) (gameDt : float).

(** A relation every step of the enemy loop establishes, together with an
    invariant of the threaded game that does not depend on the enemy
    list. *)
Lemma enemyLoop_rel_inv (I : Game.t -> Prop) (R : Enemy.t -> Enemy.t -> Prop)
    (g : Game.t) (k : nat) :
  (forall e g0 pr k0, I g0 ->
     R e (fst (updateEnemy inp gameDt e (g0, pr, k0)))
     /\ I (fst (fst (snd (updateEnemy inp gameDt e (g0, pr, k0)))))) ->
  (forall es g0, I g0 -> I (Game.set_enemies es g0)) ->
  I g ->
  Forall2 R (Game.enemies g) (Game.enemies (fst (enemyLoop inp gameDt g k)))
  /\ I (fst (enemyLoop inp gameDt g k)).
Proof.
  intros Hstep Hset Hg. unfold enemyLoop. set (pr := MakeRect _ _).
  pose proof (forEach_rel (updateEnemy inp gameDt) (fun s => I (fst (fst s))) R) as HF.
  destruct HF with (xs := Game.enemies g) (s := (g, pr, k)) as [HR HI].
  - intros e [[g0 pr0] k0] H0. apply Hstep. exact H0.
  - exact Hg.
  - destruct (forEach (updateEnemy inp gameDt) (Game.enemies g) (g, pr, k))
      as [es [[g' pr'] k']].
    cbn [fst snd Game.enemies Game.set_enemies] in *.
    split; [exact HR | apply Hset; exact HI].
Qed.

Lemma projectilesVsEnemies_rel_inv (I : Game.t -> Prop) (R : Enemy.t -> Enemy.t -> Prop) :
  (forall e, R e e) ->
  (forall a b c, R a b -> R b c -> R a c) ->
  (forall p e g0 k0, I g0 ->
     R e (fst (projectileHit inp p e (g0, k0)))
     /\ I (fst (snd (projectileHit inp p e (g0, k0))))) ->
  forall ps es s, I (fst s) ->
  Forall2 R es (fst (projectilesVsEnemies inp ps es s))
  /\ I (fst (snd (projectilesVsEnemies inp ps es s))).
Proof.
  intros Hrefl Htrans Hstep.
  induction ps as [|p ps IH]; intros es s Hs; simpl.
  - split; [apply Forall2_refl; exact Hrefl | exact Hs].
  - destruct (negb (Projectile.active p)); [apply IH; exact Hs|].
    pose proof (forEach_rel (projectileHit inp p) (fun s => I (fst s)) R) as HF.
    destruct HF with (xs := es) (s := s) as [HR HI].
    + intros e [g0 k0] H0. apply Hstep. exact H0.
    + exact Hs.
    + destruct (forEach (projectileHit inp p) es s) as [es' s'].
      cbn [fst snd] in HR, HI.
      destruct (IH es' s' HI) as [HR' HI'].
      split; [|exact HI'].
      exact (Forall2_trans R Htrans _ _ _ HR HR').
Qed.

Lemma projectileLoop_rel_inv (I : Game.t -> Prop) (R : Enemy.t -> Enemy.t -> Prop)
    (g : Game.t) (k : nat) :
  (forall e, R e e) ->
  (forall a b c, R a b -> R b c -> R a c) ->
  (forall p e g0 k0, I g0 ->
     R e (fst (projectileHit inp p e (g0, k0)))
     /\ I (fst (snd (projectileHit inp p e (g0, k0))))) ->
  (forall es g0, I g0 -> I (Game.set_enemies es g0)) ->
  I g ->
  Forall2 R (Game.enemies g) (Game.enemies (fst (projectileLoop inp g k)))
  /\ I (fst (projectileLoop inp g k)).
Proof.
  intros Hrefl Htrans Hstep Hset Hg. unfold projectileLoop.
  destruct (PlayerClass_eqb (Game.playerClass g) MAGE).
  - destruct (projectilesVsEnemies_rel_inv I R Hrefl Htrans Hstep
                (Game.projectiles g) (Game.enemies g) (g, k) Hg) as [HR HI].
    destruct (projectilesVsEnemies inp (Game.projectiles g) (Game.enemies g) (g, k))
      as [es [g' k']].
    cbn [fst snd Game.enemies Game.set_enemies] in *.
    split; [exact HR | apply Hset; exact HI].
  - cbn [fst]. split; [apply Forall2_refl; exact Hrefl | exact Hg].
Qed.
End CombatLoops.


(* ------------------------------------------------------------------ *)
(** ** The player's part of the PLAYING frame, stage by stage *)

Lemma playerPhase_stages `{Raylib} (inp : Input) (gameDt : float) (g : Game.t) :
  exists g1 g2 g3 g4 g5 g6 g7,
    g1 = onPlayer (movePlayer inp gameDt) g
    /\ g2 = (if IsKeyPressed inp KEY_TAB then Game.set_state SHOP g1 else g1)
    /\ g3 = onPlayer (abilityTimers gameDt) g2
    /\ g4 = onPlayer (classAbility inp gameDt (Game.playerClass g3)) g3
    /\ g5 = onPlayer (comboTick gameDt) g4
    /\ g6 = attackInput inp g5
    /\ g7 = onPlayer (attackTick gameDt) g6
    /\ playerPhase inp gameDt g
       = onPlayer (playerAnimation (effectiveMove inp (Game.player g)) gameDt) g7.
Proof.
  unfold playerPhase. do 7 eexists. repeat split; reflexivity.
Qed.

Lemma attackInput_state (inp : Input) (g : Game.t) :
  Game.state (attackInput inp g) = Game.state g.
Proof. unfold attackInput. crush_stage. Qed.

Lemma playerPhase_state `{Raylib} (inp : Input) (gameDt : float) (g : Game.t) :
  Game.state (playerPhase inp gameDt g)
  = if IsKeyPressed inp KEY_TAB then SHOP else Game.state g.
Proof.
  destruct (playerPhase_stages inp gameDt g)
    as (g1 & g2 & g3 & g4 & g5 & g6 & g7 & E1 & E2 & E3 & E4 & E5 & E6 & E7 & ->).
  assert (H1 : Game.state g1 = Game.state g) by (rewrite E1; reflexivity).
  assert (H2 : Game.state g2 = if IsKeyPressed inp KEY_TAB then SHOP else Game.state g1)
    by (rewrite E2; destruct (IsKeyPressed inp KEY_TAB); reflexivity).
  assert (H3 : Game.state g3 = Game.state g2) by (rewrite E3; reflexivity).
  assert (H4 : Game.state g4 = Game.state g3) by (rewrite E4; reflexivity).
  assert (H5 : Game.state g5 = Game.state g4) by (rewrite E5; reflexivity).
  assert (H6 : Game.state g6 = Game.state g5) by (rewrite E6; apply attackInput_state).
  assert (H7 : Game.state g7 = Game.state g6) by (rewrite E7; reflexivity).
  change (Game.state g7 = if IsKeyPressed inp KEY_TAB then SHOP else Game.state g).
  rewrite H7, H6, H5, H4, H3, H2, H1. reflexivity.
Qed.

(* ------------------------------------------------------------------ *)
(** ** The phase machine *)

Lemma enemyLoop_combatStep `{Raylib} (inp : Input) (gameDt : float) (g : Game.t) (k : nat) :
  Forall2 combatStep (Game.enemies g) (Game.enemies (fst (enemyLoop inp gameDt g k))).
Proof.
  apply (enemyLoop_rel_inv inp gameDt (fun _ => True) combatStep g k); auto.
  intros e g0 pr k0 _. split; [apply updateEnemy_step | exact I].
Qed.

Lemma playing_chain_state (tab : bool) (g g1 g2 g3 g4 g' : Game.t) (new : list Enemy.t) :
  Game.state g1 = (if tab then SHOP else Game.state g) ->
  playerErase g1 = playerErase g ->
  spawnErase g2 = spawnErase g1 ->
  Game.enemies g2 = Game.enemies g1 ++ new ->
  Forall2 combatStep (Game.enemies g2) (Game.enemies g3) ->
  Forall2 combatStep (Game.enemies g3) (Game.enemies g4) ->
  accounted (Game.enemies g2) (Game.enemies g3) g2 g3 ->
  accounted (Game.enemies g3) (Game.enemies g4) g3 g4 ->
  afterErase g' = afterErase g4 ->
  Game.state g' = (if Player.hp (Game.player g4) <=? 0 then GAMEOVER else Game.state g4) ->
  Game.state g'
  = (if Player.hp (Game.player g') <=? 0 then GAMEOVER
     else if bossFell (Game.enemies g ++ new) (Game.enemies g') then VICTORY
     else if tab then SHOP else Game.state g).
Proof.
  intros Hs1 H1 H2 Hn HF3 HF4 Ha3 Ha4 H5 Hs5.
  destruct (playerErase_fields _ _ H1) as (He1 & _).
  destruct (spawnErase_fields _ _ H2) as (_ & _ & _ & Hs2 & _).
  destruct (afterErase_hp _ _ H5) as (_ & Hh5 & He5).
  destruct (accounted_trans _ _ _ _ _ _ HF3 HF4 Ha3 Ha4) as (_ & Hs4 & _).
  rewrite Hs5, Hh5, He5, Hs4, Hs2, Hs1, <- He1, <- Hn. reflexivity.
Qed.

Lemma updatePlaying_state `{Raylib} (inp : Input) (gameDt : float) (g : Game.t) :
  let g' := updatePlaying inp gameDt g in
  exists new,
    Game.state g'
    = (if Player.hp (Game.player g') <=? 0 then GAMEOVER
       else if bossFell (Game.enemies g ++ new) (Game.enemies g') then VICTORY
       else if IsKeyPressed inp KEY_TAB then SHOP else Game.state g).
Proof.
  intros g'. subst g'.
  destruct (updatePlaying_chain inp gameDt g)
    as (g1 & g2 & k2 & g3 & k3 & g4 & k4 & E1 & E2 & E3 & E4 & E5 & H1 & H2 & H3 & H4 & H5).
  pose proof (playerPhase_state inp gameDt g) as Hs1. rewrite <- E1 in Hs1.
  pose proof (spawnPhase_frame inp gameDt g1) as (_ & _ & new & Hn). rewrite E2 in Hn.
  pose proof (enemyLoop_combatStep inp gameDt g2 k2) as HF3. rewrite E3 in HF3.
  pose proof (projectileLoop_step inp g3 k3) as HF4. rewrite E4 in HF4.
  pose proof (enemyLoop_accounted inp gameDt g2 k2) as Ha3. rewrite E3 in Ha3.
  pose proof (projectileLoop_accounted inp g3 k3) as Ha4. rewrite E4 in Ha4.
  pose proof (afterEnemies_frame g4) as [_ Hs5]. cbv zeta in Hs5. rewrite <- E5 in Hs5.
  exists new.
  exact (playing_chain_state _ g g1 g2 g3 g4 _ new Hs1 H1 H2 Hn HF3 HF4 Ha3 Ha4 H5 Hs5).
Qed.

(** X5 — the phase machine.  One frame follows an edge of [mayFollow]; in
    particular MENU is never entered again.  MENU, GAMEOVER and VICTORY go to
    PLAYING exactly on ENTER, SHOP goes to PLAYING exactly on TAB or ESCAPE.
    A PLAYING frame ends in GAMEOVER if the player's HP is <= 0 at its end,
    otherwise in VICTORY if a boss died in it, otherwise in SHOP if TAB was
    pressed, otherwise in PLAYING. *)
Theorem phase_machine `{Raylib} (inp : Input) (g : Game.t) :
  let g' := frame inp g in
  mayFollow (Game.state g) (Game.state g') = true
  /\ match Game.state g with
     | MENU => Game.state g' = if IsKeyPressed inp KEY_ENTER then PLAYING else MENU
     | SHOP =>
         Game.state g'
         = if IsKeyPressed inp KEY_TAB || IsKeyPressed inp KEY_ESCAPE then PLAYING else SHOP
     | GAMEOVER => Game.state g' = if IsKeyPressed inp KEY_ENTER then PLAYING else GAMEOVER
     | VICTORY => Game.state g' = if IsKeyPressed inp KEY_ENTER then PLAYING else VICTORY
     | PLAYING =>
         exists new,
           Game.state g'
           = if Player.hp (Game.player g') <=? 0 then GAMEOVER
             else if bossFell (Game.enemies g ++ new) (Game.enemies g') then VICTORY
             else if IsKeyPressed inp KEY_TAB then SHOP else PLAYING
     end.
Proof.
  intros g'. subst g'. unfold frame. cbn [Game.state Game.set_gHitStopTimer].
  set (g1 := Game.set_gHitStopTimer _ g).
  assert (Hs1 : Game.state g1 = Game.state g) by reflexivity.
  assert (He1 : Game.enemies g1 = Game.enemies g) by reflexivity.
  clearbody g1.
  destruct (Game.state g) eqn:Hs.
  - unfold updateMenu.
    assert (Hm : forall x, Game.state x = MENU ->
                 Game.state (if IsKeyPressed inp KEY_ENTER
                             then Game.set_state PLAYING (ResetGame x) else x)
                 = if IsKeyPressed inp KEY_ENTER then PLAYING else MENU).
    { intros x Hx. destruct (IsKeyPressed inp KEY_ENTER); [reflexivity | exact Hx]. }
    rewrite Hm.
    + destruct (IsKeyPressed inp KEY_ENTER); split; reflexivity.
    + split_ifs; exact Hs1.
  - destruct (updatePlaying_state inp (gameDt inp (Game.gHitStopTimer g)) g1) as [new Hn].
    rewrite Hs1, He1 in Hn. rewrite Hn.
    split; [|exists new; reflexivity]. split_ifs; reflexivity.
  - assert (Hq : Game.state (updateShop inp g1)
                 = if IsKeyPressed inp KEY_TAB || IsKeyPressed inp KEY_ESCAPE
                   then PLAYING else SHOP).
    { unfold updateShop.
      assert (Hn : Game.state (shopNavigate inp g1) = SHOP)
        by (unfold shopNavigate; split_ifs; exact Hs1).
      set (g2 := shopNavigate inp g1) in *. clearbody g2.
      destruct (IsKeyPressed inp KEY_TAB || IsKeyPressed inp KEY_ESCAPE); [reflexivity|].
      destruct (IsKeyPressed inp KEY_ENTER); exact Hn. }
    rewrite Hq. split; [|reflexivity]. split_ifs; reflexivity.
  - unfold updateRestart.
    destruct (IsKeyPressed inp KEY_ENTER); split; try reflexivity; rewrite Hs1; reflexivity.
  - unfold updateRestart.
    destruct (IsKeyPressed inp KEY_ENTER); split; try reflexivity; rewrite Hs1; reflexivity.
Qed.

(** Outside the menu a frame keeps the class cursor, and the class in play
    stays the one under the cursor. *)
Lemma frame_session `{Raylib} (inp : Input) (g : Game.t) :
  Game.state g <> MENU ->
  Game.playerClass g = cc_type (classAt (Game.selectedClassIndex g)) ->
  Game.state (frame inp g) <> MENU
  /\ Game.selectedClassIndex (frame inp g) = Game.selectedClassIndex g
  /\ Game.playerClass (frame inp g) = cc_type (classAt (Game.selectedClassIndex g)).
Proof.
  intros Hs Hc. unfold frame. cbn [Game.state Game.set_gHitStopTimer].
  set (g1 := Game.set_gHitStopTimer _ g).
  assert (Hs1 : Game.state g1 = Game.state g) by reflexivity.
  assert (Hi1 : Game.selectedClassIndex g1 = Game.selectedClassIndex g) by reflexivity.
  assert (Hc1 : Game.playerClass g1 = Game.playerClass g) by reflexivity.
  clearbody g1.
  destruct (Game.state g) eqn:Hst; try contradiction.
  - destruct (updatePlaying_state inp (gameDt inp (Game.gHitStopTimer g)) g1) as [new Hn].
    pose proof (updatePlaying_cursor inp (gameDt inp (Game.gHitStopTimer g)) g1) as Hcur.
    unfold cursorView in Hcur. inversion Hcur as [[Ha Hb Hd]].
    rewrite Ha, Hd, Hi1, Hc1, Hn, Hs1.
    split; [split_ifs; discriminate | auto].
  - unfold updateShop.
    assert (Hn : Game.state (shopNavigate inp g1) = SHOP
                 /\ Game.selectedClassIndex (shopNavigate inp g1) = Game.selectedClassIndex g
                 /\ Game.playerClass (shopNavigate inp g1) = Game.playerClass g)
      by (unfold shopNavigate; split_ifs; repeat split; assumption).
    set (g2 := shopNavigate inp g1) in *. clearbody g2.
    destruct Hn as (Hn1 & Hn2 & Hn3). rewrite <- Hc, <- Hn2, <- Hn3.
    unfold onPlayer. split_ifs; cbn [Game.state Game.set_state Game.set_player
                                    Game.selectedClassIndex Game.playerClass];
      repeat split; try reflexivity; try discriminate; rewrite Hn1; discriminate.
  - unfold updateRestart. destruct (IsKeyPressed inp KEY_ENTER).
    + rewrite <- Hi1. cbn. repeat split. discriminate.
    + rewrite Hs1, Hi1, Hc1. repeat split; [discriminate | exact Hc].
  - unfold updateRestart. destruct (IsKeyPressed inp KEY_ENTER).
    + rewrite <- Hi1. cbn. repeat split. discriminate.
    + rewrite Hs1, Hi1, Hc1. repeat split; [discriminate | exact Hc].
Qed.

(** X6 — once the menu is left it is never shown again: along any run the
    phase stays outside MENU, the class cursor keeps its value, and the class
    in play stays the class under the cursor. *)
Theorem menu_is_left_for_good `{Raylib} (inps : list Input) (g : Game.t)
    (Hs : Game.state g <> MENU)
    (Hc : Game.playerClass g = cc_type (classAt (Game.selectedClassIndex g))) :
  let g' := run inps g in
  Game.state g' <> MENU
  /\ Game.selectedClassIndex g' = Game.selectedClassIndex g
  /\ Game.playerClass g' = cc_type (classAt (Game.selectedClassIndex g')).
Proof.
  cbv zeta. revert g Hs Hc. induction inps as [|inp inps IH]; intros g Hs Hc; cbn [run].
  - auto.
  - destruct (frame_session inp g Hs Hc) as (Hs' & Hi' & Hc').
    rewrite <- Hi' in Hc'.
    destruct (IH (frame inp g) Hs' Hc') as (H1 & H2 & H3).
    split; [exact H1|]. split; [congruence | exact H3].
Qed.

(** The same at a concrete state. *)
Lemma menu_is_left_for_good_witness :
  let g := @frame referenceRaylib (press KEY_ENTER) initialGame in
  let g' := @run referenceRaylib (tl (tl rogueDiesAndRestarts)) g in
  Game.state g = PLAYING /\ Game.state g' <> MENU /\ Game.playerClass g' = KNIGHT.
Proof.
  intros g g'.
  assert (Hs : Game.state g = PLAYING) by (vm_compute; reflexivity).
  destruct (@menu_is_left_for_good referenceRaylib (tl (tl rogueDiesAndRestarts)) g)
    as (H1 & H2 & H3).
  - rewrite Hs. discriminate.
  - vm_compute. reflexivity.
  - split; [exact Hs|]. split; [exact H1|].
    fold g' in H2, H3. rewrite H3, H2. vm_compute. reflexivity.
Defined.

(* ------------------------------------------------------------------ *)
(** ** The player's HP and stats during play *)

Lemma playerStats_upgrade (p q : Player.t) :
  playerStats p = playerStats q -> upgradeView p = upgradeView q.
Proof. unfold playerStats, upgradeView. intros Hs. inversion Hs. reflexivity. Qed.

Lemma spawnErase_player (g g' : Game.t) :
  spawnErase g = spawnErase g' -> Game.player g = Game.player g'.
Proof. intros He. exact (f_equal Game.player He). Qed.

Lemma combatErase_upgrade (g g' : Game.t) :
  combatErase g = combatErase g' ->
  upgradeView (Game.player g) = upgradeView (Game.player g').
Proof. intros He. exact (f_equal (fun x => upgradeView (Game.player x)) He). Qed.

Lemma afterErase_upgrade (g g' : Game.t) :
  afterErase g = afterErase g' ->
  upgradeView (Game.player g) = upgradeView (Game.player g').
Proof. intros He. exact (f_equal (fun x => upgradeView (Game.player x)) He). Qed.

Lemma updatePlaying_upgrade `{Raylib} (inp : Input) (gameDt : float) (g : Game.t) :
  upgradeView (Game.player (updatePlaying inp gameDt g)) = upgradeView (Game.player g).
Proof.
  destruct (updatePlaying_chain inp gameDt g)
    as (g1 & g2 & k2 & g3 & k3 & g4 & k4 & E1 & _ & _ & _ & _ & H1 & H2 & H3 & H4 & H5).
  pose proof (playerPhase_frame inp gameDt g) as [_ Hst]. rewrite <- E1 in Hst.
  rewrite (afterErase_upgrade _ _ H5), (combatErase_upgrade _ _ H4),
    (combatErase_upgrade _ _ H3), (spawnErase_player _ _ H2).
  apply playerStats_upgrade. exact Hst.
Qed.

(** X7 — a PLAYING frame never raises the player's HP and never lowers it
    below 0, and it leaves max-HP, base damage, speed and the three upgrade
    levels as they are: healing and upgrades happen in the shop or on
    restart only. *)
Theorem play_never_heals_or_upgrades `{Raylib} (inp : Input) (g : Game.t)
    (Hs : Game.state g = PLAYING)
    (Hhp : 0 <= Player.hp (Game.player g) <= INT_MAX) :
  let p := Game.player g in
  let p' := Game.player (frame inp g) in
  0 <= Player.hp p' <= Player.hp p
  /\ upgradeView p' = upgradeView p.
Proof.
  intros p p'. subst p p'. unfold frame. cbn [Game.state Game.set_gHitStopTimer].
  rewrite Hs.
  set (g1 := Game.set_gHitStopTimer _ g).
  assert (Hp1 : Game.player g1 = Game.player g) by reflexivity.
  clearbody g1. rewrite <- Hp1 in *.
  destruct (updatePlaying_hp inp (gameDt inp (Game.gHitStopTimer g)) g1 Hhp) as (_ & Hh & _).
  split; [exact Hh | apply updatePlaying_upgrade].
Qed.

(** The same at a concrete state. *)
Lemma play_never_heals_or_upgrades_witness :
  let g' := @frame referenceRaylib idle knightAndGrunt in
  Player.hp (Game.player g') <= 170
  /\ upgradeView (Game.player g') = upgradeView (Game.player knightAndGrunt).
Proof.
  intros g'.
  destruct (@play_never_heals_or_upgrades referenceRaylib idle knightAndGrunt eq_refl)
    as [Hle Hu].
  - vm_compute. split; discriminate.
  - split; [|exact Hu].
    change (Player.hp (Game.player knightAndGrunt)) with 170 in Hle. exact (proj2 Hle).
Defined.

(* ------------------------------------------------------------------ *)
(** ** Coins: dropped uncollected, picked up once *)

Lemma dropCoins_uncollected (inp : Input) (pos : Vector2) (n : nat) :
  forall coins k,
  exists cs, fst (dropCoins inp pos n coins k) = coins ++ cs
             /\ Forall (fun c => Coin.collected c = false) cs.
Proof.
  induction n as [|n IH]; intros coins k; simpl.
  - exists []. rewrite app_nil_r. auto.
  - destruct (IH (coins ++ [{| Coin.pos :=
        mkVector2 (fadd (vx pos) (of_int (GetRandomValue inp k (-10) 10)))
                  (fsub (vy pos) (of_int (GetRandomValue inp (S k) 0 20)));
        Coin.collected := false |}]) (S (S k))) as (cs & Hcs & Hun).
    eexists (_ :: cs). rewrite Hcs, <- app_assoc. simpl. split; [reflexivity|].
    constructor; [reflexivity | exact Hun].
Qed.

Lemma grew_more (cs0 : list Coin.t) (g g' : Game.t) (cs : list Coin.t) :
  grew cs0 g -> Game.coins g' = Game.coins g ++ cs ->
  Forall (fun c => Coin.collected c = false) cs -> grew cs0 g'.
Proof.
  intros (drops & Hd & Hu) Hc Hcs. exists (drops ++ cs).
  rewrite Hc, Hd, app_assoc. split; [reflexivity | apply Forall_app; auto].
Qed.

Lemma grew_same (cs0 : list Coin.t) (g g' : Game.t) :
  grew cs0 g -> Game.coins g' = Game.coins g -> grew cs0 g'.
Proof. intros (drops & Hd & Hu) Hc. exists drops. rewrite Hc. auto. Qed.

Lemma enemyDeath_grew (inp : Input) (cs0 : list Coin.t) (e : Enemy.t) (g : Game.t)
    (k : nat) :
  grew cs0 g -> grew cs0 (snd (fst (enemyDeath inp e g k))).
Proof.
  intros Hg. unfold enemyDeath.
  destruct (Enemy.hp e <=? 0); [|exact Hg].
  destruct (dropCoins_uncollected inp (Enemy.pos (Enemy.set_alive false e))
              (Z.to_nat (coinCount (Enemy.type (Enemy.set_alive false e))))
              (Game.coins g) k) as (cs & Hcs & Hun).
  destruct (dropCoins inp _ _ (Game.coins g) k) as [coins k'].
  cbn [fst] in Hcs. subst coins.
  destruct (EnemyType_eqb _ BOSS); cbn [fst snd];
    apply (grew_more cs0 g _ cs Hg); auto.
Qed.

Lemma meleeHit_grew `{Raylib} (inp : Input) (cs0 : list Coin.t) (e : Enemy.t)
    (g : Game.t) (k : nat) :
  grew cs0 g -> grew cs0 (snd (fst (meleeHit inp e g k))).
Proof.
  intros Hg.
  destruct (meleeHit_cases inp e g k) as [-> | (_ & _ & _ & e1 & t & -> & _)].
  - exact Hg.
  - apply enemyDeath_grew. apply (grew_same cs0 g); [exact Hg | reflexivity].
Qed.

Lemma enemyAI_grew `{Raylib} (gameDt : float) (cs0 : list Coin.t) (e : Enemy.t)
    (g : Game.t) (pr : Rectangle) :
  grew cs0 g -> grew cs0 (snd (fst (enemyAI gameDt e g pr))).
Proof.
  intros Hg. destruct (enemyAI_game gameDt e g pr) as [-> | ->]; [exact Hg|].
  destruct (enemyStrike_erase (Enemy.type e) g) as (_ & Hc & _).
  apply (grew_same cs0 g); assumption.
Qed.

Lemma updateEnemy_grew `{Raylib} (inp : Input) (gameDt : float) (cs0 : list Coin.t)
    (e : Enemy.t) (g : Game.t) (pr : Rectangle) (k : nat) :
  grew cs0 g -> grew cs0 (fst (fst (snd (updateEnemy inp gameDt e (g, pr, k))))).
Proof.
  intros Hg. destruct (Enemy.alive e) eqn:Ha.
  - destruct (updateEnemy_alive inp gameDt e g pr k Ha) as (e1 & g1 & pr1 & Hai & _ & ->).
    apply meleeHit_grew.
    pose proof (enemyAI_grew gameDt cs0 e g pr Hg) as H1. rewrite Hai in H1. exact H1.
  - rewrite updateEnemy_dead by exact Ha. exact Hg.
Qed.

Lemma projectileHit_grew `{Raylib} (inp : Input) (cs0 : list Coin.t) (p : Projectile.t)
    (e : Enemy.t) (g : Game.t) (k : nat) :
  grew cs0 g -> grew cs0 (fst (snd (projectileHit inp p e (g, k)))).
Proof.
  intros Hg. unfold projectileHit.
  destruct (negb (Enemy.alive e)); [exact Hg|].
  destruct (CheckCollisionCircleRec _ _ _); [|exact Hg].
  destruct (negb (Enemy.lastProjectileHitId e =? Projectile.id p)); [|exact Hg].
  match goal with |- context [enemyDeath inp ?a g k] =>
    pose proof (enemyDeath_grew inp cs0 a g k Hg) as Hd;
    destruct (enemyDeath inp a g k) as [[e' g'] k'] end.
  exact Hd.
Qed.

Lemma enemyLoop_grew `{Raylib} (inp : Input) (gameDt : float) (cs0 : list Coin.t)
    (g : Game.t) (k : nat) :
  grew cs0 g -> grew cs0 (fst (enemyLoop inp gameDt g k)).
Proof.
  intros Hg.
  apply (enemyLoop_rel_inv inp gameDt (grew cs0) (fun _ _ => True) g k); auto.
  intros e g0 pr k0 H0. split; [exact I | apply updateEnemy_grew; exact H0].
Qed.

Lemma projectileLoop_grew `{Raylib} (inp : Input) (cs0 : list Coin.t)
    (g : Game.t) (k : nat) :
  grew cs0 g -> grew cs0 (fst (projectileLoop inp g k)).
Proof.
  intros Hg.
  apply (projectileLoop_rel_inv inp (grew cs0) (fun _ _ => True) g k); auto.
  intros p e g0 k0 H0. split; [exact I | apply projectileHit_grew; exact H0].
Qed.

Lemma collectedCount_cons (c : Coin.t) (cs : list Coin.t) :
  collectedCount (c :: cs) = (if Coin.collected c then 1 else 0) + collectedCount cs.
Proof.
  unfold collectedCount. cbn [filter]. destruct (Coin.collected c); cbn [List.length]; lia.
Qed.

Lemma collectedCount_app (cs ds : list Coin.t) :
  Forall (fun c => Coin.collected c = false) ds ->
  collectedCount (cs ++ ds) = collectedCount cs.
Proof.
  intros Hd. induction cs as [|c cs IH].
  - cbn [app]. induction Hd as [|d ds Hc Hd IH]; [reflexivity|].
    rewrite collectedCount_cons, Hc, IH. reflexivity.
  - cbn [app]. rewrite !collectedCount_cons, IH. reflexivity.
Qed.

Lemma collectedCount_bounds (cs : list Coin.t) :
  0 <= collectedCount cs <= Z.of_nat (List.length cs).
Proof.
  induction cs as [|c cs IH]; [unfold collectedCount; cbn; lia|].
  rewrite collectedCount_cons. cbn [List.length]. destruct (Coin.collected c); lia.
Qed.

(** COINS, coin by coin: the purse rises by one for each coin that turns
    collected. *)
Lemma collectCoin_step `{Raylib} (c : Coin.t) (p : Player.t) :
  INT_MIN <= Player.coins p -> Player.coins p + 1 <= INT_MAX ->
  coinStep c (fst (collectCoin c p))
  /\ Player.coins (snd (collectCoin c p))
     = Player.coins p
       + ((if Coin.collected (fst (collectCoin c p)) then 1 else 0)
          - (if Coin.collected c then 1 else 0)).
Proof.
  intros Hlo Hhi. unfold collectCoin, coinStep.
  destruct (Coin.collected c) eqn:Hc.
  - cbn [fst snd]. rewrite Hc. repeat split; auto. lia.
  - destruct (RectOverlap _ _); cbn [fst snd Coin.collected Coin.set_collected Coin.pos
                                     Player.coins Player.set_coins].
    + unwrap. repeat split; auto.
    + rewrite Hc. repeat split; auto. lia.
Qed.

Lemma collectCoins_loop `{Raylib} (cs : list Coin.t) :
  forall p,
  INT_MIN <= Player.coins p ->
  Player.coins p + Z.of_nat (List.length cs) <= INT_MAX ->
  Forall2 coinStep cs (fst (forEach collectCoin cs p))
  /\ Player.coins (snd (forEach collectCoin cs p))
     = Player.coins p + (collectedCount (fst (forEach collectCoin cs p)) - collectedCount cs)
  /\ Player.set_coins 0 (snd (forEach collectCoin cs p)) = Player.set_coins 0 p.
Proof.
  induction cs as [|c cs IH]; intros p Hlo Hhi.
  - cbn. split; [constructor|]. split; [lia | reflexivity].
  - rewrite forEach_cons. cbn [fst snd List.length] in *.
    destruct (collectCoin_step c p Hlo ltac:(lia)) as [Hst Hp].
    pose proof (collectCoin_player c p) as He.
    assert (Hlo' : INT_MIN <= Player.coins (snd (collectCoin c p))).
    { rewrite Hp. destruct Hst as [_ Hm].
      destruct (Coin.collected (fst (collectCoin c p))), (Coin.collected c);
        lia. }
    assert (Hhi' : Player.coins (snd (collectCoin c p)) + Z.of_nat (List.length cs)
                   <= INT_MAX).
    { rewrite Hp. destruct Hst as [_ Hm].
      destruct (Coin.collected (fst (collectCoin c p))), (Coin.collected c); lia. }
    destruct (IH (snd (collectCoin c p)) Hlo' Hhi') as (HF & Hq & He').
    split; [constructor; assumption|].
    split; [|congruence].
    rewrite Hq, Hp, !collectedCount_cons. lia.
Qed.

Lemma collectCoins_result `{Raylib} (g : Game.t) :
  let g' := updateCamera (checkGameOver (collectCoins g)) in
  Game.coins g' = fst (forEach collectCoin (Game.coins g) (Game.player g))
  /\ Game.player g' = snd (forEach collectCoin (Game.coins g) (Game.player g)).
Proof.
  unfold collectCoins.
  destruct (forEach collectCoin (Game.coins g) (Game.player g)) as [cs p].
  unfold checkGameOver, updateCamera. split_ifs; split; reflexivity.
Qed.

Lemma combatErase_purse (g g' : Game.t) :
  combatErase g = combatErase g' ->
  Player.coins (Game.player g) = Player.coins (Game.player g').
Proof. intros He. exact (f_equal (fun x => Player.coins (Game.player x)) He). Qed.

Lemma playerStats_purse (p q : Player.t) :
  playerStats p = playerStats q -> Player.coins p = Player.coins q.
Proof. unfold playerStats. intros Hs. inversion Hs. reflexivity. Qed.

Lemma playing_chain_coins (g g1 g2 g3 g4 : Game.t) :
  playerErase g1 = playerErase g ->
  playerStats (Game.player g1) = playerStats (Game.player g) ->
  spawnErase g2 = spawnErase g1 ->
  combatErase g3 = combatErase g2 ->
  grew (Game.coins g2) g3 ->
  combatErase g4 = combatErase g3 ->
  grew (Game.coins g3) g4 ->
  grew (Game.coins g) g4
  /\ Player.coins (Game.player g4) = Player.coins (Game.player g).
Proof.
  intros H1 Hst H2 H3 Hg3 H4 Hg4.
  destruct (playerErase_fields _ _ H1) as (_ & _ & Hc1 & _).
  destruct (spawnErase_fields _ _ H2) as (Hp2 & _ & Hc2 & _).
  split.
  - destruct Hg3 as (d3 & Hd3 & Hu3). destruct Hg4 as (d4 & Hd4 & Hu4).
    exists (d3 ++ d4). rewrite Hd4, Hd3, Hc2, Hc1, app_assoc.
    split; [reflexivity | apply Forall_app; auto].
  - rewrite (combatErase_purse _ _ H4), (combatErase_purse _ _ H3), Hp2.
    apply playerStats_purse. exact Hst.
Qed.

Lemma updatePlaying_coins `{Raylib} (inp : Input) (gameDt : float) (g : Game.t) :
  let g' := updatePlaying inp gameDt g in
  exists g4,
    grew (Game.coins g) g4
    /\ Player.coins (Game.player g4) = Player.coins (Game.player g)
    /\ Game.coins g' = fst (forEach collectCoin (Game.coins g4) (Game.player g4))
    /\ Game.player g' = snd (forEach collectCoin (Game.coins g4) (Game.player g4)).
Proof.
  intros g'. subst g'.
  destruct (updatePlaying_chain inp gameDt g)
    as (g1 & g2 & k2 & g3 & k3 & g4 & k4 & E1 & E2 & E3 & E4 & E5 & H1 & H2 & H3 & H4 & H5).
  pose proof (playerPhase_frame inp gameDt g) as [_ Hst]. rewrite <- E1 in Hst.
  assert (Hg2 : grew (Game.coins g2) g2)
    by (exists []; rewrite app_nil_r; split; [reflexivity | constructor]).
  pose proof (enemyLoop_grew inp gameDt (Game.coins g2) g2 k2 Hg2) as Hg3.
  rewrite E3 in Hg3. cbn [fst] in Hg3.
  assert (Hg3' : grew (Game.coins g3) g3)
    by (exists []; rewrite app_nil_r; split; [reflexivity | constructor]).
  pose proof (projectileLoop_grew inp (Game.coins g3) g3 k3 Hg3') as Hg4.
  rewrite E4 in Hg4. cbn [fst] in Hg4.
  destruct (playing_chain_coins g g1 g2 g3 g4 H1 Hst H2 H3 Hg3 H4 Hg4) as [Hgr Hp].
  destruct (collectCoins_result g4) as [Hc Hq].
  exists g4. rewrite E5. auto.
Qed.

(** X8 — coins in a PLAYING frame.  The coin list only grows, by coins that
    are dropped uncollected; no coin moves, and a collected coin stays
    collected.  The player's balance rises by exactly the number of coins
    that turn collected in the frame (the hypotheses keep the balance inside
    [int]). *)
Theorem coins_are_conserved `{Raylib} (inp : Input) (g : Game.t)
    (Hs : Game.state g = PLAYING)
    (Hlo : INT_MIN <= Player.coins (Game.player g))
    (Hhi : Player.coins (Game.player g) + Z.of_nat (List.length (Game.coins (frame inp g)))
           <= INT_MAX) :
  let g' := frame inp g in
  exists drops,
    Forall (fun c => Coin.collected c = false) drops
    /\ Forall2 coinStep (Game.coins g ++ drops) (Game.coins g')
    /\ Player.coins (Game.player g')
       = Player.coins (Game.player g)
         + (collectedCount (Game.coins g') - collectedCount (Game.coins g)).
Proof.
  intros g'. subst g'. revert Hhi. unfold frame. cbn [Game.state Game.set_gHitStopTimer].
  rewrite Hs.
  set (g1 := Game.set_gHitStopTimer _ g).
  assert (Hp1 : Game.player g1 = Game.player g) by reflexivity.
  assert (Hc1 : Game.coins g1 = Game.coins g) by reflexivity.
  clearbody g1. rewrite <- Hp1, <- Hc1 in *.
  destruct (updatePlaying_coins inp (gameDt inp (Game.gHitStopTimer g)) g1)
    as (g4 & (drops & Hd & Hu) & Hp & Hc & Hq).
  rewrite Hc, Hq. intros Hhi. rewrite forEach_length in Hhi. rewrite <- Hp in *.
  destruct (collectCoins_loop (Game.coins g4) (Game.player g4) Hlo Hhi) as (HF & Hn & _).
  exists drops. split; [exact Hu|]. rewrite <- Hd. split; [exact HF|].
  rewrite Hn, Hd, (collectedCount_app _ _ Hu). reflexivity.
Qed.

(** The same at a concrete state. *)
Lemma coins_are_conserved_witness :
  let g' := @frame referenceRaylib idle knightOnACoin in
  Player.coins (Game.player g') = 1
  /\ map Coin.collected (Game.coins g') = [true; false; true].
Proof.
  intros g'.
  destruct (@coins_are_conserved referenceRaylib idle knightOnACoin eq_refl)
    as (drops & _ & _ & Hn).
  - vm_compute. discriminate.
  - vm_compute. discriminate.
  - split; [|vm_compute; reflexivity].
    fold g' in Hn. rewrite Hn. vm_compute. reflexivity.
Defined.

(* ------------------------------------------------------------------ *)
(** ** The hit-stop timer *)

Lemma hitStopTick_not_negative (inp : Input) (h : float) :
  fltb (hitStopTick inp h) fzero = false.
Proof.
  unfold hitStopTick.
  destruct (fltb (fsub h (realDt inp)) fzero) eqn:E; [reflexivity | exact E].
Qed.

Lemma hitStopValues_not_negative (t h : float) :
  fltb t fzero = false -> In h (hitStopValues t) -> fltb h fzero = false.
Proof.
  intros Ht Hin. unfold hitStopValues in Hin. cbn [In] in Hin.
  destruct Hin as [<- | [<- | [<- | [<- | [<- | []]]]]];
    try exact Ht; vm_compute; reflexivity.
Qed.

Lemma hitStopValues_fmax (t h c : float) :
  In h (hitStopValues t) -> In c (hitStopValues t) -> In (fmax h c) (hitStopValues t).
Proof. intros Hh Hc. unfold fmax. destruct (fltb h c); assumption. Qed.

Lemma enemyDeath_hitStop (inp : Input) (e : Enemy.t) (g : Game.t) (k : nat) :
  Game.gHitStopTimer (snd (fst (enemyDeath inp e g k))) = Game.gHitStopTimer g.
Proof.
  unfold enemyDeath. destruct (Enemy.hp e <=? 0); [|reflexivity].
  destruct (dropCoins _ _ _ _ _) as [cs k'].
  destruct (EnemyType_eqb _ BOSS); reflexivity.
Qed.

Lemma meleeHit_hitStop `{Raylib} (inp : Input) (t : float) (e : Enemy.t) (g : Game.t)
    (k : nat) :
  In (Game.gHitStopTimer g) (hitStopValues t) ->
  In (Game.gHitStopTimer (snd (fst (meleeHit inp e g k)))) (hitStopValues t).
Proof.
  intros Hg. unfold meleeHit.
  destruct (_ && _ && (0 <=? _)); [|exact Hg].
  destruct (negb _ && RectOverlap _ _); [|exact Hg].
  rewrite enemyDeath_hitStop. cbn [Game.gHitStopTimer Game.set_gHitStopTimer].
  apply hitStopValues_fmax; [exact Hg|].
  unfold hitStopValues. destruct (_ && _); cbn [In]; auto 6.
Qed.

Lemma enemyStrike_hitStop (t : float) (type : EnemyType) (g : Game.t) :
  In (Game.gHitStopTimer g) (hitStopValues t) ->
  In (Game.gHitStopTimer (enemyStrike type g)) (hitStopValues t).
Proof.
  intros Hg. unfold enemyStrike. destruct (0 <? _); [|exact Hg].
  cbn [Game.gHitStopTimer Game.set_gHitStopTimer Game.set_player].
  apply hitStopValues_fmax; [exact Hg|]. unfold hitStopValues. cbn [In]. auto 6.
Qed.

Lemma updateEnemy_hitStop `{Raylib} (inp : Input) (gameDt t : float) (e : Enemy.t)
    (g : Game.t) (pr : Rectangle) (k : nat) :
  In (Game.gHitStopTimer g) (hitStopValues t) ->
  In (Game.gHitStopTimer (fst (fst (snd (updateEnemy inp gameDt e (g, pr, k))))))
     (hitStopValues t).
Proof.
  intros Hg. destruct (Enemy.alive e) eqn:Ha.
  - destruct (updateEnemy_alive inp gameDt e g pr k Ha) as (e1 & g1 & pr1 & Hai & _ & ->).
    apply meleeHit_hitStop.
    destruct (enemyAI_game gameDt e g pr) as [Hs | Hs]; rewrite Hai in Hs; cbn [fst snd] in Hs;
      subst g1; [exact Hg | apply enemyStrike_hitStop; exact Hg].
  - rewrite updateEnemy_dead by exact Ha. exact Hg.
Qed.

Lemma afterErase_hitStop (g g' : Game.t) :
  afterErase g = afterErase g' -> Game.gHitStopTimer g = Game.gHitStopTimer g'.
Proof. intros He. exact (f_equal Game.gHitStopTimer He). Qed.

Lemma updatePlaying_hitStop `{Raylib} (inp : Input) (gameDt t : float) (g : Game.t) :
  In (Game.gHitStopTimer g) (hitStopValues t) ->
  In (Game.gHitStopTimer (updatePlaying inp gameDt g)) (hitStopValues t).
Proof.
  intros Hg.
  destruct (updatePlaying_chain inp gameDt g)
    as (g1 & g2 & k2 & g3 & k3 & g4 & k4 & E1 & E2 & E3 & E4 & E5 & H1 & H2 & H3 & H4 & H5).
  destruct (playerErase_fields _ _ H1) as (_ & _ & _ & Hh1 & _).
  destruct (spawnErase_fields _ _ H2) as (_ & _ & _ & _ & Hh2 & _).
  assert (Hg2 : In (Game.gHitStopTimer g2) (hitStopValues t)) by (rewrite Hh2, Hh1; exact Hg).
  assert (Hg3 : In (Game.gHitStopTimer g3) (hitStopValues t)).
  { destruct (enemyLoop_rel_inv inp gameDt
                (fun x => In (Game.gHitStopTimer x) (hitStopValues t)) (fun _ _ => True)
                g2 k2) as [_ HI]; auto.
    - intros e g0 pr k0 H0. split; [exact I | apply updateEnemy_hitStop; exact H0].
    - rewrite E3 in HI. exact HI. }
  pose proof (projectileLoop_erase inp g3 k3) as (_ & _ & Hh4). rewrite E4 in Hh4.
  cbn [fst] in Hh4.
  rewrite (afterErase_hitStop _ _ H5), Hh4. exact Hg3.
Qed.

(** X9 — hit stop does not accumulate.  After any frame the hit-stop timer
    is the counted-down old value, 0 after a restart, or one of the three
    freeze lengths 0.03, 0.05 and 0.06 s; it is never negative; and outside
    PLAYING it is the counted-down value (0 on restart). *)
Theorem hit_stop_values `{Raylib} (inp : Input) (g : Game.t) :
  let t := hitStopTick inp (Game.gHitStopTimer g) in
  let h' := Game.gHitStopTimer (frame inp g) in
  In h' (hitStopValues t)
  /\ fltb h' fzero = false
  /\ match Game.state g with
     | PLAYING => True
     | _ => h' = if isReset inp g then fzero else t
     end.
Proof.
  intros t h'. subst h'.
  assert (Hin : In (Game.gHitStopTimer (frame inp g)) (hitStopValues t)
                /\ match Game.state g with
                   | PLAYING => True
                   | _ => Game.gHitStopTimer (frame inp g)
                          = if isReset inp g then fzero else t
                   end).
  { unfold frame, isReset. cbn [Game.state Game.set_gHitStopTimer]. fold t.
    set (g1 := Game.set_gHitStopTimer t g).
    assert (Hh1 : Game.gHitStopTimer g1 = t) by reflexivity.
    clearbody g1.
    assert (Ht : In t (hitStopValues t)) by (left; reflexivity).
    assert (H0 : In fzero (hitStopValues t)) by (right; left; reflexivity).
    destruct (Game.state g).
    - unfold updateMenu.
      destruct (IsKeyPressed inp KEY_ENTER); [split; [exact H0 | reflexivity]|].
      match goal with |- In ?x _ /\ _ => assert (Hx : x = t) end.
      { split_ifs; exact Hh1. }
      rewrite Hx. split; [exact Ht | reflexivity].
    - split; [|exact I]. apply updatePlaying_hitStop. rewrite Hh1. exact Ht.
    - match goal with |- In ?x _ /\ _ => assert (Hx : x = t) end.
      { unfold updateShop, shopNavigate, onPlayer. split_ifs; exact Hh1. }
      rewrite Hx. split; [exact Ht | reflexivity].
    - unfold updateRestart.
      destruct (IsKeyPressed inp KEY_ENTER); [split; [exact H0 | reflexivity]|].
      rewrite Hh1. split; [exact Ht | reflexivity].
    - unfold updateRestart.
      destruct (IsKeyPressed inp KEY_ENTER); [split; [exact H0 | reflexivity]|].
      rewrite Hh1. split; [exact Ht | reflexivity]. }
  destruct Hin as [Hin Hm]. split; [exact Hin|]. split; [|exact Hm].
  apply (hitStopValues_not_negative t); [apply hitStopTick_not_negative | exact Hin].
Qed.

(* ------------------------------------------------------------------ *)
(** ** Projectiles *)

Lemma updateProjectile_step (gameDt : float) (p : Projectile.t) :
  projStep p (updateProjectile gameDt p) /\ inFlightOk (updateProjectile gameDt p).
Proof.
  unfold updateProjectile, projStep, inFlightOk.
  destruct (Projectile.active p) eqn:Ha; cbn [negb].
  - match goal with |- context [if ?b then _ else _] => destruct b eqn:Hb end.
    + cbn. repeat split; try reflexivity; discriminate.
    + apply orb_false_iff in Hb. destruct Hb as [Hb H3].
      apply orb_false_iff in Hb. destruct Hb as [H1 H2].
      cbn [Projectile.id Projectile.damage Projectile.radius Projectile.vel
           Projectile.active Projectile.life Projectile.pos
           Projectile.set_pos Projectile.set_life] in *.
      repeat split; try reflexivity; try assumption; discriminate.
  - repeat split; try reflexivity; try discriminate; congruence.
Qed.

Lemma attackInput_projectiles (inp : Input) (g : Game.t) :
  let c := Game.gProjectileCounter g in
  let g' := attackInput inp g in
  Game.playerClass g' = Game.playerClass g
  /\ ((Game.projectiles g' = Game.projectiles g /\ Game.gProjectileCounter g' = c)
      \/ (Game.playerClass g = MAGE
          /\ IsKeyPressed inp KEY_J = true
          /\ Player.attacking (Game.player g) = false
          /\ Game.gProjectileCounter g' = iadd c 1
          /\ exists p,
              Game.projectiles g' = Game.projectiles g ++ [p]
              /\ Projectile.id p = iadd c 1
              /\ Projectile.active p = true
              /\ Projectile.life p = dec 12 1)).
Proof.
  intros c g'. subst c g'. unfold attackInput.
  destruct (Player.attacking (Game.player g)) eqn:Ha; cbn [negb andb];
    [split; [reflexivity | left; split; reflexivity]|].
  destruct (IsKeyPressed inp KEY_J) eqn:Hj; [|split; [reflexivity | left; split; reflexivity]].
  destruct (Game.playerClass g) eqn:Hc; cbn [PlayerClass_eqb orb].
  - destruct (meleeShape _ _) as [[[? ?] ?] ?]. split; [exact Hc | left; split; reflexivity].
  - destruct (meleeShape _ _) as [[[? ?] ?] ?]. split; [exact Hc | left; split; reflexivity].
  - split; [exact Hc|]. right. repeat split. eexists. repeat split.
Qed.

Lemma playerPhase_projectiles `{Raylib} (inp : Input) (gameDt : float) (g : Game.t) :
  let c := Game.gProjectileCounter g in
  let g' := playerPhase inp gameDt g in
  (Game.projectiles g' = Game.projectiles g /\ Game.gProjectileCounter g' = c)
  \/ (Game.playerClass g = MAGE
      /\ IsKeyPressed inp KEY_J = true
      /\ Player.attacking (Game.player g) = false
      /\ Game.gProjectileCounter g' = iadd c 1
      /\ exists p,
          Game.projectiles g' = Game.projectiles g ++ [p]
          /\ Projectile.id p = iadd c 1
          /\ Projectile.active p = true
          /\ Projectile.life p = dec 12 1).
Proof.
  intros c g'. subst c g'.
  destruct (playerPhase_stages inp gameDt g)
    as (g1 & g2 & g3 & g4 & g5 & g6 & g7 & E1 & E2 & E3 & E4 & E5 & E6 & E7 & ->).
  assert (H1 : projView g1 = projView g
               /\ attackView (Game.player g1) = attackView (Game.player g)).
  { rewrite E1. split; [reflexivity|]. rewrite onPlayer_player. apply movePlayer_attackView. }
  assert (H2 : projView g2 = projView g1
               /\ attackView (Game.player g2) = attackView (Game.player g1)).
  { rewrite E2. destruct (IsKeyPressed inp KEY_TAB); split; reflexivity. }
  assert (H3 : projView g3 = projView g2
               /\ attackView (Game.player g3) = attackView (Game.player g2)).
  { rewrite E3. split; [reflexivity|]. rewrite onPlayer_player. apply abilityTimers_attackView. }
  assert (H4 : projView g4 = projView g3
               /\ attackView (Game.player g4) = attackView (Game.player g3)).
  { rewrite E4. split; [reflexivity|]. rewrite onPlayer_player.
    apply classAbility_attackView. }
  assert (H5 : projView g5 = projView g4
               /\ attackView (Game.player g5) = attackView (Game.player g4)).
  { rewrite E5. split; [reflexivity|]. rewrite onPlayer_player. apply comboTick_attackView. }
  assert (Hv : projView g5 = projView g
               /\ attackView (Game.player g5) = attackView (Game.player g)).
  { destruct H1, H2, H3, H4, H5. split; congruence. }
  clear H1 H2 H3 H4 H5. destruct Hv as [Hv Ha].
  assert (Hp : Game.projectiles g5 = Game.projectiles g)
    by exact (f_equal (fun x => fst (fst x)) Hv).
  assert (Hc : Game.gProjectileCounter g5 = Game.gProjectileCounter g)
    by exact (f_equal (fun x => snd (fst x)) Hv).
  assert (Hcl : Game.playerClass g5 = Game.playerClass g) by exact (f_equal snd Hv).
  assert (Hat : Player.attacking (Game.player g5) = Player.attacking (Game.player g))
    by exact (f_equal fst Ha).
  pose proof (attackInput_projectiles inp g5) as H6. cbv zeta in H6. rewrite <- E6 in H6.
  rewrite Hp, Hc, Hcl, Hat in H6.
  assert (H7 : Game.projectiles g7 = Game.projectiles g6
               /\ Game.gProjectileCounter g7 = Game.gProjectileCounter g6)
    by (rewrite E7; split; reflexivity).
  destruct H7 as [H7p H7c].
  cbn [onPlayer Game.projectiles Game.gProjectileCounter Game.set_player].
  rewrite H7p, H7c. exact (proj2 H6).
Qed.

Lemma spawnErase_counter (g g' : Game.t) :
  spawnErase g = spawnErase g' -> Game.gProjectileCounter g = Game.gProjectileCounter g'.
Proof. intros He. exact (f_equal Game.gProjectileCounter He). Qed.

Lemma combatErase_proj (g g' : Game.t) :
  combatErase g = combatErase g' ->
  Game.projectiles g = Game.projectiles g'
  /\ Game.gProjectileCounter g = Game.gProjectileCounter g'.
Proof.
  intros He. split.
  - exact (f_equal Game.projectiles He).
  - exact (f_equal Game.gProjectileCounter He).
Qed.

Lemma afterErase_proj (g g' : Game.t) :
  afterErase g = afterErase g' ->
  Game.projectiles g = Game.projectiles g'
  /\ Game.gProjectileCounter g = Game.gProjectileCounter g'.
Proof.
  intros He. split.
  - exact (f_equal Game.projectiles He).
  - exact (f_equal Game.gProjectileCounter He).
Qed.

Lemma quietErase_proj (g g' : Game.t) :
  quietErase g = quietErase g' ->
  Game.projectiles g = Game.projectiles g'
  /\ Game.gProjectileCounter g = Game.gProjectileCounter g'.
Proof.
  intros He. split.
  - exact (f_equal Game.projectiles He).
  - exact (f_equal Game.gProjectileCounter He).
Qed.

Lemma playing_chain_proj (ps : list Projectile.t) (g1 g2 g3 g4 g' : Game.t) :
  spawnErase g2 = spawnErase g1 ->
  Game.projectiles g2 = ps ->
  combatErase g3 = combatErase g2 ->
  combatErase g4 = combatErase g3 ->
  afterErase g' = afterErase g4 ->
  Game.projectiles g' = ps
  /\ Game.gProjectileCounter g' = Game.gProjectileCounter g1.
Proof.
  intros H2 Hp H3 H4 H5.
  destruct (combatErase_proj _ _ H3) as [Hp3 Hc3].
  destruct (combatErase_proj _ _ H4) as [Hp4 Hc4].
  destruct (afterErase_proj _ _ H5) as [Hp5 Hc5].
  rewrite Hp5, Hp4, Hp3, Hc5, Hc4, Hc3, (spawnErase_counter _ _ H2). auto.
Qed.

(** The PLAYING branch moves every projectile the player's part leaves in
    the list, the one fired in this frame included, and drops none. *)
Lemma updatePlaying_projectiles `{Raylib} (inp : Input) (gameDt : float) (g : Game.t) :
  let g1 := playerPhase inp gameDt g in
  let g' := updatePlaying inp gameDt g in
  Game.projectiles g' = map (updateProjectile gameDt) (Game.projectiles g1)
  /\ Game.gProjectileCounter g' = Game.gProjectileCounter g1.
Proof.
  cbv zeta.
  destruct (updatePlaying_chain inp gameDt g)
    as (g1 & g2 & k2 & g3 & k3 & g4 & k4 & E1 & E2 & E3 & E4 & E5 & H1 & H2 & H3 & H4 & H5).
  pose proof (spawnPhase_frame inp gameDt g1) as (_ & Hp & _). rewrite E2 in Hp.
  cbn [fst] in Hp. rewrite <- E1.
  exact (playing_chain_proj _ g1 g2 g3 g4 _ H2 Hp H3 H4 H5).
Qed.

Lemma map_updateProjectile (gameDt : float) (ps : list Projectile.t) :
  Forall2 projStep ps (map (updateProjectile gameDt) ps)
  /\ Forall inFlightOk (map (updateProjectile gameDt) ps)
  /\ map Projectile.id (map (updateProjectile gameDt) ps) = map Projectile.id ps.
Proof.
  induction ps as [|p ps (IH1 & IH2 & IH3)]; cbn [map].
  - repeat split; constructor.
  - destruct (updateProjectile_step gameDt p) as [Hs Hf].
    split; [constructor; assumption|]. split; [constructor; assumption|].
    destruct Hs as (Hid & _). rewrite Hid, IH3. reflexivity.
Qed.

(** One PLAYING frame on the projectiles. *)
Lemma updatePlaying_shots `{Raylib} (inp : Input) (gameDt : float) (g : Game.t) :
  let c := Game.gProjectileCounter g in
  let g' := updatePlaying inp gameDt g in
  exists new,
    Game.projectiles g' = map (updateProjectile gameDt) (Game.projectiles g ++ new)
    /\ Game.gProjectileCounter g' = match new with [] => c | _ => iadd c 1 end
    /\ (new = []
        \/ (Game.playerClass g = MAGE
            /\ IsKeyPressed inp KEY_J = true
            /\ Player.attacking (Game.player g) = false
            /\ exists p,
                new = [p]
                /\ Projectile.id p = iadd c 1
                /\ Projectile.active p = true
                /\ Projectile.life p = dec 12 1)).
Proof.
  intros c g'. subst c g'.
  destruct (updatePlaying_projectiles inp gameDt g) as [Hp Hc].
  destruct (playerPhase_projectiles inp gameDt g)
    as [[Hp1 Hc1] | (Hcl & Hj & Ha & Hc1 & p & Hp1 & Hid & Hact & Hl)].
  - exists []. rewrite app_nil_r, Hp, Hc, Hp1, Hc1. auto.
  - exists [p]. rewrite Hp, Hc, Hp1, Hc1. split; [reflexivity|]. split; [reflexivity|].
    right. repeat split; try assumption. exists p. auto.
Qed.

(** X10 — projectiles in a PLAYING frame.  No projectile is removed; at
    most one is appended, and only for a Mage who is not mid-attack and
    presses J: it is active, has 1.2 s of life and takes the next counter
    value as id.  Id, damage, radius and velocity of a projectile never
    change, an inactive projectile is left exactly as it is, and every
    projectile still active after the frame has life left and lies inside
    -200..3200. *)
Theorem projectiles_fly_or_rest `{Raylib} (inp : Input) (g : Game.t)
    (Hs : Game.state g = PLAYING) :
  let c := Game.gProjectileCounter g in
  let g' := frame inp g in
  exists new,
    Forall2 projStep (Game.projectiles g ++ new) (Game.projectiles g')
    /\ Forall inFlightOk (Game.projectiles g')
    /\ Game.gProjectileCounter g' = match new with [] => c | _ => iadd c 1 end
    /\ (new = []
        \/ (Game.playerClass g = MAGE
            /\ IsKeyPressed inp KEY_J = true
            /\ Player.attacking (Game.player g) = false
            /\ exists p,
                new = [p]
                /\ Projectile.id p = iadd c 1
                /\ Projectile.active p = true
                /\ Projectile.life p = dec 12 1)).
Proof.
  intros c g'. subst c g'. unfold frame. cbn [Game.state Game.set_gHitStopTimer]. rewrite Hs.
  set (g1 := Game.set_gHitStopTimer _ g).
  assert (Hv : projView g1 = projView g) by reflexivity.
  assert (Hp1 : Game.player g1 = Game.player g) by reflexivity.
  clearbody g1.
  assert (Hp : Game.projectiles g1 = Game.projectiles g)
    by exact (f_equal (fun x => fst (fst x)) Hv).
  assert (Hc : Game.gProjectileCounter g1 = Game.gProjectileCounter g)
    by exact (f_equal (fun x => snd (fst x)) Hv).
  assert (Hcl : Game.playerClass g1 = Game.playerClass g) by exact (f_equal snd Hv).
  destruct (updatePlaying_shots inp (gameDt inp (Game.gHitStopTimer g)) g1)
    as (new & Hps & Hcn & Hnew).
  rewrite Hp, Hc, Hcl, Hp1 in *.
  exists new. rewrite Hps.
  destruct (map_updateProjectile (gameDt inp (Game.gHitStopTimer g))
              (Game.projectiles g ++ new)) as (HF & HI & _).
  split; [exact HF|]. split; [exact HI|]. split; assumption.
Qed.

(** The same at a concrete state. *)
Lemma projectiles_fly_or_rest_witness :
  let g' := @frame referenceRaylib (press KEY_J) (sessionOf 2) in
  map Projectile.id (Game.projectiles g') = [1]
  /\ Forall inFlightOk (Game.projectiles g')
  /\ Game.gProjectileCounter g' = 1.
Proof.
  intros g'.
  destruct (@projectiles_fly_or_rest referenceRaylib (press KEY_J) (sessionOf 2) eq_refl)
    as (new & _ & HI & _).
  split; [vm_compute; reflexivity|]. split; [exact HI | vm_compute; reflexivity].
Defined.

Lemma projIds_snoc (ids : list Z) (c : Z) :
  StronglySorted Z.lt ids -> Forall (fun i => i <= c) ids ->
  StronglySorted Z.lt (ids ++ [c + 1]) /\ Forall (fun i => i <= c + 1) (ids ++ [c + 1]).
Proof.
  intros Hs Hb. split.
  - induction Hs as [|a l Hl IH Ha]; cbn [app].
    + constructor; constructor.
    + inversion Hb; subst. constructor; [auto|].
      apply Forall_app. split; [exact Ha|]. constructor; [lia | constructor].
  - apply Forall_app. split.
    + eapply Forall_impl; [|exact Hb]. cbn beta. intros; lia.
    + constructor; [lia | constructor].
Qed.

(** One frame keeps the projectile ids in order below the counter. *)
Lemma frame_projIds `{Raylib} (inp : Input) (g : Game.t) :
  projIdsOk g ->
  0 <= Game.gProjectileCounter g < INT_MAX ->
  projIdsOk (frame inp g)
  /\ 0 <= Game.gProjectileCounter (frame inp g) <= Game.gProjectileCounter g + 1.
Proof.
  intros [Hso Hbd] Hc. unfold projIdsOk.
  destruct (frame_cases inp g) as [(Hr & _) | [(_ & Hs & Hf) | (_ & _ & Hq)]].
  - destruct (frame_reset_id inp g Hr) as (_ & _ & Hc0 & _ & Hp0).
    rewrite Hp0, Hc0. cbn [map]. repeat split; try constructor; lia.
  - rewrite Hf.
    destruct (updatePlaying_shots inp (gameDt inp (Game.gHitStopTimer g))
                (Game.set_gHitStopTimer (hitStopTick inp (Game.gHitStopTimer g)) g))
      as (new & Hps & Hcn & Hnew).
    cbn [Game.projectiles Game.gProjectileCounter Game.set_gHitStopTimer Game.playerClass
         Game.player] in Hps, Hcn, Hnew.
    destruct (map_updateProjectile (gameDt inp (Game.gHitStopTimer g))
                (Game.projectiles g ++ new)) as (_ & _ & Hids).
    rewrite Hps, Hids, Hcn.
    destruct Hnew as [-> | (_ & _ & _ & p & -> & Hid & _)].
    + rewrite app_nil_r. repeat split; try assumption; lia.
    + assert (Hw : iadd (Game.gProjectileCounter g) 1 = Game.gProjectileCounter g + 1)
        by (unwrap; reflexivity).
      rewrite Hw in *. rewrite map_app. cbn [map]. rewrite Hid.
      destruct (projIds_snoc _ _ Hso Hbd) as [Hso' Hbd'].
      repeat split; try assumption; lia.
  - destruct (quietErase_proj _ _ Hq) as [Hp' Hc']. rewrite Hp', Hc'.
    repeat split; try assumption; lia.
Qed.

(** X11 — along any run the projectile ids in the list are strictly
    increasing, hence pairwise distinct, and none exceeds the counter (the
    hypothesis keeps the counter inside [int]). *)
Theorem projectile_ids_are_unique `{Raylib} (inps : list Input) (g : Game.t)
    (Hok : projIdsOk g)
    (Hlo : 0 <= Game.gProjectileCounter g)
    (Hhi : Game.gProjectileCounter g + Z.of_nat (List.length inps) <= INT_MAX) :
  let ids := map Projectile.id (Game.projectiles (run inps g)) in
  StronglySorted Z.lt ids
  /\ NoDup ids
  /\ Forall (fun i => i <= Game.gProjectileCounter (run inps g)) ids.
Proof.
  cbv zeta.
  assert (Hrun : projIdsOk (run inps g)).
  { revert g Hok Hlo Hhi. induction inps as [|inp inps IH]; intros g Hok Hlo Hhi; cbn [run].
    - exact Hok.
    - cbn [List.length] in Hhi.
      destruct (frame_projIds inp g Hok ltac:(lia)) as [Hok' Hc'].
      apply IH; [exact Hok' | lia | lia]. }
  destruct Hrun as [Hso Hbd]. split; [exact Hso|]. split; [|exact Hbd].
  clear Hbd. induction Hso as [|a l Hl IH Ha]; constructor; [|exact IH].
  intros Hin. rewrite Forall_forall in Ha. specialize (Ha a Hin). lia.
Qed.

(** The same at a concrete state. *)
Lemma projectile_ids_are_unique_witness :
  let g := @run referenceRaylib mageFiresTwiceWalking initialGame in
  NoDup (map Projectile.id (Game.projectiles g))
  /\ map Projectile.id (Game.projectiles g) = [1; 2].
Proof.
  intros g.
  destruct (@projectile_ids_are_unique referenceRaylib mageFiresTwiceWalking initialGame)
    as (_ & Hnd & _).
  - split; constructor.
  - vm_compute. discriminate.
  - vm_compute. discriminate.
  - split; [exact Hnd | vm_compute; reflexivity].
Defined.

(* ------------------------------------------------------------------ *)
(** ** Spawning and the boss *)

Lemma bossCount_app (xs ys : list Enemy.t) :
  bossCount (xs ++ ys) = (bossCount xs + bossCount ys)%nat.
Proof. unfold bossCount. rewrite filter_app, length_app. reflexivity. Qed.

Lemma bossCount_step (xs ys : list Enemy.t) :
  Forall2 combatStep xs ys -> bossCount ys = bossCount xs.
Proof.
  intros HF. induction HF as [|a b xs ys Hab HF IH]; [reflexivity|].
  destruct Hab as (Hty & _). unfold bossCount in *. cbn [filter]. rewrite Hty.
  destruct (EnemyType_eqb (Enemy.type a) BOSS); cbn [List.length]; congruence.
Qed.

(** ENEMY SPAWNING and the boss spawn together: what is appended, and what
    becomes of the boss flag. *)
Lemma spawnPhase_boss (inp : Input) (gameDt : float) (g : Game.t) :
  let g' := fst (spawnPhase inp gameDt g) in
  exists new,
    Game.enemies g' = Game.enemies g ++ new
    /\ (List.length new <= 2)%nat
    /\ (if Game.bossSpawned g
        then new = [] /\ Game.bossSpawned g' = true
        else bossCount new = (if Game.bossSpawned g' then 1 else 0)%nat).
Proof.
  unfold spawnPhase, spawnEnemy, spawnBoss.
  cbn [Game.bossSpawned Game.set_enemySpawnTimer].
  destruct (Game.bossSpawned g) eqn:Hb.
  - rewrite andb_false_r.
    cbn [fst Game.bossSpawned Game.set_enemySpawnTimer negb andb Game.enemies
         Game.set_projectiles].
    rewrite Hb. exists []. rewrite app_nil_r. repeat split; auto.
  - cbn [negb]. rewrite andb_true_r.
    destruct (fltb ENEMY_SPAWN_INTERVAL _);
      cbn [fst Game.bossSpawned Game.set_enemySpawnTimer Game.set_enemies negb andb
           Game.enemies Game.set_projectiles Game.player];
      rewrite Hb; cbn [negb andb];
      match goal with |- context [if ?c then _ else _] => destruct c end;
      cbn [fst Game.bossSpawned Game.set_bossSpawned Game.set_enemySpawnTimer
           Game.set_enemies Game.enemies Game.set_projectiles];
      try rewrite Hb.
    + eexists [_; _]. rewrite <- app_assoc. split; [reflexivity|]. split; [cbn; lia|].
      unfold bossCount. cbn [filter].
      destruct (GetRandomValue inp 2 0 2 =? 1), (GetRandomValue inp 2 0 2 =? 2); reflexivity.
    + eexists [_]. split; [reflexivity|]. split; [cbn; lia|].
      unfold bossCount. cbn [filter].
      destruct (GetRandomValue inp 2 0 2 =? 1), (GetRandomValue inp 2 0 2 =? 2); reflexivity.
    + eexists [_]. split; [reflexivity|]. split; [cbn; lia|]. reflexivity.
    + exists []. rewrite app_nil_r. split; [reflexivity|]. split; [cbn; lia|]. reflexivity.
Qed.

Lemma playerErase_boss (g g' : Game.t) :
  playerErase g = playerErase g' -> Game.bossSpawned g = Game.bossSpawned g'.
Proof. intros He. exact (f_equal Game.bossSpawned He). Qed.

Lemma combatErase_boss (g g' : Game.t) :
  combatErase g = combatErase g' -> Game.bossSpawned g = Game.bossSpawned g'.
Proof. intros He. exact (f_equal Game.bossSpawned He). Qed.

Lemma afterErase_bossSpawned (g g' : Game.t) :
  afterErase g = afterErase g' ->
  Game.bossSpawned g = Game.bossSpawned g' /\ Game.enemies g = Game.enemies g'.
Proof.
  intros He. split.
  - exact (f_equal Game.bossSpawned He).
  - exact (f_equal Game.enemies He).
Qed.

Lemma quietErase_boss (g g' : Game.t) :
  quietErase g = quietErase g' ->
  Game.bossSpawned g = Game.bossSpawned g' /\ Game.enemies g = Game.enemies g'.
Proof.
  intros He. split.
  - exact (f_equal Game.bossSpawned He).
  - exact (f_equal Game.enemies He).
Qed.

Lemma playing_chain_spawns (g g1 g2 g3 g4 g' : Game.t) (new : list Enemy.t) :
  playerErase g1 = playerErase g ->
  Game.enemies g2 = Game.enemies g1 ++ new ->
  (if Game.bossSpawned g1
   then new = [] /\ Game.bossSpawned g2 = true
   else bossCount new = (if Game.bossSpawned g2 then 1 else 0)%nat) ->
  combatErase g3 = combatErase g2 ->
  Forall2 combatStep (Game.enemies g2) (Game.enemies g3) ->
  combatErase g4 = combatErase g3 ->
  Forall2 combatStep (Game.enemies g3) (Game.enemies g4) ->
  afterErase g' = afterErase g4 ->
  Forall2 combatStep (Game.enemies g ++ new) (Game.enemies g')
  /\ (if Game.bossSpawned g
      then new = [] /\ Game.bossSpawned g' = true
      else bossCount new = (if Game.bossSpawned g' then 1 else 0)%nat).
Proof.
  intros H1 Hn Hb H3 HF3 H4 HF4 H5.
  destruct (playerErase_fields _ _ H1) as (He1 & _).
  pose proof (playerErase_boss _ _ H1) as Hb1.
  destruct (afterErase_bossSpawned _ _ H5) as [Hb5 He5].
  rewrite Hb5, (combatErase_boss _ _ H4), (combatErase_boss _ _ H3), He5, <- Hb1, <- He1, <- Hn.
  split; [|exact Hb].
  exact (Forall2_trans combatStep combatStep_trans _ _ _ HF3 HF4).
Qed.

Lemma updatePlaying_spawns `{Raylib} (inp : Input) (gameDt : float) (g : Game.t) :
  let g' := updatePlaying inp gameDt g in
  exists new,
    Forall2 combatStep (Game.enemies g ++ new) (Game.enemies g')
    /\ (List.length new <= 2)%nat
    /\ (if Game.bossSpawned g
        then new = [] /\ Game.bossSpawned g' = true
        else bossCount new = (if Game.bossSpawned g' then 1 else 0)%nat).
Proof.
  intros g'. subst g'.
  destruct (updatePlaying_chain inp gameDt g)
    as (g1 & g2 & k2 & g3 & k3 & g4 & k4 & E1 & E2 & E3 & E4 & E5 & H1 & H2 & H3 & H4 & H5).
  destruct (spawnPhase_boss inp gameDt g1) as (new & Hn & Hlen & Hb).
  rewrite E2 in Hn, Hb. cbn [fst] in Hn, Hb.
  pose proof (enemyLoop_combatStep inp gameDt g2 k2) as HF3. rewrite E3 in HF3.
  pose proof (projectileLoop_step inp g3 k3) as HF4. rewrite E4 in HF4.
  destruct (playing_chain_spawns g g1 g2 g3 g4 _ new H1 Hn Hb H3 HF3 H4 HF4 H5) as [HF Hb'].
  exists new. auto.
Qed.

(** X12 — spawning in a PLAYING frame.  No enemy is removed, dead or alive;
    at most two are appended (one regular enemy and the boss).  Once the
    boss has spawned nothing is appended any more and the flag stays set;
    before that, the appended enemies hold a boss exactly when the frame sets
    the flag. *)
Theorem spawn_rules `{Raylib} (inp : Input) (g : Game.t)
    (Hs : Game.state g = PLAYING) :
  let g' := frame inp g in
  exists new,
    Forall2 combatStep (Game.enemies g ++ new) (Game.enemies g')
    /\ List.length (Game.enemies g') = (List.length (Game.enemies g) + List.length new)%nat
    /\ (List.length new <= 2)%nat
    /\ (if Game.bossSpawned g
        then new = [] /\ Game.bossSpawned g' = true
        else bossCount new = (if Game.bossSpawned g' then 1 else 0)%nat).
Proof.
  intros g'. subst g'. unfold frame. cbn [Game.state Game.set_gHitStopTimer]. rewrite Hs.
  set (g1 := Game.set_gHitStopTimer _ g).
  assert (He : Game.enemies g1 = Game.enemies g) by reflexivity.
  assert (Hb : Game.bossSpawned g1 = Game.bossSpawned g) by reflexivity.
  clearbody g1.
  destruct (updatePlaying_spawns inp (gameDt inp (Game.gHitStopTimer g)) g1)
    as (new & HF & Hlen & Hbs).
  rewrite He, Hb in *. exists new. split; [exact HF|]. split; [|split; assumption].
  rewrite <- (Forall2_length HF), length_app. reflexivity.
Qed.

(** The same at a concrete state. *)
Lemma spawn_rules_witness :
  let g := knightAndBossLastBlow in
  let g' := @frame referenceRaylib idle g in
  List.length (Game.enemies g') = 1%nat /\ Game.bossSpawned g' = true.
Proof.
  intros g g'.
  destruct (@spawn_rules referenceRaylib idle g eq_refl) as (new & _ & Hlen & _ & Hb).
  change (Game.bossSpawned g) with true in Hb. destruct Hb as [-> Hb].
  split; [exact Hlen | exact Hb].
Defined.

(** One frame keeps the boss count. *)
Lemma frame_bossInv `{Raylib} (inp : Input) (g : Game.t) :
  bossInv g -> bossInv (frame inp g).
Proof.
  intros [Hle Hz]. unfold bossInv.
  destruct (frame_cases inp g) as [(Hr & _) | [(_ & Hs & Hf) | (_ & _ & Hq)]].
  - destruct (frame_reset_id inp g Hr) as (_ & _ & _ & He & _). rewrite He.
    cbn. split; [lia | reflexivity].
  - rewrite Hf.
    destruct (updatePlaying_spawns inp (gameDt inp (Game.gHitStopTimer g))
                (Game.set_gHitStopTimer (hitStopTick inp (Game.gHitStopTimer g)) g))
      as (new & HF & _ & Hb).
    cbn [Game.enemies Game.bossSpawned Game.set_gHitStopTimer] in HF, Hb.
    rewrite (bossCount_step _ _ HF), bossCount_app.
    destruct (Game.bossSpawned g).
    + destruct Hb as [-> Hb]. rewrite Hb. cbn. split; [lia | discriminate].
    + rewrite (Hz eq_refl), Hb.
      destruct (Game.bossSpawned (updatePlaying _ _ _)); cbn; split; auto; discriminate.
  - destruct (quietErase_boss _ _ Hq) as [Hb He]. rewrite Hb, He. auto.
Qed.

(** X13 — along any run there is at most one boss in the enemy list, and
    none while the boss flag is unset. *)
Theorem at_most_one_boss `{Raylib} (inps : list Input) (g : Game.t)
    (Hinv : bossInv g) :
  let g' := run inps g in
  (bossCount (Game.enemies g') <= 1)%nat
  /\ (Game.bossSpawned g' = false -> bossCount (Game.enemies g') = 0%nat).
Proof.
  cbv zeta. revert g Hinv. induction inps as [|inp inps IH]; intros g Hinv; cbn [run].
  - exact Hinv.
  - apply IH. apply frame_bossInv. exact Hinv.
Qed.

(** The same at a concrete state. *)
Lemma at_most_one_boss_witness :
  (bossCount (Game.enemies (@run referenceRaylib knightKillsGrunt initialGame)) <= 1)%nat.
Proof.
  destruct (@at_most_one_boss referenceRaylib knightKillsGrunt initialGame) as [Hle _].
  - split; [cbn; lia | reflexivity].
  - exact Hle.
Defined.

(* ------------------------------------------------------------------ *)
(** ** One mechanic per class *)

Lemma movePlayer_flags (inp : Input) (gameDt : float) (p : Player.t) :
  abilityFlags (movePlayer inp gameDt p) = abilityFlags p.
Proof. unfold movePlayer. crush_stage. Qed.

Lemma abilityTimers_flags (gameDt : float) (p : Player.t) :
  abilityFlags (abilityTimers gameDt p) = abilityFlags p.
Proof. unfold abilityTimers. crush_stage. Qed.

Lemma classAbility_flags (inp : Input) (gameDt : float) (pc : PlayerClass) (p : Player.t) :
  (pc <> KNIGHT -> Player.blocking (classAbility inp gameDt pc p) = Player.blocking p)
  /\ (pc <> ROGUE -> Player.dodging (classAbility inp gameDt pc p) = Player.dodging p).
Proof.
  unfold classAbility. destruct pc; cbn [PlayerClass_eqb].
  - split; [congruence|]. intros _. unfold knightBlock. crush_stage.
  - split; [|congruence]. intros _. unfold rogueDodge. crush_stage.
  - split; intros _; unfold mageBlink; crush_stage.
Qed.

Lemma comboTick_flags (gameDt : float) (p : Player.t) :
  abilityFlags (comboTick gameDt p) = abilityFlags p.
Proof. unfold comboTick. crush_stage. Qed.

Lemma attackInput_flags (inp : Input) (g : Game.t) :
  abilityFlags (Game.player (attackInput inp g)) = abilityFlags (Game.player g)
  /\ Game.playerClass (attackInput inp g) = Game.playerClass g.
Proof. unfold attackInput. crush_stage. Qed.

Lemma attackTick_flags (gameDt : float) (p : Player.t) :
  abilityFlags (attackTick gameDt p) = abilityFlags p.
Proof. unfold attackTick. crush_stage. Qed.

Lemma playerAnimation_flags `{Raylib} (move : Vector2) (gameDt : float) (p : Player.t) :
  abilityFlags (playerAnimation move gameDt p) = abilityFlags p.
Proof. unfold playerAnimation. crush_stage. Qed.

Lemma abilityFlags_eq (p q : Player.t) :
  abilityFlags p = abilityFlags q ->
  Player.blocking p = Player.blocking q /\ Player.dodging p = Player.dodging q.
Proof. unfold abilityFlags. intros He. inversion He. auto. Qed.

Lemma playerPhase_flags `{Raylib} (inp : Input) (gameDt : float) (g : Game.t) :
  let p := Game.player g in
  let p' := Game.player (playerPhase inp gameDt g) in
  (Game.playerClass g <> KNIGHT -> Player.blocking p' = Player.blocking p)
  /\ (Game.playerClass g <> ROGUE -> Player.dodging p' = Player.dodging p).
Proof.
  cbv zeta.
  destruct (playerPhase_stages inp gameDt g)
    as (g1 & g2 & g3 & g4 & g5 & g6 & g7 & E1 & E2 & E3 & E4 & E5 & E6 & E7 & ->).
  assert (H3 : abilityFlags (Game.player g3) = abilityFlags (Game.player g)
               /\ Game.playerClass g3 = Game.playerClass g).
  { assert (H1 : abilityFlags (Game.player g1) = abilityFlags (Game.player g)
                 /\ Game.playerClass g1 = Game.playerClass g).
    { rewrite E1. split; [|reflexivity]. rewrite onPlayer_player. apply movePlayer_flags. }
    assert (H2 : abilityFlags (Game.player g2) = abilityFlags (Game.player g1)
                 /\ Game.playerClass g2 = Game.playerClass g1).
    { rewrite E2. destruct (IsKeyPressed inp KEY_TAB); split; reflexivity. }
    rewrite E3. rewrite onPlayer_player, abilityTimers_flags.
    change (Game.playerClass (onPlayer (abilityTimers gameDt) g2))
      with (Game.playerClass g2).
    destruct H1, H2. split; congruence. }
  destruct H3 as [Hf3 Hc3]. destruct (abilityFlags_eq _ _ Hf3) as [Hb3 Hd3].
  assert (H8 : abilityFlags (Game.player (onPlayer (playerAnimation
                 (effectiveMove inp (Game.player g)) gameDt) g7))
               = abilityFlags (Game.player g4)).
  { rewrite onPlayer_player, playerAnimation_flags, E7, onPlayer_player, attackTick_flags.
    rewrite E6. destruct (attackInput_flags inp g5) as [-> _].
    rewrite E5, onPlayer_player, comboTick_flags. reflexivity. }
  destruct (abilityFlags_eq _ _ H8) as [Hb8 Hd8]. rewrite Hb8, Hd8.
  rewrite E4, onPlayer_player, Hc3.
  destruct (classAbility_flags inp gameDt (Game.playerClass g) (Game.player g3)) as [Hk Hr].
  split; intros Hc; [rewrite (Hk Hc) | rewrite (Hr Hc)]; assumption.
Qed.

Lemma combatErase_flags (g g' : Game.t) :
  combatErase g = combatErase g' ->
  abilityFlags (Game.player g) = abilityFlags (Game.player g').
Proof. intros He. exact (f_equal (fun x => abilityFlags (Game.player x)) He). Qed.

Lemma afterErase_flags (g g' : Game.t) :
  afterErase g = afterErase g' ->
  abilityFlags (Game.player g) = abilityFlags (Game.player g').
Proof. intros He. exact (f_equal (fun x => abilityFlags (Game.player x)) He). Qed.

Lemma quietErase_flags (g g' : Game.t) :
  quietErase g = quietErase g' ->
  abilityFlags (Game.player g) = abilityFlags (Game.player g').
Proof. intros He. exact (f_equal (fun x => abilityFlags (Game.player x)) He). Qed.

Lemma updatePlaying_flags `{Raylib} (inp : Input) (gameDt : float) (g : Game.t) :
  abilityFlags (Game.player (updatePlaying inp gameDt g))
  = abilityFlags (Game.player (playerPhase inp gameDt g)).
Proof.
  destruct (updatePlaying_chain inp gameDt g)
    as (g1 & g2 & k2 & g3 & k3 & g4 & k4 & E1 & _ & _ & _ & _ & H1 & H2 & H3 & H4 & H5).
  rewrite (afterErase_flags _ _ H5), (combatErase_flags _ _ H4),
    (combatErase_flags _ _ H3), (spawnErase_player _ _ H2), E1. reflexivity.
Qed.

Lemma cursorView_class (a b : Game.t) :
  cursorView a = cursorView b -> Game.playerClass a = Game.playerClass b.
Proof. intros He. exact (f_equal snd He). Qed.

Lemma updatePlaying_classInv `{Raylib} (inp : Input) (gameDt : float) (g : Game.t) :
  classInv g -> classInv (updatePlaying inp gameDt g).
Proof.
  intros (Hk & Hr & Hm & Hg). unfold classInv. cbv zeta.
  pose proof (cursorView_class _ _ (updatePlaying_cursor inp gameDt g)) as Hcl.
  destruct (abilityFlags_eq _ _ (updatePlaying_flags inp gameDt g)) as [Hb Hd].
  destruct (playerPhase_flags inp gameDt g) as [Hb1 Hd1].
  destruct (updatePlaying_shots inp gameDt g) as (new & Hsh & Hcn & Hnew).
  destruct (updatePlaying_ids inp gameDt g) as [Hac Hid].
  rewrite Hcl, Hb, Hd.
  split; [intros Hc; rewrite (Hb1 Hc); auto|].
  split; [intros Hc; rewrite (Hd1 Hc); auto|].
  split.
  - intros Hc. destruct (Hm Hc) as [Hp0 Hc0].
    destruct Hnew as [-> | (Hmg & _)]; [|contradiction].
    rewrite Hsh, Hcn, Hp0, Hc0. split; reflexivity.
  - intros Hc. destruct (Hg Hc) as [Ha0 Hi0].
    rewrite Hc in Hac, Hid. cbn [PlayerClass_eqb orb] in Hac, Hid.
    rewrite andb_false_r in Hac, Hid. rewrite Hac, Hid. auto.
Qed.

Lemma frame_classInv `{Raylib} (inp : Input) (g : Game.t) :
  classInv g -> classInv (frame inp g).
Proof.
  intros Hinv.
  destruct (frame_cases inp g) as [(_ & g0 & ->) | [(Hre & Hs & ->) | (Hre & Hs & Hq)]].
  - unfold classInv.
    cbn [Game.player Game.playerClass Game.projectiles Game.gProjectileCounter
         Game.gAttackCounter Game.set_state ResetGame Player.blocking Player.dodging
         Player.currentAttackId].
    repeat split; reflexivity.
  - apply updatePlaying_classInv. exact Hinv.
  - destruct Hinv as (Hk & Hr & Hm & Hg). unfold classInv. cbv zeta.
    pose proof (frame_ids inp g Hre) as [Hac Hid].
    destruct (quietErase_fields _ _ Hq) as (_ & Hcl & _).
    destruct (quietErase_proj _ _ Hq) as [Hps Hpc].
    destruct (abilityFlags_eq _ _ (quietErase_flags _ _ Hq)) as [Hb Hd].
    assert (Hn : attackIssued inp g = false).
    { unfold attackIssued.
      destruct (Game.state g); cbn [GameState_eqb andb]; try reflexivity. congruence. }
    rewrite Hn in Hac, Hid. rewrite Hcl, Hps, Hpc, Hb, Hd, Hac, Hid. auto.
Qed.

(** X14 — in every state reachable from the start of the program each
    mechanic belongs to one class: a Knight never dodges and a Rogue never
    blocks, neither has projectiles or a nonzero projectile counter, and a
    Mage neither blocks nor dodges and never takes a melee attack id. *)
Theorem class_mechanics_are_exclusive `{Raylib} (inps : list Input) :
  let g := run inps initialGame in
  let p := Game.player g in
  match Game.playerClass g with
  | KNIGHT =>
      Player.dodging p = false
      /\ Game.projectiles g = [] /\ Game.gProjectileCounter g = 0
  | ROGUE =>
      Player.blocking p = false
      /\ Game.projectiles g = [] /\ Game.gProjectileCounter g = 0
  | MAGE =>
      Player.blocking p = false /\ Player.dodging p = false
      /\ Game.gAttackCounter g = 0 /\ Player.currentAttackId p = -1
  end.
Proof.
  cbv zeta.
  assert (Hinv : classInv (run inps initialGame)).
  { assert (H0 : classInv initialGame).
    { unfold classInv. cbv zeta. repeat split; try reflexivity; intros Hc;
        try reflexivity; try discriminate; exfalso; apply Hc; reflexivity. }
    revert H0. generalize initialGame.
    induction inps as [|inp inps IH]; intros g Hg; cbn [run]; [exact Hg|].
    apply IH. apply frame_classInv. exact Hg. }
  destruct Hinv as (Hk & Hr & Hm & Hg).
  destruct (Game.playerClass (run inps initialGame)).
  - split; [apply Hr; discriminate | apply Hm; discriminate].
  - split; [apply Hk; discriminate | apply Hm; discriminate].
  - split; [apply Hk; discriminate|]. split; [apply Hr; discriminate|]. apply Hg. reflexivity.
Qed.

(* ------------------------------------------------------------------ *)
(** ** Invincibility *)

Lemma enemyStrike_invincible (type : EnemyType) (g : Game.t) :
  Player.invincible (Game.player g) = true -> enemyStrike type g = g.
Proof. intros Hi. unfold enemyStrike, mitigate. rewrite Hi. reflexivity. Qed.

Lemma meleeHit_player `{Raylib} (inp : Input) (e : Enemy.t) (g : Game.t) (k : nat) :
  Game.player (snd (fst (meleeHit inp e g k))) = Game.player g.
Proof.
  destruct (meleeHit_cases inp e g k) as [-> | (_ & _ & _ & e1 & t & -> & _)];
    [reflexivity|].
  destruct (enemyDeath_fields inp e1 (Game.set_gHitStopTimer t g) k)
    as (_ & _ & _ & _ & _ & _ & _ & _ & Hp).
  rewrite Hp. reflexivity.
Qed.

Lemma updateEnemy_invincible `{Raylib} (inp : Input) (gameDt : float) (e : Enemy.t)
    (g : Game.t) (pr : Rectangle) (k : nat) :
  Player.invincible (Game.player g) = true ->
  Game.player (fst (fst (snd (updateEnemy inp gameDt e (g, pr, k))))) = Game.player g.
Proof.
  intros Hi. destruct (Enemy.alive e) eqn:Ha.
  - destruct (updateEnemy_alive inp gameDt e g pr k Ha) as (e1 & g1 & pr1 & Hai & _ & ->).
    rewrite meleeHit_player.
    destruct (enemyAI_game gameDt e g pr) as [Hs | Hs]; rewrite Hai in Hs; cbn [fst snd] in Hs;
      subst g1; [reflexivity|].
    rewrite (enemyStrike_invincible _ _ Hi). reflexivity.
  - rewrite updateEnemy_dead by exact Ha. reflexivity.
Qed.

Lemma enemyLoop_invincible `{Raylib} (inp : Input) (gameDt : float) (g : Game.t) (k : nat) :
  Player.invincible (Game.player g) = true ->
  Game.player (fst (enemyLoop inp gameDt g k)) = Game.player g.
Proof.
  intros Hi.
  destruct (enemyLoop_rel_inv inp gameDt (fun x => Game.player x = Game.player g)
              (fun _ _ => True) g k) as [_ HI]; auto.
  intros e g0 pr k0 H0. split; [exact I|].
  rewrite updateEnemy_invincible; [exact H0 | rewrite H0; exact Hi].
Qed.

Lemma afterErase_invincible (g g' : Game.t) :
  afterErase g = afterErase g' ->
  Player.invincible (Game.player g) = Player.invincible (Game.player g')
  /\ Player.hp (Game.player g) = Player.hp (Game.player g').
Proof.
  intros He. split.
  - exact (f_equal (fun x => Player.invincible (Game.player x)) He).
  - exact (f_equal (fun x => Player.hp (Game.player x)) He).
Qed.

Lemma combatErase_invincible (g g' : Game.t) :
  combatErase g = combatErase g' ->
  Player.invincible (Game.player g) = Player.invincible (Game.player g').
Proof. intros He. exact (f_equal (fun x => Player.invincible (Game.player x)) He). Qed.

Lemma playing_chain_invincible (g g1 g2 g3 g4 g' : Game.t) :
  playerStats (Game.player g1) = playerStats (Game.player g) ->
  spawnErase g2 = spawnErase g1 ->
  combatErase g3 = combatErase g2 ->
  (Player.invincible (Game.player g2) = true -> Game.player g3 = Game.player g2) ->
  Game.player g4 = Game.player g3 ->
  afterErase g' = afterErase g4 ->
  Player.invincible (Game.player g') = true ->
  Player.hp (Game.player g') = Player.hp (Game.player g).
Proof.
  intros Hst H2 H3 Hloop Hp4 H5 Hi.
  destruct (afterErase_invincible _ _ H5) as [Hi5 Hh5].
  rewrite Hi5, Hp4, (combatErase_invincible _ _ H3) in Hi.
  rewrite Hh5, Hp4, (Hloop Hi), (spawnErase_player _ _ H2).
  exact (proj1 (playerStats_hp _ _ Hst)).
Qed.

Lemma updatePlaying_invincible `{Raylib} (inp : Input) (gameDt : float) (g : Game.t) :
  Player.invincible (Game.player (updatePlaying inp gameDt g)) = true ->
  Player.hp (Game.player (updatePlaying inp gameDt g)) = Player.hp (Game.player g).
Proof.
  destruct (updatePlaying_chain inp gameDt g)
    as (g1 & g2 & k2 & g3 & k3 & g4 & k4 & E1 & E2 & E3 & E4 & E5 & H1 & H2 & H3 & H4 & H5).
  pose proof (playerPhase_frame inp gameDt g) as [_ Hst]. rewrite <- E1 in Hst.
  pose proof (enemyLoop_invincible inp gameDt g2 k2) as Hloop. rewrite E3 in Hloop.
  cbn [fst] in Hloop.
  pose proof (projectileLoop_erase inp g3 k3) as (_ & Hp4 & _). rewrite E4 in Hp4.
  cbn [fst] in Hp4.
  exact (playing_chain_invincible g g1 g2 g3 g4 _ Hst H2 H3 Hloop Hp4 H5).
Qed.

(** X15 — a player who ends a PLAYING frame invincible has lost no HP in
    it, however many enemies struck. *)
Theorem invincible_player_takes_no_damage `{Raylib} (inp : Input) (g : Game.t)
    (Hs : Game.state g = PLAYING)
    (Hi : Player.invincible (Game.player (frame inp g)) = true) :
  Player.hp (Game.player (frame inp g)) = Player.hp (Game.player g).
Proof.
  revert Hi. unfold frame. cbn [Game.state Game.set_gHitStopTimer]. rewrite Hs.
  set (g1 := Game.set_gHitStopTimer _ g).
  assert (Hp1 : Game.player g1 = Game.player g) by reflexivity.
  clearbody g1. rewrite <- Hp1.
  apply updatePlaying_invincible.
Qed.

(** The same at a concrete state. *)
Lemma invincible_player_takes_no_damage_witness :
  let dodge := @frame referenceRaylib (press KEY_K) rogueAndWindingGrunt in
  let stand := @frame referenceRaylib idle rogueAndWindingGrunt in
  Player.hp (Game.player dodge) = 110 /\ Player.hp (Game.player stand) = 104.
Proof.
  intros dodge stand. split; [|vm_compute; reflexivity].
  unfold dodge.
  rewrite (@invincible_player_takes_no_damage referenceRaylib (press KEY_K)
             rogueAndWindingGrunt eq_refl); [reflexivity | vm_compute; reflexivity].
Defined.

(* ------------------------------------------------------------------ *)
(** ** Invariants of the enemies *)

Section EnemyInvariant.
Context `{Raylib}.
Variable P : Enemy.t -> Prop.
Hypothesis P_fresh : forall type x y, P (MakeEnemy type x y).
Hypothesis P_ai :
  forall gameDt e g pr, P e -> P (fst (fst (enemyAI gameDt e g pr))).
Hypothesis P_melee :
  forall inp e g k, P e -> P (fst (fst (meleeHit inp e g k))).
Hypothesis P_proj :
  forall inp p e s, P e -> P (fst (projectileHit inp p e s)).

Lemma updateEnemy_keeps (inp : Input) (gameDt : float) (e : Enemy.t)
    (s : Game.t * Rectangle * nat) :
  P e -> P (fst (updateEnemy inp gameDt e s)).
Proof.
  intros He. destruct s as [[g pr] k]. destruct (Enemy.alive e) eqn:Ha.
  - destruct (updateEnemy_alive inp gameDt e g pr k Ha) as (e1 & g1 & pr1 & Hai & -> & _).
    apply P_melee. pose proof (P_ai gameDt e g pr He) as H1. rewrite Hai in H1. exact H1.
  - rewrite updateEnemy_dead by exact Ha. exact He.
Qed.

Lemma updatePlaying_keeps (inp : Input) (gameDt : float) (g : Game.t) :
  Forall P (Game.enemies g) -> Forall P (Game.enemies (updatePlaying inp gameDt g)).
Proof.
  intros Hg.
  destruct (updatePlaying_chain inp gameDt g)
    as (g1 & g2 & k2 & g3 & k3 & g4 & k4 & E1 & E2 & E3 & E4 & E5 & H1 & H2 & H3 & H4 & H5).
  destruct (playerErase_fields _ _ H1) as (He1 & _).
  destruct (spawnPhase_fresh inp gameDt g1) as (new & Hn & Hfresh). rewrite E2 in Hn.
  cbn [fst] in Hn.
  assert (Hg2 : Forall P (Game.enemies g2)).
  { rewrite Hn, He1. apply Forall_app. split; [exact Hg|].
    eapply Forall_impl; [|exact Hfresh]. intros e (type & x & y & ->). apply P_fresh. }
  assert (Hg3 : Forall P (Game.enemies g3)).
  { destruct (enemyLoop_rel_inv inp gameDt (fun _ => True) (fun e e' => P e -> P e')
                g2 k2) as [HR _]; auto.
    - intros e g0 pr k0 _. split; [apply updateEnemy_keeps | exact I].
    - rewrite E3 in HR. cbn [fst] in HR.
      exact (Forall2_Forall P _ _ _ (fun a b Hab => Hab) HR Hg2). }
  assert (Hg4 : Forall P (Game.enemies g4)).
  { assert (HR : Forall2 (fun e e' => P e -> P e') (Game.enemies g3)
                         (Game.enemies (fst (projectileLoop inp g3 k3)))).
    { apply (projectileLoop_rel_inv inp (fun _ => True) (fun e e' => P e -> P e') g3 k3).
      - intros e He. exact He.
      - intros a b c Hab Hbc Ha. apply Hbc, Hab, Ha.
      - intros p e g0 k0 _. split; [apply P_proj | exact I].
      - intros es g0 _. exact I.
      - exact I. }
    rewrite E4 in HR. cbn [fst] in HR.
    exact (Forall2_Forall P _ _ _ (fun a b Hab => Hab) HR Hg3). }
  destruct (afterErase_hp _ _ H5) as (_ & _ & He5). rewrite He5. exact Hg4.
Qed.

Lemma frame_keeps (inp : Input) (g : Game.t) :
  Forall P (Game.enemies g) -> Forall P (Game.enemies (frame inp g)).
Proof.
  intros Hg.
  destruct (frame_cases inp g) as [(Hr & _) | [(_ & _ & ->) | (_ & _ & Hq)]].
  - destruct (frame_reset_id inp g Hr) as (_ & _ & _ & He & _). rewrite He. constructor.
  - apply updatePlaying_keeps. exact Hg.
  - destruct (quietErase_fields _ _ Hq) as (He & _). rewrite He. exact Hg.
Qed.

Lemma run_keeps (inps : list Input) :
  forall g, Forall P (Game.enemies g) -> Forall P (Game.enemies (run inps g)).
Proof.
  induction inps as [|inp inps IH]; intros g Hg; cbn [run]; [exact Hg|].
  apply IH. apply frame_keeps. exact Hg.
Qed.
End EnemyInvariant.

Lemma enemyDeath_body (inp : Input) (e : Enemy.t) (g : Game.t) (k : nat) :
  bodyView (fst (fst (enemyDeath inp e g k))) = bodyView e.
Proof.
  unfold enemyDeath. destruct (Enemy.hp e <=? 0); [|reflexivity].
  destruct (dropCoins _ _ _ _ _) as [cs k'].
  destruct (EnemyType_eqb _ BOSS); reflexivity.
Qed.

Lemma meleeHit_body `{Raylib} (inp : Input) (e : Enemy.t) (g : Game.t) (k : nat) :
  bodyView (fst (fst (meleeHit inp e g k))) = bodyView e.
Proof.
  unfold meleeHit.
  destruct (_ && _ && (0 <=? _)); [|reflexivity].
  destruct (negb _ && RectOverlap _ _); [|reflexivity].
  rewrite enemyDeath_body. reflexivity.
Qed.

Lemma projectileHit_body `{Raylib} (inp : Input) (p : Projectile.t) (e : Enemy.t)
    (s : Game.t * nat) :
  bodyView (fst (projectileHit inp p e s)) = bodyView e.
Proof.
  destruct s as [g k]. unfold projectileHit.
  destruct (negb (Enemy.alive e)); [reflexivity|].
  destruct (CheckCollisionCircleRec _ _ _); [|reflexivity].
  destruct (negb (Enemy.lastProjectileHitId e =? Projectile.id p)); [|reflexivity].
  match goal with |- context [enemyDeath inp ?a g k] =>
    pose proof (enemyDeath_body inp a g k) as Hd;
    destruct (enemyDeath inp a g k) as [[e' g'] k'] end.
  cbn [fst] in *. rewrite Hd. reflexivity.
Qed.

Lemma bodyView_ok (a b : Enemy.t) :
  bodyView a = bodyView b -> (cycleOk b -> cycleOk a) /\ (shapeOk b -> shapeOk a).
Proof.
  unfold bodyView, cycleOk, shapeOk, shapeView. intros He.
  destruct a, b. cbn [Enemy.windingUp Enemy.attackingAnim Enemy.attackCooldown Enemy.size
                      Enemy.maxHP Enemy.speed Enemy.sprite Enemy.animMaxFrames
                      Enemy.animFrameTime Enemy.animFrame Enemy.animRow Enemy.type] in *.
  inversion He; subst. auto.
Qed.

Lemma MakeEnemy_ok (type : EnemyType) (x y : float) :
  cycleOk (MakeEnemy type x y) /\ shapeOk (MakeEnemy type x y).
Proof.
  unfold cycleOk, shapeOk. destruct type; cbn; repeat split; try reflexivity; lia.
Qed.

(** The cycle through the AI step. *)
Lemma enemyMovement_body (gameDt : float) (p : Player.t) (e : Enemy.t) (er : Rectangle) :
  bodyView (fst (enemyMovement gameDt p e er)) = bodyView e.
Proof.
  unfold enemyMovement. destruct (_ && _); [|reflexivity].
  destruct (fltb (of_int 5) _); reflexivity.
Qed.

Lemma enemyWindupStart_ok `{Raylib} (e : Enemy.t) (er pr : Rectangle) :
  let e' := enemyWindupStart e er pr in
  (cycleOk e -> cycleOk e')
  /\ (shapeView e', Enemy.animFrame e', Enemy.animRow e', Enemy.type e')
     = (shapeView e, Enemy.animFrame e, Enemy.animRow e, Enemy.type e).
Proof.
  unfold enemyWindupStart, cycleOk. cbv zeta.
  destruct (negb (Enemy.windingUp e) && negb (Enemy.attackingAnim e)
            && fleb (Enemy.attackCooldown e) fzero && RectOverlap er pr) eqn:Hc;
    [|split; [auto | reflexivity]].
  apply andb_true_iff in Hc. destruct Hc as [Hc _].
  apply andb_true_iff in Hc. destruct Hc as [Hc _].
  apply andb_true_iff in Hc. destruct Hc as [_ Ha]. apply negb_true_iff in Ha.
  split; [|reflexivity].
  intros [_ Hcd].
  cbn [Enemy.windingUp Enemy.attackingAnim Enemy.attackCooldown Enemy.set_windupTimer
       Enemy.set_windingUp].
  rewrite Ha. auto.
Qed.

Lemma enemyWindup_ok `{Raylib} (gameDt : float) (e : Enemy.t) (g : Game.t) (pr : Rectangle) :
  let e' := fst (fst (enemyWindup gameDt e g pr)) in
  (cycleOk e -> cycleOk e')
  /\ (shapeView e', Enemy.animFrame e', Enemy.animRow e', Enemy.type e')
     = (shapeView e, Enemy.animFrame e, Enemy.animRow e, Enemy.type e).
Proof.
  unfold enemyWindup, cycleOk. cbv zeta.
  destruct (Enemy.windingUp e) eqn:Hw; cbn [fst];
    [|rewrite Hw; split; [solve [auto] | reflexivity]].
  match goal with |- context [if fleb ?a ?b then _ else _] => destruct (fleb a b) end;
    cbn [fst].
  - split; [intros _; split; reflexivity | reflexivity].
  - split; [|reflexivity].
    cbn [Enemy.windingUp Enemy.attackingAnim Enemy.attackCooldown Enemy.set_windupTimer].
    rewrite Hw. solve [auto].
Qed.

Lemma enemyAttackAnim_ok (gameDt : float) (e : Enemy.t) :
  let e' := enemyAttackAnim gameDt e in
  (cycleOk e -> cycleOk e')
  /\ (shapeView e', Enemy.animFrame e', Enemy.animRow e', Enemy.type e')
     = (shapeView e, Enemy.animFrame e, Enemy.animRow e, Enemy.type e).
Proof.
  unfold enemyAttackAnim, cycleOk. cbv zeta.
  destruct (Enemy.attackingAnim e) eqn:Ha; [|split; [rewrite ?Ha; solve [auto] | reflexivity]].
  match goal with |- context [if fleb ?a ?b then _ else _] => destruct (fleb a b) end.
  - split; [|reflexivity]. intros [_ Hc].
    cbn [Enemy.windingUp Enemy.attackingAnim Enemy.attackCooldown Enemy.set_attackingAnim
         Enemy.set_attackAnimTimer].
    split; [apply andb_false_r | exact Hc].
  - split; [|reflexivity].
    cbn [Enemy.windingUp Enemy.attackingAnim Enemy.attackCooldown Enemy.set_attackAnimTimer].
    rewrite Ha. solve [auto].
Qed.

Lemma enemyAnimation_ok `{Raylib} (gameDt : float) (e : Enemy.t) :
  let e' := enemyAnimation gameDt e in
  (Enemy.windingUp e', Enemy.attackingAnim e', Enemy.attackCooldown e', shapeView e',
   Enemy.type e')
  = (Enemy.windingUp e, Enemy.attackingAnim e, Enemy.attackCooldown e, shapeView e,
     Enemy.type e)
  /\ (shapeOk e -> shapeOk e').
Proof.
  cbv zeta. unfold enemyAnimation.
  destruct (spriteLoaded (Enemy.sprite e)); [|split; [reflexivity | solve [auto]]].
  assert (Hrow : forall x : Enemy.t,
            0 <= Enemy.animRow
                   (if Enemy.windingUp x || Enemy.attackingAnim x
                    then Enemy.set_animRow 1 x else Enemy.set_animRow 0 x)
            < ENEMY_SPRITE_ROWS)
    by (intros x; destruct (_ || _); cbn; unfold ENEMY_SPRITE_ROWS; lia).
  split.
  - destruct (_ || _); destruct (fleb _ _); reflexivity.
  - unfold shapeOk. intros (Hsh & Hf & Hr).
    assert (Hmax : Enemy.animMaxFrames e = ENEMY_SPRITE_COLS).
    { unfold shapeView in Hsh. inversion Hsh as [[H1 H2 H3 H4 H5 H6]].
      rewrite H5. destruct (Enemy.type e); reflexivity. }
    specialize (Hrow e).
    destruct (Enemy.windingUp e || Enemy.attackingAnim e);
      match goal with |- context [if fleb ?a ?b then _ else _] => destruct (fleb a b) end;
      cbn [Enemy.animRow Enemy.animFrame Enemy.animMaxFrames Enemy.type Enemy.set_animRow
           Enemy.set_animFrame Enemy.set_animTimer] in *;
      (split; [exact Hsh|]); (split; [|exact Hrow]); try exact Hf;
      rewrite Hmax; unfold irem, ENEMY_SPRITE_COLS in *; unwrap;
      pose proof (Z.rem_bound_pos (Enemy.animFrame e + 1) 4 ltac:(lia) ltac:(lia)); lia.
Qed.

Lemma enemyAI_chain `{Raylib} (gameDt : float) (e : Enemy.t) (g : Game.t) (pr : Rectangle) :
  exists e1 er e2 e3 e4 e5 e6,
    (e1, er) = enemyMovement gameDt (Game.player g) e (MakeRect (Enemy.pos e) (Enemy.size e))
    /\ e2 = Enemy.set_attackCooldown (fsub (Enemy.attackCooldown e1) gameDt) e1
    /\ e3 = (if fltb (Enemy.attackCooldown e2) fzero
             then Enemy.set_attackCooldown fzero e2 else e2)
    /\ e4 = enemyWindupStart e3 er pr
    /\ e5 = fst (fst (enemyWindup gameDt e4 g pr))
    /\ e6 = enemyAttackAnim gameDt e5
    /\ fst (fst (enemyAI gameDt e g pr)) = enemyAnimation gameDt e6.
Proof.
  unfold enemyAI.
  destruct (enemyMovement gameDt (Game.player g) e _) as [e1 er].
  destruct (enemyWindup gameDt _ g pr) as [[e5 g'] pr'] eqn:Hw.
  do 7 eexists. repeat split; try reflexivity.
  rewrite Hw. reflexivity.
Qed.

Lemma bodyView_shape (a b : Enemy.t) :
  bodyView a = bodyView b ->
  (shapeView a, Enemy.animFrame a, Enemy.animRow a, Enemy.type a)
  = (shapeView b, Enemy.animFrame b, Enemy.animRow b, Enemy.type b).
Proof.
  unfold bodyView, shapeView. intros He. destruct a, b.
  cbn [Enemy.windingUp Enemy.attackingAnim Enemy.attackCooldown Enemy.size
       Enemy.maxHP Enemy.speed Enemy.sprite Enemy.animMaxFrames
       Enemy.animFrameTime Enemy.animFrame Enemy.animRow Enemy.type] in *.
  inversion He; subst. reflexivity.
Qed.

Lemma shapeOk_eq (a b : Enemy.t) :
  (shapeView a, Enemy.animFrame a, Enemy.animRow a, Enemy.type a)
  = (shapeView b, Enemy.animFrame b, Enemy.animRow b, Enemy.type b) ->
  shapeOk b -> shapeOk a.
Proof.
  unfold shapeOk, shapeView. intros He. destruct a, b.
  cbn [Enemy.size Enemy.maxHP Enemy.speed Enemy.sprite Enemy.animMaxFrames
       Enemy.animFrameTime Enemy.animFrame Enemy.animRow Enemy.type] in *.
  inversion He; subst. auto.
Qed.

Lemma cycleOk_eq (a b : Enemy.t) :
  (Enemy.windingUp a, Enemy.attackingAnim a, Enemy.attackCooldown a, shapeView a,
   Enemy.type a)
  = (Enemy.windingUp b, Enemy.attackingAnim b, Enemy.attackCooldown b, shapeView b,
     Enemy.type b) ->
  cycleOk b -> cycleOk a.
Proof.
  unfold cycleOk. intros He. destruct a, b.
  cbn [Enemy.windingUp Enemy.attackingAnim Enemy.attackCooldown] in *.
  inversion He; subst. auto.
Qed.

(** The AI step keeps both invariants of an enemy. *)
Lemma enemyAI_ok `{Raylib} (gameDt : float) (e : Enemy.t) (g : Game.t) (pr : Rectangle) :
  let e' := fst (fst (enemyAI gameDt e g pr)) in
  (cycleOk e -> cycleOk e') /\ (shapeOk e -> shapeOk e').
Proof.
  cbv zeta.
  destruct (enemyAI_chain gameDt e g pr)
    as (e1 & er & e2 & e3 & e4 & e5 & e6 & E1 & E2 & E3 & E4 & E5 & E6 & ->).
  pose proof (enemyMovement_body gameDt (Game.player g) e
                (MakeRect (Enemy.pos e) (Enemy.size e))) as H1.
  rewrite <- E1 in H1. cbn [fst] in H1.
  destruct (bodyView_ok _ _ H1) as [Hc1 _].
  pose proof (bodyView_shape _ _ H1) as Hv1.
  assert (H3 : (cycleOk e1 -> cycleOk e3)
               /\ (shapeView e3, Enemy.animFrame e3, Enemy.animRow e3, Enemy.type e3)
                  = (shapeView e1, Enemy.animFrame e1, Enemy.animRow e1, Enemy.type e1)).
  { rewrite E3, E2. unfold cycleOk.
    cbn [Enemy.attackCooldown Enemy.set_attackCooldown].
    destruct (fltb (fsub (Enemy.attackCooldown e1) gameDt) fzero) eqn:Hlt.
    - split; [|reflexivity]. intros [Hf _]. split; [exact Hf | reflexivity].
    - split; [|reflexivity]. intros [Hf _]. split; [exact Hf | exact Hlt]. }
  pose proof (enemyWindupStart_ok e3 er pr) as H4. cbv zeta in H4. rewrite <- E4 in H4.
  pose proof (enemyWindup_ok gameDt e4 g pr) as H5. cbv zeta in H5. rewrite <- E5 in H5.
  pose proof (enemyAttackAnim_ok gameDt e5) as H6. cbv zeta in H6. rewrite <- E6 in H6.
  destruct (enemyAnimation_ok gameDt e6) as [H7 H7s].
  destruct H3 as [H3c H3v], H4 as [H4c H4v], H5 as [H5c H5v], H6 as [H6c H6v].
  split.
  - intros Hc. apply (cycleOk_eq _ _ H7). apply H6c, H5c, H4c, H3c, Hc1. exact Hc.
  - intros Hs. apply H7s.
    apply (shapeOk_eq e6 e); [|exact Hs].
    rewrite H6v, H5v, H4v, H3v. exact Hv1.
Qed.

(** X16 — along any run an enemy is never winding up and in its attack
    animation at once, and its attack cooldown is never negative. *)
Theorem enemy_attack_cycle `{Raylib} (inps : list Input) (g : Game.t)
    (Hg : Forall cycleOk (Game.enemies g)) :
  Forall cycleOk (Game.enemies (run inps g)).
Proof.
  apply (run_keeps cycleOk); [| | | |exact Hg].
  - intros type x y. apply MakeEnemy_ok.
  - intros gameDt e g0 pr. apply enemyAI_ok.
  - intros inp e g0 k. apply (bodyView_ok _ _ (meleeHit_body inp e g0 k)).
  - intros inp p e s. apply (bodyView_ok _ _ (projectileHit_body inp p e s)).
Qed.

(** The same at a concrete state. *)
Lemma enemy_attack_cycle_witness :
  Forall cycleOk (Game.enemies (@run referenceRaylib knightBlocksAHit initialGame))
  /\ map (fun e => (Enemy.windingUp e, Enemy.attackingAnim e))
         (Game.enemies (@run referenceRaylib knightBlocksAHit initialGame))
     = [(false, true); (false, false)].
Proof.
  split; [|vm_compute; reflexivity].
  apply (@enemy_attack_cycle referenceRaylib knightBlocksAHit initialGame). constructor.
Defined.

(** X17 — along any run every enemy keeps the size, max-HP, speed and
    sprite sheet that [MakeEnemy] gave its type, and its animation cursor
    stays on the sheet: frame in 0..3, row in 0..1. *)
Theorem enemy_keeps_its_shape `{Raylib} (inps : list Input) (g : Game.t)
    (Hg : Forall shapeOk (Game.enemies g)) :
  Forall shapeOk (Game.enemies (run inps g)).
Proof.
  apply (run_keeps shapeOk); [| | | |exact Hg].
  - intros type x y. apply MakeEnemy_ok.
  - intros gameDt e g0 pr. apply enemyAI_ok.
  - intros inp e g0 k. apply (bodyView_ok _ _ (meleeHit_body inp e g0 k)).
  - intros inp p e s. apply (bodyView_ok _ _ (projectileHit_body inp p e s)).
Qed.

(** The same at a concrete state. *)
Lemma enemy_keeps_its_shape_witness :
  Forall shapeOk (Game.enemies (@run referenceRaylib knightKillsGrunt initialGame)).
Proof.
  apply (@enemy_keeps_its_shape referenceRaylib knightKillsGrunt initialGame). constructor.
Defined.

(* ------------------------------------------------------------------ *)
(** ** The player's indices *)

Lemma indexView_ok (p q : Player.t) :
  indexView p = indexView q -> playerIndexOk q -> playerIndexOk p.
Proof.
  unfold indexView, playerIndexOk. intros He. destruct p, q.
  cbn [Player.comboStep Player.animMaxFrames Player.animFrame Player.animRow] in *.
  inversion He; subst. auto.
Qed.

Lemma movePlayer_index (inp : Input) (gameDt : float) (p : Player.t) :
  indexView (movePlayer inp gameDt p) = indexView p.
Proof. unfold movePlayer. crush_stage. Qed.

Lemma abilityTimers_index (gameDt : float) (p : Player.t) :
  indexView (abilityTimers gameDt p) = indexView p.
Proof. unfold abilityTimers. crush_stage. Qed.

Lemma classAbility_index (inp : Input) (gameDt : float) (pc : PlayerClass) (p : Player.t) :
  indexView (classAbility inp gameDt pc p) = indexView p.
Proof.
  unfold classAbility. destruct pc; cbn [PlayerClass_eqb].
  - unfold knightBlock. crush_stage.
  - unfold rogueDodge. crush_stage.
  - unfold mageBlink. crush_stage.
Qed.

Lemma comboTick_index (gameDt : float) (p : Player.t) :
  playerIndexOk p -> playerIndexOk (comboTick gameDt p).
Proof.
  unfold comboTick, playerIndexOk. intros Hp.
  destruct (fltb COMBO_RESET_TIME _);
    cbn [Player.comboStep Player.animMaxFrames Player.animFrame Player.animRow
         Player.set_comboStep Player.set_comboTimer]; [|exact Hp].
  destruct Hp as (_ & Hp). split; [lia | exact Hp].
Qed.

Lemma attackInput_index (inp : Input) (g : Game.t) :
  playerIndexOk (Game.player g) -> playerIndexOk (Game.player (attackInput inp g)).
Proof.
  unfold attackInput, playerIndexOk. intros (Hc & Hp).
  destruct (negb _ && IsKeyPressed inp KEY_J); [|exact (conj Hc Hp)].
  assert (Hs : iadd (Player.comboStep (Game.player g)) 1
               = Player.comboStep (Game.player g) + 1) by (unwrap; reflexivity).
  cbn [Player.comboStep Player.set_comboStep Player.set_comboTimer
       Player.set_attackDuration Player.set_attackTimer Player.set_attacking].
  rewrite Hs.
  destruct (3 <? Player.comboStep (Game.player g) + 1) eqn:H3;
    destruct (_ || _);
    try match goal with
        | |- context [meleeShape ?a ?b] => destruct (meleeShape a b) as [[[? ?] ?] ?]
        end;
    cbn [Game.player Game.set_player Game.set_gAttackCounter Game.set_gProjectileCounter
         Game.set_projectiles
         Player.comboStep Player.animMaxFrames Player.animFrame Player.animRow
         Player.set_comboStep Player.set_comboTimer Player.set_attackDuration
         Player.set_attackTimer Player.set_attacking Player.set_currentAttackId
         Player.set_attackHitbox];
    (split; [|exact Hp]);
    first [apply Z.ltb_lt in H3 | apply Z.ltb_ge in H3]; lia.
Qed.

Lemma attackTick_index (gameDt : float) (p : Player.t) :
  indexView (attackTick gameDt p) = indexView p.
Proof. unfold attackTick. crush_stage. Qed.

Lemma playerAnimation_index `{Raylib} (move : Vector2) (gameDt : float) (p : Player.t) :
  playerIndexOk p -> playerIndexOk (playerAnimation move gameDt p).
Proof.
  unfold playerAnimation, playerIndexOk. intros (Hc & Hm & Hf & Hr).
  destruct (spriteLoaded (Player.sprite p)); [|auto].
  assert (Hrow : forall b1 b2 : bool,
            0 <= Player.animRow
                   (if b1 then Player.set_animRow 2 p
                    else if b2 then Player.set_animRow 1 p else Player.set_animRow 0 p)
            < PLAYER_SPRITE_ROWS)
    by (intros [|] [|]; cbn; unfold PLAYER_SPRITE_ROWS; lia).
  specialize (Hrow (Player.attacking p)
                (fltb (dec 1 2) (fabs (vx move)) || fltb (dec 1 2) (fabs (vy move)))).
  destruct (Player.attacking p); [|destruct (_ || _)];
    match goal with |- context [if fleb ?a ?b then _ else _] => destruct (fleb a b) end;
    cbn [Player.comboStep Player.animMaxFrames Player.animFrame Player.animRow
         Player.set_animRow Player.set_animFrame Player.set_animTimer] in *;
    (split; [exact Hc|]); (split; [exact Hm|]); (split; [|exact Hrow]); try exact Hf;
    rewrite Hm; unfold irem, PLAYER_SPRITE_COLS in *; unwrap;
    pose proof (Z.rem_bound_pos (Player.animFrame p + 1) 4 ltac:(lia) ltac:(lia)); lia.
Qed.

Lemma playerPhase_index `{Raylib} (inp : Input) (gameDt : float) (g : Game.t) :
  playerIndexOk (Game.player g) -> playerIndexOk (Game.player (playerPhase inp gameDt g)).
Proof.
  intros Hg.
  destruct (playerPhase_stages inp gameDt g)
    as (g1 & g2 & g3 & g4 & g5 & g6 & g7 & E1 & E2 & E3 & E4 & E5 & E6 & E7 & ->).
  assert (H1 : playerIndexOk (Game.player g1)).
  { rewrite E1, onPlayer_player. apply (indexView_ok _ _ (movePlayer_index _ _ _)), Hg. }
  assert (H2 : playerIndexOk (Game.player g2)).
  { rewrite E2. destruct (IsKeyPressed inp KEY_TAB); exact H1. }
  assert (H3 : playerIndexOk (Game.player g3)).
  { rewrite E3, onPlayer_player. apply (indexView_ok _ _ (abilityTimers_index _ _)), H2. }
  assert (H4 : playerIndexOk (Game.player g4)).
  { rewrite E4, onPlayer_player.
    apply (indexView_ok _ _ (classAbility_index _ _ _ _)), H3. }
  assert (H5 : playerIndexOk (Game.player g5)).
  { rewrite E5, onPlayer_player. apply comboTick_index, H4. }
  assert (H6 : playerIndexOk (Game.player g6)).
  { rewrite E6. apply attackInput_index, H5. }
  assert (H7 : playerIndexOk (Game.player g7)).
  { rewrite E7, onPlayer_player. apply (indexView_ok _ _ (attackTick_index _ _)), H6. }
  rewrite onPlayer_player. apply playerAnimation_index, H7.
Qed.

Lemma combatErase_index (g g' : Game.t) :
  combatErase g = combatErase g' ->
  indexView (Game.player g) = indexView (Game.player g').
Proof. intros He. exact (f_equal (fun x => indexView (Game.player x)) He). Qed.

Lemma afterErase_index (g g' : Game.t) :
  afterErase g = afterErase g' ->
  indexView (Game.player g) = indexView (Game.player g').
Proof. intros He. exact (f_equal (fun x => indexView (Game.player x)) He). Qed.

Lemma quietErase_index (g g' : Game.t) :
  quietErase g = quietErase g' ->
  indexView (Game.player g) = indexView (Game.player g').
Proof. intros He. exact (f_equal (fun x => indexView (Game.player x)) He). Qed.

Lemma updatePlaying_index `{Raylib} (inp : Input) (gameDt : float) (g : Game.t) :
  playerIndexOk (Game.player g) ->
  playerIndexOk (Game.player (updatePlaying inp gameDt g)).
Proof.
  intros Hg.
  destruct (updatePlaying_chain inp gameDt g)
    as (g1 & g2 & k2 & g3 & k3 & g4 & k4 & E1 & _ & _ & _ & _ & H1 & H2 & H3 & H4 & H5).
  pose proof (playerPhase_index inp gameDt g Hg) as Hp. rewrite <- E1 in Hp.
  apply (indexView_ok _ _ (afterErase_index _ _ H5)).
  apply (indexView_ok _ _ (combatErase_index _ _ H4)).
  apply (indexView_ok _ _ (combatErase_index _ _ H3)).
  rewrite (spawnErase_player _ _ H2). exact Hp.
Qed.

Lemma frame_index `{Raylib} (inp : Input) (g : Game.t) :
  playerIndexOk (Game.player g) -> playerIndexOk (Game.player (frame inp g)).
Proof.
  intros Hg.
  destruct (frame_cases inp g) as [(_ & g0 & ->) | [(_ & _ & ->) | (_ & _ & Hq)]].
  - unfold playerIndexOk.
    cbn [Game.player Game.set_state ResetGame Player.comboStep Player.animMaxFrames
         Player.animFrame Player.animRow].
    unfold PLAYER_SPRITE_COLS, PLAYER_SPRITE_ROWS. repeat split; lia.
  - apply updatePlaying_index. exact Hg.
  - apply (indexView_ok _ _ (quietErase_index _ _ Hq)). exact Hg.
Qed.

(** X18 — along any run the player's combo step stays in 0..3 and the
    animation cursor on the sprite sheet: 4 frames per row, frame in 0..3,
    row in 0..2. *)
Theorem player_indices_stay_in_range `{Raylib} (inps : list Input) (g : Game.t)
    (Hg : playerIndexOk (Game.player g)) :
  let p := Game.player (run inps g) in
  0 <= Player.comboStep p <= 3
  /\ Player.animMaxFrames p = PLAYER_SPRITE_COLS
  /\ 0 <= Player.animFrame p < PLAYER_SPRITE_COLS
  /\ 0 <= Player.animRow p < PLAYER_SPRITE_ROWS.
Proof.
  cbv zeta. revert g Hg. induction inps as [|inp inps IH]; intros g Hg; cbn [run].
  - exact Hg.
  - apply IH. apply frame_index. exact Hg.
Qed.

(** The same at a concrete state. *)
Lemma player_indices_stay_in_range_witness :
  let p := Game.player (@run referenceRaylib knightKillsGrunt initialGame) in
  0 <= Player.comboStep p <= 3 /\ 0 <= Player.animFrame p < PLAYER_SPRITE_COLS.
Proof.
  intros p.
  destruct (@player_indices_stay_in_range referenceRaylib knightKillsGrunt initialGame)
    as (Hc & _ & Hf & _).
  - unfold playerIndexOk. cbn. unfold PLAYER_SPRITE_COLS, PLAYER_SPRITE_ROWS.
    repeat split; lia.
  - split; [exact Hc | exact Hf].
Defined.

(* ------------------------------------------------------------------ *)
(** ** Rooted enemies *)

Lemma enemyWindup_pos `{Raylib} (gameDt : float) (e : Enemy.t) (g : Game.t) (pr : Rectangle) :
  Enemy.pos (fst (fst (enemyWindup gameDt e g pr))) = Enemy.pos e.
Proof.
  unfold enemyWindup. destruct (Enemy.windingUp e); [|reflexivity].
  match goal with |- context [if fleb ?a ?b then _ else _] => destruct (fleb a b) end;
    reflexivity.
Qed.

Lemma enemyAI_rooted `{Raylib} (gameDt : float) (e : Enemy.t) (g : Game.t) (pr : Rectangle) :
  Enemy.windingUp e || Enemy.attackingAnim e = true ->
  Enemy.pos (fst (fst (enemyAI gameDt e g pr))) = Enemy.pos e.
Proof.
  intros Hr.
  destruct (enemyAI_stages gameDt e g pr)
    as (e1 & er & e2 & e3 & pr' & E1 & _ & Hp2 & E3 & _ & Hp).
  assert (H1 : e1 = e).
  { unfold enemyMovement in E1.
    assert (Hn : negb (Enemy.windingUp e) && negb (Enemy.attackingAnim e) = false)
      by (destruct (Enemy.windingUp e), (Enemy.attackingAnim e); cbn in *; congruence).
    rewrite Hn in E1. inversion E1. reflexivity. }
  pose proof (enemyWindup_pos gameDt e2 g pr) as H3. rewrite <- E3 in H3. cbn [fst] in H3.
  rewrite Hp, H3, Hp2, H1. reflexivity.
Qed.

Lemma updateEnemy_rooted `{Raylib} (inp : Input) (gameDt : float) (e : Enemy.t)
    (s : Game.t * Rectangle * nat) :
  rootStep e (fst (updateEnemy inp gameDt e s)).
Proof.
  destruct s as [[g pr] k]. unfold rootStep, rooted. intros Hr.
  destruct (Enemy.alive e) eqn:Ha.
  - cbn [negb orb] in Hr.
    destruct (updateEnemy_alive inp gameDt e g pr k Ha) as (e1 & g1 & pr1 & Hai & -> & _).
    pose proof (enemyAI_rooted gameDt e g pr Hr) as Hp1.
    pose proof (enemyAI_view gameDt e g pr) as Hv1.
    rewrite Hai in Hp1, Hv1. cbn [fst] in Hp1, Hv1.
    destruct (combatView_eq _ _ Hv1) as (_ & _ & _ & _ & Hid1 & _).
    destruct (meleeHit_cases inp e1 g1 k)
      as [-> | (_ & Hne & _ & e2 & t & -> & _ & Hid2 & _ & _ & _ & _ & Hy2)].
    + cbn [fst]. rewrite Hp1. auto.
    + destruct (enemyDeath_fields inp e2 (Game.set_gHitStopTimer t g1) k)
        as (_ & Hid3 & _ & _ & _ & Hp3 & _).
      rewrite Hp3, Hy2, Hp1. split; [reflexivity|]. right. split; [reflexivity|].
      rewrite Hid3, Hid2, <- Hid1. auto.
  - rewrite updateEnemy_dead by exact Ha. cbn [fst]. auto.
Qed.

Lemma enemyDeath_place (inp : Input) (e : Enemy.t) (g : Game.t) (k : nat) :
  placeView (fst (fst (enemyDeath inp e g k))) = placeView e.
Proof.
  destruct (enemyDeath_fields inp e g k) as (_ & Hid & _ & _ & _ & Hp & _).
  unfold placeView. rewrite Hid, Hp. reflexivity.
Qed.

Lemma projectileHit_place `{Raylib} (inp : Input) (p : Projectile.t) (e : Enemy.t)
    (s : Game.t * nat) :
  placeView (fst (projectileHit inp p e s)) = placeView e.
Proof.
  destruct s as [g k]. unfold projectileHit.
  destruct (negb (Enemy.alive e)); [reflexivity|].
  destruct (CheckCollisionCircleRec _ _ _); [|reflexivity].
  destruct (negb (Enemy.lastProjectileHitId e =? Projectile.id p)); [|reflexivity].
  match goal with |- context [enemyDeath inp ?a g k] =>
    pose proof (enemyDeath_place inp a g k) as Hd;
    destruct (enemyDeath inp a g k) as [[e' g'] k'] end.
  cbn [fst] in *. rewrite Hd. reflexivity.
Qed.

Lemma rootStep_place (xs ys zs : list Enemy.t) :
  Forall2 rootStep xs ys ->
  Forall2 (fun a b => placeView b = placeView a) ys zs ->
  Forall2 rootStep xs zs.
Proof.
  intros H1. revert zs. induction H1 as [|x y xs ys Hxy H1 IH]; intros zs H2.
  - inversion H2. constructor.
  - inversion H2 as [|y' z ys' zs' Hyz H2']; subst. constructor; [|apply IH; exact H2'].
    unfold rootStep, placeView in *. intros Hr. specialize (Hxy Hr).
    inversion Hyz as [[Hp Hid]]. rewrite Hp, Hid. exact Hxy.
Qed.

Lemma updatePlaying_rooted `{Raylib} (inp : Input) (gameDt : float) (g : Game.t) :
  exists new,
    Forall2 rootStep (Game.enemies g ++ new) (Game.enemies (updatePlaying inp gameDt g)).
Proof.
  destruct (updatePlaying_chain inp gameDt g)
    as (g1 & g2 & k2 & g3 & k3 & g4 & k4 & E1 & E2 & E3 & E4 & E5 & H1 & H2 & H3 & H4 & H5).
  destruct (playerErase_fields _ _ H1) as (He1 & _).
  pose proof (spawnPhase_frame inp gameDt g1) as (_ & _ & new & Hn). rewrite E2 in Hn.
  cbn [fst] in Hn.
  assert (HR3 : Forall2 rootStep (Game.enemies g2) (Game.enemies g3)).
  { destruct (enemyLoop_rel_inv inp gameDt (fun _ => True) rootStep g2 k2) as [HR _]; auto.
    - intros e g0 pr k0 _. split; [apply updateEnemy_rooted | exact I].
    - rewrite E3 in HR. exact HR. }
  assert (HR4 : Forall2 (fun a b => placeView b = placeView a)
                        (Game.enemies g3) (Game.enemies g4)).
  { assert (HR : Forall2 (fun a b => placeView b = placeView a) (Game.enemies g3)
                         (Game.enemies (fst (projectileLoop inp g3 k3)))).
    { apply (projectileLoop_rel_inv inp (fun _ => True)
               (fun a b => placeView b = placeView a) g3 k3).
      - reflexivity.
      - intros a b c Hab Hbc. congruence.
      - intros p e g0 k0 _. split; [apply projectileHit_place | exact I].
      - intros es g0 _. exact I.
      - exact I. }
    rewrite E4 in HR. exact HR. }
  destruct (afterErase_hp _ _ H5) as (_ & _ & He5).
  exists new. rewrite He5, <- He1, <- Hn.
  exact (rootStep_place _ _ _ HR3 HR4).
Qed.

(** X19 — over a PLAYING frame an enemy that is dead, winding up or in its
    attack animation keeps its y, and keeps its x unless a melee swing
    stamps it in that frame (the knockback). *)
Theorem rooted_enemies_do_not_walk `{Raylib} (inp : Input) (g : Game.t)
    (Hs : Game.state g = PLAYING) :
  exists new, Forall2 rootStep (Game.enemies g ++ new) (Game.enemies (frame inp g)).
Proof.
  unfold frame. cbn [Game.state Game.set_gHitStopTimer]. rewrite Hs.
  set (g1 := Game.set_gHitStopTimer _ g).
  assert (He : Game.enemies g1 = Game.enemies g) by reflexivity.
  clearbody g1. rewrite <- He. apply updatePlaying_rooted.
Qed.

(** The same at a concrete state. *)
Lemma rooted_enemies_do_not_walk_witness :
  let g := knightAndBossLastBlow in
  let g' := @frame referenceRaylib idle g in
  (exists new, Forall2 rootStep (Game.enemies g ++ new) (Game.enemies g'))
  /\ map rooted (Game.enemies g) = [true]
  /\ map Enemy.pos (Game.enemies g') = map Enemy.pos (Game.enemies g).
Proof.
  intros g g'.
  split; [exact (@rooted_enemies_do_not_walk referenceRaylib idle g eq_refl)|].
  split; [reflexivity | vm_compute; reflexivity].
Defined.

(* ------------------------------------------------------------------ *)
(** ** Where enemies spawn *)

Lemma MakeEnemy_pristine (type : EnemyType) (x y : float) : pristine (MakeEnemy type x y).
Proof. unfold pristine. destruct type; cbn; repeat split; reflexivity. Qed.

Lemma spawnEnemy_places (inp : Input) (gameDt : float) (g : Game.t) (k : nat) :
  exists new,
    Game.enemies (fst (spawnEnemy inp gameDt g k)) = Game.enemies g ++ new
    /\ Forall (spawnedAt inp) new.
Proof.
  unfold spawnEnemy.
  match goal with |- context [if ?b then _ else _] => destruct b end.
  - eexists [_]. cbn [fst Game.enemies Game.set_enemies Game.set_enemySpawnTimer].
    split; [reflexivity|]. constructor; [|constructor].
    unfold spawnedAt. do 3 eexists. split; [reflexivity|].
    assert (Hx : within (of_int 400) (of_int 2700)
                   (clamp2 (of_int 400) (fsub LEVEL_LENGTH (of_int 300))
                      (fadd (vx (Player.pos (Game.player g)))
                            (of_int (GetRandomValue inp (S k) 250 450)))))
      by (apply (clamp2_within (of_int 400) (of_int 2700)); reflexivity).
    assert (Hy : randomInBounds inp ->
                 within GROUND_TOP GROUND_BOTTOM (spawnLaneY (GetRandomValue inp k 0 100)))
      by (intros Hr; apply spawnLaneY_within; apply Hr; lia).
    destruct (GetRandomValue inp (S (S k)) 0 2 =? 1);
      [|destruct (GetRandomValue inp (S (S k)) 0 2 =? 2)]; split; assumption.
  - exists []. rewrite app_nil_r. split; [reflexivity | constructor].
Qed.

Lemma spawnBoss_places (inp : Input) (g : Game.t) :
  exists new,
    Game.enemies (spawnBoss g) = Game.enemies g ++ new /\ Forall (spawnedAt inp) new.
Proof.
  unfold spawnBoss.
  match goal with |- context [if ?b then _ else _] => destruct b end.
  - eexists [_]. cbn [Game.enemies Game.set_enemies Game.set_bossSpawned].
    split; [reflexivity|]. constructor; [|constructor].
    unfold spawnedAt. do 3 eexists. split; [reflexivity|].
    split; vm_compute; reflexivity.
  - exists []. rewrite app_nil_r. split; [reflexivity | constructor].
Qed.

(** X20 — where enemies spawn.  The spawner appends to the enemy list and
    changes no enemy in it; the boss appears at (2800, 390), any other enemy
    at an x clamped to 400..2700 and, the random source being within its
    bounds, at a lane height in 350..430; every new enemy is alive at full
    HP, unstamped and idle. *)
Theorem spawn_places (inp : Input) (gameDt : float) (g : Game.t) :
  exists new,
    Game.enemies (fst (spawnPhase inp gameDt g)) = Game.enemies g ++ new
    /\ Forall (spawnedAt inp) new
    /\ Forall pristine new.
Proof.
  unfold spawnPhase.
  destruct (spawnEnemy_places inp gameDt g 0) as (new1 & Hn1 & Hp1).
  destruct (spawnEnemy inp gameDt g 0) as [g1 k1]. cbn [fst] in *.
  destruct (spawnBoss_places inp g1) as (new2 & Hn2 & Hp2).
  exists (new1 ++ new2). cbn [Game.enemies Game.set_projectiles].
  rewrite Hn2, Hn1, app_assoc. split; [reflexivity|].
  assert (Hs : Forall (spawnedAt inp) (new1 ++ new2)) by (apply Forall_app; auto).
  split; [exact Hs|].
  eapply Forall_impl; [|exact Hs].
  intros e (type & x & y & -> & _). apply MakeEnemy_pristine.
Qed.
